(* ===== verification/_CoqProject ===== *)
-Q . S2P
Prelude.v
X86.v
Layout.v
Mm.v
Region.v
Buddy.v
Pmm.v
PmmRefinement.v
PmmNew.v
PmmInit.v
PmmTheorems.v
PmmProperties.v
Conc.v
PerCpu.v
SpinLock.v
RwSpinLock.v
RegionProperties.v
Slob.v
SlobProofs.v
SlobHeap.v
SlobProperties.v
SlobPmm.v
Ransid.v
TextMode.v
AddrSpace.v
MemoryMapNew.v
BootMemory.v
Descriptors.v
Machine.v
Serial.v
Screen.v
Macros.v
MacrosProperties.v
Acpi.v
AcpiProperties.v
Keyboard.v
Kernel.v
KernelProperties.v
BootProperties.v
Testing.v
UnitTests.v
