(* ===== verification/Prelude.v ===== *)
(** * Solstice kernel: verification

    Solstice is a small x86_64 kernel in Rust.  [_start] ([src/main.rs]) calls
    [kernel_main] ([src/kernel.rs]), which initialises the serial port and the
    console, prints a banner, loads the descriptor tables ([src/cpu/]), builds a
    map of the usable memory ([src/mm/map.rs]) with a page table mapping for its
    [PageInfo] array ([src/mm/addr_space.rs]), turns the map into the zones of a
    buddy allocator ([src/mm/pmm.rs]), reads the ACPI tables
    ([src/drivers/acpi.rs]) and halts.  The kernel heap ([src/mm/slob.rs]) gets its
    pages from the buddy allocator.  Shared state is protected by a spin lock and a
    reader-writer spin lock ([src/ds/sync/]) that count preemption on the current
    CPU ([src/cpu/percpu.rs]).  Printing and logging ([src/macros.rs]) go through a
    parser of ANSI colour sequences ([src/drivers/vga/ransid.rs]) to the VGA text
    console ([src/drivers/vga/text_mode.rs]), and in debug and test builds to the
    serial port ([src/drivers/serial.rs]).

    The model is a shallow embedding.  A function that computes becomes a
    definition of the same name in the [outcome] monad below: it returns a value or
    panics, with the kind of panic.  Mutable receivers are passed and returned.
    Integers are [Z]; arithmetic at a machine width goes through [checked], which
    panics on overflow in a debug build and wraps around in a release build
    ([Build], which also says whether the code is built for testing: the frames of
    [allocate_frame] are then not cleared, and printing is copied to the serial
    port).  Theorems quantify over the build unless they say otherwise.  Code
    that talks to devices, changes the processor or the kernel's statics, or may
    run for ever is an interaction tree ([Machine]), executed step by step on a
    machine; [returns_to], [panics_to], [diverges] and [leads_to] describe its runs
    and what the devices see of them.

    ** Files

    - [Prelude]: outcomes, builds, machine integers, slices, automation, sums
      over lists.
    - [X86]: the operations of the [x86_64] and [arrayvec] crates the kernel
      calls, as type classes with their documented behaviour as laws, and
      reference implementations that satisfy them.  [Layout]: the part of
      [core::alloc::Layout] that is used.
    - [Mm]: [src/mm/mod.rs].  [Region]: regions, the boot frame allocator and
      the region bump allocator of [src/mm/map.rs]; [RegionProperties] their
      theorems.  [AddrSpace]: [src/mm/addr_space.rs] and [MemoryMap::new], over
      page tables that are a class parameter; [MemoryMapNew] its theorems.
    - [Buddy]: the abstract buddy allocator (trees, leftmost fit, free pages).
      [Pmm]: the code of [src/mm/pmm.rs], whose state is an array of summaries
      per order.  [PmmRefinement]: the arrays represent trees ([zone_rep]) and
      [Zone::alloc] simulates the abstract allocator.  [PmmNew], [PmmInit]:
      [Zone::new] and [PhysAllocator::init].  [PmmTheorems], [PmmProperties]:
      consequences.  [BootMemory]: [MemoryMap::new] and [PhysAllocator::init] one
      after the other.
    - [Conc]: interleavings of agents, one atomic access per step.  [PerCpu],
      [SpinLock], [RwSpinLock]: the per-CPU counter and the locks; an agent's
      program counter names the access it performs next.
    - [Slob]: the heap; memory is a map from header addresses to headers, so
      stale pointers are visible.  The heap asks for pages through the class
      [PageSource] and relies on [PageSourceLaws].  [SlobProofs]: the free list
      as a sequence of blocks.  [SlobHeap]: the heap invariant [heap_ok].
      [SlobProperties]: theorems against the interface.  [SlobPmm]: the buddy
      allocator of [Pmm] discharges the interface.
    - [Ransid], [TextMode]: the colour-sequence parser and the console.  [Screen]:
      consoles up to the log of their port writes, with [Proper] instances, and
      what a line with a coloured part shows.
    - [Descriptors]: the tables of [src/cpu/gdt.rs] and [src/cpu/idt.rs].
      [Machine]: statics, processor and devices; events, trees, steps and the
      rules for sequences, loops and polling.
    - [Serial], [Keyboard]: [src/drivers/serial.rs], [src/drivers/keyboard.rs], each
      with a specification of its device as a class ([UartLaws]: a 16550 whose
      transmit FIFO loses bytes when it is full; [KbcLaws]: an i8042 with a queue of
      bytes to be read, in which scan codes may arrive at any time).
      [Macros]: [src/macros.rs] and [text_mode::init]; [MacrosProperties] their
      theorems and the rules for code that prints.  [Acpi], [AcpiProperties]:
      [src/drivers/acpi.rs] over the [acpi] and [aml] crates as a class.
    - [Kernel]: [src/main.rs], [src/kernel.rs], the loading of the tables and the
      exception handlers.  [KernelProperties]: tables, panics and exceptions.
      [BootProperties]: the whole boot.
    - [Testing]: [src/testing.rs].  [UnitTests]: the tests of the locks, of regions
      and of the breakpoint handler, run on the models.

    ** What is shown

    - Boot: on a machine whose memory, ACPI tables and console are in order
      [kernel_main] returns with the allocator, the tables, the logger and the
      sleep type in place, and [_start] ends in the halt loop with interrupts off;
      without an APIC it panics.  The memory the allocator gets is exactly what the
      [PageInfo] array left over, and every frame has its [PageInfo].
    - Physical memory: on zones whose arrays describe buddy trees ([zone_rep])
      [Zone::alloc] refines the abstract allocator for every order, returns only
      free pages, never the same page twice, and fails only when no aligned run
      exists; [Zone::new] builds such zones for exact sizes (a power of two up to
      2048 pages, a multiple of 2048 pages) and over-claims memory for every other
      size up to 2048; [PhysAllocator::init] and [alloc] compose this over the zones; the
      reserved bookkeeping fits.  Four defects are proved: over-claimed memory
      for other sizes, [free] always panics, summaries of half-used siblings,
      underflow on tiny regions.
    - Boot memory: every frame once; [MemoryMap::new] maps the array and keeps
      its frames out of the map; bump allocation of padded layouts is disjoint.
      Defects: unpadded layouts overlap, one slot per array page is not
      initialised.
    - Heap: [alloc] of a layout aligned to at most 16 bytes returns aligned memory
      disjoint from all live blocks, when the list has a fit or pages are served;
      [dealloc] terminates and returns exactly the block's bytes to the list;
      double frees are caught.  Defects: a stale [next] after freeing into an
      empty list, an [unreachable!()] for some sizes, alignments above 16.
    - Locks: mutual exclusion for [SpinLock::lock] and for every operation of
      the reader-writer lock, which refines an abstract lock; the [try_]
      operations are exact; the word and the preemption counter return to their
      initial values.  Defect: [SpinLock::try_lock] is inverted: it hands out a
      second guard of a held lock, and takes a free lock without a guard.
    - Console and logging: every byte string is handled without panic; text,
      colours and scrolling behave as specified; output in pieces equals one write
      of their concatenation; [print!] shows its text, frees the lock and restores
      the interrupt flag; a log line has its level in colour.  Defects: the
      background mask, and a print on a locked console hangs.
    - Descriptor tables, exceptions and panics: the selectors and the task
      state are loaded as built, the double fault has its own stack; only breakpoints
      return; a panic prints one line and halts for ever.  Defects: the line never tells the
      reason, and a panic under the console lock hangs.
    - Devices: [serial::init] sets the UART up, and of what is written then at
      least the first 16 bytes are sent, the rest in order with gaps; the keyboard
      controller's waits write exactly when they may, and [init] enables the
      keyboard; every way through [acpi::enable] is described, its waits end exactly
      when the enable bits appear, and [shutdown] repeats its command for ever.
      Defects: the serial port is written without looking for room, the keyboard's
      [init] takes a stale byte for the configuration, the ACPI port numbers are
      dereferenced as pointers.
    - Tests: the harness reports Success exactly when every test returns; the two
      tests of the spin lock fail, those of the reader-writer lock pass.

    ** Bounds and fuel

    Lock theorems assume fewer than 2^61 calls (2^62 for the spin lock), so that
    the counters do not wrap around.  Heap walks have as fuel one more than the
    number of headers in memory: a longer walk repeats a header and never ends
    ([Diverges]); the theorems show that on well-formed heaps the fuel is
    enough.  [init_loop] has one step per region and one to stop; [write_byte]
    nests twice because the spaces of a tab contain no tab.  Programs of [Machine]
    need no fuel: a run has as many steps as it takes, and theorems on loops either
    show that they end or that they have rounds without end.  A call of [UnitTests]
    takes at most eight atomic accesses when it is alone.  Physical addresses
    are below 2^47 where the direct map is used.  Atomic accesses are
    sequentially consistent: the orderings of the source are not modelled.

    ** Not modelled

    The crates ([x86_64], [arrayvec], [log], [acpi], [aml], [core::fmt]) are
    parameters with the behaviour the code relies on.  The texts of panic messages
    and the [Debug] formatting of data are left out; so is the interleaving of
    interrupt handlers with the boot code (interrupts stay off throughout), and the
    contents of memory behind heap blocks.  Of the tests, [allocate] of [map.rs] is
    left out because it does not type-check, and those of [pmm.rs] and [slob.rs]
    because they depend on the layout the compiler chooses and on the heap of a
    running kernel. *)
From stdpp Require Export base tactics numbers list list_numbers gmap strings.
From Stdlib Require Export ZArith Lia.

#[export] Set Default Goal Selector "1".
Global Open Scope Z_scope.

(** * Outcomes: a Rust computation returns a value or panics *)

Inductive panic : Type :=
  | PanicAssert                 (* [assert!], [debug_assert!] and friends *)
  | PanicOverflow               (* arithmetic overflow with overflow checks on *)
  | PanicIndex                  (* slice index or [split_at] out of range *)
  | PanicDivZero                (* division by zero *)
  | PanicUnwrap                 (* [unwrap] or [expect] of [None]/[Err] *)
  | PanicUnreachable            (* [unreachable!()] *)
  | PanicExplicit               (* [panic!(...)] *)
  | PanicCrate                  (* a panic raised inside a crate *)
  | BadPointer                  (* dereference of an address holding no object *)
  | Diverges.                   (* a loop that never ends *)

Inductive outcome (A : Type) : Type :=
  | Ok (a : A)
  | Panic (p : panic).
Arguments Ok {A} a.
Arguments Panic {A} p.

#[global] Instance outcome_ret : MRet outcome := @Ok.
#[global] Instance outcome_bind : MBind outcome := λ A B f m,
  match m with Ok a => f a | Panic p => Panic p end.
#[global] Instance outcome_fmap : FMap outcome := λ A B f m,
  match m with Ok a => Ok (f a) | Panic p => Panic p end.

#[global] Instance panic_eq_dec : EqDecision panic.
Proof. solve_decision. Defined.
#[global] Instance outcome_eq_dec `{EqDecision A} : EqDecision (outcome A).
Proof. solve_decision. Defined.

(** [returns m] holds when the computation does not panic. *)
Definition returns {A} (m : outcome A) : Prop := ∃ a, m = Ok a.
Definition panics {A} (m : outcome A) : Prop := ∃ p, m = Panic p.

(** [unwrap]/[expect] of an [Option]. *)
Definition unwrap {A} (o : option A) : outcome A :=
  match o with Some a => Ok a | None => Panic PanicUnwrap end.

Definition assert_ (b : bool) : outcome unit :=
  if b then Ok tt else Panic PanicAssert.

(** * Build configuration *)

(** Cargo's dev profile turns on [debug_assertions] and overflow checks
    together; the release profile turns both off.  [cfg_test] is the [test]
    configuration of [cargo test]. *)
Class Build := { debug_assertions : bool; cfg_test : bool }.

Definition debug_build : Build := {| debug_assertions := true; cfg_test := false |}.
Definition release_build : Build := {| debug_assertions := false; cfg_test := false |}.
Definition test_build : Build := {| debug_assertions := true; cfg_test := true |}.

Section machine.
Context `{Build}.

Definition debug_assert (b : bool) : outcome unit :=
  if debug_assertions then assert_ b else Ok tt.

(** * Unsigned machine integers of width [w] *)

Definition in_range (w z : Z) : bool := (0 <=? z) && (z <? 2 ^ w).

(** The result [z] of an arithmetic operation at width [w]: overflow panics in
    a debug build and wraps around in a release build. *)
Definition checked (w z : Z) : outcome Z :=
  if in_range w z then Ok z
  else if debug_assertions then Panic PanicOverflow
  else Ok (z mod 2 ^ w).

Definition add_u64 (a b : Z) : outcome Z := checked 64 (a + b).
Definition sub_u64 (a b : Z) : outcome Z := checked 64 (a - b).
Definition mul_u64 (a b : Z) : outcome Z := checked 64 (a * b).
Definition add_u8 (a b : Z) : outcome Z := checked 8 (a + b).
Definition pow2_u64 (e : Z) : outcome Z := checked 64 (2 ^ e).
(** Division panics on a zero divisor in every build. *)
Definition div_u64 (a b : Z) : outcome Z :=
  if b =? 0 then Panic PanicDivZero else Ok (a / b).

(** [u64::next_power_of_two]. *)
Definition next_power_of_two (n : Z) : outcome Z :=
  checked 64 (if n <=? 1 then 1 else 2 ^ Z.log2_up n).

End machine.

(** [trailing_zeros] at width [w]: the width itself for zero. *)
Fixpoint pos_trailing_zeros (p : positive) : Z :=
  match p with xO q => Z.succ (pos_trailing_zeros q) | _ => 0 end.

Definition trailing_zeros (w z : Z) : Z :=
  match z with Zpos p => pos_trailing_zeros p | _ => w end.

(** [!1u64]-style complement at width [w]. *)
Definition bitnot (w z : Z) : Z := Z.lxor z (2 ^ w - 1).

(** * Slices: indexing panics out of range *)

Definition index {A} (l : list A) (i : Z) : outcome A :=
  if i <? 0 then Panic PanicIndex
  else match l !! Z.to_nat i with Some a => Ok a | None => Panic PanicIndex end.

Definition index_set {A} (l : list A) (i : Z) (a : A) : outcome (list A) :=
  if (i <? 0) || (Z.of_nat (length l) <=? i) then Panic PanicIndex
  else Ok (<[Z.to_nat i := a]> l).

Definition split_at_slice {A} (l : list A) (n : Z) : outcome (list A * list A) :=
  if (n <? 0) || (Z.of_nat (length l) <? n) then Panic PanicIndex
  else Ok (take (Z.to_nat n) l, drop (Z.to_nat n) l).

(** * Automation *)

Create HintDb outcome.
Create HintDb machine.

(** Split a hypothesis [(m ≫= f) = Ok b] into its steps. *)
Ltac bind_inv H :=
  let E := fresh "E" in
  match type of H with
  | (?m ≫= _) = Ok _ =>
      destruct m eqn:E; simpl in H; [ | discriminate H]
  end.

(** Decide comparisons that appear as booleans. *)
Ltac zbool :=
  repeat match goal with
  | H : (_ && _)%bool = true |- _ => apply andb_true_iff in H as [? ?]
  | H : (_ || _)%bool = false |- _ => apply orb_false_iff in H as [? ?]
  | H : (_ <? _) = true |- _ => apply Z.ltb_lt in H
  | H : (_ <? _) = false |- _ => apply Z.ltb_ge in H
  | H : (_ <=? _) = true |- _ => apply Z.leb_le in H
  | H : (_ <=? _) = false |- _ => apply Z.leb_gt in H
  | H : (_ =? _) = true |- _ => apply Z.eqb_eq in H
  | H : (_ =? _) = false |- _ => apply Z.eqb_neq in H
  end.

(** * Generic lemmas *)

Lemma bind_Ok_inv {A B} (m : outcome A) (f : A → outcome B) b :
  (m ≫= f) = Ok b ↔ ∃ a, m = Ok a ∧ f a = Ok b.
Proof. destruct m; simpl; naive_solver. Qed.

Lemma returns_Ok {A} (a : A) : returns (Ok a).
Proof. by eexists. Qed.

Lemma panics_not_returns {A} (m : outcome A) : panics m → ¬ returns m.
Proof. intros [p ->] [a Ha]. discriminate. Qed.

Lemma debug_assert_true `{Build} : debug_assert true = Ok tt.
Proof. unfold debug_assert. by destruct debug_assertions. Qed.

Lemma checked_ok `{Build} w z : 0 ≤ z < 2 ^ w → checked w z = Ok z.
Proof.
  intros Hz. unfold checked, in_range.
  by rewrite (proj2 (Z.leb_le 0 z)), (proj2 (Z.ltb_lt z _)) by lia.
Qed.

(** Run the leading [Ok] of a sequence, or its leading in-range arithmetic. *)
Ltac ok_simpl := cbn [mbind outcome_bind].
Ltac ok_checked :=
  lazymatch goal with
  | |- (checked ?w ?z ≫= _) = _ => rewrite (checked_ok w z) by lia; ok_simpl
  | |- checked ?w ?z = _ => rewrite (checked_ok w z) by lia; ok_simpl
  | |- context [(checked ?w ?z ≫= _)] => rewrite (checked_ok w z) by lia; ok_simpl
  end.

Lemma checked_inv_debug w z z' : @checked debug_build w z = Ok z' → z' = z ∧ 0 ≤ z < 2 ^ w.
Proof.
  unfold checked, in_range. simpl.
  destruct ((0 <=? z) && (z <? 2 ^ w)) eqn:E; [|done].
  intros [= <-]. zbool. lia.
Qed.

Lemma index_lookup {A} (l : list A) i a :
  0 ≤ i → l !! Z.to_nat i = Some a → index l i = Ok a.
Proof.
  intros Hi Hl. unfold index.
  rewrite (proj2 (Z.ltb_ge i 0)) by lia. by rewrite Hl.
Qed.

Lemma index_inv {A} (l : list A) i a :
  index l i = Ok a → 0 ≤ i ∧ l !! Z.to_nat i = Some a.
Proof.
  unfold index. destruct (i <? 0) eqn:E; [done|]. zbool.
  destruct (l !! Z.to_nat i) eqn:E'; naive_solver.
Qed.

Lemma index_set_ok {A} (l : list A) i a :
  0 ≤ i < Z.of_nat (length l) → index_set l i a = Ok (<[Z.to_nat i := a]> l).
Proof.
  intros Hi. unfold index_set.
  by rewrite (proj2 (Z.ltb_ge i 0)), (proj2 (Z.leb_gt _ i)) by lia.
Qed.

Lemma split_at_slice_ok {A} (l : list A) n :
  0 ≤ n ≤ Z.of_nat (length l) →
  split_at_slice l n = Ok (take (Z.to_nat n) l, drop (Z.to_nat n) l).
Proof.
  intros Hn. unfold split_at_slice.
  by rewrite (proj2 (Z.ltb_ge n 0)), (proj2 (Z.ltb_ge _ n)) by lia.
Qed.

Lemma div_u64_ok a b : b ≠ 0 → div_u64 a b = Ok (a / b).
Proof. intros Hb. unfold div_u64. by rewrite (proj2 (Z.eqb_neq b 0)). Qed.

#[export] Hint Resolve returns_Ok : outcome.

Lemma pos_trailing_zeros_nonneg p : 0 ≤ pos_trailing_zeros p.
Proof. induction p; simpl; lia. Qed.

Lemma trailing_zeros_mul_pow2 w k m :
  0 ≤ k → 0 < m → trailing_zeros w (2 ^ k * m) = k + trailing_zeros w m.
Proof.
  intros Hk Hm. revert k Hk. apply natlike_ind; [by rewrite Z.mul_1_l|].
  intros k Hk IH. rewrite Z.pow_succ_r, <-Z.mul_assoc by done.
  assert (0 < 2 ^ k * m) as Hpos by (pose proof (Z.pow_pos_nonneg 2 k); nia).
  rewrite <-Z.add_1_l, <-Z.add_assoc, <-IH. clear IH.
  destruct (2 ^ k * m) as [|p|p]; [lia| |lia].
  change (2 * Z.pos p) with (Z.pos p~0). cbn. lia.
Qed.

Lemma trailing_zeros_pow2 w k : 0 ≤ k → trailing_zeros w (2 ^ k) = k.
Proof.
  intros Hk. pose proof (trailing_zeros_mul_pow2 w k 1 Hk).
  rewrite Z.mul_1_r in *. cbn in *. lia.
Qed.

Lemma trailing_zeros_nonneg w z : 0 ≤ w → 0 ≤ trailing_zeros w z.
Proof. intros Hw. destruct z; simpl; [done|apply pos_trailing_zeros_nonneg|done]. Qed.

(** Masking with [!(2^k - 1)] clears the [k] lowest bits. *)
Lemma land_bitnot_ones x k :
  0 ≤ x < 2 ^ 64 → 0 ≤ k ≤ 64 → Z.land x (bitnot 64 (Z.ones k)) = 2 ^ k * (x / 2 ^ k).
Proof.
  intros Hx Hk. unfold bitnot. replace (2 ^ 64 - 1) with (Z.ones 64) by done.
  apply Z.bits_inj'. intros n Hn. rewrite Z.land_spec, Z.lxor_spec, !Z.testbit_ones_nonneg by lia.
  rewrite (Z.mul_comm (2 ^ k)), Z.mul_pow2_bits by lia.
  destruct (decide (n < k)).
  - rewrite !(proj2 (Z.ltb_lt n _)) by lia. rewrite andb_false_r.
    symmetry. apply Z.testbit_neg_r. lia.
  - rewrite (proj2 (Z.ltb_ge n k)), xorb_false_l, Z.div_pow2_bits by lia.
    replace (n - k + k) with n by lia.
    destruct (decide (n < 64)); [by rewrite (proj2 (Z.ltb_lt n 64)), andb_true_r by lia|].
    rewrite (proj2 (Z.ltb_ge n 64)), andb_false_r by lia. symmetry.
    destruct (decide (x = 0)) as [->|]; [apply Z.bits_0|].
    apply Z.bits_above_log2; [lia|]. apply Z.log2_lt_pow2; [lia|].
    apply Z.lt_le_trans with (2 ^ 64); [lia|]. apply Z.pow_le_mono_r; lia.
Qed.

(** [x & !1] clears the lowest bit. *)
Lemma land_bitnot_1 x : 0 ≤ x < 2 ^ 64 → Z.land x (bitnot 64 1) = 2 * (x / 2).
Proof. intros Hx. apply (land_bitnot_ones x 1); [done|lia]. Qed.

(** [x | m] adds the bits of [m] that [x] lacks. *)
Lemma lor_add_land x m : Z.lor x m = x + m - Z.land x m.
Proof. pose proof (Z.add_lor_land x m). lia. Qed.

(** [x & (1 << n) == 0] tests a bit. *)
Lemma land_pow2_zero x n : 0 ≤ n → (Z.land x (2 ^ n) =? 0) = negb (Z.testbit x n).
Proof.
  intros Hn. assert (Z.testbit (Z.land x (2 ^ n)) n = Z.testbit x n) as Hb
    by (by rewrite Z.land_spec, Z.pow2_bits_true, andb_true_r).
  destruct (Z.testbit x n) eqn:E; simpl.
  - apply Z.eqb_neq. intros Hz. by rewrite Hz, Z.testbit_0_l in Hb.
  - apply Z.eqb_eq, Z.bits_inj'. intros k Hk. rewrite Z.land_spec, Z.testbit_0_l, Z.pow2_bits_eqb by done.
    destruct (n =? k) eqn:Ek; [|apply andb_false_r]. apply Z.eqb_eq in Ek as <-. by rewrite E.
Qed.

(** * Sums over a list, used to count threads *)

Definition total {A} (f : A → Z) (l : list A) : Z := foldr (λ a s, f a + s) 0 l.

Section total.
Context {A : Type}.
Implicit Types (f g : A → Z) (l : list A).

Lemma total_app f l1 l2 : total f (l1 ++ l2) = total f l1 + total f l2.
Proof. induction l1 as [|a l1 IH]; simpl; [done|]. unfold total in *. simpl. lia. Qed.

Lemma total_snoc f l a : total f (l ++ [a]) = total f l + f a.
Proof. rewrite total_app. unfold total. simpl. lia. Qed.

Lemma total_insert f l i a b :
  l !! i = Some a → total f (<[i := b]> l) = total f l - f a + f b.
Proof.
  revert i. induction l as [|c l IH]; intros [|i] Hi; simplify_eq/=; unfold total in *; simpl; [lia|].
  rewrite IH by done. lia.
Qed.

Lemma total_nonneg f l : (∀ a, 0 ≤ f a) → 0 ≤ total f l.
Proof. intros Hf. induction l as [|a l IH]; unfold total in *; simpl; [done|]. specialize (Hf a). lia. Qed.

Lemma total_lookup f l i a : (∀ a, 0 ≤ f a) → l !! i = Some a → f a ≤ total f l.
Proof.
  intros Hf. revert i. induction l as [|c l IH]; intros [|i] Hi; simplify_eq/=; unfold total in *; simpl.
  - pose proof (total_nonneg f l Hf). unfold total in *. lia.
  - apply IH in Hi. specialize (Hf c). lia.
Qed.

Lemma total_pos_lookup f l :
  (∀ a, 0 ≤ f a) → 0 < total f l → (∀ a, f a = 0 ∨ f a = 1) → ∃ i a, l !! i = Some a ∧ f a = 1.
Proof.
  intros Hf Hpos H01. induction l as [|c l IH]; unfold total in *; simpl in *; [lia|].
  destruct (H01 c) as [Hc|Hc].
  - destruct IH as (i & a & Hi & Ha); [lia|]. by exists (S i), a.
  - by exists 0%nat, c.
Qed.

Lemma total_two f l i j a b :
  (∀ a, 0 ≤ f a) → i ≠ j → l !! i = Some a → l !! j = Some b → f a + f b ≤ total f l.
Proof.
  intros Hf Hij Hi Hj.
  revert i j Hij Hi Hj. induction l as [|c l IH]; intros [|i] [|j] Hij Hi Hj;
    simplify_eq/=; unfold total in *; simpl; try done.
  - pose proof (total_lookup f l j b Hf Hj). unfold total in *. lia.
  - pose proof (total_lookup f l i a Hf Hi). unfold total in *. lia.
  - specialize (Hf c). pose proof (IH i j ltac:(congruence) Hi Hj). lia.
Qed.

Lemma total_le f g l : (∀ a, f a ≤ g a) → total f l ≤ total g l.
Proof. intros Hf. induction l as [|a l IH]; unfold total in *; simpl; [done|]. specialize (Hf a). lia. Qed.

Lemma total_length f l : (∀ a, f a ≤ 1) → total f l ≤ Z.of_nat (length l).
Proof. intros Hf. induction l as [|a l IH]; unfold total in *; simpl; [done|]. specialize (Hf a). lia. Qed.

End total.
