(* ===== verification/X86.v ===== *)
(** Interface of the crates the kernel is built on.

    The kernel calls the [x86_64] crate (addresses, frames, alignment) and the
    [arrayvec] crate; their sources are not part of the repository.  What the
    kernel uses of them is the operational class below, and what it relies on,
    as the crates document it, is the class of laws.  Every definition of the
    development that calls one of these operations takes the class as a
    parameter; every theorem that relies on the documented behaviour takes the
    laws.  [x86_64_ref] and [arrayvec_ref] are concrete implementations with
    proofs of the laws: they show that the laws can hold and make the
    definitions executable on concrete inputs. *)
From S2P Require Import Prelude.

(** A physical or virtual address is the [u64] it wraps.  A frame is known by
    its start address; a frame range has the public fields [start], [end]. *)
Record PhysFrame := mkFrame { start_address : Z }.
Record PhysFrameRange := mkRange { range_start : PhysFrame; range_end : PhysFrame }.

#[global] Instance PhysFrame_eq_dec : EqDecision PhysFrame.
Proof. solve_decision. Defined.
#[global] Instance PhysFrameRange_eq_dec : EqDecision PhysFrameRange.
Proof. solve_decision. Defined.

(** The size of a 4 KiB frame, [Size4KiB::SIZE]. *)
Abbreviation FRAME_SIZE := 4096 (only parsing).

Class X86_64 := {
  (** [x86_64::align_up], [x86_64::align_down] *)
  align_up : Z → Z → outcome Z;
  align_down : Z → Z → outcome Z;
  (** [PhysAddr::new], [PhysAddr + usize], [PhysAddr - PhysAddr] *)
  PhysAddr_new : Z → outcome Z;
  PhysAddr_add : Z → Z → outcome Z;
  PhysAddr_sub : Z → Z → outcome Z;
  (** [VirtAddr::new] *)
  VirtAddr_new : Z → outcome Z;
  (** [PhysFrame::containing_address], [PhysFrame + u64],
      [PhysFrame - PhysFrame] (a number of frames) *)
  containing_address : Z → PhysFrame;
  PhysFrame_add : PhysFrame → Z → outcome PhysFrame;
  PhysFrame_sub : PhysFrame → PhysFrame → outcome Z
}.

Definition aligned (a n : Z) : Prop := (n | a).
Definition phys_ok (a : Z) : Prop := 0 ≤ a < 2 ^ 52.
Definition canonical (a : Z) : Prop :=
  0 ≤ a < 2 ^ 47 ∨ 2 ^ 64 - 2 ^ 47 ≤ a < 2 ^ 64.
Definition frame_ok (f : PhysFrame) : Prop :=
  phys_ok (start_address f) ∧ aligned (start_address f) FRAME_SIZE.

Class X86_64_Laws `{X86_64} : Prop := {
  (** "Returns the smallest [x] with alignment [align] so that [x >= addr]." *)
  align_up_law a k : 0 ≤ a → 0 ≤ k < 64 → a + 2 ^ k ≤ 2 ^ 64 →
    ∃ r, align_up a (2 ^ k) = Ok r ∧ a ≤ r < a + 2 ^ k ∧ (2 ^ k | r);
  (** "Returns the greatest [x] with alignment [align] so that [x <= addr]." *)
  align_down_law a k : 0 ≤ a < 2 ^ 64 → 0 ≤ k < 64 →
    ∃ r, align_down a (2 ^ k) = Ok r ∧ a - 2 ^ k < r ≤ a ∧ (2 ^ k | r);
  (** "Panics if a bit in the range 52 to 64 is set." *)
  PhysAddr_new_law a : phys_ok a → PhysAddr_new a = Ok a;
  PhysAddr_new_panics a : 2 ^ 52 ≤ a < 2 ^ 64 → panics (PhysAddr_new a);
  PhysAddr_add_law a n : phys_ok a → 0 ≤ n → phys_ok (a + n) → PhysAddr_add a n = Ok (a + n);
  PhysAddr_sub_law a b : phys_ok a → phys_ok b → b ≤ a → PhysAddr_sub a b = Ok (a - b);
  (** A canonical address is kept as it is. *)
  VirtAddr_new_law a : canonical a → VirtAddr_new a = Ok a;
  (** "Returns the frame that contains the given physical address." *)
  containing_address_law a : phys_ok a →
    frame_ok (containing_address a) ∧
    start_address (containing_address a) ≤ a < start_address (containing_address a) + FRAME_SIZE;
  PhysFrame_add_law f n : frame_ok f → 0 ≤ n → phys_ok (start_address f + FRAME_SIZE * n) →
    PhysFrame_add f n = Ok (mkFrame (start_address f + FRAME_SIZE * n));
  PhysFrame_sub_law f g : frame_ok f → frame_ok g → start_address g ≤ start_address f →
    PhysFrame_sub f g = Ok ((start_address f - start_address g) / FRAME_SIZE)
}.

(** [ArrayVec<[T; cap]>]: a vector of at most [cap] elements. *)
Class ArrayVec := {
  av_push {A} : Z → list A → A → outcome (list A);
  av_pop_at {A} : list A → Z → option A * list A;
  av_remove {A} : list A → Z → outcome (list A)
}.

Class ArrayVec_Laws `{ArrayVec} : Prop := {
  (** "Panics if the vector is already full." *)
  av_push_law {A} cap (l : list A) x : Z.of_nat (length l) < cap → av_push cap l x = Ok (l ++ [x]);
  av_push_full {A} cap (l : list A) x : cap ≤ Z.of_nat (length l) → panics (av_push cap l x);
  (** "Remove the element at [index] and shift down the following elements."
      [pop_at] returns [None] and [remove] panics when [index] is out of bounds. *)
  av_pop_at_law {A} (l : list A) i : 0 ≤ i →
    av_pop_at l i = (l !! Z.to_nat i, delete (Z.to_nat i) l);
  av_remove_law {A} (l : list A) i : 0 ≤ i < Z.of_nat (length l) →
    av_remove l i = Ok (delete (Z.to_nat i) l)
}.

(** * Reference implementations *)

Definition is_power_of_two (a : Z) : bool := (0 <? a) && (2 ^ Z.log2 a =? a).

Definition ref_new (a : Z) : outcome Z :=
  if in_range 52 a then Ok a else Panic PanicCrate.

Definition ref_frame (a : Z) : PhysFrame := mkFrame (a / FRAME_SIZE * FRAME_SIZE).

Definition x86_64_ref : X86_64 := {|
  align_up a n := if is_power_of_two n then Ok ((a + n - 1) / n * n) else Panic PanicCrate;
  align_down a n := if is_power_of_two n then Ok (a / n * n) else Panic PanicCrate;
  PhysAddr_new := ref_new;
  PhysAddr_add a n := ref_new (a + n);
  PhysAddr_sub a b := if b <=? a then Ok (a - b) else Panic PanicCrate;
  VirtAddr_new a :=
    if (a <? 2 ^ 47) || (2 ^ 64 - 2 ^ 47 <=? a) then Ok a else Panic PanicCrate;
  containing_address := ref_frame;
  PhysFrame_add f n := ref_frame <$> ref_new (start_address f + FRAME_SIZE * n);
  PhysFrame_sub f g :=
    if start_address g <=? start_address f
    then Ok ((start_address f - start_address g) / FRAME_SIZE) else Panic PanicCrate
|}.

Definition arrayvec_ref : ArrayVec := {|
  av_push A cap l x := if Z.of_nat (length l) <? cap then Ok (l ++ [x]) else Panic PanicCrate;
  av_pop_at A l i := (l !! Z.to_nat i, delete (Z.to_nat i) l);
  av_remove A l i :=
    if i <? Z.of_nat (length l) then Ok (delete (Z.to_nat i) l) else Panic PanicCrate
|}.

(** * The reference implementations satisfy the laws *)

Lemma ref_new_ok a : phys_ok a → ref_new a = Ok a.
Proof.
  unfold phys_ok, ref_new, in_range. intros [??].
  by rewrite (proj2 (Z.leb_le 0 a)), (proj2 (Z.ltb_lt a _)) by lia.
Qed.

Lemma is_power_of_two_pow2 k : 0 ≤ k → is_power_of_two (2 ^ k) = true.
Proof.
  intros Hk. unfold is_power_of_two. rewrite Z.log2_pow2, Z.eqb_refl, andb_true_r by done.
  apply Z.ltb_lt, Z.pow_pos_nonneg; lia.
Qed.

Lemma ref_frame_aligned a : aligned a FRAME_SIZE → start_address (ref_frame a) = a.
Proof. intros [m ->]. simpl. by rewrite Z.div_mul. Qed.

Lemma ref_frame_spec a : phys_ok a →
  frame_ok (ref_frame a) ∧
  start_address (ref_frame a) ≤ a < start_address (ref_frame a) + FRAME_SIZE.
Proof.
  unfold frame_ok, phys_ok, aligned, ref_frame. simpl. intros Ha.
  pose proof (Z.div_mod a 4096). pose proof (Z.mod_pos_bound a 4096).
  split; [split|]; [lia|by exists (a / 4096)|lia].
Qed.

#[global] Instance x86_64_ref_laws : @X86_64_Laws x86_64_ref.
Proof.
  split; simpl.
  - intros a k Ha Hk Hb. rewrite is_power_of_two_pow2 by lia.
    eexists; split; [done|]. pose proof (Z.pow_pos_nonneg 2 k).
    pose proof (Z.div_mod (a + 2 ^ k - 1) (2 ^ k)).
    pose proof (Z.mod_pos_bound (a + 2 ^ k - 1) (2 ^ k)).
    split; [lia|apply Z.divide_factor_r].
  - intros a k Ha Hk. rewrite is_power_of_two_pow2 by lia.
    eexists; split; [done|]. pose proof (Z.pow_pos_nonneg 2 k).
    pose proof (Z.div_mod a (2 ^ k)). pose proof (Z.mod_pos_bound a (2 ^ k)).
    split; [lia|apply Z.divide_factor_r].
  - exact ref_new_ok.
  - intros a Ha. unfold ref_new, in_range.
    rewrite (proj2 (Z.ltb_ge a _)), andb_false_r by lia. by eexists.
  - intros. by apply ref_new_ok.
  - intros a b _ _ Hab. by rewrite (proj2 (Z.leb_le b a)).
  - intros a [Ha|Ha].
    + by rewrite (proj2 (Z.ltb_lt a _)) by lia.
    + by rewrite (proj2 (Z.leb_le _ a)), orb_true_r by lia.
  - exact ref_frame_spec.
  - intros f n [_ Hf] Hn Hb. rewrite ref_new_ok by done. simpl. f_equal.
    destruct f as [a]. simpl in *. unfold ref_frame. f_equal.
    destruct Hf as [m ->]. rewrite (Z.mul_comm 4096 n), <-Z.mul_add_distr_r.
    by rewrite Z.div_mul.
  - intros f g _ _ Hfg. by rewrite (proj2 (Z.leb_le _ _)).
Qed.

#[global] Instance arrayvec_ref_laws : @ArrayVec_Laws arrayvec_ref.
Proof.
  split; simpl; intros.
  - by rewrite (proj2 (Z.ltb_lt _ _)).
  - rewrite (proj2 (Z.ltb_ge _ _)) by done. by eexists.
  - done.
  - by rewrite (proj2 (Z.ltb_lt _ _)) by lia.
Qed.

(** * Consequences of the laws used by several components *)

Section laws.
Context `{HX : X86_64, !X86_64_Laws}.

Lemma align_up_aligned a k :
  0 ≤ a → 0 ≤ k < 64 → a + 2 ^ k ≤ 2 ^ 64 → (2 ^ k | a) → align_up a (2 ^ k) = Ok a.
Proof.
  intros Ha Hk Hb [m Hm]. destruct (align_up_law a k) as (r & -> & Hr & [q ->]); [done..|].
  pose proof (Z.pow_pos_nonneg 2 k). generalize dependent (2 ^ k). intros p ? ? ? ?.
  f_equal. assert (m ≤ q < m + 1) as [] by (split; nia). nia.
Qed.

Lemma align_up_spec a k :
  0 ≤ a → 0 ≤ k < 64 → a + 2 ^ k ≤ 2 ^ 64 →
  align_up a (2 ^ k) = Ok ((a + 2 ^ k - 1) / 2 ^ k * 2 ^ k).
Proof.
  intros Ha Hk Hb. destruct (align_up_law a k) as (r & -> & Hr & [q ->]); [done..|].
  pose proof (Z.pow_pos_nonneg 2 k). generalize dependent (2 ^ k). intros p ? ? ?.
  do 2 f_equal. apply Z.div_unique with (r := a + p - 1 - q * p); [left|]; lia.
Qed.

Lemma align_down_spec a k :
  0 ≤ a < 2 ^ 64 → 0 ≤ k < 64 → align_down a (2 ^ k) = Ok (a / 2 ^ k * 2 ^ k).
Proof.
  intros Ha Hk. destruct (align_down_law a k) as (r & -> & Hr & [q ->]); [done..|].
  pose proof (Z.pow_pos_nonneg 2 k). generalize dependent (2 ^ k). intros p ? ?.
  do 2 f_equal. apply Z.div_unique with (r := a - q * p); [left|]; lia.
Qed.

Lemma align_down_page a :
  0 ≤ a < 2 ^ 64 → align_down a FRAME_SIZE = Ok (a / FRAME_SIZE * FRAME_SIZE).
Proof. intros Ha. apply (align_down_spec a 12); [done|lia]. Qed.

Lemma containing_address_aligned a :
  phys_ok a → aligned a FRAME_SIZE → containing_address a = mkFrame a.
Proof.
  intros Ha [m Hm]. destruct (containing_address_law a Ha) as [[_ [q Hq]] Hb].
  destruct (containing_address a) as [s]. simpl in *. f_equal. lia.
Qed.

End laws.
