(* ===== verification/Layout.v ===== *)
(** [core::alloc::Layout], the part the allocators use: construction, padding
    and concatenation of memory layouts (standard library, as documented). *)
From S2P Require Import Prelude.

Record Layout := mkLayout { l_size : Z; l_align : Z }.

Definition ISIZE_MAX : Z := 2 ^ 63 - 1.

(** [size] rounded up to a multiple of [align]. *)
Definition round_up (size align : Z) : Z := (size + align - 1) / align * align.

Definition power_of_two (a : Z) : bool := (0 <? a) && (2 ^ Z.log2 a =? a).

(** [Layout::from_size_align]: [None] is the [Err(LayoutError)] result. *)
Definition from_size_align (size align : Z) : option Layout :=
  if power_of_two align && (round_up size align <=? ISIZE_MAX)
  then Some (mkLayout size align) else None.

Definition pad_to_align (l : Layout) : Layout :=
  mkLayout (round_up (l_size l) (l_align l)) (l_align l).

(** [Layout::extend]: the concatenated layout and the offset of [next] in it. *)
Definition extend (l next : Layout) : option (Layout * Z) :=
  let new_align := Z.max (l_align l) (l_align next) in
  let offset := round_up (l_size l) (l_align next) in
  l' ← from_size_align (offset + l_size next) new_align;
  Some (l', offset).

(** A layout as [from_size_align] builds it. *)
Definition layout_ok (l : Layout) : Prop :=
  0 ≤ l_size l ∧ (∃ k, 0 ≤ k < 63 ∧ l_align l = 2 ^ k) ∧
  round_up (l_size l) (l_align l) ≤ ISIZE_MAX.

(** A layout whose size is a multiple of its alignment. *)
Definition padded (l : Layout) : Prop := (l_align l | l_size l).

Lemma power_of_two_pow2 k : 0 ≤ k → power_of_two (2 ^ k) = true.
Proof.
  intros Hk. unfold power_of_two. rewrite Z.log2_pow2, Z.eqb_refl, andb_true_r by done.
  apply Z.ltb_lt, Z.pow_pos_nonneg; lia.
Qed.

Lemma power_of_two_inv a : power_of_two a = true → ∃ k, 0 ≤ k ∧ a = 2 ^ k.
Proof. unfold power_of_two. intros. zbool. exists (Z.log2 a). auto using Z.log2_nonneg. Qed.

Lemma round_up_bounds s a : 0 < a → s ≤ round_up s a < s + a.
Proof.
  intros Ha. unfold round_up.
  pose proof (Z.div_mod (s + a - 1) a). pose proof (Z.mod_pos_bound (s + a - 1) a). lia.
Qed.

Lemma round_up_divide s a : (a | round_up s a).
Proof. apply Z.divide_factor_r. Qed.

(** The rounded size is characterised by its bounds and divisibility. *)
Lemma round_up_unique s a r : 0 < a → s ≤ r < s + a → (a | r) → round_up s a = r.
Proof.
  intros Ha Hr [q ->]. unfold round_up. f_equal. symmetry.
  apply Z.div_unique with (r := s + a - 1 - q * a); [left|]; lia.
Qed.

Lemma round_up_id s a : 0 < a → (a | s) → round_up s a = s.
Proof. intros. apply round_up_unique; [done|lia|done]. Qed.

Lemma round_up_add s t a : 0 < a → (a | t) → round_up (s + t) a = round_up s a + t.
Proof.
  intros Ha Ht. pose proof (round_up_bounds s a Ha).
  apply round_up_unique; [done|lia|]. apply Z.divide_add_r; [apply round_up_divide|done].
Qed.

Lemma pad_to_align_padded l : padded (pad_to_align l).
Proof. apply round_up_divide. Qed.

Lemma layout_align_pos l : layout_ok l → 0 < l_align l.
Proof. intros (_ & (k & Hk & ->) & _). apply Z.pow_pos_nonneg; lia. Qed.
