(* ===== verification/Mm.v ===== *)
(** [src/mm/mod.rs]: the address-space constants and the conversions between
    physical addresses, the kernel's direct map of physical memory and the
    [PageInfo] array. *)
From S2P Require Import Prelude X86.

Definition PHYS_OFFSET : Z := 0xFFFF800000000000.
Definition PAGE_INFO_OFFSET : Z := 0xFFFF900000000000.
Definition PAGE_SIZE : Z := 0x1000.

(** [PageInfo] holds one [i64]; [RwSpinLock<PageInfo>] adds an [AtomicUsize]. *)
Record PageInfo := { _dummy : Z }.
Definition PageInfo_default : PageInfo := {| _dummy := 0 |}.
Definition size_of_PageInfo : Z := 8.
Definition size_of_RwSpinLock_PageInfo : Z := 16.

Section mm.
Context `{Build, X86_64}.

Definition phys_to_page_info (frame : PhysFrame) : outcome Z :=
  idx ← div_u64 (start_address frame) PAGE_SIZE;
  off ← mul_u64 idx size_of_RwSpinLock_PageInfo;
  out_addr ← add_u64 PAGE_INFO_OFFSET off;
  limit ← add_u64 PAGE_INFO_OFFSET 0x0000100000000000;
  _ ← debug_assert (out_addr <? limit);
  Ok out_addr.

Definition kernel_virt_to_phys (virt : Z) : outcome Z :=
  _ ← debug_assert (PHYS_OFFSET <=? virt);
  a ← sub_u64 virt PHYS_OFFSET;
  PhysAddr_new a.

Definition phys_to_kernel_virt (phys : Z) : outcome Z :=
  a ← add_u64 phys PHYS_OFFSET;
  VirtAddr_new a.

End mm.

(** The part of physical memory the direct map can hold. *)
Definition direct_mapped (phys : Z) : Prop := 0 ≤ phys < 2 ^ 47.

Section proofs.
Context `{Build, HX : X86_64, !X86_64_Laws}.

Lemma phys_to_kernel_virt_ok phys :
  direct_mapped phys → phys_to_kernel_virt phys = Ok (phys + PHYS_OFFSET).
Proof.
  unfold direct_mapped, phys_to_kernel_virt, add_u64. intros Hp.
  rewrite checked_ok by (unfold PHYS_OFFSET; lia). simpl.
  apply VirtAddr_new_law. right. unfold PHYS_OFFSET. lia.
Qed.

Lemma kernel_virt_to_phys_ok virt :
  PHYS_OFFSET ≤ virt < 2 ^ 64 → kernel_virt_to_phys virt = Ok (virt - PHYS_OFFSET).
Proof.
  unfold kernel_virt_to_phys, sub_u64. intros Hv.
  rewrite (proj2 (Z.leb_le _ _)), debug_assert_true by lia. simpl.
  unfold PHYS_OFFSET in *. rewrite checked_ok by lia. simpl.
  apply PhysAddr_new_law. unfold phys_ok. lia.
Qed.

Lemma phys_to_page_info_ok f :
  frame_ok f →
  phys_to_page_info f = Ok (PAGE_INFO_OFFSET + start_address f / PAGE_SIZE * 16).
Proof.
  intros [[Hf0 Hf1] _]. unfold phys_to_page_info, mul_u64, add_u64, PAGE_INFO_OFFSET.
  rewrite div_u64_ok by done. simpl.
  assert (0 ≤ start_address f / PAGE_SIZE < 2 ^ 40).
  { unfold PAGE_SIZE. split; [apply Z.div_pos; lia|apply Z.div_lt_upper_bound; lia]. }
  unfold size_of_RwSpinLock_PageInfo.
  rewrite checked_ok by lia. simpl.
  rewrite !checked_ok by lia. simpl.
  by rewrite (proj2 (Z.ltb_lt _ _)), debug_assert_true by lia.
Qed.

End proofs.
