(* ===== verification/Region.v ===== *)
(** [src/mm/map.rs]: memory regions, the region bump allocator and the boot
    frame allocator [MemoryMap] (its construction over the page tables is in
    a file of its own). *)
From S2P Require Import Prelude X86 Layout Mm.

Record Region := mkRegion { addr : Z; size : Z }.

#[global] Instance Region_eq_dec : EqDecision Region.
Proof. solve_decision. Defined.

Definition MAX_REGIONS : Z := 64.

Record MemoryMap := mkMap { regions : list Region; num_pages : Z }.

Record RegionBumpAllocator := mkBump { rb_start : Z; rb_size : Z; rb_offset : Z }.

(** A [write_bytes(ptr, val, count)] issued by an allocator. *)
Record MemSet := mkMemSet { ms_ptr : Z; ms_val : Z; ms_count : Z }.

Section code.
Context `{Build, X86_64, ArrayVec}.

(** [Region::split_at] *)
Definition split_at (self : Region) (offset : Z) : outcome (Region * Region) :=
  _ ← assert_ (offset <? size self);
  a ← add_u64 (addr self) offset;
  a' ← PhysAddr_new a;
  s ← sub_u64 (size self) offset;
  Ok (mkRegion (addr self) offset, mkRegion a' s).

(** [MemoryMap::push] *)
Definition push (self : MemoryMap) (rg : Region) : outcome MemoryMap :=
  n ← add_u64 (num_pages self) (size rg / FRAME_SIZE);
  rs ← av_push MAX_REGIONS (regions self) rg;
  Ok (mkMap rs n).

(** [iter_mut().enumerate().find(|(_, rg)| rg.size >= 4096)] *)
Fixpoint find_region (rs : list Region) (idx : Z) : option (Z * Region) :=
  match rs with
  | [] => None
  | rg :: rs' => if FRAME_SIZE <=? size rg then Some (idx, rg) else find_region rs' (idx + 1)
  end.

(** The byte the page-clearing code fills with. *)
Definition clear_byte : Z := if debug_assertions then 0xB8 else 0x00.

(** [FrameAllocator::allocate_frame] for [MemoryMap]; the [MemSet] is the
    clearing of the frame through the direct map, which test builds leave out. *)
Definition allocate_frame (self : MemoryMap) : outcome (option (PhysFrame * option MemSet) * MemoryMap) :=
  '(idx, rg) ← unwrap (find_region (regions self) 0);
  let out := containing_address (addr rg) in
  a ← PhysAddr_add (addr rg) FRAME_SIZE;
  s ← sub_u64 (size rg) FRAME_SIZE;
  rs ← index_set (regions self) idx (mkRegion a s);
  n ← sub_u64 (num_pages self) 1;
  rs ← (if s =? 0 then av_remove rs idx else Ok rs);
  cleared ← (if cfg_test then Ok None
             else page ← phys_to_kernel_virt (start_address out);
                  Ok (Some (mkMemSet page clear_byte FRAME_SIZE)));
  Ok (Some (out, cleared), mkMap rs n).

(** [IntoIterator for MemoryMap] and [RegionIter::next] *)
Definition into_iter (self : MemoryMap) : list Region := regions self.
Definition next (self : list Region) : option Region * list Region := av_pop_at self 0.

(** [RegionBumpAllocator::from] and [RegionBumpAllocator::alloc] *)
Definition from_region (rg : Region) : RegionBumpAllocator := mkBump (addr rg) (size rg) 0.

Definition bump_alloc (self : RegionBumpAllocator) (layout : Layout) :
    outcome (option Z * RegionBumpAllocator) :=
  sum ← add_u64 (rb_offset self) (l_size layout);
  new_off ← align_up sum (l_align layout);
  if rb_size self <? new_off then Ok (None, self)
  else
    off ← align_up (rb_offset self) (l_align layout);
    a ← add_u64 (rb_start self) off;
    a ← add_u64 a PHYS_OFFSET;
    v ← VirtAddr_new a;
    p ← unwrap (if v =? 0 then None else Some v);
    Ok (Some p, mkBump (rb_start self) (rb_size self) new_off).

(** Several frames in a row. *)
Fixpoint allocate_frames (n : nat) (m : MemoryMap) : outcome (list PhysFrame * MemoryMap) :=
  match n with
  | O => Ok ([], m)
  | S n' =>
      '(o, m) ← allocate_frame m;
      '(f, _) ← unwrap o;
      '(fs, m) ← allocate_frames n' m;
      Ok (f :: fs, m)
  end.

End code.

(** * Specification *)

(** The frames a region still holds, in the order the bump allocator hands
    them out. *)
Definition frames_from (a : Z) (n : nat) : list PhysFrame :=
  (λ i, mkFrame (a + FRAME_SIZE * Z.of_nat i)) <$> seq 0 n.
Definition region_frames (rg : Region) : list PhysFrame :=
  frames_from (addr rg) (Z.to_nat (size rg / FRAME_SIZE)).
Definition map_frames (m : MemoryMap) : list PhysFrame := regions m ≫= region_frames.

(** A region that lies in direct-mapped memory and starts at a page boundary. *)
Definition region_ok (rg : Region) : Prop :=
  0 ≤ addr rg ∧ 0 ≤ size rg ∧ addr rg + size rg < 2 ^ 47 ∧ aligned (addr rg) FRAME_SIZE.

Definition map_ok (m : MemoryMap) : Prop :=
  Forall region_ok (regions m) ∧
  num_pages m = Z.of_nat (length (map_frames m)) ∧ num_pages m < 2 ^ 64 ∧
  Z.of_nat (length (regions m)) ≤ MAX_REGIONS.

Definition bump_ok (b : RegionBumpAllocator) : Prop :=
  0 ≤ rb_start b ∧ 0 ≤ rb_offset b ≤ rb_size b ∧ rb_start b + rb_size b < 2 ^ 47.

(** * Lemmas *)

Lemma frames_from_cons a n :
  frames_from a (S n) = mkFrame a :: frames_from (a + FRAME_SIZE) n.
Proof.
  unfold frames_from. simpl. f_equal; [f_equal; lia|].
  rewrite <-fmap_S_seq, <-list_fmap_compose. apply list_fmap_ext.
  intros i j _. simpl. f_equal. lia.
Qed.

Lemma region_frames_small rg : 0 ≤ size rg < FRAME_SIZE → region_frames rg = [].
Proof. intros Hs. unfold region_frames. by rewrite Z.div_small by lia. Qed.

Lemma region_frames_cons rg : FRAME_SIZE ≤ size rg →
  region_frames rg =
    mkFrame (addr rg) :: region_frames (mkRegion (addr rg + FRAME_SIZE) (size rg - FRAME_SIZE)).
Proof.
  intros Hs. unfold region_frames. simpl.
  replace (size rg - 4096) with (size rg + (-1) * 4096) by lia.
  rewrite Z.div_add by lia.
  assert (1 ≤ size rg / 4096) by (apply Z.div_le_lower_bound; lia).
  replace (Z.to_nat (size rg / 4096)) with (S (Z.to_nat (size rg / 4096 + -1))) by lia.
  by rewrite frames_from_cons.
Qed.

(** What the search of [allocate_frame] returns: the regions before it are too
    small to hold a frame. *)
Lemma find_region_spec rs k :
  Forall region_ok rs →
  match find_region rs k with
  | None => rs ≫= region_frames = []
  | Some (i, rg) => ∃ pre post, rs = pre ++ rg :: post ∧ i = k + Z.of_nat (length pre) ∧
      pre ≫= region_frames = [] ∧ FRAME_SIZE ≤ size rg
  end.
Proof.
  intros Hrs. revert k. induction Hrs as [|rg rs Hrg Hrs IH]; intros k; [done|].
  cbn [find_region]. destruct (4096 <=? size rg) eqn:E; zbool.
  - exists [], rs. simpl. split_and!; [done|lia|done|done].
  - destruct Hrg as (_ & ? & _). specialize (IH (k + 1)).
    rewrite bind_cons, region_frames_small by lia.
    destruct (find_region rs (k + 1)) as [[i rg']|]; [|done].
    destruct IH as (pre & post & -> & -> & Hpre & ?).
    exists (rg :: pre), post. rewrite bind_cons, Hpre, region_frames_small by lia.
    split_and!; [done|simpl; lia|done|done].
Qed.

Lemma region_ok_shrink rg : region_ok rg → FRAME_SIZE ≤ size rg →
  region_ok (mkRegion (addr rg + FRAME_SIZE) (size rg - FRAME_SIZE)).
Proof.
  intros (? & ? & ? & ?) ?. unfold region_ok, aligned in *. simpl.
  split_and!; [lia..|]. apply Z.divide_add_r; [done|by exists 1].
Qed.

Section proofs.
Context `{Build, HX : X86_64, HA : ArrayVec, !X86_64_Laws, !ArrayVec_Laws}.

(** One call takes the first frame of the map and leaves the others. *)
Lemma allocate_frame_step m :
  map_ok m →
  match map_frames m with
  | [] => allocate_frame m = Panic PanicUnwrap
  | f :: fs => ∃ m', allocate_frame m =
        Ok (Some (f, if cfg_test then None
                     else Some (mkMemSet (start_address f + PHYS_OFFSET) clear_byte FRAME_SIZE)), m') ∧
      map_frames m' = fs ∧ map_ok m'
  end.
Proof.
  intros (Hrs & Hn & Hlt & Hmax). unfold allocate_frame, map_frames in *.
  pose proof (find_region_spec (regions m) 0 Hrs) as Hf.
  destruct (find_region (regions m) 0) as [[i rg]|]; [|by rewrite Hf].
  destruct Hf as (pre & post & Hm & -> & Hpre & Hsz). rewrite Hm in *. clear Hm.
  rewrite Z.add_0_l. rewrite bind_app, Hpre, bind_cons in *. simpl in *.
  rewrite region_frames_cons in * by done. simpl in *.
  apply Forall_app in Hrs as [Hokpre Hrs]. inversion_clear Hrs as [|?? Hrg Hokpost].
  pose proof (region_ok_shrink rg Hrg Hsz) as Hrg'.
  destruct Hrg as (? & ? & ? & ?).
  rewrite PhysAddr_add_law by (unfold phys_ok; lia). simpl.
  unfold sub_u64. rewrite (checked_ok 64 (size rg - _)) by lia. simpl.
  rewrite index_set_ok by (rewrite length_app; simpl; lia). simpl.
  rewrite Nat2Z.id, insert_app_r_alt, Nat.sub_diag by lia. simpl.
  rewrite checked_ok by lia. simpl.
  rewrite containing_address_aligned by (unfold phys_ok; lia || done). simpl.
  rewrite phys_to_kernel_virt_ok by (unfold direct_mapped; lia).
  set (cleared := if cfg_test then Ok None else _).
  assert (cleared = Ok (if cfg_test then None
      else Some (mkMemSet (addr rg + PHYS_OFFSET) clear_byte FRAME_SIZE))) as -> by (unfold cleared; by destruct cfg_test).
  destruct (size rg - 4096 =? 0) eqn:E; zbool.
  - rewrite av_remove_law by (rewrite length_app; simpl; lia). simpl.
    rewrite Nat2Z.id, delete_middle.
    rewrite (region_frames_small (mkRegion _ _)) in * by (simpl; lia).
    eexists; split; [done|]. unfold map_ok, map_frames. simpl in *.
    rewrite bind_app, Hpre. split; [done|]. rewrite !length_app in *. simpl in *.
    split_and!; [by apply Forall_app|lia..].
  - simpl. eexists; split; [done|]. unfold map_ok, map_frames. simpl in *.
    rewrite bind_app, bind_cons, Hpre. split; [done|]. rewrite !length_app in *. simpl in *.
    split_and!; [|lia..].
    apply Forall_app; split; [done|]. by constructor.
Qed.


Lemma bump_alloc_padded (b : RegionBumpAllocator) l :
  bump_ok b → layout_ok l → padded l →
  let off := round_up (rb_offset b) (l_align l) in
  bump_alloc b l =
    if rb_size b <? off + l_size l then Ok (None, b)
    else Ok (Some (rb_start b + off + PHYS_OFFSET),
             mkBump (rb_start b) (rb_size b) (off + l_size l)).
Proof.
  intros (? & ? & ?) Hl Hp off. unfold bump_alloc, add_u64.
  pose proof (layout_align_pos l Hl) as Hpos.
  pose proof (round_up_bounds (rb_offset b) _ Hpos).
  destruct Hl as (? & (k & Hk & Ha) & Hmax). unfold padded, ISIZE_MAX in *.
  rewrite round_up_id in Hmax by done.
  assert (l_align l ≤ 2 ^ 62) by (rewrite Ha; apply Z.pow_le_mono_r; lia).
  rewrite checked_ok by lia. simpl.
  rewrite Ha at 1. rewrite align_up_spec by lia. simpl. rewrite <-Ha.
  change ((_ + l_align l - 1) / l_align l * l_align l)
    with (round_up (rb_offset b + l_size l) (l_align l)).
  rewrite round_up_add by done. fold off.
  destruct (rb_size b <? off + l_size l) eqn:E; zbool; [done|].
  rewrite Ha at 1. rewrite align_up_spec by lia. simpl. rewrite <-Ha.
  change ((_ + l_align l - 1) / l_align l * l_align l) with off.
  rewrite checked_ok by (unfold PHYS_OFFSET; lia). simpl.
  rewrite checked_ok by (unfold PHYS_OFFSET; lia). simpl.
  rewrite VirtAddr_new_law by (right; unfold PHYS_OFFSET; lia). simpl.
  by rewrite (proj2 (Z.eqb_neq _ 0)) by (unfold PHYS_OFFSET; lia).
Qed.

End proofs.

(** Regions that share no address. *)
Definition disjoint_regions (r1 r2 : Region) : Prop :=
  addr r1 + size r1 ≤ addr r2 ∨ addr r2 + size r2 ≤ addr r1.
Definition regions_disjoint (rs : list Region) : Prop :=
  ∀ i j r1 r2, rs !! i = Some r1 → rs !! j = Some r2 → i ≠ j → disjoint_regions r1 r2.

Lemma elem_of_region_frames f rg : 0 ≤ size rg →
  f ∈ region_frames rg → addr rg ≤ start_address f ∧ start_address f + FRAME_SIZE ≤ addr rg + size rg.
Proof.
  intros Hs (i & -> & Hi)%list_elem_of_fmap. apply elem_of_seq in Hi. simpl.
  pose proof (Z.mul_div_le (size rg) 4096). lia.
Qed.

Lemma NoDup_region_frames rg : NoDup (region_frames rg).
Proof.
  apply NoDup_fmap_2_strong; [|apply NoDup_seq].
  intros i j _ _ [= Hij]. lia.
Qed.

Lemma NoDup_bind_region_frames rs :
  Forall region_ok rs → regions_disjoint rs → NoDup (rs ≫= region_frames).
Proof.
  intros Hrs Hd. induction Hrs as [|rg rs Hrg Hrs IH]; [constructor|].
  rewrite bind_cons. apply NoDup_app. split_and!; [apply NoDup_region_frames| |].
  - intros f Hf (rg' & Hf' & Hin)%list_elem_of_bind.
    apply list_elem_of_lookup in Hin as [j Hj].
    pose proof (proj1 (Forall_lookup _ _) Hrs _ _ Hj) as (? & ? & ?).
    destruct Hrg as (? & ? & ?).
    pose proof (Hd 0%nat (S j) rg rg' eq_refl Hj) as Hdis.
    apply elem_of_region_frames in Hf, Hf'; [|done..].
    unfold disjoint_regions in Hdis. lia.
  - apply IH. intros i j r1 r2 Hi Hj Hij. by apply (Hd (S i) (S j)); [..|congruence].
Qed.

(** * Properties *)

Section properties.
Context `{Build, HX : X86_64, HA : ArrayVec, !X86_64_Laws, !ArrayVec_Laws}.

Lemma allocate_frames_exhausted m n :
  map_ok m → (length (map_frames m) < n)%nat → allocate_frames n m = Panic PanicUnwrap.
Proof.
  intros Hm. revert m Hm. induction n as [|n IH]; intros m Hm Hn; [lia|]. simpl.
  pose proof (allocate_frame_step m Hm) as Hs. destruct (map_frames m) as [|f fs].
  { by rewrite Hs. }
  destruct Hs as (m' & -> & Hfs & Hm'). simpl.
  rewrite (IH m') by (rewrite ?Hfs; simpl in *; lia || done). done.
Qed.

Lemma allocate_frames_prefix m n :
  map_ok m → (n ≤ length (map_frames m))%nat →
  ∃ m', allocate_frames n m = Ok (take n (map_frames m), m') ∧
    map_frames m' = drop n (map_frames m) ∧ map_ok m'.
Proof.
  intros Hm. revert m Hm. induction n as [|n IH]; intros m Hm Hn; simpl.
  { rewrite drop_0. by exists m. }
  pose proof (allocate_frame_step m Hm) as Hs. destruct (map_frames m) as [|f fs].
  { simpl in Hn. lia. }
  destruct Hs as (m1 & -> & Hfs & Hm1). simpl in *.
  destruct (IH m1 Hm1) as (m' & -> & Hfs' & Hm'); [rewrite Hfs; lia|].
  rewrite Hfs in *. simpl. eauto.
Qed.

Lemma allocate_frames_add a b m m1 m2 fs1 fs2 :
  allocate_frames a m = Ok (fs1, m1) → allocate_frames b m1 = Ok (fs2, m2) →
  allocate_frames (a + b) m = Ok (fs1 ++ fs2, m2).
Proof.
  revert m fs1. induction a as [|a IH]; intros m fs1 Ha Hb.
  { injection Ha as <- <-. exact Hb. }
  cbn [allocate_frames Nat.add] in *. destruct (allocate_frame m) as [[o m']|p]; [|discriminate Ha].
  cbn [mbind outcome_bind] in *. destruct (unwrap o) as [[f ms]|p]; [|discriminate Ha].
  cbn [mbind outcome_bind] in *.
  destruct (allocate_frames a m') as [[fs m'']|] eqn:E; [|discriminate Ha]. simplify_eq/=.
  by rewrite (IH m' fs E Hb).
Qed.

(** [m'] is [m] after [n] allocations. *)
Definition allocated (n : nat) (m m' : MemoryMap) : Prop := ∃ fs, allocate_frames n m = Ok (fs, m').

Lemma allocated_refl m : allocated 0 m m.
Proof. by exists []. Qed.

Lemma allocated_one m f ms m' : allocate_frame m = Ok (Some (f, ms), m') → allocated 1 m m'.
Proof. intros Ha. exists [f]. cbn [allocate_frames]. by rewrite Ha. Qed.

Lemma allocated_trans a b m m1 m2 : allocated a m m1 → allocated b m1 m2 → allocated (a + b) m m2.
Proof. intros [fs1 Ha] [fs2 Hb]. exists (fs1 ++ fs2). by eapply allocate_frames_add. Qed.

(** A region without its first [n] frames. *)
Definition shrink (n : nat) (rg : Region) : Region :=
  mkRegion (addr rg + FRAME_SIZE * Z.of_nat n) (size rg - FRAME_SIZE * Z.of_nat n).

Lemma shrink_ok n rg :
  region_ok rg → FRAME_SIZE * Z.of_nat n ≤ size rg → region_ok (shrink n rg).
Proof.
  intros (? & ? & ? & ?) ?. unfold region_ok, shrink. simpl. split_and!; [lia..|].
  apply Z.divide_add_r; [done|apply Z.divide_factor_l].
Qed.

(** As long as the first region has more frames than are taken, they come from
    it. *)
Lemma allocate_frame_head m rg rs :
  map_ok m → regions m = rg :: rs → FRAME_SIZE < size rg →
  ∃ o m', allocate_frame m = Ok (Some o, m') ∧ regions m' = shrink 1 rg :: rs.
Proof.
  intros Hm Hr Hs. pose proof (allocate_frame_step m Hm) as Hst.
  assert (∃ f fs, map_frames m = f :: fs) as (f & fs & Hf).
  { unfold map_frames. rewrite Hr, bind_cons, region_frames_cons by lia. simpl. eauto. }
  rewrite Hf in Hst. destruct Hst as (m' & Ha & _). do 2 eexists. split; [exact Ha|].
  unfold allocate_frame in Ha. rewrite Hr in Ha. cbn [find_region] in Ha.
  rewrite (proj2 (Z.leb_le _ _)) in Ha by lia. cbn [unwrap mbind outcome_bind] in Ha.
  destruct Hm as (Hrs & _). rewrite Hr in Hrs. apply Forall_cons in Hrs as [(? & ? & ? & ?) _].
  rewrite PhysAddr_add_law in Ha by (unfold phys_ok; lia). cbn [mbind outcome_bind] in Ha.
  unfold sub_u64 in Ha. rewrite (checked_ok 64 (size rg - _)) in Ha by lia. cbn [mbind outcome_bind] in Ha.
  rewrite index_set_ok in Ha by (simpl; lia). cbn [mbind outcome_bind] in Ha.
  destruct (checked 64 (num_pages m - 1)); [|done]. cbn [mbind outcome_bind] in Ha.
  rewrite (proj2 (Z.eqb_neq (size rg - 4096) 0)) in Ha by lia. cbn [mbind outcome_bind] in Ha.
  destruct cfg_test; [|destruct (phys_to_kernel_virt _); [|done]]; by simplify_eq/=.
Qed.

Lemma allocate_frames_head n m rg rs :
  map_ok m → regions m = rg :: rs → FRAME_SIZE * Z.of_nat n < size rg →
  ∃ fs m', allocate_frames n m = Ok (fs, m') ∧ regions m' = shrink n rg :: rs.
Proof.
  revert m rg. induction n as [|n IH]; intros m rg Hm Hr Hs.
  { exists [], m. split; [done|]. rewrite Hr. f_equal. destruct rg. unfold shrink. simpl. f_equal; lia. }
  destruct (allocate_frame_head m rg rs Hm Hr) as (o & m1 & Ha & Hr1); [lia|].
  pose proof (allocate_frame_step m Hm) as Hst.
  destruct (map_frames m) as [|f fs]; [by rewrite Hst in Ha|].
  destruct Hst as (m1' & Ha' & _ & Hm1). rewrite Ha in Ha'. simplify_eq.
  destruct (IH m1' _ Hm1 Hr1) as (fs' & m2 & Hf & Hr2); [unfold shrink; simpl; lia|].
  cbn [allocate_frames]. rewrite Ha. cbn [mbind outcome_bind unwrap]. rewrite Hf. cbn [mbind outcome_bind].
  do 2 eexists. split; [done|]. rewrite Hr2. f_equal. unfold shrink. simpl. f_equal; lia.
Qed.

End properties.
