(* ===== verification/Buddy.v ===== *)
(** Abstract specification of a buddy allocator.

    A block of [2^h] pages is [Taken], [Free], or split into its two halves.
    This file knows nothing of the kernel's arrays: it defines allocation on
    such trees, the set of pages a tree holds free and the invariant under
    which allocation keeps the trees in a shape that the largest-free-order
    summaries of [src/mm/pmm.rs] describe correctly. *)
From S2P Require Import Prelude.

Inductive buddy : Type :=
  | Taken
  | Free
  | Split (l r : buddy).

#[global] Instance buddy_eq_dec : EqDecision buddy.
Proof. solve_decision. Defined.

(** Number of pages of a block of order [h]. *)
Definition pages (h : nat) : Z := 2 ^ Z.of_nat h.

Definition omax (a b : option nat) : option nat :=
  match a, b with
  | Some x, Some y => Some (x `max` y)%nat
  | Some x, None | None, Some x => Some x
  | None, None => None
  end.

(** The largest order of a free block in a tree of height [h]. *)
Fixpoint largest (h : nat) (t : buddy) : option nat :=
  match t with
  | Taken => None
  | Free => Some h
  | Split l r => omax (largest (pred h) l) (largest (pred h) r)
  end.

Definition fits (k : nat) (m : option nat) : bool :=
  match m with Some m => (k <=? m)%nat | None => false end.

Definition children (t : buddy) : buddy * buddy :=
  match t with
  | Taken => (Taken, Taken)
  | Free => (Free, Free)
  | Split l r => (l, r)
  end.

Definition join (l r : buddy) : buddy :=
  match l, r with
  | Taken, Taken => Taken
  | Free, Free => Free
  | _, _ => Split l r
  end.

(** Allocation of a block of order [k], leftmost fit at every level: the new
    tree and the index of the block among the order-[k] blocks. *)
Fixpoint talloc (h k : nat) (t : buddy) : option (buddy * Z) :=
  if (h =? k)%nat then
    match t with Free => Some (Taken, 0) | _ => None end
  else
    match h with
    | O => None
    | S h' =>
        let '(l, r) := children t in
        if fits k (largest h' l) then
          '(l', i) ← talloc h' k l; Some (join l' r, i)
        else if fits k (largest h' r) then
          '(r', i) ← talloc h' k r; Some (join l r', i + pages (h' - k))
        else None
    end.

(** Whether page [p] of the block (counted from its first page) is free. *)
Fixpoint free_page (h : nat) (t : buddy) (p : Z) : bool :=
  match t with
  | Taken => false
  | Free => true
  | Split l r =>
      if p <? pages (pred h) then free_page (pred h) l p
      else free_page (pred h) r (p - pages (pred h))
  end.

(** A tree of height at most [h] in which no two free halves are left split. *)
Fixpoint canon (h : nat) (t : buddy) : Prop :=
  match t with
  | Split l r => (0 < h)%nat ∧ canon (pred h) l ∧ canon (pred h) r ∧ ¬ (l = Free ∧ r = Free)
  | _ => True
  end.

(** Every free block has order at least [g]. *)
Fixpoint coarse (h g : nat) (t : buddy) : Prop :=
  match t with
  | Taken => True
  | Free => (g ≤ h)%nat
  | Split l r => coarse (pred h) g l ∧ coarse (pred h) g r
  end.

(** Leftmost-fit allocation takes from a right half only what its left
    neighbour cannot serve: the right half is coarser than the left one. *)
Fixpoint ordered (h : nat) (t : buddy) : Prop :=
  match t with
  | Split l r =>
      ordered (pred h) l ∧ ordered (pred h) r ∧
      ∀ m, largest (pred h) l = Some m → coarse (pred h) (S m) r
  | _ => True
  end.

Definition tree_ok (h : nat) (t : buddy) : Prop := canon h t ∧ ordered h t.

(** The runs of [talloc] as a relation, for rule induction. *)
Inductive tallocs (k : nat) : nat → buddy → buddy → Z → Prop :=
  | tallocs_here : tallocs k k Free Taken 0
  | tallocs_left h t l r l' i :
      (k ≤ h)%nat → children t = (l, r) → fits k (largest h l) = true →
      tallocs k h l l' i → tallocs k (S h) t (join l' r) i
  | tallocs_right h t l r r' i :
      (k ≤ h)%nat → children t = (l, r) → fits k (largest h l) = false →
      tallocs k h r r' i → tallocs k (S h) t (join l r') (i + pages (h - k)).

(** The block of order [k] and index [i]. *)
Definition in_block (k : nat) (i p : Z) : Prop := i * pages k ≤ p < (i + 1) * pages k.

(** A zone is a row of trees of the same height [h]. *)
Fixpoint forest_free (h : nat) (ts : list buddy) (p : Z) : bool :=
  match ts with
  | [] => false
  | t :: ts' => if p <? pages h then free_page h t p else forest_free h ts' (p - pages h)
  end.

Fixpoint falloc (h k : nat) (ts : list buddy) : option (list buddy * Z) :=
  match ts with
  | [] => None
  | t :: ts' =>
      if fits k (largest h t) then
        '(t', i) ← talloc h k t; Some (t' :: ts', i)
      else
        '(ts'', i) ← falloc h k ts'; Some (t :: ts'', i + pages (h - k))
  end.

(** * Lemmas *)

Lemma pages_pos h : 0 < pages h.
Proof. apply Z.pow_pos_nonneg; lia. Qed.

Lemma pages_S h : pages (S h) = 2 * pages h.
Proof. unfold pages. rewrite Nat2Z.inj_succ, Z.pow_succ_r by lia. done. Qed.

Lemma pages_add a b : pages (a + b) = pages a * pages b.
Proof. unfold pages. rewrite Nat2Z.inj_add, Z.pow_add_r by lia. done. Qed.

Lemma pages_split h k : (k ≤ h)%nat → pages h = pages (h - k) * pages k.
Proof. intros. rewrite <-pages_add. f_equal. lia. Qed.

Lemma largest_le h t m : canon h t → largest h t = Some m → (m ≤ h)%nat.
Proof.
  revert h m. induction t as [| |l IHl r IHr]; intros h m; simpl; [done|naive_solver lia|].
  intros (Hh & Hl & Hr & _).
  destruct (largest (pred h) l) as [a|] eqn:El, (largest (pred h) r) as [b|] eqn:Er;
    simpl; intros [= <-];
    repeat match goal with
    | H : largest (pred h) l = Some ?a |- _ => apply IHl in H; [|done]
    | H : largest (pred h) r = Some ?b |- _ => apply IHr in H; [|done]
    end; lia.
Qed.

Lemma largest_full h t : canon h t → largest h t = Some h → t = Free.
Proof.
  destruct t as [| |l r]; simpl; [done|done|]. intros (Hh & Hl & Hr & _) Hm.
  pose proof (largest_le (pred h) l) as Ll. pose proof (largest_le (pred h) r) as Lr.
  destruct (largest (pred h) l) as [a|], (largest (pred h) r) as [b|]; simplify_eq/=;
    repeat match goal with
    | H : ∀ m, canon _ _ → Some ?a = Some m → _ |- _ => specialize (H a ltac:(done) eq_refl)
    end; lia.
Qed.

Lemma fits_le h t g :
  canon (S h) t → t ≠ Free → fits g (largest (S h) t) = true → (g ≤ h)%nat.
Proof.
  intros Hc Ht. destruct (largest (S h) t) as [m|] eqn:Em; [|done]. intros Hg.
  apply Nat.leb_le in Hg. pose proof (largest_le _ _ _ Hc Em).
  destruct (decide (m = S h)) as [->|]; [|lia]. by apply largest_full in Em.
Qed.

Lemma fits_omax k a b : fits k (omax a b) = fits k a || fits k b.
Proof.
  destruct a as [x|], b as [y|]; simpl; rewrite ?orb_false_r; try done.
  destruct (k <=? x)%nat eqn:Ex, (k <=? y)%nat eqn:Ey; simpl;
    rewrite ?Nat.leb_le, ?Nat.leb_gt in *; lia.
Qed.

Lemma coarse_mono h g g' t : (g' ≤ g)%nat → coarse h g t → coarse h g' t.
Proof.
  intros Hg. revert h. induction t as [| |l IHl r IHr]; intros h; simpl; [done|lia|].
  intros [??]; split; eauto.
Qed.

Lemma coarse_largest h g t m : coarse h g t → largest h t = Some m → (g ≤ m)%nat.
Proof.
  revert h m. induction t as [| |l IHl r IHr]; intros h m; simpl; [done|naive_solver|].
  intros [Hl Hr].
  destruct (largest (pred h) l) eqn:El, (largest (pred h) r) eqn:Er; simpl; intros [= <-];
    repeat match goal with
    | H : largest (pred h) l = Some _ |- _ => apply IHl in H; [|done]
    | H : largest (pred h) r = Some _ |- _ => apply IHr in H; [|done]
    end; lia.
Qed.

Lemma canon_join h l r : canon h l → canon h r → canon (S h) (join l r).
Proof. destruct l, r; simpl; intros; split_and?; naive_solver lia. Qed.

Lemma coarse_join h g l r : coarse h g l → coarse h g r → coarse (S h) g (join l r).
Proof. destruct l, r; simpl; intros; split_and?; naive_solver lia. Qed.

Lemma ordered_join h l r :
  ordered h l → ordered h r →
  (∀ m, largest h l = Some m → join l r ≠ Free → coarse h (S m) r) →
  ordered (S h) (join l r).
Proof. intros Hl Hr Hc. destruct l, r; simpl; naive_solver. Qed.

Lemma largest_join h l r :
  join l r ≠ Free → largest (S h) (join l r) = omax (largest h l) (largest h r).
Proof. destruct l, r; simpl; done. Qed.

Lemma free_page_join h l r p :
  0 ≤ p < pages (S h) →
  free_page (S h) (join l r) p =
    if p <? pages h then free_page h l p else free_page h r (p - pages h).
Proof. intros Hp. destruct l, r; simpl; try done; by destruct (p <? _). Qed.

(** The halves of any tree, [Free] and [Taken] included. *)
Lemma free_page_children h t l r p :
  children t = (l, r) → 0 ≤ p < pages (S h) →
  free_page (S h) t p =
    if p <? pages h then free_page h l p else free_page h r (p - pages h).
Proof. intros Hc Hp. destruct t; simplify_eq/=; try done; by destruct (p <? _). Qed.

Lemma canon_children h t l r : children t = (l, r) → canon (S h) t → canon h l ∧ canon h r.
Proof. intros Hc. destruct t; simplify_eq/=; naive_solver. Qed.

Lemma coarse_children h g t l r :
  children t = (l, r) → (g ≤ h)%nat → coarse (S h) g t → coarse h g l ∧ coarse h g r.
Proof. intros Hc. destruct t; simplify_eq/=; naive_solver. Qed.

Lemma ordered_children h t l r :
  children t = (l, r) → ordered (S h) t →
  ordered h l ∧ ordered h r ∧
  (∀ m, largest h l = Some m → t ≠ Free → coarse h (S m) r).
Proof. intros Hc. destruct t; simplify_eq/=; naive_solver. Qed.

Lemma largest_children h t l r k :
  children t = (l, r) → (k ≤ h)%nat →
  fits k (largest (S h) t) = fits k (largest h l) || fits k (largest h r).
Proof.
  intros Hc Hk. destruct t; simplify_eq/=; [done| |apply fits_omax].
  rewrite orb_diag. etrans; [|symmetry]; apply Nat.leb_le; lia.
Qed.

Lemma talloc_tallocs h k t t' i :
  (k ≤ h)%nat → talloc h k t = Some (t', i) → tallocs k h t t' i.
Proof.
  revert t t' i. induction h as [|h IH]; intros t t' i Hk; cbn [talloc].
  - replace k with 0%nat by lia. cbn.
    destruct t; intros [= <- <-]. constructor.
  - destruct (S h =? k)%nat eqn:E; [apply Nat.eqb_eq in E as <-|apply Nat.eqb_neq in E].
    { destruct t; intros [= <- <-]. constructor. }
    destruct (children t) as [l r] eqn:Ec.
    destruct (fits k (largest h l)) eqn:El; [|destruct (fits k (largest h r)) eqn:Er; [|done]].
    + destruct (talloc h k l) as [[l' j]|] eqn:Et; simpl; intros [= <- <-].
      eapply tallocs_left; [lia|done|done|]. apply IH; [lia|done].
    + destruct (talloc h k r) as [[r' j]|] eqn:Et; simpl; intros [= <- <-].
      eapply tallocs_right; [lia|done|done|]. apply IH; [lia|done].
Qed.

(** Allocation succeeds exactly when the summary says a block fits. *)
Lemma talloc_is_Some h k t :
  canon h t → (k ≤ h)%nat → fits k (largest h t) = true → is_Some (talloc h k t).
Proof.
  revert t. induction h as [|h IH]; intros t Hc Hk Hf; cbn [talloc].
  - destruct k; [|lia]. destruct t as [| |l r]; simpl in *; [done|by eexists|].
    destruct Hc as [? _]; lia.
  - destruct (S h =? k)%nat eqn:E; [apply Nat.eqb_eq in E as <-|apply Nat.eqb_neq in E].
    + destruct (largest (S h) t) as [m|] eqn:Em; [|done].
      apply Nat.leb_le in Hf. pose proof (largest_le _ _ _ Hc Em).
      replace m with (S h) in * by lia. rewrite (largest_full _ _ Hc Em). by eexists.
    + destruct (children t) as [l r] eqn:Ec.
      destruct (canon_children _ _ _ _ Ec Hc) as [Hl Hr].
      rewrite (largest_children h t l r) in Hf by (done || lia).
      destruct (fits k (largest h l)) eqn:El.
      * destruct (IH l) as [[l' i] ->]; [done|lia|done|]. by eexists.
      * simpl in Hf. rewrite Hf. destruct (IH r) as [[r' i] ->]; [done|lia|done|]. by eexists.
Qed.

Lemma talloc_None h k t :
  canon h t → (k ≤ h)%nat → fits k (largest h t) = false → talloc h k t = None.
Proof.
  intros Hc Hk Hf. destruct h as [|h]; cbn [talloc].
  - destruct k; [|lia]. simpl. destruct t; simpl in *; naive_solver.
  - destruct (S h =? k)%nat eqn:E; [apply Nat.eqb_eq in E as <-|apply Nat.eqb_neq in E].
    + destruct t; [done| |done]. cbn [largest fits] in Hf. rewrite Nat.leb_refl in Hf. done.
    + destruct (children t) as [l r] eqn:Ec.
      rewrite (largest_children h t l r) in Hf by (done || lia).
      apply orb_false_iff in Hf as [-> ->]. done.
Qed.

Section tallocs.
Context (k : nat).

Lemma tallocs_height h t t' i : tallocs k h t t' i → (k ≤ h)%nat.
Proof. induction 1; lia. Qed.

Lemma tallocs_not_Free h t t' i : tallocs k h t t' i → t' ≠ Free.
Proof. induction 1; [done|by destruct l', r|by destruct l, r']. Qed.

Lemma tallocs_canon h t t' i : tallocs k h t t' i → canon h t → canon h t'.
Proof.
  induction 1 as [|h t l r l' i _ Hc _ _ IH|h t l r r' i _ Hc _ _ IH]; intros Ht; [done|..];
    destruct (canon_children _ _ _ _ Hc Ht) as [? ?]; auto using canon_join.
Qed.

Lemma tallocs_coarse h t t' i g :
  (g ≤ k)%nat → tallocs k h t t' i → coarse h g t → coarse h g t'.
Proof.
  intros Hg. induction 1 as [|h t l r l' i Hk Hc _ _ IH|h t l r r' i Hk Hc _ _ IH];
    intros Ht; [done|..];
    destruct (coarse_children h g _ _ _ Hc ltac:(lia) Ht) as [? ?]; auto using coarse_join.
Qed.

Lemma tallocs_index h t t' i : tallocs k h t t' i → 0 ≤ i < pages (h - k).
Proof.
  induction 1 as [|h t l r l' i Hk _ _ _ IH|h t l r r' i Hk _ _ _ IH].
  - rewrite Nat.sub_diag. done.
  - rewrite Nat.sub_succ_l, pages_S by done. lia.
  - rewrite Nat.sub_succ_l, pages_S by done. lia.
Qed.

(** The summary never grows. *)
Lemma tallocs_largest h t t' i g :
  tallocs k h t t' i → canon h t →
  fits g (largest h t') = true → fits g (largest h t) = true.
Proof.
  induction 1 as [|h t l r l' i Hk Hc Hl HR IH|h t l r r' i Hk Hc Hl HR IH]; intros Ht Hf; [done|..];
    destruct (canon_children _ _ _ _ Hc Ht) as [Hcl Hcr];
    pose proof (tallocs_not_Free _ _ _ _ HR); pose proof (tallocs_canon _ _ _ _ HR).
  - assert (join l' r ≠ Free) by (by destruct l', r).
    assert (g ≤ h)%nat by (apply (fits_le h (join l' r)); auto using canon_join).
    rewrite largest_join, fits_omax in Hf by done.
    rewrite (largest_children h t l r) by done.
    apply orb_true_iff in Hf as [Hf|Hf]; apply orb_true_iff; auto.
  - assert (join l r' ≠ Free) by (by destruct l, r').
    assert (g ≤ h)%nat by (apply (fits_le h (join l r')); auto using canon_join).
    rewrite largest_join, fits_omax in Hf by done.
    rewrite (largest_children h t l r) by done.
    apply orb_true_iff in Hf as [Hf|Hf]; apply orb_true_iff; auto.
Qed.

Lemma tallocs_ordered h t t' i :
  tallocs k h t t' i → canon h t → ordered h t → ordered h t'.
Proof.
  induction 1 as [|h t l r l' i Hk Hc Hl HR IH|h t l r r' i Hk Hc Hl HR IH]; intros Ht Ho; [done|..];
    destruct (canon_children _ _ _ _ Hc Ht) as [Hcl Hcr];
    destruct (ordered_children _ _ _ _ Hc Ho) as (Hol & Hor & Hm);
    apply ordered_join; auto.
  - intros m' Hm' _. assert (fits m' (largest h l') = true) as Hf.
    { rewrite Hm'. apply Nat.leb_refl. }
    pose proof (tallocs_canon _ _ _ _ HR Hcl) as Hcl'.
    pose proof (tallocs_not_Free _ _ _ _ HR).
    assert (S m' ≤ h)%nat.
    { pose proof (largest_le _ _ _ Hcl' Hm'). destruct (decide (m' = h)) as [->|]; [|lia].
      by apply largest_full in Hm'. }
    apply (tallocs_largest _ _ _ _ _ HR Hcl) in Hf.
    destruct (decide (t = Free)) as [->|]; [by simplify_eq/=|].
    destruct (largest h l) as [m|]; [|done]. apply Nat.leb_le in Hf.
    apply coarse_mono with (S m); [lia|]. by apply Hm.
  - intros m Hlm _. rewrite Hlm in Hl. apply Nat.leb_gt in Hl.
    eapply tallocs_coarse; [|done|]; [lia|]. apply Hm; [done|].
    intros ->. simplify_eq/=. lia.
Qed.

(** The block handed out was free, is free no more, and no other page changes. *)
Lemma tallocs_pages h t t' i p :
  tallocs k h t t' i → 0 ≤ p < pages h →
  free_page h t' p = free_page h t p && bool_decide (¬ in_block k i p) ∧
  (in_block k i p → free_page h t p = true).
Proof.
  intros HR. revert p.
  induction HR as [|h t l r l' i Hk Hc Hl HR IH|h t l r r' i Hk Hc Hl HR IH]; intros p Hp.
  - simpl. unfold in_block. rewrite bool_decide_false by lia. done.
  - pose proof (tallocs_index _ _ _ _ HR) as Hi. pose proof (pages_split h k Hk) as Hs.
    rewrite free_page_join, (free_page_children h t l r) by done.
    pose proof (pages_pos k). rewrite pages_S in Hp.
    destruct (p <? pages h) eqn:E; zbool; [apply IH; lia|].
    unfold in_block. rewrite bool_decide_true, andb_true_r by nia. split; [done|nia].
  - pose proof (tallocs_index _ _ _ _ HR) as Hi. pose proof (pages_split h k Hk) as Hs.
    rewrite free_page_join, (free_page_children h t l r) by done.
    pose proof (pages_pos k). rewrite pages_S in Hp.
    destruct (p <? pages h) eqn:E; zbool.
    + unfold in_block. rewrite bool_decide_true, andb_true_r by nia. split; [done|nia].
    + destruct (IH (p - pages h)) as [IH1 IH2]; [lia|].
      rewrite IH1. unfold in_block in *. split; [|intros; apply IH2; nia].
      f_equal. apply bool_decide_ext. split; intros Hn ?; apply Hn; nia.
Qed.

End tallocs.

(** ** Completeness: a free aligned block is always found *)

Lemma all_free_Free h t :
  canon h t → (∀ p, 0 ≤ p < pages h → free_page h t p = true) → t = Free.
Proof.
  revert h. induction t as [| |l IHl r IHr]; intros h; simpl; [|done|].
  - intros _ Hp. pose proof (pages_pos h). specialize (Hp 0 ltac:(lia)). done.
  - intros (Hh & Hl & Hr & Hn) Hp. destruct h as [|h]; [lia|]. simpl in *.
    destruct Hn. pose proof (pages_pos h). rewrite pages_S in Hp. split.
    + apply (IHl h); [done|]. intros p Hb. specialize (Hp p ltac:(lia)).
      by rewrite (proj2 (Z.ltb_lt p _)) in Hp by lia.
    + apply (IHr h); [done|]. intros p Hb. specialize (Hp (p + pages h) ltac:(lia)).
      rewrite (proj2 (Z.ltb_ge _ _)) in Hp by lia. by replace (p + pages h - pages h) with p in Hp by lia.
Qed.

Lemma block_free_fits h k t i :
  canon h t → (k ≤ h)%nat → 0 ≤ i < pages (h - k) →
  (∀ p, in_block k i p → free_page h t p = true) → fits k (largest h t) = true.
Proof.
  revert t i. induction h as [|h IH]; intros t i Hc Hk Hi Hp.
  - replace k with 0%nat in * by lia. rewrite (all_free_Free 0 t); [done..|].
    intros p Hb. apply Hp. unfold in_block. change (pages (0 - 0)) with 1 in Hi.
    change (pages 0) with 1 in *. lia.
  - destruct (decide (k = S h)) as [->|].
    { rewrite Nat.sub_diag in Hi. change (pages 0) with 1 in Hi. replace i with 0 in * by lia.
      rewrite (all_free_Free (S h) t); [apply Nat.leb_refl|done|].
      intros p Hb. apply Hp. unfold in_block. lia. }
    destruct (children t) as [l r] eqn:Ec. destruct (canon_children _ _ _ _ Ec Hc) as [Hl Hr].
    rewrite (largest_children h t l r), orb_true_iff by (done || lia).
    rewrite Nat.sub_succ_l, pages_S in Hi by lia.
    pose proof (pages_split h k ltac:(lia)) as Hs. pose proof (pages_pos k).
    assert (∀ p, in_block k i p → 0 ≤ p < pages (S h)) as Hb.
    { unfold in_block. rewrite pages_S. intros. nia. }
    destruct (decide (i < pages (h - k))); [left; apply (IH l i)|right; apply (IH r (i - pages (h - k)))];
      try done; try lia; intros p Hin; unfold in_block in *.
    + specialize (Hp p Hin). rewrite (free_page_children h t l r) in Hp by auto.
      by rewrite (proj2 (Z.ltb_lt _ _)) in Hp by nia.
    + specialize (Hp (p + pages h) ltac:(nia)).
      rewrite (free_page_children h t l r) in Hp by (done || apply Hb; nia).
      rewrite (proj2 (Z.ltb_ge _ _)) in Hp by nia. by replace (p + pages h - pages h) with p in Hp by lia.
Qed.

(** ** The row of trees *)

Lemma forest_free_outside h ts p :
  Z.of_nat (length ts) * pages h ≤ p → forest_free h ts p = false.
Proof.
  revert p. induction ts as [|t ts IH]; intros p Hp; simpl in *; [done|].
  pose proof (pages_pos h). rewrite (proj2 (Z.ltb_ge _ _)) by nia. apply IH. nia.
Qed.

Lemma falloc_ok h k ts ts' i :
  Forall (tree_ok h) ts → (k ≤ h)%nat → falloc h k ts = Some (ts', i) →
  Forall (tree_ok h) ts' ∧ length ts' = length ts ∧
  0 ≤ i < Z.of_nat (length ts) * pages (h - k) ∧
  ∀ p, 0 ≤ p →
    forest_free h ts' p = forest_free h ts p && bool_decide (¬ in_block k i p) ∧
    (in_block k i p → forest_free h ts p = true).
Proof.
  intros Hts Hk. pose proof (pages_split h k Hk) as Hs. pose proof (pages_pos k).
  revert ts' i. induction Hts as [|t ts [Hc Ho] Hts IH]; intros ts' i; simpl; [done|].
  destruct (fits k (largest h t)) eqn:Ef; simpl.
  - destruct (talloc h k t) as [[t' j]|] eqn:Et; simpl; intros [= <- <-].
    apply talloc_tallocs in Et; [|done]. pose proof (tallocs_index _ _ _ _ _ Et).
    split_and!; [constructor; [split|]|done|lia|nia|].
    + by eapply tallocs_canon.
    + by eapply tallocs_ordered.
    + done.
    + intros p Hp. simpl. destruct (p <? pages h) eqn:E; zbool.
      * by apply (tallocs_pages k h t t').
      * unfold in_block. rewrite bool_decide_true, andb_true_r by nia. split; [done|nia].
  - destruct (falloc h k ts) as [[ts2 j]|]; simpl; [|done]. intros [= <- <-].
    destruct (IH ts2 j eq_refl) as (IH1 & IH2 & IH3 & IH4).
    split_and!; [by constructor; [split|]|simpl; lia|pose proof (pages_pos (h - k)); lia|nia|].
    intros p Hp. simpl. destruct (p <? pages h) eqn:E; zbool.
    + unfold in_block. rewrite bool_decide_true, andb_true_r by nia. split; [done|nia].
    + destruct (IH4 (p - pages h)) as [IH5 IH6]; [lia|]. rewrite IH5.
      unfold in_block in *. split; [|intros; apply IH6; nia].
      f_equal. apply bool_decide_ext. split; intros Hn ?; apply Hn; nia.
Qed.

Lemma falloc_complete h k ts i :
  Forall (tree_ok h) ts → (k ≤ h)%nat → 0 ≤ i →
  (∀ p, in_block k i p → forest_free h ts p = true) → is_Some (falloc h k ts).
Proof.
  intros Hts Hk. pose proof (pages_split h k Hk) as Hs. pose proof (pages_pos k).
  revert i. induction Hts as [|t ts [Hc Ho] Hts IH]; intros i Hi Hp; simpl in *.
  { specialize (Hp (i * pages k)). unfold in_block in Hp. by discriminate Hp; lia. }
  destruct (fits k (largest h t)) eqn:Ef.
  { destruct (talloc_is_Some h k t) as [[t' j] ->]; [done..|]. by eexists. }
  destruct (decide (i < pages (h - k))).
  - rewrite (block_free_fits h k t i) in Ef; [done..|]. intros p Hb. specialize (Hp p Hb).
    unfold in_block in *. by rewrite (proj2 (Z.ltb_lt _ _)) in Hp by nia.
  - destruct (IH (i - pages (h - k))) as [[ts' j] ->]; [lia| |by eexists].
    intros p Hb. unfold in_block in *. specialize (Hp (p + pages h) ltac:(nia)).
    rewrite (proj2 (Z.ltb_ge _ _)) in Hp by nia. by replace (p + pages h - pages h) with p in Hp by lia.
Qed.
