(* ===== verification/Pmm.v ===== *)
(** [src/mm/pmm.rs]: the physical memory manager.

    A [Zone] keeps, for every order, an array of [Block] summaries: an entry
    is [Used] or names the largest free order below it.  [Zone::alloc] walks
    down the summaries, marks the block it finds and recomputes the summaries
    above it.  This file is the model of the code; the theorems relate it to
    the buddy trees of the abstract specification. *)
From S2P Require Import Prelude X86 Layout Mm Region.

Definition MAX_ZONES : Z := 64.
Definition MAX_ORDER : Z := 11.
Definition MAX_ORDER_PAGES : Z := 2048.

(** [LargestFreeOrder] wraps a [NonZeroU8]: the order plus one. *)
Inductive Block : Type :=
  | LargestFreeOrder (o : Z)
  | Used.

#[global] Instance Block_eq_dec : EqDecision Block.
Proof. solve_decision. Defined.

(** [size_of::<Block>()] and [align_of::<Block>()] (test [block_repr]). *)
Definition size_of_Block : Z := 1.
Definition align_of_Block : Z := 1.

Abbreviation OrderList := (list (list Block)).

Record Zone := mkZone {
  zpages : PhysFrameRange;
  znum_pages : Z;
  order_list : OrderList
}.

Section code.
Context `{Build, X86_64, ArrayVec}.

(** * [impl Block] *)

Definition from_order (largest_free_order : Z) : outcome Block :=
  LargestFreeOrder <$> add_u8 largest_free_order 1.

Definition larger_than (self : Block) (order : Z) : bool :=
  match self with
  | LargestFreeOrder o => order <? o
  | Used => false
  end.

Definition parent_state (left right : Block) : outcome Block :=
  match left, right with
  | LargestFreeOrder l, LargestFreeOrder r =>
      order ← (if l =? r then add_u8 l 1 else if r <? l then Ok l else Ok r);
      Ok (LargestFreeOrder order)
  | LargestFreeOrder x, _ | _, LargestFreeOrder x => Ok (LargestFreeOrder x)
  | _, _ => Ok Used
  end.

(** * Sizes of the bookkeeping *)

Definition blocks_in_region (pages : Z) : outcome Z :=
  up ← align_up pages MAX_ORDER_PAGES;
  max_order_blocks ← div_u64 up MAX_ORDER_PAGES;
  p ← pow2_u64 (MAX_ORDER + 1);
  p ← sub_u64 p 1;
  mul_u64 max_order_blocks p.

Definition usable_pages (total_pages : Z) : outcome Z :=
  t ← mul_u64 4096 total_pages;
  b ← blocks_in_region total_pages;
  d ← sub_u64 t b;
  q ← div_u64 d (size_of_PageInfo + 4096);
  sub_u64 q 2.

(** The zeroed bytes of the reserved region, seen as blocks: a zero byte is
    [Block::Used] (test [block_repr]). *)
Definition new_blocks_for_region (region : Region) (usable_pages : Z) : outcome (list Block) :=
  block_count ← blocks_in_region usable_pages;
  bytes ← mul_u64 block_count size_of_Block;
  layout ← unwrap (from_size_align bytes align_of_Block);
  '(ptr, _) ← bump_alloc (from_region region) layout;
  ptr ← unwrap ptr;
  down ← align_down ptr PAGE_SIZE;
  _ ← debug_assert (ptr =? down);
  Ok (replicate (Z.to_nat block_count) Used).

(** * [impl Zone] *)

(** The loop of [split_region]: [n] layers are left, [order] counts up from
    zero; the first layer cut off is the last of the result. *)
Fixpoint split_layers (n : nat) (order max_order_blocks : Z) (blocks : list Block)
    (tmp : OrderList) : outcome OrderList :=
  match n with
  | O => Ok tmp
  | S n' =>
      p ← pow2_u64 order;
      blocks_in_layer ← mul_u64 max_order_blocks p;
      '(lhs, rhs) ← split_at_slice blocks blocks_in_layer;
      split_layers n' (order + 1) max_order_blocks rhs (lhs :: tmp)
  end.

Definition split_region (num_pages : Z) (blocks : list Block) : outcome OrderList :=
  up ← align_up num_pages MAX_ORDER_PAGES;
  max_order_blocks ← div_u64 up MAX_ORDER_PAGES;
  split_layers (Z.to_nat (MAX_ORDER + 1)) 0 max_order_blocks blocks [].

(** [for block in list.iter_mut().take(n) { *block = b }] *)
Definition fill (n : Z) (b : Block) (l : list Block) : list Block :=
  replicate (Z.to_nat n `min` length l) b ++ drop (Z.to_nat n) l.

(** The first loop of [Zone::new]. *)
Fixpoint init_orders (order blocks_in_order : Z) (ol : OrderList) : outcome OrderList :=
  match ol with
  | [] => Ok []
  | l :: ol' =>
      b ← from_order order;
      rest ← init_orders (order + 1) (blocks_in_order / 2 + (if blocks_in_order mod 2 =? 0 then 0 else 1)) ol';
      Ok (fill blocks_in_order b l :: rest)
  end.

(** The second loop of [Zone::new]: [list[0] = Block::from_order(largest)]. *)
Fixpoint set_heads (largest : Z) (ol : OrderList) : outcome OrderList :=
  match ol with
  | [] => Ok []
  | l :: ol' =>
      b ← from_order largest;
      l' ← index_set l 0 b;
      rest ← set_heads largest ol';
      Ok (l' :: rest)
  end.

Definition Zone_new (addr size : Z) (blocks : list Block) : outcome Zone :=
  let num_pages := size / PAGE_SIZE in
  ol ← split_region num_pages blocks;
  ol ← init_orders 0 num_pages ol;
  np2 ← next_power_of_two num_pages;
  let largest_order := Z.min (trailing_zeros 64 np2) (MAX_ORDER + 1) in
  '(low, high) ← split_at_slice ol largest_order;
  high ← set_heads largest_order high;
  let start_frame := containing_address addr in
  end_frame ← PhysFrame_add start_frame num_pages;
  Ok (mkZone (mkRange start_frame end_frame) num_pages (low ++ high)).

(** [self.order_list[o][i]] read and written. *)
Definition read_node (ol : OrderList) (o i : Z) : outcome Block :=
  l ← index ol o; index l i.

Definition write_node (ol : OrderList) (o i : Z) (b : Block) : outcome OrderList :=
  l ← index ol o;
  l' ← index_set l i b;
  index_set ol o l'.

(** The loop of [update_tree]: [n] orders are left, from [current_order] up. *)
Fixpoint update_loop (n : nat) (current_order idx : Z) (ol : OrderList) : outcome OrderList :=
  match n with
  | O => Ok ol
  | S n' =>
      let left_idx := Z.land idx (bitnot 64 1) in
      left ← read_node ol (current_order - 1) left_idx;
      right_idx ← add_u64 left_idx 1;
      right ← read_node ol (current_order - 1) right_idx;
      b ← parent_state left right;
      ol ← write_node ol current_order (idx / 2) b;
      update_loop n' (current_order + 1) (idx / 2) ol
  end.

Definition update_tree (ol : OrderList) (start_order idx : Z) : outcome OrderList :=
  first ← add_u8 start_order 1;
  update_loop (Z.to_nat (MAX_ORDER - start_order)) first idx ol.

(** [iter().enumerate().find(|(_, blk)| blk.larger_than(order))] *)
Fixpoint find_top (order : Z) (l : list Block) (i : Z) : option Z :=
  match l with
  | [] => None
  | b :: l' => if larger_than b order then Some i else find_top order l' (i + 1)
  end.

(** The descent of [alloc]: orders [order + n - 1] down to [order]. *)
Fixpoint descend (n : nat) (order idx : Z) (ol : OrderList) : outcome Z :=
  match n with
  | O => Ok idx
  | S n' =>
      let current_order := order + Z.of_nat n' in
      idx ← mul_u64 idx 2;
      left ← read_node ol current_order idx;
      if larger_than left order then descend n' order idx ol
      else
        idx1 ← add_u64 idx 1;
        right ← read_node ol current_order idx1;
        if larger_than right order then descend n' order idx1 ol
        else Panic PanicUnreachable
  end.

Definition Zone_alloc (self : Zone) (order : Z) :
    outcome (option (PhysFrameRange * MemSet) * Zone) :=
  top ← index (order_list self) MAX_ORDER;
  match find_top order top 0 with
  | None => Ok (None, self)
  | Some idx =>
      idx ← descend (Z.to_nat (MAX_ORDER - order)) order idx (order_list self);
      ol ← write_node (order_list self) order idx Used;
      ol ← update_tree ol order idx;
      p ← pow2_u64 order;
      n ← mul_u64 p idx;
      start_frame ← PhysFrame_add (range_start (zpages self)) n;
      idx1 ← add_u64 idx 1;
      n1 ← mul_u64 p idx1;
      end_frame ← PhysFrame_add (range_start (zpages self)) n1;
      page ← phys_to_kernel_virt (start_address start_frame);
      len ← mul_u64 PAGE_SIZE p;
      Ok (Some (mkRange start_frame end_frame, mkMemSet page clear_byte len),
          mkZone (zpages self) (znum_pages self) ol)
  end.

Definition Zone_free (self : Zone) (range : PhysFrameRange) : outcome Zone :=
  len ← PhysAddr_sub (start_address (range_end range)) (start_address (range_start range));
  let order := trailing_zeros 64 len in
  _ ← debug_assert (order <=? MAX_ORDER);
  _ ← debug_assert (start_address (range_start (zpages self)) <=? start_address (range_start range));
  _ ← debug_assert (start_address (range_end range) <=? start_address (range_end (zpages self)));
  frames ← PhysFrame_sub (range_start range) (range_start (zpages self));
  idx ← div_u64 frames len;
  _ ← (if debug_assertions then
         blk ← read_node (order_list self) order idx;
         debug_assert (bool_decide (blk = Used))
       else Ok tt);
  b ← from_order order;
  ol ← write_node (order_list self) order idx b;
  ol ← update_tree ol order idx;
  Ok (mkZone (zpages self) (znum_pages self) ol).

(** * [impl PhysAllocator]: [None] before [init] *)

Abbreviation PhysAllocator := (option (list Zone)).

Definition PhysAllocator_new : PhysAllocator := None.

(** The loop of [init]; [fuel] bounds the regions the iterator can yield. *)
Fixpoint init_loop (fuel : nat) (it : list Region) (zones : list Zone) : outcome (list Zone) :=
  match fuel with
  | O => Ok zones
  | S fuel' =>
      match next it with
      | (None, _) => Ok zones
      | (Some rg, it) =>
          let pages_in_rg := size rg / PAGE_SIZE in
          usable ← usable_pages pages_in_rg;
          if usable <=? 1 then init_loop fuel' it zones
          else
            d ← sub_u64 pages_in_rg usable;
            off ← mul_u64 d PAGE_SIZE;
            '(reserved, usable_rg) ← split_at rg off;
            sz ← align_down (size usable_rg) PAGE_SIZE;
            blocks ← new_blocks_for_region reserved usable;
            zone ← Zone_new (addr usable_rg) sz blocks;
            zones ← av_push MAX_ZONES zones zone;
            _ ← assert_ (Z.land (addr usable_rg) (PAGE_SIZE - 1) =? 0);
            init_loop fuel' it zones
      end
  end.

Definition PhysAllocator_init (map : MemoryMap) : outcome PhysAllocator :=
  let it := into_iter map in
  Some <$> init_loop (S (length it)) it [].

(** The loop of [PhysAllocator::alloc] over the zones. *)
Fixpoint alloc_zones (order : Z) (zones : list Zone) :
    outcome (option (PhysFrameRange * MemSet) * list Zone) :=
  match zones with
  | [] => Ok (None, [])
  | zone :: zones' =>
      '(r, zone) ← Zone_alloc zone order;
      match r with
      | Some range => Ok (Some range, zone :: zones')
      | None =>
          '(r, zones') ← alloc_zones order zones';
          Ok (r, zone :: zones')
      end
  end.

Definition PhysAllocator_alloc (self : PhysAllocator) (order : Z) :
    outcome (PhysFrameRange * MemSet * PhysAllocator) :=
  _ ← debug_assert (order <=? MAX_ORDER);
  zones ← unwrap self;
  '(r, zones) ← alloc_zones order zones;
  match r with
  | Some range => Ok (range, Some zones)
  | None => Panic PanicExplicit
  end.

Fixpoint free_zones (range : PhysFrameRange) (zones : list Zone) : outcome (list Zone) :=
  match zones with
  | [] => Panic PanicExplicit
  | zone :: zones' =>
      if (start_address (range_start (zpages zone)) <=? start_address (range_start range))
         && (start_address (range_end range) <=? start_address (range_end (zpages zone)))
      then
        zone ← Zone_free zone range;
        Ok (zone :: zones')
      else
        zones' ← free_zones range zones';
        Ok (zone :: zones')
  end.

Definition PhysAllocator_free (self : PhysAllocator) (range : PhysFrameRange) :
    outcome PhysAllocator :=
  zones ← unwrap self;
  Some <$> free_zones range zones.

End code.
