(* ===== verification/PmmRefinement.v ===== *)
(** The zones of [src/mm/pmm.rs] implement the buddy trees of [Buddy].

    [rep ol h i t]: the entry [i] of order [h] and the entries below it
    describe the tree [t].  The main lemma follows [Zone::alloc] down the
    summaries and back up ([descend], [write_node], [update_loop]) and shows
    that the arrays it leaves describe the tree that [talloc] returns. *)
From S2P Require Import Prelude X86 Layout Mm Region Buddy Pmm.

(** The summary of a subtree as the code stores it. *)
Definition enc (m : option nat) : Block :=
  match m with Some m => LargestFreeOrder (Z.of_nat m + 1) | None => Used end.

Definition node (ol : OrderList) (o i : nat) : option Block := ol !! o ≫= (.!! i).

Inductive rep (ol : OrderList) : nat → nat → buddy → Prop :=
  | rep_taken h i : node ol h i = Some Used → rep ol h i Taken
  | rep_leaf i : node ol 0 i = Some (enc (Some 0%nat)) → rep ol 0 i Free
  | rep_free h i :
      node ol (S h) i = Some (enc (Some (S h))) →
      rep ol h (2 * i) Free → rep ol h (2 * i + 1) Free → rep ol (S h) i Free
  | rep_split h i l r :
      node ol (S h) i = Some (enc (largest (S h) (Split l r))) →
      rep ol h (2 * i) l → rep ol h (2 * i + 1) r → rep ol (S h) i (Split l r).

(** Entry [i'] of order [o] belongs to the subtree of entry [i] of order [h]. *)
Definition below (h i o i' : nat) : Prop := (o ≤ h ∧ i' / 2 ^ (h - o) = i)%nat.

Definition same_outside (h i : nat) (ol ol' : OrderList) : Prop :=
  ∀ o i', ¬ below h i o i' → node ol' o i' = node ol o i'.

Definition same_shape (ol ol' : OrderList) : Prop :=
  ∀ o : nat, length <$> ol' !! o = length <$> ol !! o.

(** The order list describes a row of trees at the top order. *)
Definition rep_row (ol : OrderList) (ts : list buddy) : Prop :=
  length <$> ol !! 11%nat = Some (length ts) ∧
  ∀ i t, ts !! i = Some t → rep ol 11 i t.

(** The physical frames of block [i] of order [k] in memory that starts at [s]. *)
Definition block_range (s : Z) (k : nat) (i : Z) : PhysFrameRange :=
  mkRange (mkFrame (s + FRAME_SIZE * (pages k * i)))
          (mkFrame (s + FRAME_SIZE * (pages k * (i + 1)))).

Definition zone_start (z : Zone) : Z := start_address (range_start (zpages z)).

(** A zone that describes the row of trees [ts], in direct-mapped memory. *)
Definition zone_rep (z : Zone) (ts : list buddy) : Prop :=
  rep_row (order_list z) ts ∧ Forall (tree_ok 11) ts ∧
  frame_ok (range_start (zpages z)) ∧
  zone_start z + FRAME_SIZE * (Z.of_nat (length ts) * pages 11) < 2 ^ 47.

(** * Lemmas on entries *)

Lemma below_self h i : below h i h i.
Proof. split; [done|]. by rewrite Nat.sub_diag, Nat.div_1_r. Qed.

Lemma below_child h i c o i' : (c / 2 = i)%nat → below h c o i' → below (S h) i o i'.
Proof.
  intros Hc [Ho Hi]. split; [lia|]. rewrite Nat.sub_succ_l by done.
  rewrite Nat.pow_succ_r', Nat.mul_comm, <-Nat.Div0.div_div, Hi. done.
Qed.

Lemma below_inj h i j o i' : below h i o i' → below h j o i' → i = j.
Proof. intros [_ <-] [_ <-]. done. Qed.

Lemma child_half i : ((2 * i) / 2 = i ∧ (2 * i + 1) / 2 = i)%nat.
Proof. split; symmetry; [apply (Nat.div_unique _ _ _ 0)|apply (Nat.div_unique _ _ _ 1)]; lia. Qed.

Lemma read_node_ok ol o i b :
  node ol o i = Some b → read_node ol (Z.of_nat o) (Z.of_nat i) = Ok b.
Proof.
  unfold node, read_node. destruct (ol !! o) as [l|] eqn:Eo; simpl; [|done]. intros Hi.
  rewrite (index_lookup ol _ l) by (rewrite ?Nat2Z.id; lia || done). simpl.
  by apply index_lookup; [lia|rewrite Nat2Z.id].
Qed.

Lemma write_node_ok ol o i b0 b :
  node ol o i = Some b0 →
  ∃ ol', write_node ol (Z.of_nat o) (Z.of_nat i) b = Ok ol' ∧
    node ol' o i = Some b ∧ same_shape ol ol' ∧
    ∀ o' i', (o', i') ≠ (o, i) → node ol' o' i' = node ol o' i'.
Proof.
  unfold node, write_node. destruct (ol !! o) as [l|] eqn:Eo; simpl; [|done]. intros Hi.
  apply lookup_lt_Some in Hi as Hlen. apply lookup_lt_Some in Eo as Hlen'.
  rewrite (index_lookup ol _ l) by (rewrite ?Nat2Z.id; lia || done). simpl.
  rewrite index_set_ok by lia. simpl. rewrite index_set_ok by lia.
  rewrite !Nat2Z.id. eexists; split; [done|].
  split_and!.
  - rewrite list_lookup_insert_eq by done. simpl. by apply list_lookup_insert_eq.
  - intros o'. destruct (decide (o = o')) as [<-|].
    + rewrite list_lookup_insert_eq, Eo by done. simpl. by rewrite length_insert.
    + by rewrite list_lookup_insert_ne.
  - intros o' i' Hne. destruct (decide (o = o')) as [<-|].
    + rewrite list_lookup_insert_eq, Eo by done. simpl.
      apply list_lookup_insert_ne. congruence.
    + by rewrite list_lookup_insert_ne.
Qed.

(** * Lemmas on the representation *)

Lemma rep_node ol h i t : rep ol h i t → node ol h i = Some (enc (largest h t)).
Proof. by destruct 1. Qed.

Lemma rep_same_inside ol ol' h i t :
  (∀ o i', below h i o i' → node ol' o i' = node ol o i') → rep ol h i t → rep ol' h i t.
Proof.
  intros Heq Hrep. revert Heq.
  induction Hrep as [h i Hn|i Hn|h i Hn Hl IHl Hr IHr|h i l r Hn Hl IHl Hr IHr]; intros Heq.
  - constructor. rewrite Heq; auto using below_self.
  - constructor. rewrite Heq; auto using below_self.
  - pose proof (child_half i) as [? ?]. constructor.
    + rewrite Heq; auto using below_self.
    + apply IHl. intros o i' Hb. by apply Heq, (below_child _ _ (2 * i)).
    + apply IHr. intros o i' Hb. by apply Heq, (below_child _ _ (2 * i + 1)).
  - pose proof (child_half i) as [? ?]. constructor.
    + rewrite Heq; auto using below_self.
    + apply IHl. intros o i' Hb. by apply Heq, (below_child _ _ (2 * i)).
    + apply IHr. intros o i' Hb. by apply Heq, (below_child _ _ (2 * i + 1)).
Qed.

Lemma rep_children ol h i t l r :
  children t = (l, r) → t ≠ Taken → rep ol (S h) i t →
  rep ol h (2 * i) l ∧ rep ol h (2 * i + 1) r.
Proof. intros Hc Ht Hrep. inversion Hrep; simplify_eq/=; done. Qed.

Lemma larger_than_enc m k : larger_than (enc m) (Z.of_nat k) = fits k m.
Proof.
  destruct m as [m|]; simpl; [|done].
  destruct (k <=? m)%nat eqn:E; rewrite ?Nat.leb_le, ?Nat.leb_gt in E;
    [apply Z.ltb_lt|apply Z.ltb_ge]; lia.
Qed.

(** On the trees allocation produces, the parent summary that the code
    computes is the true one. *)
Lemma parent_state_join `{Build} h l r :
  canon h l → canon h r → join l r ≠ Free →
  (∀ m, largest h l = Some m → coarse h (S m) r) →
  parent_state (enc (largest h l)) (enc (largest h r)) = Ok (enc (largest (S h) (join l r))).
Proof.
  intros Hl Hr Hj Hm. rewrite largest_join by done.
  destruct (largest h l) as [a|] eqn:El, (largest h r) as [b|] eqn:Er; simpl; try done.
  pose proof (coarse_largest _ _ _ _ (Hm a eq_refl) Er).
  rewrite (proj2 (Z.eqb_neq _ _)), (proj2 (Z.ltb_ge _ _)) by lia. simpl.
  do 3 f_equal. lia.
Qed.

Lemma same_outside_child h i c ol ol' :
  (c / 2 = i)%nat → same_outside h c ol ol' → same_outside (S h) i ol ol'.
Proof. intros Hc Ho o i' Hb. apply Ho. intros ?. by eapply Hb, below_child. Qed.

Lemma same_outside_trans h i ol1 ol2 ol3 :
  same_outside h i ol1 ol2 → same_outside h i ol2 ol3 → same_outside h i ol1 ol3.
Proof. intros H1 H2 o i' Hb. rewrite H2, H1; done. Qed.

Lemma same_shape_trans ol1 ol2 ol3 :
  same_shape ol1 ol2 → same_shape ol2 ol3 → same_shape ol1 ol3.
Proof. intros H1 H2 o. by rewrite H2, H1. Qed.

(** A subtree is untouched by changes below its sibling. *)
Lemma rep_sibling ol ol' h i j t :
  i ≠ j → same_outside h j ol ol' → rep ol h i t → rep ol' h i t.
Proof.
  intros Hij Ho. apply rep_same_inside. intros o i' Hb. apply Ho.
  intros Hb'. by apply Hij, (below_inj h i j o i').
Qed.

Section refinement.
Context `{Build}.

Lemma update_loop_snoc n cur idx ol :
  0 ≤ idx →
  update_loop (S n) cur idx ol =
    ol' ← update_loop n cur idx ol; update_loop 1 (cur + Z.of_nat n) (idx / pages n) ol'.
Proof.
  revert cur idx ol. induction n as [|n IH]; intros cur idx ol Hidx.
  { cbn [update_loop mbind outcome_bind]. rewrite Z.add_0_r. change (pages 0) with 1.
    by rewrite Z.div_1_r. }
  cbn [update_loop].
  destruct (read_node ol _ _) as [bl|]; [|done]. ok_simpl.
  destruct (add_u64 (Z.land idx _) 1) as [ri|]; [|done]. ok_simpl.
  destruct (read_node ol _ _) as [br|]; [|done]. ok_simpl.
  destruct (parent_state bl br) as [b|]; [|done]. ok_simpl.
  destruct (write_node ol _ _ _) as [ol2|]; [|done]. ok_simpl.
  etrans; [exact (IH (cur + 1) (idx / 2) ol2 ltac:(apply Z.div_pos; lia))|].
  pose proof (pages_pos n). rewrite pages_S, Z.div_div by lia.
  replace (cur + 1 + Z.of_nat n) with (cur + Z.of_nat (S n)) by lia. done.
Qed.

(** One turn of [update_tree]: the parent of two described subtrees. *)
Lemma update_step ol h i c l r b0 :
  rep ol h (2 * i) l → rep ol h (2 * i + 1) r → node ol (S h) i = Some b0 →
  canon h l → canon h r → join l r ≠ Free →
  (∀ m, largest h l = Some m → coarse h (S m) r) →
  (c / 2 = i)%nat → Z.of_nat c < 2 ^ 64 - 1 →
  ∃ ol', update_loop 1 (Z.of_nat (S h)) (Z.of_nat c) ol = Ok ol' ∧
    rep ol' (S h) i (join l r) ∧ same_outside (S h) i ol ol' ∧ same_shape ol ol'.
Proof.
  intros Hl Hr Hn Hcl Hcr Hj Hm Hc Hb. cbn [update_loop].
  assert (Z.of_nat c / 2 = Z.of_nat i) as Hc2 by (rewrite <-Hc, Nat2Z.inj_div; done).
  assert (2 * i ≤ c)%nat by (rewrite <-Hc; apply Nat.Div0.mul_div_le).
  rewrite land_bitnot_1, Hc2 by lia.
  replace (Z.of_nat (S h) - 1) with (Z.of_nat h) by lia.
  replace (2 * Z.of_nat i) with (Z.of_nat (2 * i)) by lia.
  rewrite (read_node_ok _ _ _ _ (rep_node _ _ _ _ Hl)). ok_simpl.
  unfold add_u64. ok_checked.
  replace (Z.of_nat (2 * i) + 1) with (Z.of_nat (2 * i + 1)) by lia.
  rewrite (read_node_ok _ _ _ _ (rep_node _ _ _ _ Hr)). ok_simpl.
  rewrite (parent_state_join h) by done. ok_simpl.
  destruct (write_node_ok ol (S h) i b0 (enc (largest (S h) (join l r))) Hn)
    as (ol' & -> & Hn' & Hsh & Hne). ok_simpl.
  exists ol'. split; [done|]. assert (same_outside (S h) i ol ol') as Hout.
  { intros o i' Hbel. apply Hne. intros [= -> ->]. by apply Hbel, below_self. }
  assert (∀ j t, rep ol h j t → rep ol' h j t) as Hkeep.
  { intros j t. apply rep_same_inside. intros o i' [Ho _]. apply Hne. intros [= -> _]. lia. }
  split; [|done]. destruct l, r; simpl in *; try done; constructor; auto.
Qed.

(** The turns of [update_tree] up to order [h], and one more. *)
Lemma update_parent k h i c idx ol ol1 l r b0 :
  (k ≤ h)%nat →
  (write_node ol (Z.of_nat k) idx Used ≫= update_loop (h - k) (Z.of_nat (S k)) idx) = Ok ol1 →
  same_outside h c ol ol1 → same_shape ol ol1 →
  (c / 2 = i)%nat → 0 ≤ idx → idx / pages (h - k) = Z.of_nat c → Z.of_nat c < 2 ^ 64 - 1 →
  node ol (S h) i = Some b0 → rep ol1 h (2 * i) l → rep ol1 h (2 * i + 1) r →
  canon h l → canon h r → join l r ≠ Free →
  (∀ m, largest h l = Some m → coarse h (S m) r) →
  ∃ ol', (write_node ol (Z.of_nat k) idx Used ≫=
            update_loop (S h - k) (Z.of_nat (S k)) idx) = Ok ol' ∧
    rep ol' (S h) i (join l r) ∧ same_outside (S h) i ol ol' ∧ same_shape ol ol'.
Proof.
  intros Hk Hup Hout Hsh Hc Hidx Hdiv Hb Hn Hl Hr Hcl Hcr Hj Hm.
  destruct (update_step ol1 h i c l r b0) as (ol' & Hstep & Hrep & Hout' & Hsh'); try done.
  { rewrite Hout; [done|]. intros [? _]. lia. }
  exists ol'. rewrite Nat.sub_succ_l by done. split_and!; [|done| |].
  - destruct (write_node ol _ _ _) as [ol0|]; [|done]. cbn [mbind outcome_bind] in *.
    rewrite update_loop_snoc, Hup by done. ok_simpl. rewrite Hdiv.
    replace (Z.of_nat (S k) + Z.of_nat (h - k)) with (Z.of_nat (S h)) by lia. done.
  - by eapply same_outside_trans; [eapply same_outside_child|].
  - by eapply same_shape_trans.
Qed.

(** One turn of the descent. *)
Lemma descend_step k h i t l r ol :
  (k ≤ h)%nat → children t = (l, r) → rep ol h (2 * i) l → rep ol h (2 * i + 1) r →
  2 * Z.of_nat i + 1 < 2 ^ 64 → fits k (largest h l) || fits k (largest h r) = true →
  descend (S h - k) (Z.of_nat k) (Z.of_nat i) ol =
    descend (h - k) (Z.of_nat k)
      (Z.of_nat (if fits k (largest h l) then 2 * i else 2 * i + 1)%nat) ol.
Proof.
  intros Hk Hc Hl Hr Hb Hf. rewrite Nat.sub_succ_l by done. cbn [descend].
  unfold mul_u64, add_u64. ok_checked.
  replace (Z.of_nat k + Z.of_nat (h - k)) with (Z.of_nat h) by lia.
  replace (Z.of_nat i * 2) with (Z.of_nat (2 * i)) by lia.
  rewrite (read_node_ok _ _ _ _ (rep_node _ _ _ _ Hl)). ok_simpl.
  rewrite larger_than_enc. destruct (fits k (largest h l)); [done|].
  ok_checked.
  replace (Z.of_nat (2 * i) + 1) with (Z.of_nat (2 * i + 1)) by lia.
  rewrite (read_node_ok _ _ _ _ (rep_node _ _ _ _ Hr)). ok_simpl.
  rewrite larger_than_enc. simpl in Hf. by rewrite Hf.
Qed.

Lemma ordered_join_inv h l r m :
  ordered (S h) (join l r) → join l r ≠ Free → largest h l = Some m → coarse h (S m) r.
Proof. destruct l, r; simpl; naive_solver. Qed.

Lemma join_not_Free l r : ¬ (l = Free ∧ r = Free) → join l r ≠ Free.
Proof. destruct l, r; naive_solver. Qed.

Lemma tallocs_fits k h t t' i : tallocs k h t t' i → canon h t → fits k (largest h t) = true.
Proof.
  induction 1 as [|h t l r l' i Hk Hc Hf HR IH|h t l r r' i Hk Hc Hf HR IH]; intros Hcan.
  - apply Nat.leb_refl.
  - by rewrite (largest_children h t l r), Hf by done.
  - destruct (canon_children _ _ _ _ Hc Hcan).
    rewrite (largest_children h t l r), IH, orb_true_r by done. done.
Qed.

(** [Zone::alloc] on the subtree of entry [i] at order [h]: the descent finds
    block [idx], and marking it and updating the summaries leaves [t']. *)
Definition alloc_runs (k h i : nat) (ol : OrderList) (idx : Z) (t' : buddy) : Prop :=
  descend (h - k) (Z.of_nat k) (Z.of_nat i) ol = Ok idx ∧
  ∃ ol', (write_node ol (Z.of_nat k) idx Used ≫=
            update_loop (h - k) (Z.of_nat (S k)) idx) = Ok ol' ∧
    rep ol' h i t' ∧ same_outside h i ol ol' ∧ same_shape ol ol'.

(** A run in the child the descent picks is a run in the parent; [l'] and [r']
    are the children afterwards, one of them the old one. *)
Lemma alloc_child k h i t l r l' r' ol idx :
  let left := fits k (largest h l) in
  let c := (if left then 2 * i else 2 * i + 1)%nat in
  (k ≤ h)%nat → children t = (l, r) → t ≠ Taken → rep ol (S h) i t →
  left || fits k (largest h r) = true →
  (Z.of_nat i + 1) * pages (S h - k) < 2 ^ 63 →
  Z.of_nat c * pages (h - k) ≤ idx < (Z.of_nat c + 1) * pages (h - k) →
  alloc_runs k h c ol idx (if left then l' else r') → (if left then r' = r else l' = l) →
  canon h l' → canon h r' → join l' r' ≠ Free → ordered (S h) (join l' r') →
  alloc_runs k (S h) i ol idx (join l' r').
Proof.
  intros left c Hk Hc Ht Hrep Hf Hb Hidx [Hdes (ol1 & Hup & Hrep1 & Hout & Hsh)] Hother Hcl Hcr Hj Hord.
  destruct (rep_children _ _ _ _ _ _ Hc Ht Hrep) as [Hrl Hrr]. pose proof (child_half i) as [Hi1 Hi2].
  pose proof (pages_pos (h - k)). rewrite Nat.sub_succ_l, pages_S in Hb by done.
  split; [rewrite (descend_step k h i t l r) by (done || nia); exact Hdes|].
  assert (Z.of_nat c ≤ 2 * Z.of_nat i + 1) by (subst c; destruct left; lia).
  eapply (update_parent k h i c idx ol ol1); try done.
  - subst c. by destruct left.
  - nia.
  - symmetry. apply Z.div_unique with (r := idx - Z.of_nat c * pages (h - k)); [left|]; lia.
  - nia.
  - by apply rep_node.
  - subst c. destruct left; [done|]. subst l'. eapply rep_sibling; [|done|done]. lia.
  - subst c. destruct left; [|done]. subst r'. eapply rep_sibling; [|done|done]. lia.
  - intros m. by apply ordered_join_inv.
Qed.

(** [Zone::alloc] on a described subtree: descent, marking and update. *)
Lemma alloc_subtree k h t t' j :
  tallocs k h t t' j → ∀ i ol,
  canon h t → ordered h t → rep ol h i t → (Z.of_nat i + 1) * pages (h - k) < 2 ^ 63 →
  alloc_runs k h i ol (Z.of_nat i * pages (h - k) + j) t'.
Proof.
  induction 1 as [|h t l r l' j Hk Hc Hf HR IH|h t l r r' j Hk Hc Hf HR IH];
    intros i ol Hcan Hord Hrep Hb.
  - unfold alloc_runs. rewrite Nat.sub_diag in *. change (pages 0) with 1 in *.
    rewrite Z.mul_1_r, Z.add_0_r. split; [done|].
    destruct (write_node_ok ol k i _ Used (rep_node _ _ _ _ Hrep)) as (ol' & -> & Hn & Hsh & Hne).
    exists ol'. split_and!; [done|by constructor| |done].
    intros o i' Hbel. apply Hne. intros [= -> ->]. by apply Hbel, below_self.
  - destruct (canon_children _ _ _ _ Hc Hcan) as [Hcl Hcr].
    destruct (ordered_children _ _ _ _ Hc Hord) as (Hol & Hor & _).
    assert (t ≠ Taken) as Ht by (intros ->; by simplify_eq/=).
    destruct (rep_children _ _ _ _ _ _ Hc Ht Hrep) as [Hrl Hrr].
    pose proof (tallocs_index _ _ _ _ _ HR). pose proof (pages_pos (h - k)).
    replace (Z.of_nat i * pages (S h - k) + j) with (Z.of_nat (2 * i) * pages (h - k) + j)
      by (rewrite Nat.sub_succ_l, pages_S by done; lia).
    apply (alloc_child k h i t l r l' r); rewrite ?Hf; try done; [nia| | |..].
    + apply IH; try done. rewrite Nat.sub_succ_l, pages_S in Hb by done. nia.
    + by eapply tallocs_canon.
    + apply join_not_Free. intros [? _]. by eapply tallocs_not_Free.
    + by eapply tallocs_ordered; [eapply tallocs_left|..].
  - destruct (canon_children _ _ _ _ Hc Hcan) as [Hcl Hcr].
    destruct (ordered_children _ _ _ _ Hc Hord) as (Hol & Hor & _).
    pose proof (tallocs_fits _ _ _ _ _ HR Hcr) as Hfr.
    assert (t ≠ Taken) as Ht by (intros ->; by simplify_eq/=).
    destruct (rep_children _ _ _ _ _ _ Hc Ht Hrep) as [Hrl Hrr].
    pose proof (tallocs_index _ _ _ _ _ HR). pose proof (pages_pos (h - k)).
    replace (Z.of_nat i * pages (S h - k) + (j + pages (h - k)))
      with (Z.of_nat (2 * i + 1) * pages (h - k) + j)
      by (rewrite Nat.sub_succ_l, pages_S by done; lia).
    apply (alloc_child k h i t l r l r'); rewrite ?Hf; try done; [nia| | |..].
    + apply IH; try done. rewrite Nat.sub_succ_l, pages_S in Hb by done. nia.
    + by eapply tallocs_canon.
    + apply join_not_Free. intros [_ ?]. by eapply tallocs_not_Free.
    + by eapply tallocs_ordered; [eapply tallocs_right|..].
Qed.

End refinement.

(** The search in the top order is the search of [falloc]. *)
Lemma find_top_falloc h k ts b :
  match find_top (Z.of_nat k) ((λ t, enc (largest h t)) <$> ts) b with
  | None => falloc h k ts = None
  | Some x => ∃ (j : nat) t, x = b + Z.of_nat j ∧ ts !! j = Some t ∧ fits k (largest h t) = true ∧
      falloc h k ts = ('(t', i) ← talloc h k t; Some (<[j := t']> ts, Z.of_nat j * pages (h - k) + i))
  end.
Proof.
  revert b. induction ts as [|t ts IH]; intros b; [done|].
  rewrite fmap_cons. cbn [find_top falloc]. rewrite larger_than_enc.
  destruct (fits k (largest h t)) eqn:Ef.
  - exists 0%nat, t. rewrite Z.add_0_r. split_and!; done.
  - specialize (IH (b + 1)). destruct (find_top _ _ (b + 1)) as [x|].
    + destruct IH as (j & t0 & -> & Hj & Hf & ->). exists (S j), t0.
      split_and!; [lia|done|done|]. destruct (talloc h k t0) as [[t' i]|]; [|done]. simpl.
      do 2 f_equal. lia.
    + by rewrite IH.
Qed.

Lemma rep_row_top ol ts :
  rep_row ol ts → ol !! 11%nat = Some ((λ t, enc (largest 11 t)) <$> ts).
Proof.
  intros [Hlen Hrep]. destruct (ol !! 11%nat) as [top|] eqn:Etop; simplify_eq/=.
  f_equal. apply list_eq_same_length with (length ts); [by rewrite length_fmap|done|].
  intros i x y Hi Hx Hy. apply list_lookup_fmap_Some in Hy as (t & -> & Ht).
  apply Hrep, rep_node in Ht. unfold node in Ht. rewrite Etop in Ht. simpl in Ht. congruence.
Qed.

Lemma rep_row_update ol ol' ts i t' :
  rep_row ol ts → rep ol' 11 i t' → same_outside 11 i ol ol' → same_shape ol ol' →
  rep_row ol' (<[i := t']> ts).
Proof.
  intros [Hlen Hrep] Hi Hout Hsh. split.
  - by rewrite length_insert, Hsh.
  - intros j t Hj. destruct (decide (i = j)) as [<-|Hne].
    + apply lookup_lt_Some in Hj as Hlt. rewrite length_insert in Hlt.
      rewrite list_lookup_insert_eq in Hj by done. by simplify_eq.
    + rewrite list_lookup_insert_ne in Hj by done.
      eapply rep_sibling; [|done|by apply Hrep]. done.
Qed.

Section zone.
Context `{Build, HX : X86_64, !X86_64_Laws}.

Lemma Zone_alloc_falloc z ts k :
  zone_rep z ts → (k ≤ 11)%nat →
  match falloc 11 k ts with
  | None => Zone_alloc z (Z.of_nat k) = Ok (None, z)
  | Some (ts', i) => ∃ ol',
      Zone_alloc z (Z.of_nat k) =
        Ok (Some (block_range (zone_start z) k i,
                  mkMemSet (zone_start z + FRAME_SIZE * (pages k * i) + PHYS_OFFSET) clear_byte
                           (FRAME_SIZE * pages k)),
            mkZone (zpages z) (znum_pages z) ol') ∧
      zone_rep (mkZone (zpages z) (znum_pages z) ol') ts'
  end.
Proof.
  intros (Hrow & Hok & Hf & Hb) Hk. unfold Zone_alloc.
  rewrite (index_lookup _ MAX_ORDER _ ltac:(done) (rep_row_top _ _ Hrow)). ok_simpl.
  pose proof (find_top_falloc 11 k ts 0) as Hfind.
  destruct (find_top _ _ 0) as [x|]; [|by rewrite Hfind].
  destruct Hfind as (j & t & -> & Hj & Hfit & ->). rewrite Z.add_0_l.
  pose proof (proj1 (Forall_lookup _ _) Hok _ _ Hj) as [Hcan Hord].
  destruct (talloc_is_Some 11 k t) as [[t' i] Ht]; [done..|]. rewrite Ht. cbn [mbind option_bind].
  apply lookup_lt_Some in Hj as Hlt. apply talloc_tallocs in Ht; [|done].
  pose proof (tallocs_index _ _ _ _ _ Ht) as Hi.
  pose proof (pages_split 11 k Hk) as Hp11. pose proof (pages_pos k). pose proof (pages_pos (11 - k)).
  change (pages 11) with 2048 in *. destruct Hf as [[Hf0 Hf1] Hfa].
  assert (0 ≤ (Z.of_nat j + 1) * 2048 ≤ Z.of_nat (length ts) * 2048) by nia.
  destruct (alloc_subtree k 11 t t' i Ht j (order_list z)) as (Hdes & ol' & Hupd & Hrep & Hout & Hsh);
    [done..|by apply Hrow|unfold zone_start in *; nia|].
  set (idx := Z.of_nat j * pages (11 - k) + i) in *.
  assert (0 ≤ pages k * idx ∧ pages k * (idx + 1) ≤ (Z.of_nat j + 1) * 2048) as [Hidx0 Hidx1]
    by (subst idx; nia).
  replace (Z.to_nat (MAX_ORDER - Z.of_nat k)) with (11 - k)%nat by (unfold MAX_ORDER; lia).
  rewrite Hdes. ok_simpl.
  destruct (write_node (order_list z) _ _ _) as [ol0|]; [|done]. cbn [mbind outcome_bind] in *.
  unfold update_tree, add_u8, pow2_u64, mul_u64, add_u64.
  rewrite (checked_ok 8) by lia. ok_simpl.
  replace (Z.to_nat (MAX_ORDER - Z.of_nat k)) with (11 - k)%nat by (unfold MAX_ORDER; lia).
  replace (Z.of_nat k + 1) with (Z.of_nat (S k)) by lia. rewrite Hupd. ok_simpl.
  fold (pages k). unfold zone_start, phys_ok, PAGE_SIZE in *.
  rewrite (checked_ok 64 (pages k)) by nia. ok_simpl.
  rewrite (checked_ok 64 (pages k * idx)) by lia. ok_simpl.
  rewrite PhysFrame_add_law by (unfold frame_ok, phys_ok; split_and?; done || lia). ok_simpl.
  rewrite (checked_ok 64 (idx + 1)) by nia. ok_simpl.
  rewrite (checked_ok 64 (pages k * (idx + 1))) by nia. ok_simpl.
  rewrite PhysFrame_add_law by (unfold frame_ok, phys_ok; split_and?; done || lia). ok_simpl.
  cbn [start_address].
  rewrite phys_to_kernel_virt_ok by (unfold direct_mapped; nia). ok_simpl.
  rewrite checked_ok by nia. ok_simpl.
  exists ol'. split; [done|]. unfold zone_rep, zone_start. cbn [order_list zpages].
  split_and!; [by eapply rep_row_update| |done..|by rewrite length_insert].
  apply Forall_insert; [done|]. split; [by eapply tallocs_canon|by eapply tallocs_ordered].
Qed.

End zone.
