(* ===== verification/PmmNew.v ===== *)
(** [Zone::new] and [split_region] of [src/mm/pmm.rs]: what the freshly built
    order list holds, and for which zone sizes it describes exactly the pages
    of the zone. *)
From S2P Require Import Prelude X86 Layout Mm Region Buddy Pmm PmmRefinement.

(** Number of order-[o] blocks needed to cover [n] pages. *)
Definition cover (n : Z) (o : nat) : Z := (n + pages o - 1) / pages o.

(** Number of top-order blocks of a zone of [n] pages. *)
Definition top_blocks (n : Z) : Z := cover n 11.

(** The largest order [Zone::new] computes. *)
Definition largest_order (n : Z) : Z := Z.min (Z.log2_up n) 12.

(** The entry [i] of order [o] in a fresh zone of [n] pages. *)
Definition fresh_node (n : Z) (o i : nat) : option Block :=
  if decide ((o < 12)%nat ∧ Z.of_nat i < top_blocks n * pages (11 - o)) then
    Some (if decide (largest_order n ≤ Z.of_nat o ∧ i = 0%nat)
          then LargestFreeOrder (largest_order n + 1)
          else if decide (Z.of_nat i < cover n o)
          then LargestFreeOrder (Z.of_nat o + 1) else Used)
  else None.

(** The tree of a zone whose [2^j] pages fill only the left end of the top block. *)
Fixpoint tower (d : nat) : buddy :=
  match d with O => Free | S d' => Split (tower d') Taken end.

(** * Counting blocks *)

Lemma cover_bounds n o : cover n o * pages o - pages o < n ≤ cover n o * pages o.
Proof.
  unfold cover. pose proof (pages_pos o).
  pose proof (Z.div_mod (n + pages o - 1) (pages o)).
  pose proof (Z.mod_pos_bound (n + pages o - 1) (pages o)). lia.
Qed.

Lemma cover_unique n o c : c * pages o - pages o < n ≤ c * pages o → cover n o = c.
Proof.
  intros Hc. pose proof (cover_bounds n o). pose proof (pages_pos o). nia.
Qed.

Lemma cover_0 n : cover n 0 = n.
Proof. apply cover_unique. change (pages 0) with 1. lia. Qed.

Lemma cover_succ n o : cover (n / 2 + (if n mod 2 =? 0 then 0 else 1)) o = cover n (S o).
Proof.
  symmetry. apply cover_unique. rewrite pages_S.
  set (m := n / 2 + _). assert (2 * m - 1 ≤ n ≤ 2 * m) as Hm.
  { subst m. pose proof (Z.div_mod n 2). pose proof (Z.mod_pos_bound n 2).
    destruct (n mod 2 =? 0) eqn:E; zbool; lia. }
  pose proof (cover_bounds m o). lia.
Qed.

Lemma cover_pos n o : 0 < n → 0 < cover n o.
Proof. intros Hn. pose proof (cover_bounds n o). pose proof (pages_pos o). nia. Qed.

Lemma cover_top n o : 0 < n → (o ≤ 11)%nat → cover n o ≤ top_blocks n * pages (11 - o).
Proof.
  intros Hn Ho. pose proof (cover_bounds n o). pose proof (cover_bounds n 11).
  unfold top_blocks. rewrite (pages_split 11 o Ho) in *. pose proof (pages_pos o). nia.
Qed.

(** * The loops *)

Section loops.
Context `{Build}.

Lemma split_layers_ok n e mob N tmp :
  0 ≤ mob → Z.of_nat n + Z.of_nat e ≤ 12 → mob < 2 ^ 51 →
  mob * (pages (n + e) - pages e) ≤ Z.of_nat N →
  split_layers n (Z.of_nat e) mob (replicate N Used) tmp =
    Ok (((λ x, replicate (Z.to_nat (mob * pages x)) Used) <$> rev (seq e n)) ++ tmp).
Proof.
  intros Hmob. revert e N tmp. induction n as [|n IH]; intros e N tmp He Hlt HN; [done|].
  cbn [split_layers]. unfold pow2_u64, mul_u64. fold (pages e).
  assert (0 < pages e ≤ 2 ^ 12) by (split; [apply pages_pos|apply Z.pow_le_mono_r; lia]).
  ok_checked.
  rewrite checked_ok by nia. ok_simpl.
  assert (pages e ≤ pages (n + e)) by (apply Z.pow_le_mono_r; lia).
  replace (S n + e)%nat with (S (n + e)) in HN by lia. rewrite pages_S in HN.
  rewrite split_at_slice_ok by (rewrite length_replicate; nia). ok_simpl.
  rewrite take_replicate, drop_replicate, Nat.min_l by nia.
  replace (Z.of_nat e + 1) with (Z.of_nat (S e)) by lia.
  rewrite IH; [|lia..|].
  - simpl. rewrite fmap_app, <-app_assoc. done.
  - replace (n + S e)%nat with (S (n + e)) by lia. rewrite !pages_S. nia.
Qed.

Lemma from_order_ok o : 0 ≤ o < 255 → from_order o = Ok (LargestFreeOrder (o + 1)).
Proof. intros. unfold from_order, add_u8. by rewrite checked_ok by lia. Qed.

Lemma init_orders_ok o n ol :
  0 < n → (o + length ol < 255)%nat →
  init_orders (Z.of_nat o) n ol =
    Ok (imap (λ i l, fill (cover n i) (LargestFreeOrder (Z.of_nat (o + i) + 1)) l) ol).
Proof.
  revert o n. induction ol as [|l ol IH]; intros o n Hn Ho; [done|]. simpl in Ho.
  cbn [init_orders]. rewrite from_order_ok by lia. ok_simpl.
  replace (Z.of_nat o + 1) with (Z.of_nat (S o)) by lia.
  rewrite IH; [|pose proof (Z.div_mod n 2); destruct (n mod 2 =? 0) eqn:E; zbool;
                pose proof (Z.mod_pos_bound n 2); lia|lia].
  cbn [mbind outcome_bind imap]. rewrite cover_0, Nat.add_0_r.
  f_equal. f_equal.
  { by replace (Z.of_nat o + 1) with (Z.of_nat (S o)) by lia. }
  apply imap_ext. intros i l' _. cbn. rewrite cover_succ.
  by replace (Z.of_nat (o + S i)) with (Z.of_nat (S o + i)) by lia.
Qed.

Lemma set_heads_ok L ol :
  0 ≤ L < 255 → Forall (λ l, l ≠ []) ol →
  set_heads L ol = Ok ((λ l, <[0%nat := LargestFreeOrder (L + 1)]> l) <$> ol).
Proof.
  intros HL. induction 1 as [|l ol Hl Hol IH]; [done|].
  cbn [set_heads]. rewrite from_order_ok by done. ok_simpl.
  destruct l as [|b l]; [done|]. rewrite index_set_ok by (simpl; lia). ok_simpl.
  rewrite IH. done.
Qed.

End loops.

Lemma pages_le a b : (a ≤ b)%nat → pages a ≤ pages b.
Proof. intros. apply Z.pow_le_mono_r; lia. Qed.

Lemma fill_lookup n b l i :
  0 ≤ n ≤ Z.of_nat (length l) →
  fill n b l !! i = (if decide (Z.of_nat i < n) then Some b else l !! i).
Proof.
  intros Hn. unfold fill. rewrite Nat.min_l by lia. case_decide.
  - rewrite lookup_app_l by (rewrite length_replicate; lia). apply lookup_replicate_2. lia.
  - rewrite lookup_app_r by (rewrite length_replicate; lia).
    rewrite length_replicate, lookup_drop. f_equal. lia.
Qed.

(** The order lists as cut by [split_region]. *)
Definition layer (n : Z) (o : nat) : list Block :=
  replicate (Z.to_nat (top_blocks n * pages (11 - o))) Used.

(** The order lists after the first loop of [Zone::new]. *)
Definition filled_layers (n : Z) : OrderList :=
  imap (λ i l, fill (cover n i) (LargestFreeOrder (Z.of_nat i + 1)) l) (layer n <$> seq 0 12).

(** The list of order [o] after the two loops of [Zone::new]. *)
Definition fresh_layer (n : Z) (o : nat) : list Block :=
  let l := fill (cover n o) (LargestFreeOrder (Z.of_nat o + 1)) (layer n o) in
  if decide (largest_order n ≤ Z.of_nat o)
  then <[0%nat := LargestFreeOrder (largest_order n + 1)]> l else l.

Definition fresh_order_list (n : Z) : OrderList := fresh_layer n <$> seq 0 12.

Lemma length_layer n o : 0 < n → length (layer n o) = Z.to_nat (top_blocks n * pages (11 - o)).
Proof. intros. apply length_replicate. Qed.

Lemma fresh_layer_lookup n o i :
  0 < n → (o ≤ 11)%nat → fresh_layer n o !! i = fresh_node n o i.
Proof.
  intros Hn Ho. pose proof (cover_pos n o Hn). pose proof (cover_top n o Hn Ho).
  unfold fresh_layer, fresh_node.
  assert (∀ j, fill (cover n o) (LargestFreeOrder (Z.of_nat o + 1)) (layer n o) !! j =
    if decide (Z.of_nat j < cover n o) then Some (LargestFreeOrder (Z.of_nat o + 1))
    else layer n o !! j) as Hfill.
  { intros j. apply fill_lookup. rewrite length_layer by done. lia. }
  assert (∀ j, layer n o !! j =
    if decide (Z.of_nat j < top_blocks n * pages (11 - o)) then Some Used else None) as Hlay.
  { intros j. unfold layer. case_decide.
    - apply lookup_replicate_2. lia.
    - apply lookup_ge_None_2. rewrite length_replicate. lia. }
  destruct (decide (largest_order n ≤ Z.of_nat o)) as [HL|HL]; [destruct (decide (i = 0%nat)) as [->|Hi]|].
  - rewrite list_lookup_insert_eq.
    + rewrite !decide_True by (split_and?; lia). done.
    + unfold fill. rewrite length_app, length_replicate, length_layer by done. lia.
  - rewrite list_lookup_insert_ne, Hfill, Hlay by done.
    repeat case_decide; try done; lia.
  - rewrite Hfill, Hlay. repeat case_decide; try done; lia.
Qed.

Lemma largest_order_ok `{Build} n :
  0 < n < 2 ^ 52 →
  ∃ np2, next_power_of_two n = Ok np2 ∧ Z.min (trailing_zeros 64 np2) (MAX_ORDER + 1) = largest_order n.
Proof.
  intros Hn. assert (0 ≤ Z.log2_up n ≤ 52).
  { split; [apply Z.log2_up_nonneg|]. rewrite <-(Z.log2_up_pow2 52) by lia. apply Z.log2_up_le_mono. lia. }
  exists (2 ^ Z.log2_up n). split.
  - unfold next_power_of_two. destruct (n <=? 1) eqn:E; zbool.
    + by replace n with 1 by lia.
    + apply checked_ok. split; [apply Z.pow_nonneg; lia|apply Z.pow_lt_mono_r; lia].
  - by rewrite trailing_zeros_pow2 by lia.
Qed.

Lemma length_filled_layers n : length (filled_layers n) = 12%nat.
Proof. unfold filled_layers. by rewrite length_imap, length_fmap, length_seq. Qed.

Lemma fresh_layers n :
  0 < n →
  take (Z.to_nat (largest_order n)) (filled_layers n) ++
    ((λ l, <[0%nat := LargestFreeOrder (largest_order n + 1)]> l) <$>
       drop (Z.to_nat (largest_order n)) (filled_layers n))
    = fresh_order_list n.
Proof.
  intros Hn. unfold fresh_order_list. set (ol := filled_layers n). set (L := Z.to_nat (largest_order n)). assert (0 ≤ largest_order n ≤ 12).
  { unfold largest_order. pose proof (Z.log2_up_nonneg n). lia. }
  assert (length ol = 12%nat) as Hlen by (by apply length_filled_layers).
  assert (∀ o, (o < 12)%nat → ol !! o =
    Some (fill (cover n o) (LargestFreeOrder (Z.of_nat o + 1)) (layer n o))) as Hol.
  { intros o Ho. subst ol. unfold filled_layers. rewrite list_lookup_imap, list_lookup_fmap, lookup_seq_lt by done. done. }
  apply list_eq_same_length with 12%nat.
  { by rewrite length_fmap, length_seq. }
  { rewrite length_app, length_fmap, length_take, length_drop, Hlen. lia. }
  intros o x y Ho. rewrite list_lookup_fmap, lookup_seq_lt by done. simpl.
  unfold fresh_layer. destruct (decide (largest_order n ≤ Z.of_nat o)).
  - rewrite lookup_app_r by (rewrite length_take, Hlen; lia).
    rewrite list_lookup_fmap, lookup_drop, length_take, Hlen.
    replace (L + (o - L `min` 12))%nat with o by lia. rewrite Hol by done. simpl. congruence.
  - rewrite lookup_app_l by (rewrite length_take, Hlen; lia).
    rewrite lookup_take_lt, Hol by lia. congruence.
Qed.

Lemma init_filled_layers `{Build} n :
  0 < n → init_orders 0 n (layer n <$> seq 0 12) = Ok (filled_layers n).
Proof. intros Hn. apply (init_orders_ok 0 n); [done|rewrite length_fmap, length_seq; lia]. Qed.

Lemma filled_nonempty n : 0 < n → Forall (λ l, l ≠ []) (filled_layers n).
Proof.
  intros Hn. unfold filled_layers. apply Forall_lookup. intros o l. rewrite list_lookup_imap, list_lookup_fmap.
  destruct (decide (o < 12)%nat); [rewrite lookup_seq_lt by done|].
  - intros [= <-]. simpl. intros Hnil. apply (f_equal length) in Hnil. revert Hnil.
    unfold fill. rewrite length_app, length_replicate, length_layer by done.
    pose proof (cover_pos n o Hn). pose proof (cover_top n o Hn ltac:(lia)). simpl. lia.
  - rewrite lookup_ge_None_2 by (rewrite length_seq; lia). done.
Qed.

Section zone_new.
Context `{Build, HX : X86_64, !X86_64_Laws}.

Lemma align_up_2048 n : 0 < n < 2 ^ 52 → align_up n MAX_ORDER_PAGES = Ok (top_blocks n * 2048).
Proof. intros Hn. change MAX_ORDER_PAGES with (2 ^ 11). rewrite align_up_spec by lia. done. Qed.

Lemma top_blocks_bounds n : 0 < n → 0 < top_blocks n ∧ top_blocks n * 2048 - 2048 < n ≤ top_blocks n * 2048.
Proof. intros. split; [by apply cover_pos|apply (cover_bounds n 11)]. Qed.

Lemma split_region_ok n N :
  0 < n < 2 ^ 52 → top_blocks n * 4095 ≤ Z.of_nat N →
  split_region n (replicate N Used) = Ok (layer n <$> seq 0 12).
Proof.
  intros Hn HN. unfold split_region. rewrite align_up_2048 by done. ok_simpl.
  rewrite div_u64_ok by done. ok_simpl.
  change MAX_ORDER_PAGES with 2048. rewrite Z.div_mul by done.
  destruct (top_blocks_bounds n); [lia|].
  change (Z.to_nat (MAX_ORDER + 1)) with 12%nat. change 0 with (Z.of_nat 0) at 1.
  rewrite split_layers_ok; [|lia..|]; [by rewrite app_nil_r|].
  change (pages (12 + 0) - pages 0) with 4095. lia.
Qed.

(** The steps of [Zone::new] put together. *)
Lemma Zone_new_steps a sz blocks n ol1 ol2 np2 L low high high' f e :
  sz / PAGE_SIZE = n → split_region n blocks = Ok ol1 → init_orders 0 n ol1 = Ok ol2 →
  next_power_of_two n = Ok np2 → Z.min (trailing_zeros 64 np2) (MAX_ORDER + 1) = L →
  split_at_slice ol2 L = Ok (low, high) → set_heads L high = Ok high' →
  containing_address a = f → PhysFrame_add f n = Ok e →
  Zone_new a sz blocks = Ok (mkZone (mkRange f e) n (low ++ high')).
Proof.
  intros Hn H1 H2 H3 H4 H5 H6 H7 H8. unfold Zone_new. rewrite Hn, H1. ok_simpl.
  rewrite H2. ok_simpl. rewrite H3. ok_simpl. rewrite H4, H5.
  ok_simpl. rewrite H6. ok_simpl. rewrite H7, H8. done.
Qed.

Lemma Zone_new_ok a n N :
  0 < n → top_blocks n * 4095 ≤ Z.of_nat N → 0 ≤ a → aligned a FRAME_SIZE →
  a + FRAME_SIZE * n < 2 ^ 47 →
  Zone_new a (n * PAGE_SIZE) (replicate N Used) =
    Ok (mkZone (mkRange (mkFrame a) (mkFrame (a + FRAME_SIZE * n))) n (fresh_order_list n)).
Proof.
  intros Hn HN Ha Hal Hb. destruct (top_blocks_bounds n Hn).
  destruct (largest_order_ok n) as (np2 & Hnp & HL); [lia|].
  assert (0 ≤ largest_order n ≤ 12).
  { unfold largest_order. pose proof (Z.log2_up_nonneg n). lia. }
  rewrite <-fresh_layers by done. eapply Zone_new_steps.
  - by apply Z.div_mul.
  - apply split_region_ok; lia.
  - by apply init_filled_layers.
  - exact Hnp.
  - exact HL.
  - apply split_at_slice_ok. rewrite length_filled_layers. lia.
  - apply set_heads_ok; [lia|by apply Forall_drop, filled_nonempty].
  - apply containing_address_aligned; [unfold phys_ok; lia|done].
  - apply PhysFrame_add_law; [split; [unfold phys_ok; simpl; lia|done]|lia|unfold phys_ok; simpl; lia].
Qed.

End zone_new.

(** * Which zones a fresh order list describes *)

Lemma node_fresh n o i :
  0 < n → node (fresh_order_list n) o i = fresh_node n o i.
Proof.
  intros Hn. unfold node, fresh_order_list. rewrite list_lookup_fmap. destruct (decide (o < 12)%nat).
  - rewrite lookup_seq_lt by done. simpl. apply fresh_layer_lookup; [done|lia].
  - rewrite lookup_ge_None_2 by (rewrite length_seq; lia). simpl.
    unfold fresh_node. by rewrite decide_False by naive_solver lia.
Qed.

(** Sizes for which the blocks of every order fit exactly: multiples of the
    largest block and powers of two below it. *)
Inductive exact_size : Z → list buddy → Prop :=
  | exact_mult m : (0 < m)%nat → exact_size (Z.of_nat m * 2048) (replicate m Free)
  | exact_pow j : (j ≤ 11)%nat → exact_size (pages j) [tower (11 - j)].

Lemma rep_Free_all ol h i :
  (∀ o i', below h i o i' → node ol o i' = Some (enc (Some o))) → rep ol h i Free.
Proof.
  revert i. induction h as [|h IH]; intros i Hall.
  - constructor. apply Hall, below_self.
  - pose proof (child_half i) as [? ?].
    constructor; [apply Hall, below_self|apply IH..]; intros o i' Hb; apply Hall.
    + by apply (below_child _ _ (2 * i)).
    + by apply (below_child _ _ (2 * i + 1)).
Qed.

Lemma below_bounds h i o i' :
  below h i o i' → Z.of_nat i * pages (h - o) ≤ Z.of_nat i' < (Z.of_nat i + 1) * pages (h - o).
Proof.
  intros [Ho Hi]. unfold pages.
  assert (Z.of_nat i' / 2 ^ Z.of_nat (h - o) = Z.of_nat i) as Hz.
  { rewrite <-Hi, Nat2Z.inj_div, Nat2Z.inj_pow. done. }
  pose proof (Z.pow_pos_nonneg 2 (Z.of_nat (h - o))).
  pose proof (Z.div_mod (Z.of_nat i') (2 ^ Z.of_nat (h - o))).
  pose proof (Z.mod_pos_bound (Z.of_nat i') (2 ^ Z.of_nat (h - o))). nia.
Qed.

Lemma fresh_mult m o i :
  (0 < m)%nat → (o ≤ 11)%nat → Z.of_nat i < Z.of_nat m * pages (11 - o) →
  fresh_node (Z.of_nat m * 2048) o i = Some (enc (Some o)).
Proof.
  intros Hm Ho Hi. unfold fresh_node, top_blocks.
  rewrite (cover_unique _ 11 (Z.of_nat m)) by (change (pages 11) with 2048; lia).
  rewrite (cover_unique _ o (Z.of_nat m * pages (11 - o))).
  2:{ rewrite <-Z.mul_assoc, <-pages_split by done. change (pages 11) with 2048.
      pose proof (pages_pos o). lia. }
  rewrite decide_True by (split; [lia|done]). f_equal.
  destruct (decide (largest_order _ ≤ _ ∧ _)) as [[HL ->]|]; [|by rewrite decide_True].
  unfold largest_order in *. simpl. f_equal.
  assert (11 ≤ Z.log2_up (Z.of_nat m * 2048)).
  { rewrite <-(Z.log2_up_pow2 11) by lia. apply Z.log2_up_le_mono. lia. }
  lia.
Qed.

Lemma fresh_pow j o i :
  (j ≤ 11)%nat → (o ≤ 11)%nat → Z.of_nat i < pages (11 - o) →
  fresh_node (pages j) o i =
    Some (if decide (Z.of_nat i < pages (j - o)) then enc (Some (o `min` j)%nat) else Used).
Proof.
  intros Hj Ho Hi. unfold fresh_node, top_blocks. pose proof (pages_pos j).
  pose proof (pages_le j 11 Hj).
  rewrite (cover_unique _ 11 1) by (change (pages 11) with 2048 in *; lia).
  assert (cover (pages j) o = pages (j - o)) as ->.
  { apply cover_unique. destruct (decide (o ≤ j)%nat).
    - rewrite <-pages_split by done. pose proof (pages_pos o). lia.
    - replace (j - o)%nat with 0%nat by lia. change (pages 0) with 1.
      pose proof (pages_le j o ltac:(lia)). lia. }
  rewrite decide_True by (split; [lia|lia]). f_equal.
  assert (largest_order (pages j) = Z.of_nat j) as ->.
  { unfold largest_order, pages. rewrite Z.log2_up_pow2 by lia. lia. }
  pose proof (pages_pos (j - o)).
  destruct (decide (Z.of_nat j ≤ Z.of_nat o ∧ i = 0%nat)) as [[? ->]|Hn].
  - rewrite decide_True by lia. simpl. by rewrite Nat.min_r by lia.
  - case_decide; [|done]. simpl. destruct (decide (o ≤ j)%nat); [by rewrite Nat.min_l by lia|].
    destruct Hn. replace (j - o)%nat with 0%nat in * by lia. change (pages 0) with 1 in *. lia.
Qed.

Lemma largest_tower j d : largest (j + d) (tower d) = Some j.
Proof.
  induction d as [|d IH]; simpl; [f_equal; lia|].
  rewrite Nat.add_succ_r. simpl. by rewrite IH.
Qed.

Lemma tree_ok_tower j d : tree_ok (j + d) (tower d).
Proof.
  induction d as [|d [IHc IHo]]; [done|]. rewrite Nat.add_succ_r. split; simpl.
  - split_and!; [lia|done|done|naive_solver].
  - done.
Qed.

Lemma free_page_tower j d p : 0 ≤ p → free_page (j + d) (tower d) p = (p <? pages j) || bool_decide (d = 0%nat).
Proof.
  intros Hp. revert p Hp. induction d as [|d IH]; intros p Hp; [by rewrite orb_true_r|].
  rewrite Nat.add_succ_r, bool_decide_false, orb_false_r by done. simpl.
  pose proof (pages_le j (j + d) ltac:(lia)).
  destruct (p <? pages (j + d)) eqn:E; zbool.
  - rewrite IH by done. destruct (decide (d = 0%nat)) as [->|].
    + rewrite Nat.add_0_r in E. by rewrite (proj2 (Z.ltb_lt _ _)).
    + by rewrite bool_decide_false, orb_false_r.
  - symmetry. apply Z.ltb_ge. lia.
Qed.

Lemma rep_tower j d :
  (j + d ≤ 11)%nat → rep (fresh_order_list (pages j)) (j + d) 0 (tower d).
Proof.
  pose proof (pages_pos j) as Hpos. induction d as [|d IH]; intros Hd; cbn [tower].
  - rewrite Nat.add_0_r. apply rep_Free_all. intros o i' Hb. rewrite node_fresh by done.
    pose proof (below_bounds _ _ _ _ Hb) as Hbb. destruct Hb as [Ho _].
    pose proof (pages_le (j - o) (11 - o) ltac:(lia)).
    rewrite fresh_pow by lia. by rewrite decide_True, Nat.min_l by lia.
  - rewrite Nat.add_succ_r. constructor.
    + rewrite node_fresh by done. pose proof (pages_pos (11 - S (j + d))).
      rewrite fresh_pow by lia. pose proof (pages_pos (j - S (j + d))).
      rewrite decide_True, Nat.min_r by lia. cbn [largest pred]. by rewrite largest_tower.
    + apply IH. lia.
    + constructor. rewrite node_fresh by done.
      pose proof (pages_le 1 (11 - (j + d)) ltac:(lia)). change (pages 1) with 2 in *.
      rewrite fresh_pow by (simpl; lia). replace (j - (j + d))%nat with 0%nat by lia.
      change (pages 0) with 1. by rewrite decide_False by (simpl; lia).
Qed.

Lemma forest_free_all m p :
  0 ≤ p → forest_free 11 (replicate m Free) p = (p <? Z.of_nat m * 2048).
Proof.
  revert p. induction m as [|m IH]; intros p Hp; simpl replicate.
  - symmetry. apply Z.ltb_ge. lia.
  - cbn [forest_free]. change (pages 11) with 2048.
    destruct (p <? 2048) eqn:E; zbool.
    + symmetry. apply Z.ltb_lt. lia.
    + rewrite IH by lia. destruct (p - 2048 <? _) eqn:E'; zbool; symmetry;
        [apply Z.ltb_lt|apply Z.ltb_ge]; lia.
Qed.

Lemma exact_size_pos n ts : exact_size n ts → 0 < n.
Proof. destruct 1; [lia|apply pages_pos]. Qed.

Lemma exact_size_top n ts : exact_size n ts → top_blocks n = Z.of_nat (length ts).
Proof.
  destruct 1 as [m Hm|j Hj]; apply cover_unique; change (pages 11) with 2048.
  - rewrite length_replicate. lia.
  - pose proof (pages_pos j). pose proof (pages_le j 11 Hj). change (pages 11) with 2048 in *.
    simpl. lia.
Qed.

Lemma exact_size_rows n ts :
  exact_size n ts → ∀ i t, ts !! i = Some t → rep (fresh_order_list n) 11 i t.
Proof.
  destruct 1 as [m Hm|j Hj]; intros i t Hi.
  - apply lookup_replicate in Hi as [-> Hi]. apply rep_Free_all. intros o i' Hb.
    rewrite node_fresh by lia. pose proof (below_bounds _ _ _ _ Hb). destruct Hb as [Ho _].
    apply fresh_mult; [done|done|]. pose proof (pages_pos (11 - o)). nia.
  - destruct i as [|i]; simplify_eq/=. replace 11%nat with (j + (11 - j))%nat at 1 by lia.
    apply rep_tower. lia.
Qed.

(** A fresh zone of exact size describes exactly its own pages as free. *)
Lemma exact_size_rep n ts :
  exact_size n ts →
  rep_row (fresh_order_list n) ts ∧ Forall (tree_ok 11) ts ∧
  ∀ p, 0 ≤ p → forest_free 11 ts p = (p <? n).
Proof.
  intros Hex. pose proof (exact_size_pos _ _ Hex) as Hn.
  pose proof (exact_size_top _ _ Hex) as Htop. split_and!; [split| |].
  - unfold fresh_order_list. rewrite list_lookup_fmap, lookup_seq_lt by lia. simpl. f_equal.
    unfold fresh_layer. case_decide; [rewrite length_insert|]; unfold fill;
      rewrite length_app, length_replicate, length_drop, length_layer by done;
      change (pages (11 - 11)) with 1; lia.
  - by apply exact_size_rows.
  - destruct Hex as [m Hm|j Hj]; [by apply Forall_replicate|].
    constructor; [|constructor]. replace 11%nat with (j + (11 - j))%nat at 1 by lia.
    apply tree_ok_tower.
  - destruct Hex as [m Hm|j Hj]; intros p Hp; [by apply forest_free_all|].
    cbn [forest_free]. pose proof (pages_le j 11 Hj). destruct (p <? pages 11) eqn:E; zbool.
    + replace 11%nat with (j + (11 - j))%nat at 1 by lia. rewrite free_page_tower by done.
      case_bool_decide; [|by rewrite orb_false_r]. rewrite orb_true_r. symmetry.
      apply Z.ltb_lt. by replace j with 11%nat by lia.
    + symmetry. apply Z.ltb_ge. lia.
Qed.
