(* ===== verification/PmmInit.v ===== *)
(** [PhysAllocator::init] of [src/mm/pmm.rs]: the sizes computed by
    [usable_pages] and [blocks_in_region], the array of blocks carved out of
    the reserved head of each region, and the zones that result. *)
From S2P Require Import Prelude X86 Layout Mm Region Buddy Pmm PmmRefinement PmmNew.

(** Pages of a region, and the pages [init] keeps usable. *)
Definition region_pages (rg : Region) : Z := size rg / 4096.
Definition usable (t : Z) : Z := (4096 * t - top_blocks t * 4095) / 4104 - 2.

(** The zone [init] builds for a region: its last [usable] pages. *)
Definition zone_base (rg : Region) : Z :=
  addr rg + (region_pages rg - usable (region_pages rg)) * 4096.
Definition region_zone (rg : Region) : Zone :=
  let n := usable (region_pages rg) in
  mkZone (mkRange (mkFrame (zone_base rg)) (mkFrame (zone_base rg + FRAME_SIZE * n))) n
         (fresh_order_list n).
Definition zone_of (rg : Region) : option Zone :=
  if usable (region_pages rg) <=? 1 then None else Some (region_zone rg).

(** A region [init] accepts: page aligned, direct mapped, at least four pages. *)
Definition init_region_ok (rg : Region) : Prop := region_ok rg ∧ 4 ≤ region_pages rg.

(** * Arithmetic of the bookkeeping *)

Lemma top_blocks_mono a b : 0 < a → a ≤ b → top_blocks a ≤ top_blocks b.
Proof.
  intros Ha Hab. destruct (top_blocks_bounds a), (top_blocks_bounds b); lia.
Qed.

Lemma usable_bounds t :
  4 ≤ t →
  let n := usable t in
  0 ≤ n ∧ 4104 * (n + 2) ≤ 4096 * t - top_blocks t * 4095 < 4104 * (n + 3).
Proof.
  intros Ht n. destruct (top_blocks_bounds t) as [? ?]; [lia|]. subst n. unfold usable.
  pose proof (Z.div_mod (4096 * t - top_blocks t * 4095) 4104) as Hd.
  pose proof (Z.mod_pos_bound (4096 * t - top_blocks t * 4095) 4104) as Hm.
  split; [|lia].
  assert (2 ≤ (4096 * t - top_blocks t * 4095) / 4104); [|lia].
  apply Z.div_le_lower_bound; lia.
Qed.

(** The reserved head of the region holds the block array, the per-page
    overhead and two spare pages. *)
Lemma usable_fits t :
  4 ≤ t → 0 < usable t →
  top_blocks (usable t) * 4095 + 8 * usable t + 8208 ≤ 4096 * (t - usable t).
Proof.
  intros Ht Hn. pose proof (usable_bounds t Ht) as (_ & Hb & _).
  pose proof (top_blocks_mono (usable t) t Hn).
  destruct (top_blocks_bounds t) as [? ?]; [lia|].
  assert (usable t ≤ t) by lia. lia.
Qed.

Lemma region_pages_bounds rg :
  0 ≤ size rg → region_pages rg * 4096 ≤ size rg < region_pages rg * 4096 + 4096 ∧ 0 ≤ region_pages rg.
Proof.
  intros Hs. unfold region_pages. pose proof (Z.div_mod (size rg) 4096).
  pose proof (Z.mod_pos_bound (size rg) 4096). pose proof (Z.div_pos (size rg) 4096). lia.
Qed.

Section init.
Context `{Build, HX : X86_64, HA : ArrayVec, !X86_64_Laws, !ArrayVec_Laws}.

Lemma blocks_in_region_ok n :
  0 < n < 2 ^ 51 → blocks_in_region n = Ok (top_blocks n * 4095).
Proof.
  intros Hn. unfold blocks_in_region. rewrite align_up_2048 by lia. ok_simpl.
  rewrite div_u64_ok by done. ok_simpl. change MAX_ORDER_PAGES with 2048.
  rewrite Z.div_mul by done. destruct (top_blocks_bounds n); [lia|].
  unfold pow2_u64, sub_u64, mul_u64. change (2 ^ (MAX_ORDER + 1)) with 4096.
  ok_checked.
  ok_checked. apply checked_ok. lia.
Qed.

Lemma usable_pages_ok t : 4 ≤ t < 2 ^ 51 → usable_pages t = Ok (usable t).
Proof.
  intros Ht. pose proof (usable_bounds t ltac:(lia)) as (? & ? & ?).
  destruct (top_blocks_bounds t) as [? ?]; [lia|]. unfold usable_pages, mul_u64, sub_u64.
  ok_checked.
  rewrite blocks_in_region_ok by lia. ok_simpl.
  ok_checked.
  rewrite div_u64_ok by done. ok_simpl. apply checked_ok.
  change (size_of_PageInfo + 4096) with 4104. unfold usable in *. lia.
Qed.

Lemma new_blocks_ok rg n :
  region_ok rg → 0 < n → top_blocks n * 4095 ≤ size rg →
  new_blocks_for_region rg n = Ok (replicate (Z.to_nat (top_blocks n * 4095)) Used).
Proof.
  intros (Ha & Hs & Hb & Hal) Hn Hfit. destruct (top_blocks_bounds n Hn) as [? ?].
  unfold new_blocks_for_region, mul_u64.
  rewrite blocks_in_region_ok by lia. ok_simpl.
  change size_of_Block with 1. change align_of_Block with 1. rewrite Z.mul_1_r.
  ok_checked.
  assert (round_up (top_blocks n * 4095) 1 = top_blocks n * 4095) as Hru
    by (apply round_up_id; [lia|apply Z.divide_1_l]).
  unfold from_size_align. rewrite Hru. change (power_of_two 1) with true.
  rewrite (proj2 (Z.leb_le _ _)) by (unfold ISIZE_MAX; lia). cbn [andb unwrap mbind outcome_bind].
  rewrite bump_alloc_padded.
  - cbn [from_region rb_size rb_offset rb_start l_align l_size].
    rewrite round_up_id, Z.add_0_l by (lia || apply Z.divide_1_l).
    rewrite (proj2 (Z.ltb_ge _ _)) by lia. cbn [unwrap mbind outcome_bind].
    change PAGE_SIZE with (2 ^ 12). rewrite align_down_spec by (unfold PHYS_OFFSET; lia).
    ok_simpl.
    assert ((addr rg + 0 + PHYS_OFFSET) / 2 ^ 12 * 2 ^ 12 = addr rg + 0 + PHYS_OFFSET) as ->.
    { destruct Hal as [m ->]. change PHYS_OFFSET with (0xFFFF800000000 * 2 ^ 12).
      rewrite Z.add_0_r. change 4096 with (2 ^ 12). rewrite <-Z.mul_add_distr_r, Z.div_mul; done. }
    rewrite Z.eqb_refl, debug_assert_true. done.
  - unfold bump_ok. simpl. lia.
  - unfold layout_ok. cbn [l_size l_align]. rewrite Hru. split_and!; [lia|by exists 0|unfold ISIZE_MAX; lia].
  - apply Z.divide_1_l.
Qed.

(** The reserved head and the usable tail of a region. *)
Lemma split_at_ok rg off :
  region_ok rg → 0 ≤ off < size rg →
  split_at rg off = Ok (mkRegion (addr rg) off, mkRegion (addr rg + off) (size rg - off)).
Proof.
  intros (Ha & Hs & Hb & _) Ho. unfold split_at, assert_, add_u64, sub_u64.
  rewrite (proj2 (Z.ltb_lt _ _)) by lia. ok_simpl.
  ok_checked.
  rewrite PhysAddr_new_law by (unfold phys_ok; lia). ok_simpl.
  ok_checked. done.
Qed.

Lemma page_mask_aligned a : aligned a FRAME_SIZE → (Z.land a (PAGE_SIZE - 1) =? 0) = true.
Proof.
  intros [m ->]. change (PAGE_SIZE - 1) with (Z.ones 12). rewrite Z.land_ones by lia.
  change (2 ^ 12) with 4096. by rewrite Z.mod_mul.
Qed.

Lemma aligned_add a n : aligned a FRAME_SIZE → aligned (a + n * 4096) FRAME_SIZE.
Proof. intros Ha. apply Z.divide_add_r; [done|apply Z.divide_factor_r]. Qed.

(** One iteration of [init]: the region yields its zone, or is skipped. *)
Lemma init_loop_step fuel rg rs zs :
  init_region_ok rg → Z.of_nat (length zs) < 64 →
  init_loop (S fuel) (rg :: rs) zs =
    init_loop fuel rs (match zone_of rg with Some z => zs ++ [z] | None => zs end).
Proof.
  intros [Hok Ht] Hlen. pose proof Hok as (Ha & Hs & Hb & Hal).
  pose proof (region_pages_bounds rg Hs) as [? ?]. cbn [init_loop]. unfold next.
  rewrite av_pop_at_law by done. change ((rg :: rs) !! Z.to_nat 0) with (Some rg).
  change (delete (Z.to_nat 0) (rg :: rs)) with rs. cbv beta iota zeta.
  change PAGE_SIZE with 4096. fold (region_pages rg).
  rewrite usable_pages_ok by lia. ok_simpl. unfold zone_of, region_zone, zone_base.
  pose proof (usable_bounds (region_pages rg) Ht) as (Hn0 & Hb1 & _).
  destruct (top_blocks_bounds (region_pages rg)) as [? ?]; [lia|].
  destruct (usable (region_pages rg) <=? 1) eqn:E; zbool; [done|].
  pose proof (usable_fits (region_pages rg) Ht ltac:(lia)) as Hfit.
  set (t := region_pages rg) in *. set (n := usable t) in *. clearbody t n.
  destruct (top_blocks_bounds n) as [? ?]; [lia|].
  unfold sub_u64, mul_u64. ok_checked.
  ok_checked.
  rewrite split_at_ok by (done || lia). cbn [mbind outcome_bind size addr].
  rewrite align_down_page by lia. ok_simpl.
  assert ((size rg - (t - n) * 4096) / 4096 = n) as ->.
  { symmetry. apply Z.div_unique with (size rg - t * 4096); [left|]; lia. }
  rewrite new_blocks_ok; [|unfold region_ok; simpl; split_and!; lia || done|lia|simpl; lia].
  ok_simpl. change (n * 4096) with (n * PAGE_SIZE).
  rewrite Zone_new_ok by (try apply aligned_add; lia || done). ok_simpl.
  rewrite av_push_law by done. ok_simpl.
  change (4096 - 1) with (PAGE_SIZE - 1). unfold assert_.
  rewrite page_mask_aligned by by apply aligned_add. done.
Qed.

Lemma init_loop_ok rs zs :
  Forall init_region_ok rs → Z.of_nat (length zs + length rs) ≤ 64 →
  init_loop (S (length rs)) rs zs = Ok (zs ++ omap zone_of rs).
Proof.
  intros Hrs. revert zs. induction Hrs as [|rg rs Hrg Hrs IH]; intros zs Hlen.
  { cbn [init_loop]. unfold next. rewrite av_pop_at_law by done. cbn. by rewrite app_nil_r. }
  cbn [length] in *. rewrite init_loop_step by (done || lia).
  rewrite IH by (destruct (zone_of rg); rewrite ?length_app; simpl; lia).
  simpl. destruct (zone_of rg); [by rewrite <-app_assoc|done].
Qed.

End init.

(** * [Zone::free] *)

Lemma trailing_zeros_page len : aligned len FRAME_SIZE → 0 ≤ len → 12 ≤ trailing_zeros 64 len.
Proof.
  intros [m ->] Hlen. destruct (decide (m = 0)) as [->|]; [done|].
  rewrite Z.mul_comm. change 4096 with (2 ^ 12). rewrite trailing_zeros_mul_pow2 by lia.
  pose proof (trailing_zeros_nonneg 64 m). lia.
Qed.

Section free.
Context `{Build, HX : X86_64, !X86_64_Laws}.

(** [len] is in bytes, so the "order" is at least twelve: no such list. *)
Lemma Zone_free_panics z range :
  (length (order_list z) ≤ 12)%nat →
  frame_ok (range_start (zpages z)) → frame_ok (range_start range) → frame_ok (range_end range) →
  start_address (range_start (zpages z)) ≤ start_address (range_start range) →
  start_address (range_start range) ≤ start_address (range_end range) →
  panics (Zone_free z range).
Proof.
  intros Hlen Hz [Hs Hsa] [He Hea] Hzs Hse. unfold Zone_free.
  rewrite PhysAddr_sub_law by done. ok_simpl.
  set (len := start_address (range_end range) - start_address (range_start range)).
  assert (12 ≤ trailing_zeros 64 len) as Hord.
  { apply trailing_zeros_page; [|lia]. by apply Z.divide_sub_r. }
  unfold debug_assert, assert_, MAX_ORDER. destruct debug_assertions; ok_simpl.
  { rewrite (proj2 (Z.leb_gt (trailing_zeros 64 len) 11)) by lia. by eexists. }
  rewrite PhysFrame_sub_law by done. ok_simpl.
  unfold div_u64. destruct (len =? 0); [by eexists|]. ok_simpl.
  destruct (from_order _) as [b|]; [|by eexists]. ok_simpl.
  unfold write_node, index.
  rewrite (proj2 (Z.ltb_ge _ _)) by lia. rewrite lookup_ge_None_2 by lia. by eexists.
Qed.

End free.
