(* ===== verification/PmmTheorems.v ===== *)
(** Properties of the physical memory manager ([src/mm/pmm.rs]): allocation
    from a zone, sequences of allocations, the reserved bookkeeping area, the
    allocator over all zones, and the defects of [Zone::new], [Zone::free] and
    [Block::parent_state]. *)
From S2P Require Import Prelude X86 Layout Mm Region Buddy Pmm PmmRefinement PmmNew PmmInit.

(** A page of the zone, counted from its first frame, that the trees hold free. *)
Definition zone_free (ts : list buddy) (p : Z) : bool := forest_free 11 ts p.

(** What a sequence of requests returns; a request that cannot be served
    returns nothing. *)
Fixpoint Zone_allocs `{Build, X86_64} (orders : list Z) (z : Zone) :
    outcome (list PhysFrameRange * Zone) :=
  match orders with
  | [] => Ok ([], z)
  | o :: orders' =>
      '(r, z) ← Zone_alloc z o;
      '(rs, z) ← Zone_allocs orders' z;
      Ok (match r with Some (range, _) => range :: rs | None => rs end, z)
  end.

Definition range_disjoint (r1 r2 : PhysFrameRange) : Prop :=
  start_address (range_end r1) ≤ start_address (range_start r2) ∨
  start_address (range_end r2) ≤ start_address (range_start r1).

(** The steps [Zone::free] means to perform for block [idx] of order [order]. *)
Definition release `{Build} (z : Zone) (order idx : Z) : outcome Zone :=
  b ← from_order order;
  ol ← write_node (order_list z) order idx b;
  ol ← update_tree ol order idx;
  Ok (mkZone (zpages z) (znum_pages z) ol).

(** A zone of four pages at 1 MiB, used to exercise the theorems. *)
Definition demo_zone : Zone :=
  mkZone (mkRange (mkFrame 0x100000) (mkFrame 0x104000)) 4 (fresh_order_list 4).

(** The blocks [Block::new_blocks_for_region] hands to [Zone::new]. *)
Definition zero_blocks (n : Z) : list Block := replicate (Z.to_nat (top_blocks n * 4095)) Used.

(** First fit over the zones. *)
Fixpoint first_fit (k : nat) (tss : list (list buddy)) : option (nat * list buddy * Z) :=
  match tss with
  | [] => None
  | ts :: tss' =>
      match falloc 11 k ts with
      | Some (ts', i) => Some (0%nat, ts', i)
      | None => '(j, ts', i) ← first_fit k tss'; Some (S j, ts', i)
      end
  end.

(** Every summary in the order list is at most [b]. *)
Definition summaries_le (b : Z) (ol : OrderList) : Prop :=
  ∀ o i x, node ol o i = Some (LargestFreeOrder x) → 0 ≤ x ≤ b.

(** * Shared lemmas *)

Lemma in_block_page k i p : in_block k i p → 0 ≤ i → 0 ≤ p.
Proof. unfold in_block. pose proof (pages_pos k). nia. Qed.

Lemma block_range_disjoint s k1 i1 k2 i2 :
  (∀ p, in_block k1 i1 p → ¬ in_block k2 i2 p) →
  range_disjoint (block_range s k1 i1) (block_range s k2 i2).
Proof.
  unfold range_disjoint, block_range, in_block. simpl. intros Hd.
  pose proof (pages_pos k1). pose proof (pages_pos k2).
  specialize (Hd (Z.max (i1 * pages k1) (i2 * pages k2))). lia.
Qed.

Section lemmas.
Context `{Build, HX : X86_64, !X86_64_Laws}.

Lemma find_top_large order ts b :
  Forall (tree_ok 11) ts → 12 ≤ order →
  find_top order ((λ t, enc (largest 11 t)) <$> ts) b = None.
Proof.
  intros Hok Ho. revert b. induction Hok as [|t ts [Hc _] Hok IH]; intros b; [done|].
  rewrite fmap_cons. cbn [find_top].
  assert (larger_than (enc (largest 11 t)) order = false) as ->; [|done].
  destruct (largest 11 t) as [m|] eqn:Em; [|done]. apply largest_le in Em; [|done].
  simpl. apply Z.ltb_ge. lia.
Qed.

Lemma Zone_alloc_large z ts order :
  zone_rep z ts → 12 ≤ order → Zone_alloc z order = Ok (None, z).
Proof.
  intros (Hrow & Hok & _) Ho. unfold Zone_alloc.
  rewrite (index_lookup _ MAX_ORDER _ ltac:(done) (rep_row_top _ _ Hrow)). ok_simpl.
  by rewrite find_top_large.
Qed.

(** The effect of one successful request on the free pages. *)
Lemma Zone_alloc_effect z ts k :
  zone_rep z ts → (k ≤ 11)%nat →
  (Zone_alloc z (Z.of_nat k) = Ok (None, z) ∧ falloc 11 k ts = None) ∨
  ∃ ts' i ms z', Zone_alloc z (Z.of_nat k) = Ok (Some (block_range (zone_start z) k i, ms), z') ∧
    zone_rep z' ts' ∧ zone_start z' = zone_start z ∧ length ts' = length ts ∧
    0 ≤ i ∧ (i + 1) * pages k ≤ Z.of_nat (length ts) * 2048 ∧
    (∀ p, 0 ≤ p → zone_free ts' p = zone_free ts p && bool_decide (¬ in_block k i p)) ∧
    (∀ p, in_block k i p → zone_free ts p = true).
Proof.
  intros Hz Hk. pose proof (Zone_alloc_falloc z ts k Hz Hk) as Ha.
  destruct (falloc 11 k ts) as [[ts' i]|] eqn:Ef; [right|by left].
  destruct Ha as (ol' & Ha & Hz'). destruct Hz as (_ & Hok & _).
  destruct (falloc_ok _ _ _ _ _ Hok Hk Ef) as (_ & Hlen & Hi & Hp).
  pose proof (pages_split 11 k Hk) as Hs. change (pages 11) with 2048 in Hs.
  pose proof (pages_pos k).
  do 4 eexists. split; [exact Ha|]. split; [exact Hz'|]. split_and!; [done|done|lia|nia| |].
  - intros p Hp0. by apply Hp.
  - intros p Hin. apply Hp; [|done]. eapply in_block_page; [done|lia].
Qed.

Lemma Zone_allocs_ok orders z ts :
  zone_rep z ts → Forall (λ o, 0 ≤ o) orders →
  ∃ rs z' ts', Zone_allocs orders z = Ok (rs, z') ∧ zone_rep z' ts' ∧
    (∀ p, 0 ≤ p → zone_free ts' p = true → zone_free ts p = true) ∧
    (∀ i r, rs !! i = Some r → ∃ k j, r = block_range (zone_start z) k j ∧ 0 ≤ j ∧
       ∀ p, in_block k j p → zone_free ts p = true) ∧
    (∀ i j r1 r2, i < j → rs !! i = Some r1 → rs !! j = Some r2 → range_disjoint r1 r2)%nat.
Proof.
  intros Hz Ho. revert z ts Hz. induction Ho as [|o orders Ho Hos IH]; intros z ts Hz.
  { exists [], z, ts. split_and!; done. }
  cbn [Zone_allocs].
  assert (Zone_alloc z o = Ok (None, z) ∨ ∃ k, (k ≤ 11)%nat ∧ o = Z.of_nat k) as [Hnone|(k & Hk & ->)].
  { destruct (decide (12 ≤ o)); [left; by eapply Zone_alloc_large|right].
    exists (Z.to_nat o). lia. }
  { rewrite Hnone. ok_simpl. destruct (IH z ts Hz) as (rs & z' & ts' & -> & Hrest).
    by exists rs, z', ts'. }
  destruct (Zone_alloc_effect z ts k Hz Hk)
    as [[-> _]|(ts1 & i & ms & z1 & -> & Hz1 & Hst & _ & Hi & _ & Hp & Hfree)]; ok_simpl.
  { destruct (IH z ts Hz) as (rs & z' & ts' & -> & Hrest). by exists rs, z', ts'. }
  destruct (IH z1 ts1 Hz1) as (rs & z' & ts' & -> & Hz' & Hmono & Hrs & Hdis). ok_simpl.
  assert (∀ p, 0 ≤ p → zone_free ts1 p = true → zone_free ts p = true ∧ ¬ in_block k i p) as Hstep.
  { intros p Hp0 H1. rewrite Hp in H1 by done. apply andb_true_iff in H1 as [? Hd].
    by apply bool_decide_eq_true in Hd. }
  exists (block_range (zone_start z) k i :: rs), z', ts'. split_and!; [done|done| | |].
  - intros p Hp0 H1. by apply Hstep, Hmono.
  - intros [|n] r Hr; simplify_eq/=; [by exists k, i|]. rewrite <-Hst.
    destruct (Hrs n r Hr) as (k' & j & -> & Hj & Hall). exists k', j. split_and!; [done|done|].
    intros p Hin. apply Hstep; [by eapply in_block_page|auto].
  - intros [|n] [|m] r1 r2 Hlt H1 H2; simplify_eq/=; [lia| |lia|by apply (Hdis n m); [lia|..]].
    destruct (Hrs m r2 H2) as (k' & j & -> & Hj & Hall). rewrite Hst.
    apply block_range_disjoint. intros p Hin1 Hin2.
    apply (Hstep p); [by eapply in_block_page|auto|done].
Qed.

End lemmas.

Lemma demo_zone_rep : zone_rep demo_zone [tower 9].
Proof.
  destruct (exact_size_rep 4 [tower 9] (exact_pow 2 ltac:(lia))) as (? & ? & _).
  split_and!; [done|done|split; [unfold phys_ok; simpl; lia|by exists 256]|].
  unfold zone_start. simpl. change (pages 11) with 2048. lia.
Qed.

Section lemmas2.
Context `{Build, HX : X86_64, !X86_64_Laws}.

Lemma fresh_zone_rep a n ts :
  exact_size n ts → 0 ≤ a → aligned a FRAME_SIZE →
  a + FRAME_SIZE * (top_blocks n * 2048) < 2 ^ 47 →
  zone_rep (mkZone (mkRange (mkFrame a) (mkFrame (a + FRAME_SIZE * n))) n (fresh_order_list n)) ts.
Proof.
  intros Hex Ha Hal Hb. destruct (exact_size_rep n ts Hex) as (? & ? & _).
  pose proof (exact_size_top n ts Hex) as Htop.
  split_and!; [done|done|split; [unfold phys_ok; simpl; lia|done]|].
  unfold zone_start. cbn [zpages range_start start_address]. change (pages 11) with 2048. lia.
Qed.

Lemma Zone_new_exact_size a n ts :
  exact_size n ts → 0 ≤ a → aligned a FRAME_SIZE →
  a + FRAME_SIZE * (top_blocks n * 2048) < 2 ^ 47 →
  Zone_new a (n * PAGE_SIZE) (zero_blocks n) =
    Ok (mkZone (mkRange (mkFrame a) (mkFrame (a + FRAME_SIZE * n))) n (fresh_order_list n)).
Proof.
  intros Hex Ha Hal Hb. pose proof (exact_size_pos n ts Hex) as Hn.
  destruct (top_blocks_bounds n Hn). apply Zone_new_ok; [done|lia|done|done|lia].
Qed.

Lemma alloc_zones_first_fit zs tss k :
  Forall2 zone_rep zs tss → (k ≤ 11)%nat →
  match first_fit k tss with
  | None => alloc_zones (Z.of_nat k) zs = Ok (None, zs)
  | Some (j, ts', i) => ∃ z ms z', zs !! j = Some z ∧
      alloc_zones (Z.of_nat k) zs =
        Ok (Some (block_range (zone_start z) k i, ms), <[j := z']> zs) ∧
      Forall2 zone_rep (<[j := z']> zs) (<[j := ts']> tss)
  end.
Proof.
  intros Hz Hk. induction Hz as [|z ts zs tss Hz Hzs IH]; [done|].
  cbn [first_fit alloc_zones]. pose proof (Zone_alloc_falloc z ts k Hz Hk) as Ha.
  destruct (falloc 11 k ts) as [[ts' i]|].
  - destruct Ha as (ol' & Ha & Hz'). rewrite Ha. ok_simpl.
    do 3 eexists. split; [done|]. split; [done|]. by constructor.
  - rewrite Ha. ok_simpl. destruct (first_fit k tss) as [[[j ts'] i]|]; cbn [mbind option_bind].
    + destruct IH as (z0 & ms & z' & Hj & -> & Hrep). ok_simpl.
      exists z0, ms, z'. split_and!; [done|done|by constructor].
    + rewrite IH. done.
Qed.

End lemmas2.

(** * Recomputing the summaries above the first block never panics *)

Lemma parent_state_le `{Build} b l r :
  b < 255 → (∀ x, l = LargestFreeOrder x → 0 ≤ x ≤ b) → (∀ x, r = LargestFreeOrder x → 0 ≤ x ≤ b) →
  ∃ p, parent_state l r = Ok p ∧ ∀ x, p = LargestFreeOrder x → 0 ≤ x ≤ b + 1.
Proof.
  intros Hb Hl Hr. destruct l as [x|], r as [y|]; simpl; unfold add_u8.
  - specialize (Hl x eq_refl). specialize (Hr y eq_refl).
    destruct (x =? y) eqn:E; zbool; [rewrite checked_ok by lia|destruct (y <? x)];
      (eexists; split; [done|]; intros z [= <-]; lia).
  - specialize (Hl x eq_refl). eexists; split; [done|]. intros z [= <-]; lia.
  - specialize (Hr y eq_refl). eexists; split; [done|]. intros z [= <-]; lia.
  - eexists; split; [done|]. done.
Qed.

Lemma update_loop_head `{Build} n h ol b :
  summaries_le b ol → b + Z.of_nat n ≤ 255 →
  (∀ o, (h ≤ o ≤ h + n)%nat → is_Some (node ol o 0)) →
  (∀ o, (h ≤ o < h + n)%nat → is_Some (node ol o 1)) →
  returns (update_loop n (Z.of_nat (S h)) 0 ol).
Proof.
  revert h ol b. induction n as [|n IH]; intros h ol b Hs Hb H0 H1; [by eexists|].
  cbn [update_loop]. change (Z.land 0 (bitnot 64 1)) with (Z.of_nat 0).
  replace (Z.of_nat (S h) - 1) with (Z.of_nat h) by lia.
  destruct (H0 h) as [x Hx]; [lia|]. destruct (H1 h) as [y Hy]; [lia|].
  destruct (H0 (S h)) as [p0 Hp0]; [lia|].
  rewrite (read_node_ok _ _ _ _ Hx). ok_simpl. unfold add_u64. ok_checked.
  change (Z.of_nat 0 + 1) with (Z.of_nat 1). rewrite (read_node_ok _ _ _ _ Hy). ok_simpl.
  destruct (parent_state_le b x y) as (p & -> & Hp); [lia|intros z ->; by eapply Hs..|]. ok_simpl.
  change (0 / 2) with (Z.of_nat 0).
  destruct (write_node_ok ol (S h) 0 p0 p Hp0) as (ol' & -> & Hn' & Hsh & Hne). ok_simpl.
  assert (∀ o i, is_Some (node ol o i) → is_Some (node ol' o i)) as Hkeep.
  { intros o i Hi. destruct (decide ((o, i) = (S h, 0%nat))) as [[= -> ->]|]; [by eexists|].
    by rewrite Hne. }
  replace (Z.of_nat (S h) + 1) with (Z.of_nat (S (S h))) by lia.
  apply (IH (S h) ol' (b + 1)); [|lia|intros; apply Hkeep, H0; lia|intros; apply Hkeep, H1; lia].
  intros o i z Hz. destruct (decide ((o, i) = (S h, 0%nat))) as [[= -> ->]|].
  - rewrite Hn' in Hz. injection Hz as ->. by apply Hp.
  - rewrite Hne in Hz by done. apply Hs in Hz. lia.
Qed.

(** * A fresh zone whose size is not a power of two *)

Section overclaim.
Context `{Build, HX : X86_64, !X86_64_Laws}.
Context (n : Z) (j : nat) (Hj : (j ≤ 11)%nat) (Hn : 0 < n ≤ pages j) (Hlog : Z.log2_up n = Z.of_nat j).

Lemma over_top : top_blocks n = 1 ∧ largest_order n = Z.of_nat j.
Proof.
  pose proof (pages_le j 11 Hj). change (pages 11) with 2048 in *. split.
  - apply cover_unique. change (pages 11) with 2048. lia.
  - unfold largest_order. rewrite Hlog. lia.
Qed.

Lemma over_head o : (j ≤ o ≤ 11)%nat →
  node (fresh_order_list n) o 0 = Some (LargestFreeOrder (Z.of_nat j + 1)).
Proof.
  intros Ho. rewrite node_fresh by lia. unfold fresh_node. destruct over_top as [-> ->].
  pose proof (pages_pos (11 - o)). repeat case_decide; done || lia.
Qed.

Lemma over_second o : (o < 11)%nat → is_Some (node (fresh_order_list n) o 1).
Proof.
  intros Ho. rewrite node_fresh by lia. unfold fresh_node. destruct over_top as [-> ->].
  pose proof (pages_le 1 (11 - o) ltac:(lia)). change (pages 1) with 2 in *.
  rewrite decide_True by (split; lia). by eexists.
Qed.

Lemma over_summaries : summaries_le 13 (fresh_order_list n).
Proof.
  intros o i x. rewrite node_fresh by lia. unfold fresh_node. destruct over_top as [-> ->].
  repeat case_decide; intros [= <-]; lia.
Qed.

Lemma over_descend m : (j + m ≤ 11)%nat → descend m (Z.of_nat j) 0 (fresh_order_list n) = Ok 0.
Proof.
  induction m as [|m IH]; intros Hm; [done|]. cbn [descend]. unfold mul_u64. ok_checked.
  replace (Z.of_nat j + Z.of_nat m) with (Z.of_nat (j + m)) by lia.
  change (0 * 2) with (Z.of_nat 0). rewrite (read_node_ok _ _ _ _ (over_head (j + m) ltac:(lia))). ok_simpl.
  cbn [larger_than]. rewrite (proj2 (Z.ltb_lt _ _)) by lia. apply IH. lia.
Qed.

Lemma over_alloc a :
  0 ≤ a → aligned a FRAME_SIZE → a + FRAME_SIZE * pages j < 2 ^ 47 →
  let z := mkZone (mkRange (mkFrame a) (mkFrame (a + FRAME_SIZE * n))) n (fresh_order_list n) in
  ∃ ms z', Zone_alloc z (Z.of_nat j) = Ok (Some (block_range a j 0, ms), z').
Proof.
  intros Ha Hal Hb z. unfold Zone_alloc. cbn [order_list zpages range_start z].
  assert (∃ l, fresh_order_list n !! 11%nat = Some (LargestFreeOrder (Z.of_nat j + 1) :: l)) as [l Hl].
  { pose proof (over_head 11 ltac:(lia)) as Hh. unfold node in Hh.
    destruct (fresh_order_list n !! 11%nat) as [[|b l]|]; simplify_eq/=. by eexists. }
  rewrite (index_lookup _ MAX_ORDER _ ltac:(done) Hl). ok_simpl. cbn [find_top larger_than].
  rewrite (proj2 (Z.ltb_lt _ _)) by lia.
  replace (Z.to_nat (MAX_ORDER - Z.of_nat j)) with (11 - j)%nat by (unfold MAX_ORDER; lia).
  rewrite over_descend by lia. ok_simpl.
  destruct (write_node_ok (fresh_order_list n) j 0 _ Used (over_head j ltac:(lia)))
    as (ol & Hw & Hn' & Hsh & Hne). change (Z.of_nat 0) with 0 in Hw. rewrite Hw. ok_simpl.
  assert (returns (update_loop (11 - j) (Z.of_nat (S j)) 0 ol)) as [ol' Hup].
  { apply (update_loop_head _ _ _ 13); [|lia| |].
    - intros o i x Hx. destruct (decide ((o, i) = (j, 0%nat))) as [[= -> ->]|].
      + by rewrite Hn' in Hx.
      + rewrite Hne in Hx by done. by eapply over_summaries.
    - intros o Ho. destruct (decide (o = j)) as [->|]; [by eexists|].
      rewrite Hne by congruence. rewrite over_head by lia. by eexists.
    - intros o Ho. rewrite Hne by congruence. apply over_second. lia. }
  unfold update_tree, add_u8, pow2_u64, mul_u64, add_u64.
  rewrite (checked_ok 8) by lia. ok_simpl.
  replace (Z.to_nat (MAX_ORDER - Z.of_nat j)) with (11 - j)%nat by (unfold MAX_ORDER; lia).
  replace (Z.of_nat j + 1) with (Z.of_nat (S j)) by lia. rewrite Hup. ok_simpl.
  fold (pages j). pose proof (pages_pos j). rewrite (checked_ok 64 (pages j)) by lia. ok_simpl.
  rewrite Z.mul_0_r, Z.add_0_l, (checked_ok 64 0) by lia. ok_simpl.
  rewrite PhysFrame_add_law by (unfold frame_ok, phys_ok; simpl; split_and?; lia || done). ok_simpl.
  rewrite (checked_ok 64 1) by lia. ok_simpl. rewrite Z.mul_1_r, (checked_ok 64 (pages j)) by lia. ok_simpl.
  rewrite PhysFrame_add_law by (unfold frame_ok, phys_ok; simpl; split_and?; lia || done). ok_simpl.
  cbn [start_address]. rewrite phys_to_kernel_virt_ok by (unfold direct_mapped; lia). ok_simpl.
  unfold PAGE_SIZE.
  rewrite checked_ok by lia. ok_simpl. unfold block_range.
  rewrite !Z.mul_0_r, Z.add_0_l, !Z.mul_1_r. by do 2 eexists.
Qed.

End overclaim.
