(* ===== verification/PmmProperties.v ===== *)
(** The properties of the physical memory manager ([src/mm/pmm.rs]), each with
    a witness at a concrete zone or memory map. *)
From S2P Require Import Prelude X86 Layout Mm Region Buddy Pmm PmmRefinement PmmNew PmmInit PmmTheorems.

(** The byte range a region occupies contains a frame range. *)
Definition range_within (r : PhysFrameRange) (lo hi : Z) : Prop :=
  lo ≤ start_address (range_start r) ∧ start_address (range_end r) ≤ hi.

Section properties.
Context `{Build, HX : X86_64, HA : ArrayVec, !X86_64_Laws, !ArrayVec_Laws}.

(** C1 (refinement): on a zone whose arrays describe the buddy trees [ts],
    [Zone::alloc] does exactly what the abstract leftmost-fit allocator does,
    for every [u8] order: it returns [None] and leaves the zone alone when no
    tree can serve the order, and otherwise returns the frames of the block
    the specification picks, fills exactly those bytes, and leaves arrays that
    describe the new trees.  In particular it never panics and its
    [unreachable!()] is never reached. *)
Theorem zone_alloc_refines (z : Zone) (ts : list buddy) (order : Z) :
  zone_rep z ts → 0 ≤ order < 256 →
  match (if order <=? 11 then falloc 11 (Z.to_nat order) ts else None) with
  | None => Zone_alloc z order = Ok (None, z)
  | Some (ts', i) => ∃ z',
      Zone_alloc z order =
        Ok (Some (block_range (zone_start z) (Z.to_nat order) i,
                  mkMemSet (zone_start z + FRAME_SIZE * (2 ^ order * i) + PHYS_OFFSET) clear_byte
                           (FRAME_SIZE * 2 ^ order)), z') ∧
      zpages z' = zpages z ∧ zone_rep z' ts'
  end.
Proof.
  intros Hz Ho. destruct (order <=? 11) eqn:E; zbool; [|eapply Zone_alloc_large; [done|lia]].
  pose proof (Zone_alloc_falloc z ts (Z.to_nat order) Hz ltac:(lia)) as Ha.
  unfold pages in Ha. rewrite Z2Nat.id in Ha by lia.
  destruct (falloc _ _ ts) as [[ts' i]|]; [|done]. destruct Ha as (ol' & Ha & Hz'). eauto.
Qed.

(** C8 (safety): on a zone whose arrays describe buddy trees ([zone_rep], which
    [Zone::new] establishes for a power of two of up to 2048 pages and for a multiple
    of 2048 pages, and every allocation keeps): when [Zone::alloc] returns a block,
    every page of it was free, none of them is free afterwards, and no other page of
    the zone changes: a page is never handed out twice. *)
Theorem zone_alloc_takes_free_pages (z : Zone) (ts : list buddy) (order : Z) range ms z' :
  zone_rep z ts → 0 ≤ order → Zone_alloc z order = Ok (Some (range, ms), z') →
  ∃ ts' i, range = block_range (zone_start z) (Z.to_nat order) i ∧ zone_rep z' ts' ∧
    (∀ p, in_block (Z.to_nat order) i p → zone_free ts p = true ∧ zone_free ts' p = false) ∧
    (∀ p, 0 ≤ p → ¬ in_block (Z.to_nat order) i p → zone_free ts' p = zone_free ts p).
Proof.
  intros Hz Ho Ha. destruct (decide (12 ≤ order)).
  { by rewrite (Zone_alloc_large z ts) in Ha. }
  pose proof (Zone_alloc_effect z ts (Z.to_nat order) Hz ltac:(lia)) as Heff.
  rewrite Z2Nat.id, Ha in Heff by lia.
  destruct Heff as [[Hnone _]|(ts' & i & ms' & z1 & Heq & Hz1 & _ & _ & Hi & _ & Hp & Hfree)]; [done|].
  injection Heq as -> -> ->. exists ts', i. split_and!; [done|done| |].
  - intros p Hin. split; [auto|]. rewrite Hp, bool_decide_false, andb_false_r; [done|naive_solver|].
    by eapply in_block_page.
  - intros p Hp0 Hnin. by rewrite Hp, bool_decide_true, andb_true_r.
Qed.

(** C12 (functional): on a zone whose arrays describe buddy trees ([zone_rep]), and
    for orders up to 11, [Zone::alloc] reports exhaustion exactly when the zone has no
    free, naturally aligned run of [2^order] pages: the summaries never hide a block
    that could be handed out. *)
Theorem zone_alloc_complete (z : Zone) (ts : list buddy) (order : Z) :
  zone_rep z ts → 0 ≤ order ≤ 11 →
  Zone_alloc z order = Ok (None, z) ↔
  ¬ ∃ i, 0 ≤ i ∧ ∀ p, in_block (Z.to_nat order) i p → zone_free ts p = true.
Proof.
  intros Hz Ho. pose proof Hz as (_ & Hok & _).
  pose proof (Zone_alloc_effect z ts (Z.to_nat order) Hz ltac:(lia)) as Heff.
  rewrite Z2Nat.id in Heff by lia.
  destruct Heff as [[Hnone Hf]|(ts' & i & ms' & z1 & Heq & _ & _ & _ & Hi & _ & _ & Hfree)].
  - split; [|done]. intros _ (i & Hi & Hall).
    destruct (falloc_complete 11 (Z.to_nat order) ts i) as [x Hx]; [done|lia|done|done|congruence].
  - split; [congruence|]. intros Hno. destruct Hno. eauto.
Qed.

(** C9 (invariant): build a zone of exact size with [Zone::new] and send it
    any sequence of requests: no request panics, every range handed out lies
    inside the zone, and any two of them are disjoint. *)
Theorem zone_allocs_disjoint (a n : Z) (ts : list buddy) (orders : list Z) :
  exact_size n ts → 0 ≤ a → aligned a FRAME_SIZE →
  a + FRAME_SIZE * (top_blocks n * 2048) < 2 ^ 47 → Forall (λ o, 0 ≤ o < 256) orders →
  ∃ z rs z', Zone_new a (n * PAGE_SIZE) (zero_blocks n) = Ok z ∧
    Zone_allocs orders z = Ok (rs, z') ∧
    (∀ i r, rs !! i = Some r → range_within r a (a + FRAME_SIZE * n)) ∧
    (∀ i j r1 r2, (i < j)%nat → rs !! i = Some r1 → rs !! j = Some r2 → range_disjoint r1 r2).
Proof.
  intros Hex Ha Hal Hb Ho. pose proof (fresh_zone_rep a n ts Hex Ha Hal Hb) as Hz.
  destruct (exact_size_rep n ts Hex) as (_ & _ & Hfree).
  destruct (Zone_allocs_ok orders _ _ Hz) as (rs & z' & ts' & Hrs & _ & _ & Hin & Hdis).
  { eapply Forall_impl; [done|]. simpl. lia. }
  do 3 eexists. split; [by eapply Zone_new_exact_size|]. split; [exact Hrs|]. split; [|done].
  intros i r Hr. destruct (Hin i r Hr) as (k & j & -> & Hj & Hpages). pose proof (pages_pos k).
  pose proof (Hpages ((j + 1) * pages k - 1)) as Hlast.
  unfold zone_free in Hlast. rewrite Hfree in Hlast by nia.
  assert ((j + 1) * pages k - 1 < n).
  { apply Z.ltb_lt, Hlast. unfold in_block. lia. }
  unfold range_within, zone_start. simpl. nia.
Qed.

(** C13 (functional): [Zone::new] on a page-aligned zone in the first 128 TiB whose
    size is a power of two up to 2048 pages, or a multiple of 2048 pages, yields
    arrays that describe well-formed buddy trees ([zone_rep]) whose free pages are
    exactly the pages of the zone. *)
Theorem zone_new_exact (a n : Z) (ts : list buddy) :
  exact_size n ts → 0 ≤ a → aligned a FRAME_SIZE →
  a + FRAME_SIZE * (top_blocks n * 2048) < 2 ^ 47 →
  ∃ z, Zone_new a (n * PAGE_SIZE) (zero_blocks n) = Ok z ∧ zone_rep z ts ∧
    zone_start z = a ∧ znum_pages z = n ∧ ∀ p, 0 ≤ p → zone_free ts p = (p <? n).
Proof.
  intros Hex Ha Hal Hb. destruct (exact_size_rep n ts Hex) as (_ & _ & Hfree).
  eexists. split; [by eapply Zone_new_exact_size|]. split_and!; [by apply fresh_zone_rep|done..].
Qed.

(** C34 (safety): for every other size up to 2048 pages [Zone::new] claims
    memory that the zone does not have: the first allocation of the next
    power of two succeeds and its range ends beyond the end of the zone. *)
Theorem zone_new_overclaims (a n : Z) :
  1 < n ≤ 2048 → n < 2 ^ Z.log2_up n → 0 ≤ a → aligned a FRAME_SIZE →
  a + FRAME_SIZE * 2048 < 2 ^ 47 →
  ∃ z range ms z', Zone_new a (n * PAGE_SIZE) (zero_blocks n) = Ok z ∧
    Zone_alloc z (Z.log2_up n) = Ok (Some (range, ms), z') ∧
    start_address (range_end (zpages z)) < start_address (range_end range).
Proof.
  intros Hn Hlt Ha Hal Hb. set (j := Z.to_nat (Z.log2_up n)).
  assert (Z.log2_up n = Z.of_nat j) as Hj by (pose proof (Z.log2_up_nonneg n); subst j; lia).
  assert (j ≤ 11)%nat as Hj11.
  { pose proof (Z.log2_up_le_mono n 2048 ltac:(lia)) as Hm. change (Z.log2_up 2048) with 11 in Hm. lia. }
  rewrite Hj in *. fold (pages j) in *. pose proof (pages_le j 11 Hj11) as Hp.
  change (pages 11) with 2048 in Hp.
  destruct (over_alloc n j Hj11 ltac:(lia) Hj a) as (ms & z' & Hz); [done|done|lia|].
  do 4 eexists. split; [apply Zone_new_ok; [lia| |done|done|lia]|]. 
  { destruct (top_blocks_bounds n); lia. }
  split; [exact Hz|]. simpl. rewrite Z.add_0_l, Z.mul_1_r. lia.
Qed.

(** C35 (error): [PhysAllocator::free] panics on every frame range, in debug and
    in release builds, whatever the allocator's state: the length that
    [Zone::free] turns into an order is in bytes, so the order is at least
    twelve and there is no such order list. *)
Theorem phys_allocator_free_panics (zones : option (list Zone)) (range : PhysFrameRange) :
  (∀ zs z, zones = Some zs → z ∈ zs →
     (length (order_list z) ≤ 12)%nat ∧ frame_ok (range_start (zpages z))) →
  frame_ok (range_start range) → frame_ok (range_end range) →
  start_address (range_start range) ≤ start_address (range_end range) →
  panics (PhysAllocator_free zones range).
Proof.
  intros Hz Hs He Hle. unfold PhysAllocator_free. destruct zones as [zs|]; [|by eexists].
  simpl. specialize (Hz zs). assert (panics (free_zones range zs)) as [p ->]; [|by eexists].
  induction zs as [|z zs IH]; [by eexists|]. cbn [free_zones].
  destruct (Hz z eq_refl) as [Hlen Hf]; [left|].
  destruct ((_ <=? _) && (_ <=? _)) eqn:E.
  - zbool. destruct (Zone_free_panics z range) as [p ->]; [done..|]. by eexists.
  - destruct IH as [p ->]; [|by eexists]. intros z' _ Hin. apply Hz; [done|by right].
Qed.


(** [PhysAllocator::init] on a boot memory map of at most 64
    page-aligned regions of four pages or more does not panic; it makes one
    zone per region with two or more usable pages, in order, each at the end
    of its region behind the reserved pages. *)
Theorem phys_allocator_init_zones (m : MemoryMap) :
  Forall init_region_ok (regions m) → (length (regions m) ≤ 64)%nat →
  PhysAllocator_init m = Ok (Some (omap zone_of (regions m))) ∧
  ∀ z, z ∈ omap zone_of (regions m) → ∃ rg, rg ∈ regions m ∧
    znum_pages z = usable (region_pages rg) ∧
    range_within (zpages z) (addr rg + top_blocks (znum_pages z) * 4095) (addr rg + size rg).
Proof.
  intros Hrs Hlen. split.
  - unfold PhysAllocator_init, into_iter. by rewrite init_loop_ok by (simpl; lia || done).
  - intros z (rg & Hin & Hz)%list_elem_of_omap. exists rg. split; [done|].
    rewrite Forall_forall in Hrs. destruct (Hrs rg Hin) as [(? & Hs & _) Ht].
    unfold zone_of in Hz. destruct (_ <=? 1) eqn:E; zbool; [done|]. injection Hz as <-. split; [done|].
    pose proof (usable_fits (region_pages rg) Ht ltac:(lia)).
    pose proof (region_pages_bounds rg Hs). unfold range_within, zone_base. cbn. unfold zone_base. lia.
Qed.

(** [PhysAllocator::alloc] serves a request from the first
    zone that can serve it, leaves the other zones alone, and panics (out of
    memory) exactly when no zone can. *)
Theorem phys_allocator_alloc_first_fit (zs : list Zone) (tss : list (list buddy)) (order : Z) :
  Forall2 zone_rep zs tss → 0 ≤ order ≤ 11 →
  match first_fit (Z.to_nat order) tss with
  | None => PhysAllocator_alloc (Some zs) order = Panic PanicExplicit
  | Some (j, ts', i) => ∃ z ms z', zs !! j = Some z ∧
      PhysAllocator_alloc (Some zs) order =
        Ok (block_range (zone_start z) (Z.to_nat order) i, ms, Some (<[j := z']> zs)) ∧
      Forall2 zone_rep (<[j := z']> zs) (<[j := ts']> tss)
  end.
Proof.
  intros Hz Ho. unfold PhysAllocator_alloc.
  rewrite (proj2 (Z.leb_le order MAX_ORDER)), debug_assert_true by (unfold MAX_ORDER; lia).
  cbn [mbind outcome_bind unwrap].
  pose proof (alloc_zones_first_fit zs tss (Z.to_nat order) Hz ltac:(lia)) as Ha.
  rewrite Z2Nat.id in Ha by lia.
  destruct (first_fit _ tss) as [[[j ts'] i]|]; [|by rewrite Ha].
  destruct Ha as (z & ms & z' & Hj & -> & Hrep). ok_simpl. eauto 10.
Qed.

End properties.

(** A region of fewer than four pages makes the debug kernel panic
    while it initialises the allocator (the subtraction in [usable_pages]
    overflows); in a release build [usable_pages] wraps around to more pages
    than the region has. *)
Theorem usable_pages_small_region `{HX : X86_64, !X86_64_Laws, HA : ArrayVec, !ArrayVec_Laws} (t : Z) :
  0 ≤ t < 4 →
  @usable_pages debug_build HX t = Panic PanicOverflow ∧
  (∃ n, @usable_pages release_build HX t = Ok n ∧ t < n) ∧
  ∀ rg rs np, region_pages rg = t →
    @PhysAllocator_init debug_build HX HA (mkMap (rg :: rs) np) = Panic PanicOverflow.
Proof.
  intros Ht.
  assert (@usable_pages debug_build HX t = Panic PanicOverflow ∧
    ∃ n, @usable_pages release_build HX t = Ok n ∧ t < n) as [Hdbg Hrel].
  { unfold usable_pages, blocks_in_region.
    assert (align_up t MAX_ORDER_PAGES = Ok (if t =? 0 then 0 else 2048)) as ->.
    { change MAX_ORDER_PAGES with (2 ^ 11). rewrite align_up_spec by lia.
      assert (t = 0 ∨ t = 1 ∨ t = 2 ∨ t = 3) as [->|[->|[->| ->]]] by lia; done. }
    assert (t = 0 ∨ t = 1 ∨ t = 2 ∨ t = 3) as [->|[->|[->| ->]]] by lia;
      (split; [done|]; eexists; split; [vm_compute; done|]; lia). }
  split_and!; [done|done|]. intros rg rs np <-. unfold PhysAllocator_init, into_iter. cbn [regions length].
  cbn [init_loop]. unfold next. rewrite av_pop_at_law by done.
  change ((rg :: rs) !! Z.to_nat 0) with (Some rg). cbv beta iota zeta.
  change (size rg / PAGE_SIZE) with (region_pages rg). by rewrite Hdbg.
Qed.

(** [Block::parent_state] reports two half-used siblings with the
    same largest free order as one larger free block.  Once pages 1 and 3 of a
    four-page zone are given back by the steps [Zone::free] means to perform,
    a request for two contiguous pages follows the wrong summary and hits
    [unreachable!()]. *)
Theorem parent_state_merges_half_used :
  (zone ← @Zone_new debug_build x86_64_ref 0x100000 0x4000 (zero_blocks 4);
   '(_, zone) ← @Zone_allocs debug_build x86_64_ref [0; 0; 0; 0] zone;
   zone ← @release debug_build zone 0 1;
   zone ← @release debug_build zone 0 3;
   @Zone_alloc debug_build x86_64_ref zone 1) = Panic PanicUnreachable.
Proof. vm_compute. reflexivity. Qed.

(** The overclaim reaches the allocator's callers.  Booted with
    one region of 8 MiB at 1 MiB, the allocator answers a request of order 11
    with frames beyond the end of the region. *)
Theorem phys_allocator_leaves_region :
  ∃ range ms st,
    (pmm ← @PhysAllocator_init debug_build x86_64_ref arrayvec_ref
             (mkMap [mkRegion 0x100000 0x800000] 2048);
     @PhysAllocator_alloc debug_build x86_64_ref pmm 11) = Ok (range, ms, st) ∧
    0x100000 + 0x800000 < start_address (range_end range).
Proof. do 3 eexists. split; [vm_compute; reflexivity|]. vm_compute. reflexivity. Qed.

(** * Witnesses *)

Lemma zone_alloc_refines_witness :
  ∃ z', @Zone_alloc debug_build x86_64_ref demo_zone 1 =
      Ok (Some (block_range 0x100000 1 0, mkMemSet (0x100000 + PHYS_OFFSET) 0xB8 0x2000), z') ∧
    zpages z' = zpages demo_zone ∧
    ∃ ts, zone_rep z' ts.
Proof.
  destruct (@zone_alloc_refines debug_build x86_64_ref x86_64_ref_laws demo_zone [tower 9] 1
              demo_zone_rep ltac:(lia)) as (z' & Ha & Hp & Hr).
  exists z'. split; [exact Ha|]. split; [exact Hp|]. eexists. exact Hr.
Defined.

Lemma zone_alloc_takes_free_pages_witness :
  ∃ range ms z' ts' i,
    @Zone_alloc debug_build x86_64_ref demo_zone 1 = Ok (Some (range, ms), z') ∧
    range = block_range 0x100000 1 i ∧ zone_rep z' ts' ∧
    (∀ p, in_block 1 i p → zone_free [tower 9] p = true ∧ zone_free ts' p = false).
Proof.
  destruct (@Zone_alloc_falloc debug_build x86_64_ref x86_64_ref_laws demo_zone [tower 9] 1
              demo_zone_rep ltac:(lia)) as (ol' & Ha & _).
  destruct (@zone_alloc_takes_free_pages debug_build x86_64_ref x86_64_ref_laws demo_zone [tower 9] 1 _ _ _
              demo_zone_rep ltac:(lia) Ha) as (ts' & i & Hr & Hz & Hp & _).
  do 3 eexists. exists ts', i. split; [exact Ha|]. split; [exact Hr|]. split; [exact Hz|exact Hp].
Defined.

Lemma zone_alloc_complete_witness :
  ¬ (@Zone_alloc debug_build x86_64_ref demo_zone 2 = Ok (None, demo_zone)).
Proof.
  intros Hn. apply (proj1 (@zone_alloc_complete debug_build x86_64_ref x86_64_ref_laws demo_zone
    [tower 9] 2 demo_zone_rep ltac:(lia)) Hn).
  exists 0. split; [lia|]. intros p Hp. unfold in_block in Hp. change (pages (Z.to_nat 2)) with 4 in Hp.
  unfold zone_free. destruct (exact_size_rep 4 [tower 9] (exact_pow 2 ltac:(lia))) as (_ & _ & ->);
    [apply Z.ltb_lt; lia|lia].
Defined.

Lemma zone_allocs_disjoint_witness :
  ∃ z rs z', @Zone_new debug_build x86_64_ref 0x100000 0x4000 (zero_blocks 4) = Ok z ∧
    @Zone_allocs debug_build x86_64_ref [0; 1; 0; 11] z = Ok (rs, z') ∧
    (∀ i j r1 r2, (i < j)%nat → rs !! i = Some r1 → rs !! j = Some r2 → range_disjoint r1 r2).
Proof.
  destruct (@zone_allocs_disjoint debug_build x86_64_ref x86_64_ref_laws 0x100000 4 [tower 9] [0; 1; 0; 11]
    (exact_pow 2 ltac:(lia)) ltac:(lia) ltac:(by exists 256) ltac:(vm_compute; reflexivity)
    ltac:(repeat constructor; lia)) as (z & rs & z' & Hz & Hrs & _ & Hd).
  exists z, rs, z'. split; [exact Hz|]. split; [exact Hrs|exact Hd].
Defined.

Lemma zone_new_exact_witness :
  ∃ z, @Zone_new release_build x86_64_ref 0x100000 (4096 * PAGE_SIZE) (zero_blocks 4096) = Ok z ∧
    zone_rep z [Free; Free] ∧ znum_pages z = 4096.
Proof.
  destruct (@zone_new_exact release_build x86_64_ref x86_64_ref_laws 0x100000 4096 [Free; Free]
    (exact_mult 2 ltac:(lia)) ltac:(lia) ltac:(by exists 256) ltac:(vm_compute; reflexivity))
    as (z & Hz & Hr & _ & Hn & _).
  exists z. split; [exact Hz|]. split; [exact Hr|exact Hn].
Defined.

Lemma zone_new_overclaims_witness :
  ∃ z range ms z', @Zone_new debug_build x86_64_ref 0x100000 (3 * PAGE_SIZE) (zero_blocks 3) = Ok z ∧
    @Zone_alloc debug_build x86_64_ref z 2 = Ok (Some (range, ms), z') ∧
    start_address (range_end (zpages z)) < start_address (range_end range).
Proof.
  apply (@zone_new_overclaims debug_build x86_64_ref x86_64_ref_laws 0x100000 3);
    [lia|vm_compute; reflexivity|lia|by exists 256|lia].
Defined.

Lemma phys_allocator_free_panics_witness :
  panics (@PhysAllocator_free release_build x86_64_ref (Some [demo_zone])
            (mkRange (mkFrame 0x100000) (mkFrame 0x101000))).
Proof.
  apply (@phys_allocator_free_panics release_build x86_64_ref x86_64_ref_laws).
  - intros zs z [= <-] ->%list_elem_of_singleton. split; [vm_compute; lia|].
    split; [unfold phys_ok; simpl; lia|by exists 256].
  - split; [unfold phys_ok; simpl; lia|by exists 256].
  - split; [unfold phys_ok; simpl; lia|by exists 257].
  - simpl. lia.
Defined.


Lemma phys_allocator_init_zones_witness :
  @PhysAllocator_init debug_build x86_64_ref arrayvec_ref
    (mkMap [mkRegion 0x100000 0x800000; mkRegion 0x1000000 0x4000] 2052) =
  Ok (Some [region_zone (mkRegion 0x100000 0x800000)]).
Proof.
  apply (@phys_allocator_init_zones debug_build x86_64_ref arrayvec_ref x86_64_ref_laws arrayvec_ref_laws
    (mkMap [mkRegion 0x100000 0x800000; mkRegion 0x1000000 0x4000] 2052)).
  - repeat constructor; simpl; try lia; try (by exists 256); try (by exists 4096); vm_compute; done.
  - simpl. lia.
Defined.

Lemma phys_allocator_alloc_first_fit_witness :
  ∃ ms z', @PhysAllocator_alloc debug_build x86_64_ref (Some [demo_zone]) 2 =
    Ok (block_range 0x100000 2 0, ms, Some [z']).
Proof.
  destruct (@phys_allocator_alloc_first_fit debug_build x86_64_ref x86_64_ref_laws [demo_zone] [[tower 9]] 2
    ltac:(constructor; [apply demo_zone_rep|constructor]) ltac:(lia)) as (z & ms & z' & Hj & Ha & _).
  exists ms, z'. injection Hj as <-. exact Ha.
Defined.

Lemma usable_pages_small_region_witness :
  @usable_pages debug_build x86_64_ref 3 = Panic PanicOverflow.
Proof.
  exact (proj1 (@usable_pages_small_region x86_64_ref x86_64_ref_laws arrayvec_ref arrayvec_ref_laws 3 ltac:(lia))).
Defined.
