(* ===== verification/Conc.v ===== *)
(** Interleaving of threads over a shared state.

    A lock operation in progress, or a guard it returned, is an agent with a
    program counter; one step of an agent is one atomic access of the code.
    [next] lists the possible outcomes of a step (more than one where the code
    or a weak compare-exchange may go either way).  Any agent may take the next
    step and new calls may start at any time, so the reachable configurations
    are all sequentially consistent interleavings. *)
From S2P Require Import Prelude.

Section conc.
Context {S PC : Type} (next : PC → S → list (S * PC)) (start : PC → bool).

Record config := Config { shared : S; agents : list PC }.

Inductive step : config → config → Prop :=
  | step_run s l i pc s' pc' :
      l !! i = Some pc → (s', pc') ∈ next pc s →
      step (Config s l) (Config s' (<[i := pc']> l))
  | step_call s l pc : start pc = true → step (Config s l) (Config s (l ++ [pc])).

Definition reachable (s0 : S) (c : config) : Prop := rtc step (Config s0 []) c.

(** A schedule: start a call, or let agent [i] take outcome [n] of its step. *)
Inductive action := Call (pc : PC) | Run (i n : nat).

Definition act (a : action) (c : config) : option config :=
  match a with
  | Call pc => if start pc then Some (Config (shared c) (agents c ++ [pc])) else None
  | Run i n =>
      pc ← agents c !! i;
      '(s', pc') ← next pc (shared c) !! n;
      Some (Config s' (<[i := pc']> (agents c)))
  end.

Fixpoint run (as_ : list action) (c : config) : option config :=
  match as_ with
  | [] => Some c
  | a :: as' => c ← act a c; run as' c
  end.

(** Every schedule is an execution. *)
Lemma run_steps as_ c c' : run as_ c = Some c' → rtc step c c'.
Proof.
  revert c. induction as_ as [|a as' IH]; intros c; simpl; [by intros [= ->]|].
  destruct (act a c) as [c1|] eqn:Ea; simpl; [|done]. intros Hr.
  apply rtc_l with c1; [|by apply IH]. destruct c as [s l], a as [pc|i n]; simpl in Ea.
  - destruct (start pc) eqn:Es; simplify_eq. by constructor.
  - destruct (l !! i) as [pc|] eqn:Ei; simpl in Ea; [|done].
    destruct (next pc s !! n) as [[s' pc']|] eqn:En; simplify_eq/=.
    econstructor; [done|]. apply list_elem_of_lookup. eauto.
Qed.

Lemma run_reachable as_ s0 c : run as_ (Config s0 []) = Some c → reachable s0 c.
Proof. apply run_steps. Qed.

(** Calls are never forgotten. *)
Lemma step_length c c' : step c c' → (length (agents c) ≤ length (agents c'))%nat.
Proof. destruct 1; simpl; rewrite ?length_insert, ?length_app; lia. Qed.

(** Invariants of executions in which fewer than [n] calls were made. *)
Lemma reachable_invariant (n : Z) (Inv : config → Prop) s0 :
  Inv (Config s0 []) →
  (∀ c c', Inv c → Z.of_nat (length (agents c')) < n → step c c' → Inv c') →
  ∀ c, reachable s0 c → Z.of_nat (length (agents c)) < n → Inv c.
Proof.
  intros H0 Hstep c Hr. unfold reachable in Hr.
  refine (rtc_ind_r (λ c, Z.of_nat (length (agents c)) < n → Inv c) (Config s0 []) _ _ c Hr).
  - done.
  - intros c1 c2 _ H12 IH Hn. eapply Hstep; [|done|done]. apply IH.
    apply step_length in H12. lia.
Qed.

End conc.

Arguments config : clear implicits.
Arguments Config {S PC}.
Arguments action : clear implicits.
Arguments Call {PC}.
Arguments Run {PC}.
