(* ===== verification/PerCpu.v ===== *)
(** [src/cpu/percpu.rs]: per-CPU data and the preemption counter. *)
From S2P Require Import Prelude X86.

(** [addr_space] is the address of the CPU's [AddrSpace]. *)
Record PerCpu := mkPerCpu { addr_space : Z; preempt_count : Z }.

Definition MAX_CPUS : Z := 8.

(** [fetch_add] and [fetch_sub] on an [AtomicUsize] wrap around. *)
Definition fetch_add (x n : Z) : Z := (x + n) mod 2 ^ 64.
Definition fetch_sub (x n : Z) : Z := (x - n) mod 2 ^ 64.

Definition preempt_inc (self : PerCpu) : PerCpu :=
  mkPerCpu (addr_space self) (fetch_add (preempt_count self) 1).
Definition preempt_dec (self : PerCpu) : PerCpu :=
  mkPerCpu (addr_space self) (fetch_sub (preempt_count self) 1).

Section code.
Context `{ArrayVec}.

(** The [lazy_static] [CPUS] and [PerCpu::current]. *)
Definition CPUS (kernel_addr_space : Z) : outcome (list PerCpu) :=
  av_push MAX_CPUS [] (mkPerCpu kernel_addr_space 0).
Definition current (cpus : list PerCpu) : outcome PerCpu := index cpus 0.

(** [PerCpu::without_preempts]: [f] runs on the CPU it is given. *)
Definition without_preempts {A} (f : PerCpu → A * PerCpu) (self : PerCpu) : A * PerCpu :=
  let current := preempt_inc self in
  let '(rv, current) := f current in
  (rv, preempt_dec current).

End code.

Lemma fetch_add_ok x n : 0 ≤ x → 0 ≤ n → x + n < 2 ^ 64 → fetch_add x n = x + n.
Proof. intros. apply Z.mod_small. lia. Qed.

Lemma fetch_sub_ok x n : 0 ≤ n ≤ x → x < 2 ^ 64 → fetch_sub x n = x - n.
Proof. intros. apply Z.mod_small. lia. Qed.

Lemma preempt_dec_inc c : 0 ≤ preempt_count c < 2 ^ 64 → preempt_dec (preempt_inc c) = c.
Proof.
  intros Hc. destruct c as [a n]. unfold preempt_dec, preempt_inc, fetch_sub, fetch_add. simpl in *.
  f_equal. rewrite Zminus_mod_idemp_l. rewrite Z.add_simpl_r. by apply Z.mod_small.
Qed.
