(* ===== verification/SpinLock.v ===== *)
(** [src/ds/sync/spinlock.rs]: the spin lock, one atomic access per step. *)
From S2P Require Import Prelude X86 PerCpu Conc.

(** The lock's flag and the preemption counter of the (single) CPU. *)
Record spin := mkSpin { locked : bool; sp_cpu : Z }.

Inductive spin_pc : Type :=
  | LockEnter     (* [lock]: before [preempt_inc] *)
  | LockCas       (* [lock]: before the [compare_exchange] *)
  | LockSpin      (* [lock]: before the [load] of the inner loop *)
  | TryEnter      (* [try_lock]: before [preempt_inc] *)
  | TryCas        (* [try_lock]: before the [compare_exchange] *)
  | TryDec        (* [try_lock]: before [preempt_dec] *)
  | TryNone       (* [try_lock] returned [None] *)
  | Held          (* a [SpinLockGuard] is alive *)
  | DropStore     (* [drop]: before the [store] *)
  | DropDec       (* [drop]: before [preempt_dec] *)
  | Dropped.

#[global] Instance spin_pc_eq_dec : EqDecision spin_pc.
Proof. solve_decision. Defined.

(** [SpinLock::new] *)
Definition SpinLock_new (cpu : Z) : spin := mkSpin false cpu.

Definition set_locked (b : bool) (s : spin) : spin := mkSpin b (sp_cpu s).
Definition spin_inc (s : spin) : spin := mkSpin (locked s) (fetch_add (sp_cpu s) 1).
Definition spin_dec (s : spin) : spin := mkSpin (locked s) (fetch_sub (sp_cpu s) 1).

(** [compare_exchange(false, true)]: the new state and whether it is [Err]. *)
Definition cas_lock (s : spin) : spin * bool :=
  if locked s then (s, true) else (set_locked true s, false).

(** [SpinLock::lock] *)
Definition lock_step (pc : spin_pc) (s : spin) : spin * spin_pc :=
  match pc with
  | LockEnter => (spin_inc s, LockCas)
  | LockCas =>
      let '(s, is_err) := cas_lock s in
      (s, if is_err then LockSpin else Held)
  | LockSpin => (s, if locked s then LockSpin else LockCas)
  | _ => (s, pc)
  end.

(** [SpinLock::try_lock] *)
Definition try_lock_step (pc : spin_pc) (s : spin) : spin * spin_pc :=
  match pc with
  | TryEnter => (spin_inc s, TryCas)
  | TryCas =>
      let '(s, is_err) := cas_lock s in
      (s, if is_err then Held else TryDec)
  | TryDec => (spin_dec s, TryNone)
  | _ => (s, pc)
  end.

(** [Drop for SpinLockGuard] *)
Definition drop_step (pc : spin_pc) (s : spin) : spin * spin_pc :=
  match pc with
  | Held => (s, DropStore)
  | DropStore => (set_locked false s, DropDec)
  | DropDec => (spin_dec s, Dropped)
  | _ => (s, pc)
  end.

Definition spin_next (pc : spin_pc) (s : spin) : list (spin * spin_pc) :=
  match pc with
  | LockEnter | LockCas | LockSpin => [lock_step pc s]
  | TryEnter | TryCas | TryDec => [try_lock_step pc s]
  | Held | DropStore | DropDec => [drop_step pc s]
  | TryNone | Dropped => []
  end.

(** The calls of a program that uses [lock] only, and of one that also uses
    [try_lock]. *)
Definition calls_lock (pc : spin_pc) : bool := bool_decide (pc = LockEnter).
Definition calls_any (pc : spin_pc) : bool :=
  bool_decide (pc = LockEnter) || bool_decide (pc = TryEnter).

(** * Counting *)

(** The agent has the lock taken. *)
Definition holds (pc : spin_pc) : Z :=
  match pc with Held | DropStore => 1 | _ => 0 end.
(** The agent is between [preempt_inc] and [preempt_dec]. *)
Definition preempts (pc : spin_pc) : Z :=
  match pc with
  | LockCas | LockSpin | TryCas | TryDec | Held | DropStore | DropDec => 1
  | LockEnter | TryEnter | TryNone | Dropped => 0
  end.
(** The program counters [lock] and its guard go through. *)
Definition lock_pc (pc : spin_pc) : Prop :=
  match pc with TryEnter | TryCas | TryDec | TryNone => False | _ => True end.

Record spin_inv (cpu : Z) (c : config spin spin_pc) : Prop := {
  si_pcs : Forall lock_pc (agents c);
  si_locked : total holds (agents c) = if locked (shared c) then 1 else 0;
  si_cpu : sp_cpu (shared c) = cpu + total preempts (agents c)
}.

Lemma holds_nonneg pc : 0 ≤ holds pc.
Proof. destruct pc; simpl; lia. Qed.
Lemma preempts_bounds pc : 0 ≤ preempts pc ≤ 1.
Proof. destruct pc; simpl; lia. Qed.

Lemma spin_inv_step cpu c c' :
  0 ≤ cpu < 2 ^ 62 → spin_inv cpu c → Z.of_nat (length (agents c')) < 2 ^ 62 →
  step spin_next calls_lock c c' → spin_inv cpu c'.
Proof.
  intros Hcpu [Hpcs Hl Hc] Hlen Hstep.
  assert (∀ l, 0 ≤ total preempts l ≤ Z.of_nat (length l)) as Hpre.
  { intros l. split; [apply total_nonneg|apply total_length]; apply preempts_bounds. }
  destruct Hstep as [s l i pc s' pc' Hi Hn|s l pc Hp]; simpl in *.
  - rewrite length_insert in Hlen. pose proof (Hpre l).
    pose proof (total_lookup holds l i pc holds_nonneg Hi).
    pose proof (total_lookup preempts l i pc (λ a, proj1 (preempts_bounds a)) Hi).
    pose proof (proj1 (Forall_lookup _ _) Hpcs _ _ Hi) as Hpc.
    destruct pc; simpl in Hpc; try done; try (by apply not_elem_of_nil in Hn);
      apply list_elem_of_singleton in Hn;
      unfold lock_step, drop_step, cas_lock, spin_inc, spin_dec in Hn;
      destruct (locked s) eqn:El; simplify_eq/=;
      (split; simpl; [by apply Forall_insert|rewrite (total_insert _ _ _ _ _ Hi)..]; simpl;
       rewrite ?El; rewrite ?fetch_add_ok, ?fetch_sub_ok by lia; lia).
  - apply bool_decide_eq_true in Hp as ->.
    split; simpl; rewrite ?total_snoc; simpl; [|lia..].
    apply Forall_app; split; [done|]. by repeat constructor.
Qed.

Lemma spin_inv_reachable cpu c :
  0 ≤ cpu < 2 ^ 62 → reachable spin_next calls_lock (SpinLock_new cpu) c →
  Z.of_nat (length (agents c)) < 2 ^ 62 → spin_inv cpu c.
Proof.
  intros Hcpu. apply reachable_invariant.
  - split; simpl; [constructor|done|unfold total; simpl; lia].
  - intros c1 c2 Hinv Hlen Hs. by eapply spin_inv_step.
Qed.

(** A lock that is taken though nobody holds it, and no [try_lock] in progress:
    [lock] spins for ever. *)
Definition waits (pc : spin_pc) : Prop :=
  match pc with TryNone | LockEnter | LockCas | LockSpin | DropDec | Dropped => True | _ => False end.
Definition wedged (c : config spin spin_pc) : Prop :=
  locked (shared c) = true ∧ Forall waits (agents c).

Lemma waits_holds pc : waits pc → holds pc = 0.
Proof. by destruct pc. Qed.

Lemma wedged_step c c' : wedged c → step spin_next calls_lock c c' → wedged c'.
Proof.
  intros [Hl Hpcs] Hstep. destruct Hstep as [s l i pc s' pc' Hi Hn|s l pc Hp]; simpl in *.
  - pose proof (proj1 (Forall_lookup _ _) Hpcs _ _ Hi) as Hpc.
    destruct pc; simpl in Hpc, Hn; try done; try (by apply not_elem_of_nil in Hn);
      apply list_elem_of_singleton in Hn; unfold lock_step, drop_step, cas_lock, spin_inc, spin_dec in Hn;
      rewrite ?Hl in Hn; simplify_eq/=; (split; [done|]; by apply Forall_insert).
  - apply bool_decide_eq_true in Hp as ->. split; [done|].
    apply Forall_app; split; [done|]. by apply Forall_singleton.
Qed.

Lemma wedged_steps c c' : wedged c → rtc (step spin_next calls_lock) c c' → wedged c'.
Proof. intros Hw Hr. induction Hr; eauto using wedged_step. Qed.

Lemma run_try s l as_ :
  run spin_next calls_any (Call TryEnter :: as_) (Config s l) =
  run spin_next calls_any as_ (Config s (l ++ [TryEnter])).
Proof. done. Qed.

(** The youngest call takes a step. *)
Lemma run_last s l pc s' pc' as_ :
  spin_next pc s = [(s', pc')] →
  run spin_next calls_any (Run (length l) 0 :: as_) (Config s (l ++ [pc])) =
  run spin_next calls_any as_ (Config s' (l ++ [pc'])).
Proof.
  intros Hn. cbn [run act shared agents]. rewrite (list_lookup_middle l [] pc _ eq_refl). simpl.
  rewrite Hn. simpl. rewrite insert_app_r_alt by lia. by rewrite Nat.sub_diag.
Qed.

(** * Properties *)

(** C14 (invariant): among any number of concurrent callers of [SpinLock::lock]
    at most one holds a guard, the flag is set exactly while one does, and the
    preemption counter exceeds its initial value by the number of calls and
    guards in progress (so it is restored once every guard is dropped). *)
Theorem spinlock_mutual_exclusion (cpu : Z) (c : config spin spin_pc) :
  0 ≤ cpu < 2 ^ 62 → reachable spin_next calls_lock (SpinLock_new cpu) c →
  Z.of_nat (length (agents c)) < 2 ^ 62 →
  (∀ i j pc1 pc2, agents c !! i = Some pc1 → agents c !! j = Some pc2 →
     holds pc1 = 1 → holds pc2 = 1 → i = j) ∧
  (locked (shared c) = true ↔ ∃ i pc, agents c !! i = Some pc ∧ holds pc = 1) ∧
  sp_cpu (shared c) = cpu + total preempts (agents c).
Proof.
  intros Hcpu Hr Hlen. destruct (spin_inv_reachable cpu c Hcpu Hr Hlen) as [_ Hl Hc].
  split_and!; [|split|done].
  - intros i j pc1 pc2 Hi Hj H1 H2. destruct (decide (i = j)); [done|].
    pose proof (total_two holds (agents c) i j pc1 pc2 holds_nonneg ltac:(done) Hi Hj).
    destruct (locked (shared c)); lia.
  - intros Ht. rewrite Ht in Hl. apply total_pos_lookup; [apply holds_nonneg|lia|].
    intros []; simpl; lia.
  - intros (i & pc & Hi & Hh).
    pose proof (total_lookup holds (agents c) i pc holds_nonneg Hi).
    destruct (locked (shared c)); [done|lia].
Qed.

(** C37 (error): [SpinLock::try_lock] has its test inverted.  A call on a held lock,
    whatever else is in progress, returns a second guard.  A call on a free lock
    of a program that used only [lock] so far returns [None] and leaves the lock
    taken: as long as only [lock] is called from then on, the lock stays taken and
    no call returns a guard (until another [try_lock], which hands one out). *)
Theorem try_lock_inverted (c : config spin spin_pc) :
  let i := length (agents c) in
  (locked (shared c) = true →
     run spin_next calls_any [Call TryEnter; Run i 0; Run i 0] c =
     Some (Config (spin_inc (shared c)) (agents c ++ [Held]))) ∧
  (∀ cpu, 0 ≤ cpu < 2 ^ 62 → reachable spin_next calls_lock (SpinLock_new cpu) c →
     Z.of_nat i < 2 ^ 62 → locked (shared c) = false →
     ∃ c1, run spin_next calls_any [Call TryEnter; Run i 0; Run i 0; Run i 0] c = Some c1 ∧
       agents c1 = agents c ++ [TryNone] ∧ sp_cpu (shared c1) = sp_cpu (shared c) ∧
       ∀ c2, rtc (step spin_next calls_lock) c1 c2 →
         locked (shared c2) = true ∧ Forall (λ pc, holds pc = 0) (agents c2)).
Proof.
  destruct c as [s l]. cbn [shared agents]. split.
  - intros Hl. rewrite run_try, (run_last s l TryEnter (spin_inc s) TryCas) by done.
    rewrite (run_last _ l TryCas (spin_inc s) Held); [done|].
    simpl. unfold cas_lock. simpl. by rewrite Hl.
  - intros cpu Hcpu Hr Hlen Hl. destruct (spin_inv_reachable cpu _ Hcpu Hr Hlen) as [Hpcs Htot Hc].
    cbn [shared agents] in *.
    exists (Config (spin_dec (set_locked true (spin_inc s))) (l ++ [TryNone])).
    assert (Forall waits (l ++ [TryNone])) as Hw.
    { apply Forall_app; split; [|by apply Forall_singleton]. apply Forall_lookup. intros j pc Hj.
      pose proof (proj1 (Forall_lookup _ _) Hpcs _ _ Hj). pose proof (total_lookup holds l j pc holds_nonneg Hj).
      rewrite Hl in Htot. destruct pc; simpl in *; try done; lia. }
    assert (0 ≤ total preempts l ≤ Z.of_nat (length l))
      by (split; [apply total_nonneg|apply total_length]; apply preempts_bounds).
    split_and!; [|done| |].
    + rewrite run_try, (run_last s l TryEnter (spin_inc s) TryCas) by done.
      rewrite (run_last _ l TryCas (set_locked true (spin_inc s)) TryDec)
        by (simpl; unfold cas_lock; simpl; by rewrite Hl).
      by rewrite (run_last _ l TryDec (spin_dec (set_locked true (spin_inc s))) TryNone).
    + simpl. rewrite fetch_add_ok, fetch_sub_ok by (rewrite ?fetch_add_ok; lia). lia.
    + intros c2 Hs. apply wedged_steps in Hs as [? ?]; [|by split]. split; [done|].
      eapply Forall_impl; [done|apply waits_holds].
Qed.

(** A second guard beside a held lock; and a fresh lock left taken. *)
Lemma try_lock_inverted_witness :
  run spin_next calls_any [Call TryEnter; Run 1 0; Run 1 0] (Config (mkSpin true 8) [Held]) =
    Some (Config (mkSpin true 9) [Held; Held]) ∧
  ∃ c1, run spin_next calls_any [Call TryEnter; Run 0 0; Run 0 0; Run 0 0] (Config (SpinLock_new 7) []) = Some c1 ∧
    ∀ c2, rtc (step spin_next calls_lock) c1 c2 → locked (shared c2) = true.
Proof.
  split.
  - exact (proj1 (try_lock_inverted (Config (mkSpin true 8) [Held])) eq_refl).
  - destruct (proj2 (try_lock_inverted (Config (SpinLock_new 7) [])) 7) as (c1 & Hr & _ & _ & Hc).
    + lia.
    + apply rtc_refl.
    + simpl. lia.
    + reflexivity.
    + exists c1. split; [exact Hr|]. intros c2 Hs. by apply Hc.
Defined.

Lemma spinlock_mutual_exclusion_witness :
  ∃ c, reachable spin_next calls_lock (SpinLock_new 7) c ∧
    agents c = [Held; LockSpin] ∧ locked (shared c) = true ∧ sp_cpu (shared c) = 9.
Proof.
  assert (∃ c, run spin_next calls_lock
      [Call LockEnter; Call LockEnter; Run 0 0; Run 1 0; Run 0 0; Run 1 0]
      (Config (SpinLock_new 7) []) = Some c ∧ agents c = [Held; LockSpin]) as (c & Hrun & Ha)
    by (eexists; split; reflexivity).
  apply run_reachable in Hrun. exists c. split; [done|]. split; [done|].
  destruct (spinlock_mutual_exclusion 7 c ltac:(lia) Hrun ltac:(rewrite Ha; simpl; lia)) as (_ & Hl & Hc).
  split; [apply Hl; exists 0%nat, Held; by rewrite Ha|]. by rewrite Hc, Ha.
Defined.
