(* ===== verification/RwSpinLock.v ===== *)
(** [src/ds/sync/rwspinlock.rs]: the reader-writer spin lock with upgradeable
    readers, one atomic access per step.  The guards' [Deref] reads the data
    the guard protects and takes no step of its own. *)
From S2P Require Import Prelude X86 PerCpu Conc.

Definition READER : Z := Z.shiftl 1 2.
Definition UPGRADED : Z := Z.shiftl 1 1.
Definition WRITER : Z := 1.

(** The lock word and the preemption counter of the (single) CPU. *)
Record rw := mkRw { word : Z; rw_cpu : Z }.

(** [RwSpinLock::new] *)
Definition RwSpinLock_new (cpu : Z) : rw := mkRw 0 cpu.

Inductive rw_pc : Type :=
  | ReadEnter | ReadAdd | ReadUndo                          (* [read] *)
  | TryReadEnter | TryReadAdd | TryReadUndo | TryReadDec    (* [try_read] *)
  | WriteEnter | WriteCas                                   (* [write] *)
  | TryWriteEnter | TryWriteCas | TryWriteDec               (* [try_write] *)
  | UpgrEnter | UpgrOr                                      (* [upgradeable_read] *)
  | TryUpgrEnter | TryUpgrOr | TryUpgrDec                   (* [try_upgradeable_read] *)
  | NoGuard                                                 (* a [try_] call returned [None] *)
  | ReadGuard | UpgrGuard | WriteGuard                      (* a guard is alive *)
  | UpgradeCas | TryUpgradeCas                              (* [upgrade], [try_upgrade] *)
  | UpgrDownAdd | UpgrDownInc                               (* [downgrade] of an upgradeable guard *)
  | WriteDownAdd | WriteDownInc                             (* [downgrade] of a write guard *)
  | ReadDropAssert | ReadDropSub | ReadDropDec              (* [drop] of a read guard *)
  (* [drop] of the other guards; [k]: a downgrade returns a read guard after it *)
  | UpgrDropAssert (k : bool) | UpgrDropSub (k : bool) | UpgrDropDec (k : bool)
  | WriteDropAssert (k : bool) | WriteDropAnd (k : bool) | WriteDropDec (k : bool)
  | Dropped
  | AssertFailed.

#[global] Instance rw_pc_eq_dec : EqDecision rw_pc.
Proof. solve_decision. Defined.

Definition set_word (w : Z) (s : rw) : rw := mkRw w (rw_cpu s).
Definition rw_inc (s : rw) : rw := mkRw (word s) (fetch_add (rw_cpu s) 1).
Definition rw_dec (s : rw) : rw := mkRw (word s) (fetch_sub (rw_cpu s) 1).

(** [compare_exchange]: the possible new states, and whether it is [Ok].  The
    weak one may fail for no reason. *)
Definition compare_exchange (s : rw) (current new : Z) (strong : bool) : list (rw * bool) :=
  if word s =? current
  then (set_word new s, true) :: (if strong then [] else [(s, false)])
  else [(s, false)].

Definition busy (value : Z) : bool := negb (Z.land value (Z.lor WRITER UPGRADED) =? 0).

(** [RwSpinLock::read] *)
Definition read_step (pc : rw_pc) (s : rw) : list (rw * rw_pc) :=
  match pc with
  | ReadEnter => [(rw_inc s, ReadAdd)]
  | ReadAdd =>
      let value := word s in
      [(set_word (fetch_add value READER) s, if busy value then ReadUndo else ReadGuard)]
  | ReadUndo => [(set_word (fetch_sub (word s) READER) s, ReadAdd)]
  | _ => []
  end.

(** [RwSpinLock::try_read] *)
Definition try_read_step (pc : rw_pc) (s : rw) : list (rw * rw_pc) :=
  match pc with
  | TryReadEnter => [(rw_inc s, TryReadAdd)]
  | TryReadAdd =>
      let value := word s in
      [(set_word (fetch_add value READER) s, if busy value then TryReadUndo else ReadGuard)]
  | TryReadUndo => [(set_word (fetch_sub (word s) READER) s, TryReadDec)]
  | TryReadDec => [(rw_dec s, NoGuard)]
  | _ => []
  end.

Definition try_write_internal (s : rw) (strong : bool) : list (rw * bool) :=
  compare_exchange s 0 WRITER strong.

(** [RwSpinLock::write] *)
Definition write_step (pc : rw_pc) (s : rw) : list (rw * rw_pc) :=
  match pc with
  | WriteEnter => [(rw_inc s, WriteCas)]
  | WriteCas =>
      map (λ r : rw * bool, (r.1, if r.2 then WriteGuard else WriteCas)) (try_write_internal s false)
  | _ => []
  end.

(** [RwSpinLock::try_write] *)
Definition try_write_step (pc : rw_pc) (s : rw) : list (rw * rw_pc) :=
  match pc with
  | TryWriteEnter => [(rw_inc s, TryWriteCas)]
  | TryWriteCas =>
      map (λ r : rw * bool, (r.1, if r.2 then WriteGuard else TryWriteDec)) (try_write_internal s true)
  | TryWriteDec => [(rw_dec s, NoGuard)]
  | _ => []
  end.

(** [RwSpinLock::upgradeable_read] *)
Definition upgradeable_read_step (pc : rw_pc) (s : rw) : list (rw * rw_pc) :=
  match pc with
  | UpgrEnter => [(rw_inc s, UpgrOr)]
  | UpgrOr =>
      let value := word s in
      [(set_word (Z.lor value UPGRADED) s, if busy value then UpgrOr else UpgrGuard)]
  | _ => []
  end.

(** [RwSpinLock::try_upgradeable_read] *)
Definition try_upgradeable_read_step (pc : rw_pc) (s : rw) : list (rw * rw_pc) :=
  match pc with
  | TryUpgrEnter => [(rw_inc s, TryUpgrOr)]
  | TryUpgrOr =>
      let value := word s in
      [(set_word (Z.lor value UPGRADED) s, if busy value then TryUpgrDec else UpgrGuard)]
  | TryUpgrDec => [(rw_dec s, NoGuard)]
  | _ => []
  end.

Definition try_upgrade_internal (s : rw) (strong : bool) : list (rw * bool) :=
  compare_exchange s UPGRADED WRITER strong.

(** [upgrade], [try_upgrade] and [downgrade] of an upgradeable guard. *)
Definition upgr_guard_step (pc : rw_pc) (s : rw) : list (rw * rw_pc) :=
  match pc with
  | UpgradeCas =>
      map (λ r : rw * bool, (r.1, if r.2 then WriteGuard else UpgradeCas)) (try_upgrade_internal s false)
  | TryUpgradeCas =>
      map (λ r : rw * bool, (r.1, if r.2 then WriteGuard else UpgrGuard)) (try_upgrade_internal s true)
  | UpgrDownAdd => [(set_word (fetch_add (word s) READER) s, UpgrDownInc)]
  | UpgrDownInc => [(rw_inc s, UpgrDropAssert true)]
  | _ => []
  end.

(** [downgrade] of a write guard. *)
Definition write_guard_step (pc : rw_pc) (s : rw) : list (rw * rw_pc) :=
  match pc with
  | WriteDownAdd => [(set_word (fetch_add (word s) READER) s, WriteDownInc)]
  | WriteDownInc => [(rw_inc s, WriteDropAssert true)]
  | _ => []
  end.

Section code.
Context `{Build}.

(** [debug_assert!] on a value loaded from the lock word. *)
Definition assert_step (ok : bool) (pc : rw_pc) : rw_pc :=
  if negb debug_assertions || ok then pc else AssertFailed.

(** [Drop for RwSpinLockReadGuard] *)
Definition read_drop_step (pc : rw_pc) (s : rw) : list (rw * rw_pc) :=
  match pc with
  | ReadDropAssert =>
      [(s, assert_step (Z.land (word s) (bitnot 64 (Z.lor WRITER UPGRADED)) >? 0) ReadDropSub)]
  | ReadDropSub => [(set_word (fetch_sub (word s) READER) s, ReadDropDec)]
  | ReadDropDec => [(rw_dec s, Dropped)]
  | _ => []
  end.

(** [Drop for RwSpinLockUpgradeableGuard] *)
Definition upgr_drop_step (pc : rw_pc) (s : rw) : list (rw * rw_pc) :=
  match pc with
  | UpgrDropAssert k =>
      [(s, assert_step (Z.land (word s) (Z.lor WRITER UPGRADED) =? UPGRADED) (UpgrDropSub k))]
  | UpgrDropSub k => [(set_word (fetch_sub (word s) UPGRADED) s, UpgrDropDec k)]
  | UpgrDropDec k => [(rw_dec s, if k then ReadGuard else Dropped)]
  | _ => []
  end.

(** [Drop for RwSpinLockWriteGuard] *)
Definition write_drop_step (pc : rw_pc) (s : rw) : list (rw * rw_pc) :=
  match pc with
  | WriteDropAssert k =>
      [(s, assert_step (Z.land (word s) WRITER =? WRITER) (WriteDropAnd k))]
  | WriteDropAnd k =>
      [(set_word (Z.land (word s) (bitnot 64 (Z.lor WRITER UPGRADED))) s, WriteDropDec k)]
  | WriteDropDec k => [(rw_dec s, if k then ReadGuard else Dropped)]
  | _ => []
  end.

(** One step of a call, or what the owner of a guard may do with it. *)
Definition rw_next (pc : rw_pc) (s : rw) : list (rw * rw_pc) :=
  match pc with
  | ReadEnter | ReadAdd | ReadUndo => read_step pc s
  | TryReadEnter | TryReadAdd | TryReadUndo | TryReadDec => try_read_step pc s
  | WriteEnter | WriteCas => write_step pc s
  | TryWriteEnter | TryWriteCas | TryWriteDec => try_write_step pc s
  | UpgrEnter | UpgrOr => upgradeable_read_step pc s
  | TryUpgrEnter | TryUpgrOr | TryUpgrDec => try_upgradeable_read_step pc s
  | ReadGuard => [(s, ReadDropAssert)]
  | UpgrGuard =>
      [(s, UpgradeCas); (s, TryUpgradeCas); (s, UpgrDownAdd); (s, UpgrDropAssert false)]
  | WriteGuard => [(s, WriteDownAdd); (s, WriteDropAssert false)]
  | UpgradeCas | TryUpgradeCas | UpgrDownAdd | UpgrDownInc => upgr_guard_step pc s
  | WriteDownAdd | WriteDownInc => write_guard_step pc s
  | ReadDropAssert | ReadDropSub | ReadDropDec => read_drop_step pc s
  | UpgrDropAssert _ | UpgrDropSub _ | UpgrDropDec _ => upgr_drop_step pc s
  | WriteDropAssert _ | WriteDropAnd _ | WriteDropDec _ => write_drop_step pc s
  | NoGuard | Dropped | AssertFailed => []
  end.

End code.

(** The public calls on the lock. *)
Definition rw_calls (pc : rw_pc) : bool :=
  match pc with
  | ReadEnter | TryReadEnter | WriteEnter | TryWriteEnter | UpgrEnter | TryUpgrEnter => true
  | _ => false
  end.

(** * What an agent contributes to the lock word and the counter *)

(** [READER] units of the word. *)
Definition r_units (pc : rw_pc) : Z :=
  match pc with
  | ReadUndo | TryReadUndo | ReadGuard | ReadDropAssert | ReadDropSub
  | UpgrDownInc | WriteDownInc
  | UpgrDropAssert true | UpgrDropSub true | UpgrDropDec true
  | WriteDropAssert true | WriteDropAnd true | WriteDropDec true => 1
  | _ => 0
  end.
(** The agent may read the data as a reader. *)
Definition reads (pc : rw_pc) : Z :=
  match pc with
  | ReadGuard | ReadDropAssert | ReadDropSub
  | UpgrDownInc | UpgrDropAssert true | UpgrDropSub true | UpgrDropDec true
  | WriteDropDec true => 1
  | _ => 0
  end.
(** The agent has the upgradeable guard. *)
Definition upgrs (pc : rw_pc) : Z :=
  match pc with
  | UpgrGuard | UpgradeCas | TryUpgradeCas | UpgrDownAdd | UpgrDownInc
  | UpgrDropAssert _ | UpgrDropSub _ => 1
  | _ => 0
  end.
(** The agent has the write guard. *)
Definition writes (pc : rw_pc) : Z :=
  match pc with
  | WriteGuard | WriteDownAdd | WriteDownInc | WriteDropAssert _ | WriteDropAnd _ => 1
  | _ => 0
  end.
(** [preempt_inc]s not yet undone. *)
Definition rw_preempts (pc : rw_pc) : Z :=
  match pc with
  | ReadEnter | TryReadEnter | WriteEnter | TryWriteEnter | UpgrEnter | TryUpgrEnter
  | NoGuard | Dropped | AssertFailed => 0
  | UpgrDropAssert true | UpgrDropSub true | UpgrDropDec true
  | WriteDropAssert true | WriteDropAnd true | WriteDropDec true => 2
  | _ => 1
  end.
Definition failed (pc : rw_pc) : Z := match pc with AssertFailed => 1 | _ => 0 end.

(** * The lock word *)

(** The word holds [r] reader units, the bits [u] (UPGRADED) and [w] (WRITER). *)
Definition fields (r u w : Z) : Z := READER * r + UPGRADED * u + WRITER * w.

Lemma fields_eq r u w : fields r u w = 4 * r + 2 * u + w.
Proof. unfold fields. change READER with 4. change UPGRADED with 2. change WRITER with 1. lia. Qed.

Section bits.
Context (r u w : Z) (Hr : 0 ≤ r < 2 ^ 61) (Hu : 0 ≤ u ≤ 1) (Hw : 0 ≤ w ≤ 1).

Lemma fields_flags : Z.land (fields r u w) (Z.lor WRITER UPGRADED) = 2 * u + w.
Proof.
  rewrite fields_eq. change (Z.lor WRITER UPGRADED) with (Z.ones 2). rewrite Z.land_ones by done.
  symmetry. apply (Z.mod_unique_pos _ _ r); simpl; lia.
Qed.

Lemma fields_writer : Z.land (fields r u w) WRITER = w.
Proof.
  rewrite fields_eq. change WRITER with (Z.ones 1). rewrite Z.land_ones by done.
  symmetry. apply (Z.mod_unique_pos _ _ (2 * r + u)); simpl; lia.
Qed.

Lemma fields_units : Z.land (fields r u w) (bitnot 64 (Z.lor WRITER UPGRADED)) = fields r 0 0.
Proof.
  rewrite !fields_eq. change (Z.lor WRITER UPGRADED) with (Z.ones 2).
  rewrite land_bitnot_ones by lia. replace ((4 * r + 2 * u + w) / 2 ^ 2) with r; [lia|].
  apply (Z.div_unique_pos _ _ _ (2 * u + w)); simpl; lia.
Qed.

Lemma fields_or : Z.lor (fields r u w) UPGRADED = fields r 1 w.
Proof.
  rewrite lor_add_land. replace (Z.land (fields r u w) UPGRADED) with (2 * u).
  - rewrite !fields_eq. change UPGRADED with 2. lia.
  - pose proof fields_flags as Hf. rewrite Z.land_lor_distr_r, fields_writer, lor_add_land in Hf.
    replace (Z.land w (Z.land (fields r u w) UPGRADED)) with 0 in Hf; [lia|].
    rewrite <-fields_writer at 1. rewrite (Z.land_comm (fields r u w) UPGRADED), Z.land_assoc.
    rewrite <-(Z.land_assoc _ WRITER). by change (Z.land WRITER UPGRADED) with 0; rewrite Z.land_0_r.
Qed.

Lemma fields_add : fetch_add (fields r u w) READER = fields (r + 1) u w.
Proof. unfold fetch_add. rewrite !fields_eq. change READER with 4. rewrite Z.mod_small; lia. Qed.

Lemma fields_sub : 0 < r → fetch_sub (fields r u w) READER = fields (r - 1) u w.
Proof. intros. unfold fetch_sub. rewrite !fields_eq. change READER with 4. rewrite Z.mod_small; lia. Qed.

Lemma fields_sub_upgraded : u = 1 → fetch_sub (fields r u w) UPGRADED = fields r 0 w.
Proof. intros ->. unfold fetch_sub. rewrite !fields_eq. change UPGRADED with 2. rewrite Z.mod_small; lia. Qed.

Lemma fields_busy : busy (fields r u w) = negb (2 * u + w =? 0).
Proof. unfold busy. by rewrite fields_flags. Qed.

End bits.

(** * The invariant *)

Record rw_inv (cpu : Z) (c : config rw rw_pc) (u : Z) : Prop := {
  ri_word : word (shared c) = fields (total r_units (agents c)) u (total writes (agents c));
  ri_cpu : rw_cpu (shared c) = cpu + total rw_preempts (agents c);
  ri_failed : total failed (agents c) = 0;
  ri_u : 0 ≤ u ≤ 1;
  (* the UPGRADED bit is set while the upgradeable guard is alive, and otherwise
     only while a write guard is *)
  ri_upgrs : total upgrs (agents c) ≤ u;
  ri_flag : u ≤ total upgrs (agents c) + total writes (agents c);
  ri_one : total upgrs (agents c) + total writes (agents c) ≤ 1;
  ri_reads : total reads (agents c) = 0 ∨ total writes (agents c) = 0
}.

Lemma rw_units_nonneg pc :
  0 ≤ r_units pc ≤ 1 ∧ 0 ≤ reads pc ≤ 1 ∧ 0 ≤ upgrs pc ≤ 1 ∧ 0 ≤ writes pc ≤ 1 ∧
  0 ≤ rw_preempts pc ≤ 2 ∧ 0 ≤ failed pc ≤ 1 ∧ reads pc ≤ r_units pc.
Proof. destruct pc as [| | | | | | | | | | | | | | | | | | | | | | | | | | | | | |[]|[]|[]|[]|[]|[]| |]; simpl; lia. Qed.

(** The bounds every sum obeys. *)
Lemma rw_totals l :
  0 ≤ total r_units l ≤ Z.of_nat (length l) ∧ 0 ≤ total upgrs l ∧ 0 ≤ total writes l ∧
  0 ≤ total rw_preempts l ≤ 2 * Z.of_nat (length l) ∧ 0 ≤ total reads l ≤ total r_units l.
Proof.
  split_and!; try (apply total_nonneg; intros a; pose proof (rw_units_nonneg a); lia);
    try (apply total_le; intros a; pose proof (rw_units_nonneg a); lia).
  - apply total_length. intros a. pose proof (rw_units_nonneg a). lia.
  - induction l as [|a l IH]; unfold total in *; simpl; [lia|].
    pose proof (rw_units_nonneg a). lia.
Qed.

Lemma rw_lookup_totals l i pc :
  l !! i = Some pc →
  r_units pc ≤ total r_units l ∧ upgrs pc ≤ total upgrs l ∧ writes pc ≤ total writes l ∧
  rw_preempts pc ≤ total rw_preempts l ∧ reads pc ≤ total reads l ∧ failed pc ≤ total failed l.
Proof.
  intros Hi. split_and!; apply (total_lookup _ _ i); try done;
    intros a; pose proof (rw_units_nonneg a); lia.
Qed.

(** The outcomes of a compare-exchange. *)
Lemma compare_exchange_outcomes s current new strong s' ok :
  (s', ok) ∈ compare_exchange s current new strong →
  (ok = true ∧ word s = current ∧ s' = set_word new s) ∨
  (ok = false ∧ s' = s ∧ (strong = true → word s ≠ current)).
Proof.
  unfold compare_exchange. destruct (Z.eqb_spec (word s) current); [destruct strong|];
    rewrite ?list_elem_of_singleton, ?elem_of_cons, ?elem_of_nil; naive_solver.
Qed.

(** * The abstract lock *)

(** What the lock promises: who may access the data. *)
Record rw_spec := Spec { readers : Z; upgradeable : bool; writer : bool }.

Inductive spec_step : rw_spec → rw_spec → Prop :=
  | spec_read n : spec_step (Spec n false false) (Spec (n + 1) false false)
  | spec_read_drop n u : 0 < n → spec_step (Spec n u false) (Spec (n - 1) u false)
  | spec_upgradeable n : spec_step (Spec n false false) (Spec n true false)
  | spec_upgradeable_drop n : spec_step (Spec n true false) (Spec n false false)
  | spec_share n : spec_step (Spec n true false) (Spec (n + 1) true false)
  | spec_upgrade : spec_step (Spec 0 true false) (Spec 0 false true)
  | spec_write : spec_step (Spec 0 false false) (Spec 0 false true)
  | spec_write_drop : spec_step (Spec 0 false true) (Spec 0 false false)
  | spec_downgrade : spec_step (Spec 0 false true) (Spec 1 false false).

Definition abs (c : config rw rw_pc) : rw_spec :=
  Spec (total reads (agents c)) (0 <? total upgrs (agents c)) (0 <? total writes (agents c)).

(** Reduces a step to its outcomes. *)
Ltac rw_outcomes H :=
  repeat match type of H with
  | _ ∈ [] => by apply not_elem_of_nil in H
  | _ ∈ [_] => apply list_elem_of_singleton in H
  | _ ∈ _ :: _ => apply elem_of_cons in H as [H|H]
  | _ ∈ map _ _ =>
      let r := fresh "r" in let Hr := fresh "Hr" in
      apply list_elem_of_fmap in H as ([r ?] & H & Hr);
      apply compare_exchange_outcomes in Hr as [(-> & ? & ->)|(-> & -> & ?)]
  end.

Lemma spec_step_eq a b a' b' : spec_step a b → a = a' → b = b' → spec_step a' b'.
Proof. by intros ? -> ->. Qed.

(** Closes [a = b ∨ spec_step a b] for abstract states given by numbers. *)
Ltac spec_rule r :=
  eapply spec_step_eq; [eapply r|first [reflexivity|f_equal; lia]|f_equal; lia]; lia.
Ltac spec_solve :=
  simpl; first [left; f_equal; lia | right;
    first [ spec_rule spec_read | spec_rule spec_read_drop | spec_rule spec_upgradeable
          | spec_rule spec_upgradeable_drop | spec_rule spec_share | spec_rule spec_upgrade
          | spec_rule spec_write | spec_rule spec_write_drop | spec_rule spec_downgrade ]].

(** The abstract state for [g] readers, [U] upgradeable guards and [W] writers. *)
Definition spec_of (g U W : Z) : rw_spec := Spec g (0 <? U) (0 <? W).

(** The flags of the word agree with the guards. *)
Definition guards_ok (u g U W : Z) : Prop :=
  0 ≤ u ≤ 1 ∧ 0 ≤ U ≤ u ∧ 0 ≤ W ∧ u ≤ U + W ≤ 1 ∧ (g = 0 ∨ W = 0).

(** Closes one outcome of a step, for the UPGRADED bit [v] it leaves. *)
Ltac rw_close v :=
  exists v; split_and!; try lia; rewrite ?fields_eq in *; try lia; unfold spec_of; spec_solve.

Section effect.
Context `{Build}.

Lemma assert_step_true ok pc : ok = true → assert_step ok pc = pc.
Proof. intros ->. unfold assert_step. by rewrite orb_true_r. Qed.

Context (s : rw) (r u g U W : Z).
Context (Hw : word s = fields r u W) (Hr : 0 ≤ g ≤ r) (Hr' : r < 2 ^ 61) (Hg : guards_ok u g U W).
Context (Hc : 0 ≤ rw_cpu s < 2 ^ 64 - 1).

Lemma rw_next_effect pc s' pc' :
  r_units pc ≤ r → reads pc ≤ g → upgrs pc ≤ U → writes pc ≤ W → rw_preempts pc ≤ rw_cpu s →
  (s', pc') ∈ rw_next pc s →
  let g' := g - reads pc + reads pc' in
  let U' := U - upgrs pc + upgrs pc' in
  let W' := W - writes pc + writes pc' in
  ∃ u', word s' = fields (r - r_units pc + r_units pc') u' W' ∧ guards_ok u' g' U' W' ∧
    rw_cpu s' = rw_cpu s - rw_preempts pc + rw_preempts pc' ∧ failed pc' = 0 ∧
    (spec_of g U W = spec_of g' U' W' ∨ spec_step (spec_of g U W) (spec_of g' U' W')).
Proof.
  intros Hpr Hpg HpU HpW Hpc Hn. cbv zeta. unfold guards_ok in *.
  assert (U = 0 ∨ U = 1) as HU by lia. assert (W = 0 ∨ W = 1) as HW by lia.
  destruct pc; simpl in Hn; rw_outcomes Hn; simplify_eq/=;
    repeat match goal with k : bool |- _ => destruct k; simpl in * end;
    rewrite ?Hw, ?fields_busy, ?fields_add, ?fields_or, ?fields_units, ?fields_writer, ?fields_flags by lia;
    rewrite ?assert_step_true by (rewrite ?fields_eq; change UPGRADED with 2; change WRITER with 1; lia);
    try (destruct (Z.eqb_spec (2 * u + W) 0); simpl);
    rewrite ?fields_sub, ?fields_sub_upgraded, ?fetch_add_ok, ?fetch_sub_ok by lia;
    change UPGRADED with 2 in *; change WRITER with 1 in *;
    rewrite ?Hw, ?fields_eq in *;
    (destruct HU as [->| ->], HW as [->| ->]; try lia; 
    first [rw_close u|rw_close 0|rw_close 1]).
Qed.
End effect.

(** * Executions *)

Section executions.
Context `{Build}.
Implicit Types c : config rw rw_pc.

Abbreviation rw_step := (step rw_next rw_calls).
Abbreviation rw_reachable cpu := (reachable rw_next rw_calls (RwSpinLock_new cpu)).

Lemma rw_inv_guards cpu c u :
  rw_inv cpu c u →
  guards_ok u (total reads (agents c)) (total upgrs (agents c)) (total writes (agents c)).
Proof.
  intros []. pose proof (rw_totals (agents c)). unfold guards_ok. lia.
Qed.

Lemma rw_inv_step cpu c c' u :
  0 ≤ cpu < 2 ^ 62 → Z.of_nat (length (agents c')) < 2 ^ 61 → rw_inv cpu c u → rw_step c c' →
  (∃ u', rw_inv cpu c' u') ∧ (abs c = abs c' ∨ spec_step (abs c) (abs c')).
Proof.
  intros Hcpu Hlen Hinv Hstep. pose proof (rw_inv_guards _ _ _ Hinv) as Hg.
  destruct Hinv as [Hw Hc Hf Hu Hup Hfl Hone Hrd].
  destruct Hstep as [s l i pc s' pc' Hi Hn|s l pc Hp]; simpl in *.
  - rewrite length_insert in Hlen.
    pose proof (rw_totals l). pose proof (rw_lookup_totals l i pc Hi). pose proof (rw_units_nonneg pc).
    destruct (rw_next_effect s (total r_units l) u (total reads l) (total upgrs l) (total writes l))
      with pc s' pc' as (u' & Hw' & (?&?&?&?&?) & Hc' & Hf' & Hspec); [done||lia..|].
    unfold abs. simpl. rewrite !(total_insert _ _ _ _ _ Hi). split; [|done].
    exists u'. split; simpl; rewrite ?(total_insert _ _ _ _ _ Hi); first [assumption|lia].
  - unfold abs. simpl. rewrite !total_snoc.
    destruct pc; try done; simpl; rewrite !Z.add_0_r; (split; [exists u|by left]);
      split; simpl; rewrite ?total_snoc; simpl; rewrite ?Z.add_0_r; first [assumption|lia].
Qed.

Lemma rw_inv_reachable cpu c :
  0 ≤ cpu < 2 ^ 62 → rw_reachable cpu c → Z.of_nat (length (agents c)) < 2 ^ 61 →
  ∃ u, rw_inv cpu c u.
Proof.
  intros Hcpu. apply (reachable_invariant _ _ _ (λ c, ∃ u, rw_inv cpu c u)).
  - exists 0. split; unfold total; simpl; try done; lia.
  - intros c1 c2 [u Hinv] Hlen Hs. by eapply rw_inv_step.
Qed.

(** Two agents that contribute to a total of at most one are the same. *)
Lemma total_one_agent (f : rw_pc → Z) c i j pc1 pc2 :
  (∀ pc, 0 ≤ f pc) → total f (agents c) ≤ 1 →
  agents c !! i = Some pc1 → agents c !! j = Some pc2 → f pc1 = 1 → f pc2 = 1 → i = j.
Proof.
  intros Hf Ht Hi Hj H1 H2. destruct (decide (i = j)); [done|].
  pose proof (total_two f (agents c) i j pc1 pc2 Hf ltac:(done) Hi Hj). lia.
Qed.

Lemma zero_agents_total (f : rw_pc → Z) l : Forall (λ pc, f pc = 0) l → total f l = 0.
Proof. induction 1 as [|pc l Hf _ IH]; unfold total in *; simpl; lia. Qed.

Lemma zero_agents_total_iff (f : rw_pc → Z) l :
  (∀ pc, 0 ≤ f pc) → Forall (λ pc, f pc = 0) l ↔ total f l = 0.
Proof.
  intros Hf. split; [apply zero_agents_total|]. intros Ht. apply Forall_lookup.
  intros i pc Hi. pose proof (total_lookup f l i pc Hf Hi). specialize (Hf pc). lia.
Qed.

Lemma excl_totals l :
  Forall (λ pc, upgrs pc = 0 ∧ writes pc = 0) l ↔ total upgrs l = 0 ∧ total writes l = 0.
Proof.
  rewrite Forall_and, !zero_agents_total_iff; [done|..]; intros a; pose proof (rw_units_nonneg a); lia.
Qed.

Lemma units_totals l : Forall (λ pc, r_units pc = 0) l ↔ total r_units l = 0.
Proof. apply zero_agents_total_iff. intros a. pose proof (rw_units_nonneg a). lia. Qed.

End executions.

(** * Properties *)

(** C2 (invariant): whatever calls run concurrently, in debug and in release
    builds: a write guard excludes every reader, every upgradeable guard and
    every other write guard; at most one upgradeable guard is alive; the debug
    assertions of the [drop]s never fail. *)
Theorem rwspinlock_mutual_exclusion `{Build} (cpu : Z) (c : config rw rw_pc) :
  0 ≤ cpu < 2 ^ 62 → reachable rw_next rw_calls (RwSpinLock_new cpu) c →
  Z.of_nat (length (agents c)) < 2 ^ 61 →
  (∀ i j pc1 pc2, agents c !! i = Some pc1 → agents c !! j = Some pc2 → writes pc1 = 1 →
     reads pc2 = 0 ∧ upgrs pc2 = 0 ∧ (writes pc2 = 1 → i = j)) ∧
  (∀ i j pc1 pc2, agents c !! i = Some pc1 → agents c !! j = Some pc2 →
     upgrs pc1 = 1 → upgrs pc2 = 1 → i = j) ∧
  AssertFailed ∉ agents c.
Proof.
  intros Hcpu Hr Hlen. destruct (rw_inv_reachable cpu c Hcpu Hr Hlen) as [u Hinv].
  pose proof (rw_inv_guards _ _ _ Hinv) as Hg. pose proof (ri_failed _ _ _ Hinv) as Hf.
  unfold guards_ok in Hg. split_and!.
  - intros i j pc1 pc2 Hi Hj Hw. destruct (rw_lookup_totals _ _ _ Hi) as (_ & _ & ? & _).
    destruct (rw_lookup_totals _ _ _ Hj) as (_ & ? & _ & _ & ? & _).
    pose proof (rw_units_nonneg pc2). split_and!; [lia..|].
    intros Hw2. eapply total_one_agent; [|idtac|exact Hi|exact Hj|done..]; [|lia].
    intros a. pose proof (rw_units_nonneg a). lia.
  - intros i j pc1 pc2 Hi Hj H1 H2. eapply total_one_agent; [|idtac|exact Hi|exact Hj|done..]; [|lia].
    intros a. pose proof (rw_units_nonneg a). lia.
  - intros [i Hi]%list_elem_of_lookup. destruct (rw_lookup_totals _ _ _ Hi) as (_&_&_&_&_&?).
    simpl in *. lia.
Qed.

(** C6 (refinement): the lock implements the abstract reader-writer lock
    [spec_step]: every atomic access either leaves the set of granted guards
    alone or is one of its transitions (a reader enters only without upgradeable
    guard and writer, a writer only when nobody is in, an upgrade only without
    readers, a write guard becomes a read guard with nobody in between). *)
Theorem rwspinlock_refines `{Build} (cpu : Z) (c c' : config rw rw_pc) :
  0 ≤ cpu < 2 ^ 62 → reachable rw_next rw_calls (RwSpinLock_new cpu) c →
  step rw_next rw_calls c c' → Z.of_nat (length (agents c')) < 2 ^ 61 →
  abs c = abs c' ∨ spec_step (abs c) (abs c').
Proof.
  intros Hcpu Hr Hs Hlen. pose proof (step_length _ _ _ _ Hs).
  destruct (rw_inv_reachable cpu c Hcpu Hr ltac:(lia)) as [u Hinv].
  by eapply rw_inv_step.
Qed.

(** C17 (functional): the [try_] calls are exact.  At its atomic access,
    [try_read] and [try_upgradeable_read] get a guard iff nobody has an
    upgradeable or write guard, [try_write] iff in addition nobody has a reader
    unit in the word, and [try_upgrade] iff nobody has a reader unit. *)
Theorem rwspinlock_try_exact `{Build} (cpu : Z) (c : config rw rw_pc) (i : nat) (pc pc' : rw_pc) (s' : rw) :
  0 ≤ cpu < 2 ^ 62 → reachable rw_next rw_calls (RwSpinLock_new cpu) c →
  Z.of_nat (length (agents c)) < 2 ^ 61 →
  agents c !! i = Some pc → (s', pc') ∈ rw_next pc (shared c) →
  let excl := Forall (λ pc, upgrs pc = 0 ∧ writes pc = 0) (agents c) in
  let units := Forall (λ pc, r_units pc = 0) (agents c) in
  (pc = TryReadAdd → (pc' = ReadGuard ∧ excl) ∨ (pc' = TryReadUndo ∧ ¬ excl)) ∧
  (pc = TryUpgrOr → (pc' = UpgrGuard ∧ excl) ∨ (pc' = TryUpgrDec ∧ ¬ excl)) ∧
  (pc = TryWriteCas → (pc' = WriteGuard ∧ excl ∧ units) ∨ (pc' = TryWriteDec ∧ ¬ (excl ∧ units))) ∧
  (pc = TryUpgradeCas → (pc' = WriteGuard ∧ units) ∨ (pc' = UpgrGuard ∧ ¬ units)).
Proof.
  intros Hcpu Hr Hlen Hi Hn. destruct (rw_inv_reachable cpu c Hcpu Hr Hlen) as [u Hinv].
  pose proof (rw_inv_guards _ _ _ Hinv) as Hg. pose proof (ri_word _ _ _ Hinv) as Hw.
  pose proof (rw_totals (agents c)) as Ht. cbv zeta.
  rewrite (excl_totals (agents c)), (units_totals (agents c)).
  destruct (rw_lookup_totals _ _ _ Hi) as (_ & HU & _). unfold guards_ok in Hg.
  split_and!; intros ->; simpl in Hn; rw_outcomes Hn; simplify_eq/=;
    try match goal with H : true = true → _ |- _ => specialize (H eq_refl) end;
    rewrite ?Hw, ?fields_busy in * by lia; try (destruct (Z.eqb_spec (2 * u + total writes (agents c)) 0); simpl);
    rewrite ?fields_eq in *; change UPGRADED with 2 in *; 
    first [left; split; [done|lia]|right; split; [done|lia]].
Qed.

(** C18 (liveness): once every call has returned and every guard is dropped, the
    lock word is 0 and the preemption counter is back at its initial value; and
    then [read], [write] and [upgradeable_read] get their guard in two steps. *)
Theorem rwspinlock_quiescent `{Build} (cpu : Z) (c : config rw rw_pc) :
  0 ≤ cpu < 2 ^ 62 → reachable rw_next rw_calls (RwSpinLock_new cpu) c →
  Z.of_nat (length (agents c)) < 2 ^ 61 →
  Forall (λ pc, pc = Dropped ∨ pc = NoGuard) (agents c) →
  shared c = RwSpinLock_new cpu ∧
  let n := length (agents c) in
  ∀ call guard, (call, guard) ∈
    [(ReadEnter, ReadGuard); (WriteEnter, WriteGuard); (UpgrEnter, UpgrGuard)] →
  ∃ s', run rw_next rw_calls [Call call; Run n 0; Run n 0] c = Some (Config s' (agents c ++ [guard])).
Proof.
  intros Hcpu Hr Hlen Hq. destruct (rw_inv_reachable cpu c Hcpu Hr Hlen) as [u Hinv].
  pose proof (rw_inv_guards _ _ _ Hinv) as Hg. destruct Hinv as [Hw Hc _ _ _ _ _ _].
  unfold guards_ok in Hg.
  assert (∀ f : rw_pc → Z, f Dropped = 0 → f NoGuard = 0 → total f (agents c) = 0) as H0.
  { intros f H1 H2. apply zero_agents_total. eapply Forall_impl; [exact Hq|]. by intros ? [->| ->]. }
  rewrite !(H0 writes), !(H0 upgrs), !(H0 reads) in Hg by done.
  rewrite !(H0 writes), !(H0 r_units), fields_eq in Hw by done. rewrite (H0 rw_preempts) in Hc by done.
  assert (shared c = RwSpinLock_new cpu) as Hs.
  { destruct (shared c). unfold RwSpinLock_new. simpl in *. f_equal; lia. }
  split; [done|]. intros n call guard Hin. subst n. rewrite !elem_of_cons, elem_of_nil in Hin.
  assert (∀ pc pc', <[length (agents c) := pc']> (agents c ++ [pc]) = agents c ++ [pc']) as Hins.
  { intros. by rewrite insert_app_r_alt, Nat.sub_diag by lia. }
  destruct c as [s l]. simpl in *. subst s.
  destruct Hin as [[= -> ->]|[[= -> ->]|[[= -> ->]|[]]]]; simpl; eexists;
    rewrite !lookup_app_r, Nat.sub_diag by lia; simpl; rewrite Hins;
    rewrite !lookup_app_r, Nat.sub_diag by lia; simpl; by rewrite Hins.
Qed.

(** * Concrete executions *)

(** A writer downgrades its guard while a reader is turned away. *)
Definition downgrade_schedule : list (action rw_pc) :=
  [Call WriteEnter; Call ReadEnter; Run 0 0; Run 0 0; Run 1 0; Run 0 0; Run 0 0; Run 1 0].
(** A reader and an upgradeable guard that tries to upgrade. *)
Definition upgrade_schedule : list (action rw_pc) :=
  [Call ReadEnter; Run 0 0; Run 0 0; Call UpgrEnter; Run 1 0; Run 1 0; Run 1 1].

Lemma rwspinlock_mutual_exclusion_witness :
  ∃ c, reachable (rw_next (H:=debug_build)) rw_calls (RwSpinLock_new 0) c ∧
    agents c = [WriteDownInc; ReadUndo] ∧ AssertFailed ∉ agents c.
Proof.
  destruct (run (rw_next (H:=debug_build)) rw_calls downgrade_schedule (Config (RwSpinLock_new 0) []))
    as [c|] eqn:Hrun; [|discriminate].
  assert (agents c = [WriteDownInc; ReadUndo]) as Ha by (vm_compute in Hrun; by simplify_eq).
  apply run_reachable in Hrun. exists c. split; [done|]. split; [done|].
  apply (rwspinlock_mutual_exclusion (H:=debug_build) 0 c); [lia|done|rewrite Ha; simpl; lia].
Defined.

Lemma rwspinlock_refines_witness :
  ∃ c c', reachable (rw_next (H:=debug_build)) rw_calls (RwSpinLock_new 0) c ∧
    step (rw_next (H:=debug_build)) rw_calls c c' ∧
    abs c = Spec 1 false false ∧ abs c' = Spec 1 true false ∧
    (abs c = abs c' ∨ spec_step (abs c) (abs c')).
Proof.
  set (c := Config (mkRw 4 2) [ReadGuard; UpgrOr]).
  set (c' := Config (mkRw 6 2) [ReadGuard; UpgrGuard]).
  assert (reachable (rw_next (H:=debug_build)) rw_calls (RwSpinLock_new 0) c) as Hr
    by (apply run_reachable with (take 5 upgrade_schedule); reflexivity).
  assert (step (rw_next (H:=debug_build)) rw_calls c c') as Hs
    by (apply (step_run _ _ (mkRw 4 2) [ReadGuard; UpgrOr] 1 UpgrOr); [done|by apply list_elem_of_singleton]).
  exists c, c'. split_and!; try done.
  apply (rwspinlock_refines (H:=debug_build) 0 c c'); [lia|done|done|simpl; lia].
Defined.

Lemma rwspinlock_try_exact_witness :
  ∃ c s' pc', reachable (rw_next (H:=debug_build)) rw_calls (RwSpinLock_new 0) c ∧
    agents c = [ReadGuard; TryUpgradeCas] ∧ (s', pc') ∈ rw_next (H:=debug_build) TryUpgradeCas (shared c) ∧
    ¬ Forall (λ pc, r_units pc = 0) (agents c).
Proof.
  set (c := Config (mkRw 6 2) [ReadGuard; TryUpgradeCas]).
  assert (reachable (rw_next (H:=debug_build)) rw_calls (RwSpinLock_new 0) c) as Hr
    by (apply run_reachable with upgrade_schedule; reflexivity).
  assert ((shared c, UpgrGuard) ∈ rw_next (H:=debug_build) TryUpgradeCas (shared c)) as Hn
    by by apply list_elem_of_singleton.
  exists c, (shared c), UpgrGuard. split; [done|]. split; [done|]. split; [done|].
  destruct (rwspinlock_try_exact (H:=debug_build) 0 c 1 TryUpgradeCas UpgrGuard (shared c)) as (_ & _ & _ & Ht);
    [lia|done|simpl; lia|done|done|].
  by destruct (Ht eq_refl) as [[? _]|[_ ?]].
Defined.

Lemma rwspinlock_quiescent_witness :
  ∃ c, reachable (rw_next (H:=debug_build)) rw_calls (RwSpinLock_new 3) c ∧ agents c = [Dropped] ∧
    shared c = RwSpinLock_new 3.
Proof.
  set (c := Config (mkRw 0 3) [Dropped]).
  assert (reachable (rw_next (H:=debug_build)) rw_calls (RwSpinLock_new 3) c) as Hr
    by (apply run_reachable with (Call WriteEnter :: [Run 0 0; Run 0 0; Run 0 1; Run 0 0; Run 0 0; Run 0 0]);
        reflexivity).
  exists c. split; [done|]. split; [done|].
  apply (rwspinlock_quiescent (H:=debug_build) 3 c); [lia|done|simpl; lia|].
  apply Forall_singleton. by left.
Defined.
