(* ===== verification/RegionProperties.v ===== *)
(** Properties of [src/mm/mod.rs] and [src/mm/map.rs]: the address conversions,
    the boot frame allocator and the region bump allocator. *)
From S2P Require Import Prelude X86 Layout Mm Region.

(** A sequence of requests to a [RegionBumpAllocator]. *)
Fixpoint bump_allocs `{Build, X86_64} (b : RegionBumpAllocator) (ls : list Layout) :
    outcome (list (option Z) * RegionBumpAllocator) :=
  match ls with
  | [] => Ok ([], b)
  | l :: ls' =>
      '(p, b) ← bump_alloc b l;
      '(ps, b) ← bump_allocs b ls';
      Ok (p :: ps, b)
  end.

(** [p] is a block for [l] between the offsets [o1] and [o2] of [b]'s region,
    aligned relative to the start of the region. *)
Definition bump_block (b : RegionBumpAllocator) (o1 o2 : Z) (l : Layout) (p : Z) : Prop :=
  let base := rb_start b + PHYS_OFFSET in
  base + o1 ≤ p ∧ p + l_size l ≤ base + o2 ∧ (l_align l | p - base).

(** The results [ps] of the requests [ls] are blocks between [o1] and [o2], each
    before the next. *)
Inductive bump_blocks (b : RegionBumpAllocator) : Z → Z → list Layout → list (option Z) → Prop :=
  | bb_nil o1 o2 : o1 ≤ o2 → bump_blocks b o1 o2 [] []
  | bb_none o1 o2 l ls ps : bump_blocks b o1 o2 ls ps → bump_blocks b o1 o2 (l :: ls) (None :: ps)
  | bb_some o1 o2 o l ls p ps :
      bump_block b o1 o l p → bump_blocks b o o2 ls ps →
      bump_blocks b o1 o2 (l :: ls) (Some p :: ps).

Section proofs.
Context `{Build, HX : X86_64, HA : ArrayVec, !X86_64_Laws, !ArrayVec_Laws}.
Implicit Types (b : RegionBumpAllocator) (l : Layout).

(** Only the start of the region matters to [bump_blocks]. *)
Lemma bump_blocks_start b b' o1 o2 ls ps :
  rb_start b = rb_start b' → bump_blocks b o1 o2 ls ps → bump_blocks b' o1 o2 ls ps.
Proof.
  intros Hb. induction 1 as [| |o1 o2 o l ls p ps Hp _ IH]; [by constructor..|].
  apply bb_some with o; [|done]. unfold bump_block in *. by rewrite <-Hb.
Qed.

Lemma bump_allocs_blocks b ls :
  bump_ok b → Forall (λ l, layout_ok l ∧ padded l) ls →
  ∃ ps b', bump_allocs b ls = Ok (ps, b') ∧ bump_ok b' ∧
    rb_start b' = rb_start b ∧ rb_size b' = rb_size b ∧
    bump_blocks b (rb_offset b) (rb_offset b') ls ps.
Proof.
  intros Hb Hls. revert b Hb. induction Hls as [|l ls [Hl Hp] Hls IH]; intros b Hb; simpl.
  { exists [], b. split_and!; try done. constructor. lia. }
  rewrite bump_alloc_padded by done.
  pose proof (layout_align_pos l Hl) as Hpos. pose proof (round_up_bounds (rb_offset b) _ Hpos).
  destruct (rb_size b <? _) eqn:E; zbool; simpl.
  - destruct (IH b Hb) as (ps & b' & -> & ? & ? & ? & ?). simpl.
    eexists _, b'. split_and!; [done..|]. by constructor.
  - set (b1 := mkBump _ _ _). destruct (IH b1) as (ps & b' & -> & ? & Hst & Hsz & Hbl).
    { destruct Hb as (? & ? & ?), Hl as (? & _). unfold bump_ok, b1. simpl. lia. }
    simpl. eexists _, b'. split_and!; [done..|]. eapply bb_some; [|by apply (bump_blocks_start b1)].
    unfold bump_block, b1. simpl. split_and!; [lia..|].
    replace (_ - _) with (round_up (rb_offset b) (l_align l)) by lia. apply round_up_divide.
Qed.

Lemma bump_blocks_inside b o1 o2 ls ps i l p :
  Forall (λ l, 0 ≤ l_size l) ls → bump_blocks b o1 o2 ls ps →
  o1 ≤ o2 ∧ (ls !! i = Some l → ps !! i = Some (Some p) → bump_block b o1 o2 l p).
Proof.
  intros Hls Hb. revert i Hls. induction Hb as [o1 o2 Ho|o1 o2 l' ls ps _ IH|o1 o2 o l' ls p' ps Hp _ IH];
    intros i Hls; [done|..]; apply Forall_cons in Hls as [Hl Hls].
  - destruct i as [|i]; [by split; [apply (IH 0%nat)|]|]. apply (IH i Hls).
  - assert (o1 ≤ o ∧ o ≤ o2) as [? ?].
    { unfold bump_block in Hp. split; [lia|apply (IH 0%nat Hls)]. }
    split; [lia|]. destruct i as [|i]; simpl; intros Hi Hpi; simplify_eq.
    + unfold bump_block in *. split_and!; [lia..|naive_solver].
    + pose proof (proj2 (IH i Hls) Hi Hpi). unfold bump_block in *. split_and!; [lia..|naive_solver].
Qed.

Lemma bump_blocks_ordered b o1 o2 ls ps i j l1 l2 p1 p2 :
  Forall (λ l, 0 ≤ l_size l) ls → bump_blocks b o1 o2 ls ps → (i < j)%nat →
  ls !! i = Some l1 → ls !! j = Some l2 → ps !! i = Some (Some p1) → ps !! j = Some (Some p2) →
  p1 + l_size l1 ≤ p2.
Proof.
  intros Hls Hb. revert i j Hls.
  induction Hb as [o1 o2 Ho|o1 o2 l' ls ps _ IH|o1 o2 o l' ls p' ps Hp Hb IH];
    intros [|i] [|j] Hls Hij Hl1 Hl2 Hp1 Hp2; simplify_eq/=; try lia;
    apply Forall_cons in Hls as [Hl Hls].
  - eapply (IH i j); eauto; lia.
  - destruct (bump_blocks_inside b o o2 ls ps j l2 p2 Hls Hb) as [_ Hin].
    specialize (Hin Hl2 Hp2). unfold bump_block in *. lia.
  - eapply (IH i j); eauto; lia.
Qed.

End proofs.

(** * Properties *)

Section properties.
Context `{Build, HX : X86_64, HA : ArrayVec, !X86_64_Laws, !ArrayVec_Laws}.

(** C40 (roundtrip): [kernel_virt_to_phys] inverts [phys_to_kernel_virt] on all
    direct-mapped physical memory, and conversely on the direct map's window. *)
Theorem phys_virt_roundtrip (phys virt : Z) :
  direct_mapped phys → PHYS_OFFSET ≤ virt < PHYS_OFFSET + 2 ^ 47 →
  (phys_to_kernel_virt phys ≫= kernel_virt_to_phys) = Ok phys ∧
  (kernel_virt_to_phys virt ≫= phys_to_kernel_virt) = Ok virt.
Proof.
  intros Hp Hv. unfold PHYS_OFFSET in Hv. split.
  - rewrite phys_to_kernel_virt_ok by done. simpl.
    unfold direct_mapped, PHYS_OFFSET in *. rewrite kernel_virt_to_phys_ok; [f_equal|]; unfold PHYS_OFFSET; lia.
  - rewrite kernel_virt_to_phys_ok by (unfold PHYS_OFFSET; lia). simpl.
    rewrite phys_to_kernel_virt_ok; [f_equal; lia|]. unfold direct_mapped, PHYS_OFFSET. lia.
Qed.

(** Every frame has its own [PageInfo] slot inside the window of
    the array: the debug assertion never fails, slots do not overlap, and frame
    order is slot order. *)
Theorem page_info_slots (f g : PhysFrame) :
  frame_ok f → frame_ok g → start_address f < start_address g →
  ∃ p q, phys_to_page_info f = Ok p ∧ phys_to_page_info g = Ok q ∧
    PAGE_INFO_OFFSET ≤ p ∧ p + size_of_RwSpinLock_PageInfo ≤ q ∧
    q + size_of_RwSpinLock_PageInfo ≤ PAGE_INFO_OFFSET + 0x100000000000.
Proof.
  intros Hf Hg Hfg. rewrite !phys_to_page_info_ok by done.
  destruct Hf as [[? ?] [m Hm]], Hg as [[? ?] [n Hn]]. rewrite Hm, Hn in *.
  unfold PAGE_SIZE, size_of_RwSpinLock_PageInfo. rewrite !Z.div_mul by lia.
  eexists _, _. split; [done|]. split; [done|]. lia.
Qed.

(** C32 (functional): the boot frame allocator hands out every frame of its
    regions exactly once: [n] calls return the first [n] frames of the map, all
    different, each inside a region, and leave a well-formed map of the others;
    a call on an exhausted map panics. *)
Theorem memory_map_allocates_frames_once (m : MemoryMap) (n : nat) :
  map_ok m → regions_disjoint (regions m) →
  ((n ≤ length (map_frames m))%nat → ∃ m',
     allocate_frames n m = Ok (take n (map_frames m), m') ∧
     map_ok m' ∧ map_frames m' = drop n (map_frames m) ∧
     num_pages m' = num_pages m - Z.of_nat n ∧ NoDup (take n (map_frames m)) ∧
     ∀ f, f ∈ take n (map_frames m) → ∃ rg, rg ∈ regions m ∧
       addr rg ≤ start_address f ∧ start_address f + FRAME_SIZE ≤ addr rg + size rg) ∧
  ((length (map_frames m) < n)%nat → allocate_frames n m = Panic PanicUnwrap).
Proof.
  intros Hm Hd. split; [|by apply allocate_frames_exhausted]. intros Hn.
  destruct (allocate_frames_prefix m n Hm Hn) as (m' & -> & Hfs & Hm').
  pose proof Hm as (Hrs & Hnp & _). pose proof Hm' as (_ & Hnp' & _).
  exists m'. split_and!; [done..| | |].
  - rewrite Hnp, Hnp', Hfs, length_drop. lia.
  - apply (NoDup_app _ (drop n (map_frames m))). rewrite take_drop. by apply NoDup_bind_region_frames.
  - intros f (i & Hf%list_elem_of_lookup_2 & _)%elem_of_take.
    apply list_elem_of_bind in Hf as (rg & Hf & Hrg). exists rg. split; [done|].
    apply elem_of_region_frames; [|done]. by eapply Forall_forall in Hrs as (_ & ? & _).
Qed.

(** [Region::split_at] panics unless the offset lies inside the
    region; otherwise the two parts are adjacent, and at a page boundary their
    frames are the region's frames. *)
Theorem region_split_at (rg : Region) (offset : Z) :
  region_ok rg → 0 ≤ offset →
  if size rg <=? offset then split_at rg offset = Panic PanicAssert
  else ∃ l r, split_at rg offset = Ok (l, r) ∧ addr l = addr rg ∧ size l = offset ∧
    addr r = addr rg + offset ∧ size l + size r = size rg ∧
    (aligned offset FRAME_SIZE →
     region_ok l ∧ region_ok r ∧ region_frames rg = region_frames l ++ region_frames r).
Proof.
  intros Hrg Ho. unfold split_at, assert_.
  destruct (size rg <=? offset) eqn:E; zbool.
  { by rewrite (proj2 (Z.ltb_ge _ _)). }
  destruct Hrg as (? & ? & ? & Hal). rewrite (proj2 (Z.ltb_lt _ _)) by done. simpl.
  unfold add_u64, sub_u64. rewrite !checked_ok by lia. simpl.
  rewrite PhysAddr_new_law by (unfold phys_ok; lia). simpl.
  eexists _, _. split; [done|]. simpl. split_and!; [done..|lia|].
  intros [k ->]. unfold region_ok, region_frames, frames_from. simpl.
  split_and!; try lia; [done|by apply Z.divide_add_r; [|exists k]|].
  replace (size rg) with (size rg - k * 4096 + k * 4096) at 1 by lia.
  rewrite Z.div_add, Z.div_mul by lia. pose proof (Z.div_pos (size rg - k * 4096) 4096).
  rewrite Z.add_comm, Z2Nat.inj_add, seq_app, fmap_app by lia. f_equal. simpl.
  rewrite <-(Nat.add_0_r (Z.to_nat k)), <-fmap_add_seq, <-list_fmap_compose.
  apply list_fmap_ext. intros i j _. simpl. f_equal. lia.
Qed.

(** C33 (safety): for padded layouts (size a multiple of the alignment) any
    sequence of requests to the region bump allocator ends without panic; the
    blocks it hands out lie inside the region, are pairwise disjoint and start at a
    multiple of their alignment from the start of the region: so a block whose
    alignment divides the (virtual) address of the region's start is aligned. *)
Theorem bump_allocs_disjoint (b : RegionBumpAllocator) (ls : list Layout) :
  bump_ok b → Forall (λ l, layout_ok l ∧ padded l) ls →
  ∃ ps b', bump_allocs b ls = Ok (ps, b') ∧ bump_ok b' ∧
    (∀ i l p, ls !! i = Some l → ps !! i = Some (Some p) →
       bump_block b (rb_offset b) (rb_size b) l p ∧ ((l_align l | rb_start b + PHYS_OFFSET) → (l_align l | p))) ∧
    (∀ i j l1 l2 p1 p2, (i < j)%nat → ls !! i = Some l1 → ls !! j = Some l2 →
       ps !! i = Some (Some p1) → ps !! j = Some (Some p2) → p1 + l_size l1 ≤ p2).
Proof.
  intros Hb Hls. destruct (bump_allocs_blocks b ls Hb Hls) as (ps & b' & Hrun & Hb' & _ & Hsz & Hbl).
  assert (Forall (λ l, 0 ≤ l_size l) ls) as Hpos.
  { eapply Forall_impl; [exact Hls|]. by intros l [(? & _) _]. }
  exists ps, b'. split_and!; [done..| |].
  - intros i l p Hl Hp. destruct (bump_blocks_inside _ _ _ _ _ i l p Hpos Hbl) as [_ Hin].
    specialize (Hin Hl Hp). destruct Hb' as (_ & ? & _). unfold bump_block in *.
    destruct Hin as (? & ? & Hal). split_and!; [lia..|done|]. intros Hst.
    replace p with (p - (rb_start b + PHYS_OFFSET) + (rb_start b + PHYS_OFFSET)) by lia. by apply Z.divide_add_r.
  - intros i j l1 l2 p1 p2. by eapply bump_blocks_ordered.
Qed.

End properties.

(** The padding is needed.  With a layout whose size is not a multiple
    of its alignment, [RegionBumpAllocator::alloc] returns the same pointer
    twice, and a block that ends beyond the region. *)
Theorem bump_alloc_unpadded :
  (∃ b', @bump_allocs debug_build x86_64_ref (from_region (mkRegion 0x1000 0x1000))
           [mkLayout 1 1; mkLayout 3 4; mkLayout 4 4] =
         Ok ([Some (0x1000 + PHYS_OFFSET); Some (0x1004 + PHYS_OFFSET); Some (0x1004 + PHYS_OFFSET)], b')) ∧
  (∃ b', @bump_allocs debug_build x86_64_ref (from_region (mkRegion 0x1000 4))
           [mkLayout 1 1; mkLayout 3 4] =
         Ok ([Some (0x1000 + PHYS_OFFSET); Some (0x1004 + PHYS_OFFSET)], b')).
Proof. split; eexists; vm_compute; reflexivity. Qed.

(** * Witnesses *)

Definition demo_map : MemoryMap := mkMap [mkRegion 0x1000 0x2800; mkRegion 0x10000 0x1000] 3.

Lemma demo_map_ok : map_ok demo_map ∧ regions_disjoint (regions demo_map).
Proof.
  split.
  - unfold map_ok, region_ok, aligned. simpl. split; [|by vm_compute].
    repeat constructor; simpl; try lia; [by exists 1|by exists 16].
  - intros [|[|i]] [|[|j]] r1 r2 H1 H2 Hij; simplify_eq/=; unfold disjoint_regions; simpl; lia.
Qed.

Lemma phys_virt_roundtrip_witness :
  (@phys_to_kernel_virt debug_build x86_64_ref 0xB8000 ≫= @kernel_virt_to_phys debug_build x86_64_ref)
    = Ok 0xB8000.
Proof.
  apply (@phys_virt_roundtrip debug_build x86_64_ref _ 0xB8000 PHYS_OFFSET);
    unfold direct_mapped, PHYS_OFFSET; lia.
Defined.

Lemma page_info_slots_witness :
  ∃ p q, @phys_to_page_info debug_build (mkFrame 0x1000) = Ok p ∧
    @phys_to_page_info debug_build (mkFrame 0xFFFFFFFFFF000) = Ok q ∧
    p = PAGE_INFO_OFFSET + 16 ∧ p + 16 ≤ q ∧ q + 16 ≤ PAGE_INFO_OFFSET + 0x100000000000.
Proof.
  destruct (@page_info_slots debug_build (mkFrame 0x1000) (mkFrame 0xFFFFFFFFFF000)) as (p & q & Hp & Hq & ? & ? & ?).
  - split; [unfold phys_ok; simpl; lia|by exists 1].
  - split; [unfold phys_ok; simpl; lia|by exists 0xFFFFFFFFFF].
  - simpl. lia.
  - exists p, q. split_and!; try done. vm_compute in Hp. by injection Hp as <-.
Defined.

Lemma memory_map_allocates_frames_once_witness :
  ∃ m', @allocate_frames debug_build x86_64_ref arrayvec_ref 3 demo_map =
      Ok ([mkFrame 0x1000; mkFrame 0x2000; mkFrame 0x10000], m') ∧ num_pages m' = 0.
Proof.
  destruct demo_map_ok as [Hm Hd].
  destruct (@memory_map_allocates_frames_once debug_build x86_64_ref arrayvec_ref _ _ demo_map 3 Hm Hd) as [H _].
  destruct H as (m' & -> & _ & _ & Hn & _); [vm_compute; lia|].
  exists m'. split; [reflexivity|]. rewrite Hn. reflexivity.
Defined.

Lemma region_split_at_witness :
  @split_at debug_build x86_64_ref (mkRegion 0x1000 0x4000) 0x4000 = Panic PanicAssert.
Proof.
  apply (@region_split_at debug_build x86_64_ref _ (mkRegion 0x1000 0x4000) 0x4000); [|lia].
  split_and!; simpl; try lia. by exists 1.
Defined.

Lemma bump_allocs_disjoint_witness :
  ∃ ps b', @bump_allocs debug_build x86_64_ref (from_region (mkRegion 0x1000 0x1000))
      [mkLayout 24 8; mkLayout 4096 16; mkLayout 64 64] = Ok (ps, b') ∧
    ps = [Some (0x1000 + PHYS_OFFSET); None; Some (0x1040 + PHYS_OFFSET)] ∧ bump_ok b'.
Proof.
  destruct (@bump_allocs_disjoint debug_build x86_64_ref _ (from_region (mkRegion 0x1000 0x1000))
      [mkLayout 24 8; mkLayout 4096 16; mkLayout 64 64]) as (ps & b' & Hrun & Hb & _ & _).
  - unfold bump_ok. simpl. lia.
  - repeat constructor; simpl; try lia; try (by vm_compute).
    + by exists 3.
    + by exists 3.
    + by exists 4.
    + by exists 256.
    + by exists 6.
    + by exists 1.
  - exists ps, b'. split; [done|]. split; [|done]. vm_compute in Hrun. by injection Hrun as <- <-.
Defined.
