(* ===== verification/Slob.v ===== *)
(** [src/mm/slob.rs]: the kernel heap, a first-fit free list threaded through
    headers in memory.

    Memory is a map from the address of each header ever written to its current
    contents; headers of allocated or merged blocks stay there, as in the code,
    so stale [next] pointers are visible.  The program never writes outside the
    payloads it was given, so payloads carry no state.  [HEAP]'s spin lock
    serialises the operations (see [SpinLock]); they are functions of the list
    head, the memory and the physical allocator's state. *)
From S2P Require Import Prelude X86 Layout Mm.

(** [repr(align(16))]: two machine words. *)
Record Block := mkBlock { size : Z; next : option Z }.
Definition size_of_Block : Z := 16.
Definition align_of_Block : Z := 16.

Abbreviation memory := (gmap Z Block).

#[global] Instance Block_eq_dec : EqDecision Block.
Proof. solve_decision. Defined.

(** What the heap uses of the physical allocator: [PhysAllocator::alloc]. *)
Class PageSource (P : Type) := page_alloc : Z → P → outcome (PhysFrameRange * P).

(** What it relies on: a range handed out is page aligned, direct mapped, was
    available before and is not afterwards, and nothing becomes available. *)
Class PageSourceLaws (P : Type) `{PageSource P} := {
  source_ok : P → Prop;
  (** physical addresses the source may still hand out *)
  avail : P → Z → Prop;
  page_alloc_law o p r p' :
    source_ok p → 0 ≤ o → page_alloc o p = Ok (r, p') →
    let start := start_address (range_start r) in
    source_ok p' ∧ aligned start FRAME_SIZE ∧ 0 ≤ start ∧ start + FRAME_SIZE * 2 ^ o < 2 ^ 47 ∧
    (∀ x, start ≤ x < start + FRAME_SIZE * 2 ^ o → avail p x ∧ ¬ avail p' x) ∧
    (∀ x, avail p' x → avail p x)
}.

Section code.
Context `{Build, X86_64} {P : Type} `{PageSource P}.

(** Reading and writing the fields of a header. *)
Definition read (m : memory) (a : Z) : outcome Block :=
  match m !! a with Some b => Ok b | None => Panic BadPointer end.
Definition set_next (m : memory) (a : Z) (n : option Z) : outcome memory :=
  b ← read m a; Ok (<[a := mkBlock (size b) n]> m).
Definition set_size (m : memory) (a : Z) (s : Z) : outcome memory :=
  b ← read m a; Ok (<[a := mkBlock s (next b)]> m).

(** [NonNull::new(p).unwrap()] *)
Definition non_null (p : Z) : outcome Z := unwrap (if p =? 0 then None else Some p).

(** [Block::allocation], [Block::from_allocation], [Block::offset_addr] *)
Definition allocation (block : Z) : Z := block + size_of_Block.
Definition from_allocation (ptr : Z) : outcome Z := non_null (ptr - size_of_Block).
Definition offset_addr (block sz : Z) : outcome Z :=
  off ← add_u64 sz size_of_Block;
  non_null (block + off).

(** [Block::split_at]; the new header's fields are written in one go. *)
Definition split_at (m : memory) (block alloc_len : Z) : outcome (Z * Z * memory) :=
  total_len ← add_u64 alloc_len size_of_Block;
  b ← read m block;
  _ ← debug_assert (total_len <=? size b);
  remaining ← sub_u64 (size b) total_len;
  nxt ← offset_addr block alloc_len;
  let m := <[nxt := mkBlock remaining (next b)]> m in
  m ← set_size m block alloc_len;
  m ← set_next m block (Some nxt);
  Ok (block, nxt, m).

(** [Block::try_merge] *)
Definition try_merge (m : memory) (left right : Z) : outcome (bool * memory) :=
  _ ← debug_assert (left <? right);
  let mask := bitnot 64 (PAGE_SIZE - 1) in
  if negb (Z.land left mask =? Z.land right mask) then Ok (false, m)
  else
    l ← read m left;
    off ← offset_addr left (size l);
    if off =? right then
      r ← read m right;
      d ← add_u64 (size r) size_of_Block;
      s ← add_u64 (size l) d;
      m ← set_size m left s;
      m ← set_next m left (next r);
      Ok (true, m)
    else Ok (false, m).

(** [match prev { Some(mut p) => p.next = n, None => *head = n }] *)
Definition link (m : memory) (head prev n : option Z) : outcome (memory * option Z) :=
  match prev with
  | Some p => m ← set_next m p n; Ok (m, head)
  | None => Ok (m, n)
  end.

(** A walk that takes more steps than there are headers never ends. *)
Definition walk_fuel (m : memory) : nat := S (base.size m).

(** The [while let] loop of [alloc_inner]: [None] when the list ends. *)
Fixpoint alloc_walk (fuel : nat) (alloc_len layout_size : Z) (m : memory)
    (head prev curr_opt : option Z) : outcome (option (Z * memory * option Z)) :=
  match curr_opt with
  | None => Ok None
  | Some curr =>
      match fuel with
      | O => Panic Diverges
      | S fuel' =>
          b ← read m curr;
          if size b =? alloc_len then
            '(m, head) ← link m head prev (next b);
            Ok (Some (allocation curr, m, head))
          else if layout_size <? size b then
            '(left_, right_, m) ← split_at m curr alloc_len;
            '(m, head) ← link m head prev (Some right_);
            Ok (Some (allocation left_, m, head))
          else alloc_walk fuel' alloc_len layout_size m head curr_opt (next b)
      end
  end.

(** The [while let] loop of [dealloc_inner] and the insertion at the end. *)
Fixpoint dealloc_walk (fuel : nat) (block : Z) (m : memory) (head prev curr_opt : option Z) :
    outcome (memory * option Z) :=
  match curr_opt with
  | None =>
      match prev with
      | Some p =>
          m ← set_next m p (Some block);
          m ← set_next m block None;
          '(_, m) ← try_merge m p block;
          Ok (m, head)
      | None => Ok (m, Some block)
      end
  | Some curr =>
      match fuel with
      | O => Panic Diverges
      | S fuel' =>
          _ ← assert_ (negb (curr =? block));
          if block <? curr then
            m ← set_next m block (Some curr);
            '(block, m, head) ←
              match prev with
              | Some p =>
                  m ← set_next m p (Some block);
                  '(merged, m) ← try_merge m p block;
                  Ok (if merged : bool then p else block, m, head)
              | None => Ok (block, m, Some block)
              end;
            '(_, m) ← try_merge m block curr;
            Ok (m, head)
          else
            b ← read m curr;
            dealloc_walk fuel' block m head curr_opt (next b)
      end
  end.

Definition dealloc_inner (m : memory) (head : option Z) (ptr : Z) : outcome (memory * option Z) :=
  block ← from_allocation ptr;
  dealloc_walk (walk_fuel m) block m head None head.

Definition morecore (m : memory) (head : option Z) (p : P) (num_pages : Z) :
    outcome (memory * option Z * P) :=
  n ← next_power_of_two num_pages;
  '(range, p) ← page_alloc (trailing_zeros 64 n mod 2 ^ 8) p;
  addr ← phys_to_kernel_virt (start_address (range_start range));
  bytes ← mul_u64 num_pages PAGE_SIZE;
  sz ← sub_u64 bytes size_of_Block;
  let m := <[addr := mkBlock sz None]> m in
  p_block ← non_null addr;
  _ ← unwrap (from_size_align sz 1);
  '(m, head) ← dealloc_inner m head (allocation p_block);
  Ok (m, head, p).

(** The [for _ in 0..n] loop of [alloc_inner]. *)
Fixpoint alloc_loop (n : nat) (alloc_len layout_size : Z) (m : memory) (head : option Z) (p : P) :
    outcome (Z * memory * option Z * P) :=
  match n with
  | O => Panic PanicUnreachable
  | S n' =>
      r ← alloc_walk (walk_fuel m) alloc_len layout_size m head None head;
      match r with
      | Some (ptr, m, head) => Ok (ptr, m, head, p)
      | None =>
          s ← add_u64 layout_size PAGE_SIZE;
          num_pages ← div_u64 s PAGE_SIZE;
          '(m, head, p) ← morecore m head p num_pages;
          alloc_loop n' alloc_len layout_size m head p
      end
  end.

(** The layout of a header followed by the payload, and the payload's offset. *)
Definition block_layout (layout : Layout) : option (Layout * Z) :=
  l ← from_size_align size_of_Block align_of_Block;
  '(l, o) ← extend (pad_to_align l) layout;
  Some (pad_to_align l, o).

Definition alloc_inner (m : memory) (head : option Z) (p : P) (layout : Layout) :
    outcome (Z * memory * option Z * P) :=
  '(layout, offset) ← unwrap (block_layout layout);
  alloc_len ← sub_u64 (l_size layout) offset;
  _ ← debug_assert (offset =? size_of_Block);
  alloc_loop 2 alloc_len (l_size layout) m head p.

(** * The global allocator *)

(** [HEAP]: the list head, with the memory and the allocator it uses. *)
Record Heap := mkHeap { mem : memory; free_list : option Z; phys : P }.

Definition alloc (h : Heap) (layout : Layout) : outcome (Z * Heap) :=
  '(ptr, m, head, p) ← alloc_inner (mem h) (free_list h) (phys h) layout;
  Ok (ptr, mkHeap m head p).

Definition dealloc (h : Heap) (ptr : Z) (layout : Layout) : outcome Heap :=
  '(m, head) ← dealloc_inner (mem h) (free_list h) ptr;
  Ok (mkHeap m head (phys h)).

(** [SlobAllocator::debug]: the lines it prints, as (allocation, size, next). *)
Fixpoint debug_walk (fuel : nat) (m : memory) (curr_opt : option Z) :
    outcome (list (Z * Z * option Z)) :=
  match curr_opt with
  | None => Ok []
  | Some curr =>
      match fuel with
      | O => Panic Diverges
      | S fuel' =>
          b ← read m curr;
          _ ← debug_assert (negb (bool_decide (next b = Some curr)));
          ls ← debug_walk fuel' m (next b);
          Ok ((allocation curr, size b, next b) :: ls)
      end
  end.
Definition debug (h : Heap) : outcome (list (Z * Z * option Z)) :=
  debug_walk (walk_fuel (mem h)) (mem h) (free_list h).

End code.

Arguments Heap : clear implicits.
Arguments mkHeap {P}.

(** * A page source for concrete runs: pages in ascending order *)

Definition bump_pages : PageSource Z := λ o p,
  let e := p + FRAME_SIZE * 2 ^ o in
  if e <? 2 ^ 40 then Ok (mkRange (mkFrame p) (mkFrame e), e) else Panic PanicExplicit.
