(* ===== verification/SlobProofs.v ===== *)
(** The free list of the heap as a sequence of blocks, and what the operations
    of [Slob] do to it. *)
From stdpp Require Import sorting.
From S2P Require Import Prelude X86 Layout Mm Slob.

(** A block is its header's address and its payload size. *)
Abbreviation block := (Z * Z)%type.
Definition blk_end (b : block) : Z := b.1 + size_of_Block + b.2.
Definition in_blk (b : block) (x : Z) : Prop := b.1 ≤ x < blk_end b.

Definition blk_ok (b : block) : Prop :=
  PHYS_OFFSET ≤ b.1 ∧ blk_end b < 2 ^ 64 ∧ 0 < b.2 ∧ (16 | b.1) ∧ (16 | b.2).

(** Address-ordered, without overlap. *)
Definition before (x y : block) : Prop := blk_end x ≤ y.1.
Definition list_ok (l : list block) : Prop := Forall blk_ok l ∧ StronglySorted before l.

(** The bytes of the blocks of [l], headers included. *)
Definition bytes (l : list block) (x : Z) : Prop := ∃ b, b ∈ l ∧ in_blk b x.

(** In memory [m] the list from [h] runs through the blocks [l] and goes on at [n]. *)
Fixpoint seg (m : memory) (h : option Z) (l : list block) (n : option Z) : Prop :=
  match l with
  | [] => h = n
  | (a, s) :: l' => h = Some a ∧ ∃ nx, m !! a = Some (mkBlock s nx) ∧ seg m nx l' n
  end.

(** The variable [prev] of the loops after the blocks [pre]. *)
Definition prev_of (pre : list block) : option Z := fst <$> last pre.

(** First fit for payload size [n]. *)
Fixpoint fit (n : Z) (l : list block) : option (Z * list block) :=
  match l with
  | [] => None
  | (a, s) :: l' =>
      if s =? n then Some (a, l')
      else if n + size_of_Block <? s
      then Some (a, (a + size_of_Block + n, s - size_of_Block - n) :: l')
      else '(p, r) ← fit n l'; Some (p, (a, s) :: r)
  end.

(** * Lists of blocks *)

Lemma bytes_nil x : bytes [] x ↔ False.
Proof. unfold bytes. setoid_rewrite elem_of_nil. naive_solver. Qed.

Lemma bytes_cons b l x : bytes (b :: l) x ↔ in_blk b x ∨ bytes l x.
Proof. unfold bytes. setoid_rewrite elem_of_cons. naive_solver. Qed.

Lemma bytes_app l1 l2 x : bytes (l1 ++ l2) x ↔ bytes l1 x ∨ bytes l2 x.
Proof. unfold bytes. setoid_rewrite elem_of_app. naive_solver. Qed.

Lemma blk_ok_header b : blk_ok b → in_blk b b.1.
Proof. unfold blk_ok, in_blk, blk_end, size_of_Block. lia. Qed.

Lemma list_ok_cons b l :
  list_ok (b :: l) ↔ blk_ok b ∧ Forall (before b) l ∧ list_ok l.
Proof.
  unfold list_ok. rewrite Forall_cons. split.
  - intros [[? ?] Hs]. apply StronglySorted_inv in Hs. naive_solver.
  - intros (? & ? & ? & ?). split; [done|]. by constructor.
Qed.

Lemma list_ok_app l1 l2 :
  list_ok (l1 ++ l2) ↔ list_ok l1 ∧ list_ok l2 ∧ Forall (λ x, Forall (before x) l2) l1.
Proof.
  induction l1 as [|b l1 IH]; simpl.
  { split; [|naive_solver]. intros ?. split_and!; [split; constructor|done|constructor]. }
  rewrite !list_ok_cons, Forall_app, Forall_cons, IH. naive_solver.
Qed.

(** What comes after a block lies behind it. *)
Lemma before_bytes b l x : Forall (before b) l → bytes l x → blk_end b ≤ x.
Proof.
  intros Hl (c & Hc & Hx). rewrite Forall_forall in Hl. specialize (Hl c Hc).
  unfold before, in_blk in *. lia.
Qed.

Lemma bytes_before l c x : Forall (λ b, before b c) l → bytes l x → x < c.1.
Proof.
  intros Hl (b & Hb & Hx). rewrite Forall_forall in Hl. specialize (Hl b Hb).
  unfold before, in_blk in *. lia.
Qed.

(** * First fit *)

Lemma fit_spec n l a l' :
  list_ok l → 0 < n → (16 | n) → fit n l = Some (a, l') →
  list_ok l' ∧ blk_ok (a, n) ∧ (∀ b, Forall (before b) l → Forall (before b) l') ∧
  (∀ x, bytes l x ↔ bytes l' x ∨ in_blk (a, n) x) ∧ (∀ x, in_blk (a, n) x → ¬ bytes l' x).
Proof.
  intros Hok Hn Hdiv. revert a l'. induction l as [|[c s] l IH]; intros a l' Hfit; [done|].
  apply list_ok_cons in Hok as (Hc & Hbef & Hok). cbn [fit] in Hfit.
  destruct (s =? n) eqn:E; zbool; [|destruct (n + size_of_Block <? s) eqn:E'; zbool].
  - simplify_eq. split_and!; [done|done| | |].
    + intros b. by rewrite Forall_cons; intros [_ ?].
    + intros x. rewrite bytes_cons. tauto.
    + intros x Hx Hb. pose proof (before_bytes _ _ _ Hbef Hb). unfold in_blk in Hx. lia.
  - injection Hfit as <- <-. set (r := (c + size_of_Block + n, s - size_of_Block - n)).
    assert (blk_end r = blk_end (c, s)) as Hend.
    { unfold r, blk_end. simpl. lia. }
    assert (blk_ok (c, n) ∧ blk_ok r) as [Hcn Hr].
    { unfold blk_ok in *. rewrite Hend. unfold blk_end, r, size_of_Block in *. simpl in *.
      destruct Hc as (? & ? & ? & ? & ?). split; split_and!; try lia; try done.
      - apply Z.divide_add_r; [|done]. apply Z.divide_add_r; [done|by exists 1].
      - apply Z.divide_sub_r; [|done]. apply Z.divide_sub_r; [done|by exists 1]. }
    assert (Forall (before r) l) by (unfold before in *; by rewrite Hend).
    split_and!; [by apply list_ok_cons|done| | |].
    + intros b. rewrite !Forall_cons. unfold before, r, size_of_Block. simpl. intros [??]. split; [lia|done].
    + intros x. rewrite !bytes_cons. unfold in_blk. rewrite Hend.
      unfold blk_end, r, size_of_Block in *. simpl. split; [|naive_solver lia].
      intros [?|?]; [|naive_solver]. destruct (decide (x < c + 16 + n)); [right|left; left]; lia.
    + intros x Hx [Hxr|Hb]%bytes_cons; unfold in_blk, r, blk_end, size_of_Block in *; simpl in *; [lia|].
      pose proof (before_bytes _ _ _ Hbef Hb). unfold blk_end, size_of_Block in *. simpl in *. lia.
  - destruct (fit n l) as [[p r]|] eqn:Ef; simplify_eq/=.
    destruct (IH Hok _ _ eq_refl) as (? & ? & Hb & Hbytes & Hdis). split_and!; [|done| | |].
    + apply list_ok_cons. auto.
    + intros b. rewrite !Forall_cons. naive_solver.
    + intros x. rewrite !bytes_cons, Hbytes. tauto.
    + intros x Hx [Hxc|Hxr]%bytes_cons; [|by eapply Hdis].
      assert (bytes l x) as Hl by (apply Hbytes; by right).
      pose proof (before_bytes _ _ _ Hbef Hl). unfold in_blk in Hxc. lia.
Qed.

(** [fit] fails only if every block is too small (or one header too large). *)
Lemma fit_none n l : fit n l = None ↔ Forall (λ b, b.2 ≠ n ∧ b.2 ≤ n + size_of_Block) l.
Proof.
  induction l as [|[a s] l IH]; [split; [constructor|done]|]. cbn [fit]. rewrite Forall_cons. simpl.
  destruct (s =? n) eqn:E; zbool; [naive_solver|].
  destruct (n + size_of_Block <? s) eqn:E'; zbool; [naive_solver lia|].
  rewrite <-IH. destruct (fit n l) as [[??]|]; simpl; naive_solver lia.
Qed.

(** * Segments *)

Lemma seg_app m h l1 l2 n :
  seg m h (l1 ++ l2) n ↔ ∃ k, seg m h l1 k ∧ seg m k l2 n.
Proof.
  revert h. induction l1 as [|[a s] l1 IH]; intros h; simpl; [naive_solver|].
  setoid_rewrite IH. naive_solver.
Qed.

(** A segment only depends on the headers of its blocks. *)
Lemma seg_frame m m' h l n :
  (∀ b, b ∈ l → m' !! b.1 = m !! b.1) → seg m h l n → seg m' h l n.
Proof.
  revert h. induction l as [|[a s] l IH]; intros h Hm; simpl; [done|].
  intros (-> & nx & Ha & Hs). split; [done|]. exists nx. split.
  - rewrite <-Ha. apply (Hm (a, s)). left.
  - apply IH; [|done]. intros b Hb. apply Hm. by right.
Qed.

Lemma seg_insert m a b h l n :
  Forall (λ c, c.1 ≠ a) l → seg m h l n → seg (<[a := b]> m) h l n.
Proof.
  intros Hl. apply seg_frame. intros c Hc. rewrite lookup_insert_ne; [done|].
  rewrite Forall_forall in Hl. specialize (Hl c Hc). congruence.
Qed.

Lemma list_ok_headers pre b post :
  list_ok (pre ++ b :: post) → Forall (λ c, c.1 ≠ b.1) pre ∧ Forall (λ c, c.1 ≠ b.1) post.
Proof.
  rewrite list_ok_app, list_ok_cons. intros ([Hpre _] & (Hb & Hpost & _) & Hall).
  split; apply Forall_forall; intros c Hc.
  - rewrite Forall_forall in Hpre, Hall. specialize (Hpre c Hc). specialize (Hall c Hc).
    apply Forall_cons in Hall as [Hall _]. unfold before, blk_ok, blk_end, size_of_Block in *. lia.
  - rewrite Forall_forall in Hpost. specialize (Hpost c Hc).
    unfold before, blk_ok, blk_end, size_of_Block in *. lia.
Qed.

Lemma seg_middle m h pre a s post n :
  seg m h (pre ++ (a, s) :: post) n → ∃ nx, m !! a = Some (mkBlock s nx) ∧ seg m nx post n.
Proof. rewrite seg_app. intros (k & _ & _ & nx & ? & ?). eauto. Qed.

(** Rewriting one block of a list in place, with the list after it. *)
Lemma seg_update m h pre a s s' post post' n nx' :
  list_ok (pre ++ (a, s) :: post) → seg m h (pre ++ (a, s) :: post) n →
  Forall (λ c, c.1 ≠ a) post' → seg m nx' post' n →
  seg (<[a := mkBlock s' nx']> m) h (pre ++ (a, s') :: post') n.
Proof.
  intros Hok Hs Hpost' Hs'. destruct (list_ok_headers _ _ _ Hok) as [Hpre _]. simpl in Hpre.
  apply seg_app in Hs as (k & Hpre' & -> & _). apply seg_app. exists (Some a).
  split; [by apply seg_insert|]. split; [done|]. exists nx'. rewrite lookup_insert_eq.
  split; [done|]. by apply seg_insert.
Qed.

(** A list is never longer than the memory has headers, so the fuel of the
    loops is enough. *)
Lemma seg_headers m h l n b : seg m h l n → b ∈ l → b.1 ∈ dom m.
Proof.
  revert h. induction l as [|[a s] l IH]; intros h; simpl; [by intros _ ?%not_elem_of_nil|].
  intros (_ & nx & Ha & Hs) [->|Hb]%elem_of_cons; [|by eapply IH].
  by eapply elem_of_dom_2.
Qed.

Lemma list_ok_NoDup l : list_ok l → NoDup l.*1.
Proof.
  induction l as [|b l IH]; intros Hok; [constructor|]. rewrite fmap_cons. constructor.
  - intros (c & Hc & Hin)%list_elem_of_fmap.
    destruct (list_ok_headers [] b l Hok) as [_ Hl]. rewrite Forall_forall in Hl. by apply (Hl c).
  - apply IH. by apply list_ok_cons in Hok as (_ & _ & ?).
Qed.

Lemma seg_fuel m h l n : list_ok l → seg m h l n → (length l ≤ walk_fuel m)%nat.
Proof.
  intros Hok Hs. unfold walk_fuel. rewrite <-size_dom, <-(length_fmap fst l).
  rewrite <-(size_list_to_set (C:=gset Z)) by by apply list_ok_NoDup.
  apply le_S, subseteq_size. intros x (b & -> & Hb)%elem_of_list_to_set%list_elem_of_fmap.
  by eapply seg_headers.
Qed.

(** * The steps of the loops *)

Lemma read_ok m a b : m !! a = Some b → read m a = Ok b.
Proof. intros Ha. unfold read. by rewrite Ha. Qed.

Lemma set_next_ok m a s n n' :
  m !! a = Some (mkBlock s n) → set_next m a n' = Ok (<[a := mkBlock s n']> m).
Proof. intros Ha. unfold set_next. by rewrite (read_ok _ _ _ Ha). Qed.

Lemma set_size_ok m a s s' n :
  m !! a = Some (mkBlock s n) → set_size m a s' = Ok (<[a := mkBlock s' n]> m).
Proof. intros Ha. unfold set_size. by rewrite (read_ok _ _ _ Ha). Qed.

Lemma prev_of_snoc pre b : prev_of (pre ++ [b]) = Some b.1.
Proof. unfold prev_of. by rewrite last_snoc. Qed.

(** Redirecting the end of the segment [pre] to [n]. *)
Lemma link_ok m h pre k n :
  list_ok pre → seg m h pre k →
  ∃ m' h', link m h (prev_of pre) n = Ok (m', h') ∧ seg m' h' pre n ∧
    ∀ x, ¬ bytes pre x → m' !! x = m !! x.
Proof.
  destruct pre as [|[p ps] pre _] using rev_ind; intros Hok Hs.
  { exists m, n. done. }
  rewrite prev_of_snoc. destruct (seg_middle _ _ _ _ _ _ _ Hs) as (nx & Hp & _). simpl.
  rewrite (set_next_ok _ _ _ _ _ Hp). simpl.
  eexists _, h. split; [done|].
  apply seg_app in Hs as (k' & Hpre & -> & _).
  pose proof (list_ok_headers pre (p, ps) [] Hok) as [Hne _]. split.
  - apply seg_app. exists (Some p). split; [by apply seg_insert|]. split; [done|].
    exists n. by rewrite lookup_insert_eq.
  - intros x Hx. apply lookup_insert_ne. intros <-. apply Hx, bytes_app. right.
    apply list_ok_app in Hok as (_ & [Hb _] & _). apply Forall_cons in Hb as [Hb _].
    apply bytes_cons. left. by apply blk_ok_header in Hb.
Qed.

(** The blocks of a list do not overlap. *)
Lemma list_ok_disjoint pre b rest x :
  list_ok (pre ++ b :: rest) → in_blk b x → ¬ bytes pre x ∧ ¬ bytes rest x.
Proof.
  rewrite list_ok_app, list_ok_cons. intros (_ & (_ & Hrest & _) & Hall) Hx. split; intros Hb.
  - assert (Forall (λ c, before c b) pre) as Hpre.
    { eapply Forall_impl; [exact Hall|]. simpl. intros c. rewrite Forall_cons. by intros [? _]. }
    pose proof (bytes_before _ _ _ Hpre Hb). unfold in_blk in Hx. lia.
  - pose proof (before_bytes _ _ _ Hrest Hb). unfold in_blk in Hx. lia.
Qed.

Lemma list_ok_app_disjoint pre rest x : list_ok (pre ++ rest) → bytes rest x → ¬ bytes pre x.
Proof.
  intros Hok (b & (r1 & r2 & ->)%list_elem_of_split & Hx).
  rewrite app_assoc in Hok. destruct (list_ok_disjoint _ _ _ _ Hok Hx) as [Hn _].
  rewrite bytes_app in Hn. naive_solver.
Qed.

Lemma header_bytes l b : list_ok l → b ∈ l → bytes l b.1.
Proof.
  intros [Hl _] Hb. exists b. split; [done|]. rewrite Forall_forall in Hl. by apply blk_ok_header, Hl.
Qed.

Lemma seg_frame_bytes m m' h l n :
  list_ok l → (∀ x, bytes l x → m' !! x = m !! x) → seg m h l n → seg m' h l n.
Proof. intros Hl Hm. apply seg_frame. intros b Hb. by apply Hm, header_bytes. Qed.

Section proofs.
Context `{Build, HX : X86_64, !X86_64_Laws}.

Lemma non_null_ok p : p ≠ 0 → non_null p = Ok p.
Proof. intros Hp. unfold non_null. by rewrite (proj2 (Z.eqb_neq p 0)). Qed.

Lemma offset_addr_ok a s : blk_ok (a, s) → offset_addr a s = Ok (blk_end (a, s)).
Proof.
  unfold blk_ok, offset_addr, add_u64, blk_end, size_of_Block, PHYS_OFFSET. simpl. intros ?.
  ok_checked. rewrite non_null_ok by lia. f_equal. lia.
Qed.

Lemma split_block_ok m a s nx n :
  m !! a = Some (mkBlock s nx) → blk_ok (a, s) → 0 < n → n + size_of_Block < s →
  let r := a + size_of_Block + n in
  split_at m a n =
    Ok (a, r, <[a := mkBlock n (Some r)]> (<[r := mkBlock (s - size_of_Block - n) nx]> m)).
Proof.
  intros Ha Hok Hn Hs r. unfold split_at, add_u64, sub_u64, size_of_Block in *.
  unfold blk_ok, blk_end, size_of_Block, PHYS_OFFSET in Hok. simpl in Hok.
  rewrite (checked_ok 64 (n + 16)) by lia. ok_simpl. rewrite (read_ok _ _ _ Ha). ok_simpl. simpl size.
  rewrite (proj2 (Z.leb_le _ _)), debug_assert_true by lia. ok_simpl.
  rewrite (checked_ok 64 (s - _)) by lia. ok_simpl.
  unfold offset_addr, add_u64. rewrite (checked_ok 64 (n + _)) by (unfold size_of_Block; lia). ok_simpl.
  rewrite non_null_ok by (unfold size_of_Block; lia). ok_simpl.
  replace (a + (n + size_of_Block)) with r by (unfold size_of_Block; lia).
  assert (r ≠ a) by lia. simpl next.
  erewrite set_size_ok by (by rewrite lookup_insert_ne by done). ok_simpl.
  erewrite set_next_ok by (by rewrite lookup_insert_eq). ok_simpl.
  rewrite insert_insert_eq. by replace (s - (n + 16)) with (s - 16 - n) by lia.
Qed.

(** The two ways [alloc_inner] takes a block out of the list. *)
Lemma unlink_ok m h pre a s nx rest :
  list_ok (pre ++ (a, s) :: rest) → seg m h pre (Some a) →
  m !! a = Some (mkBlock s nx) → seg m nx rest None →
  ∃ m' h', link m h (prev_of pre) nx = Ok (m', h') ∧ seg m' h' (pre ++ rest) None ∧
    m' !! a = Some (mkBlock s nx) ∧ ∀ x, ¬ bytes pre x → m' !! x = m !! x.
Proof.
  intros Hok Hpre Ha Hs. pose proof (proj1 (list_ok_app _ _) Hok) as (Hokp & Hokr & _).
  apply list_ok_cons in Hokr as (Hb & _ & Hokr).
  destruct (link_ok m h pre (Some a) nx Hokp Hpre) as (m' & h' & Hl & Hpre' & Hfr).
  exists m', h'. split_and!; [done| | |done].
  - apply seg_app. exists nx. split; [done|]. eapply seg_frame_bytes; [done| |exact Hs].
    intros x Hx. apply Hfr. eapply list_ok_app_disjoint; [exact Hok|]. apply bytes_cons. by right.
  - rewrite Hfr; [done|]. apply blk_ok_header in Hb. by apply (list_ok_disjoint _ _ _ _ Hok) in Hb as [? _].
Qed.

Lemma split_link_ok n m h pre a s nx rest :
  0 < n → n + size_of_Block < s →
  list_ok (pre ++ (a, s) :: rest) → seg m h pre (Some a) →
  m !! a = Some (mkBlock s nx) → seg m nx rest None →
  let r := a + size_of_Block + n in
  ∃ m1 m' h', split_at m a n = Ok (a, r, m1) ∧ link m1 h (prev_of pre) (Some r) = Ok (m', h') ∧
    seg m' h' (pre ++ (r, s - size_of_Block - n) :: rest) None ∧
    m' !! a = Some (mkBlock n (Some r)) ∧
    ∀ x, ¬ bytes pre x → ¬ in_blk (a, s) x → m' !! x = m !! x.
Proof.
  intros Hn Hlt Hok Hpre Ha Hs r. pose proof (proj1 (list_ok_app _ _) Hok) as (Hokp & Hokr & _).
  apply list_ok_cons in Hokr as (Hb & _ & Hokr). pose proof (blk_ok_header _ Hb) as Hh.
  assert (in_blk (a, s) r) as Hr.
  { unfold in_blk, blk_end, r, size_of_Block in *. simpl. lia. }
  assert (r ≠ a) by (unfold r, size_of_Block; lia).
  eexists. rewrite (split_block_ok _ _ _ _ _ Ha) by done. fold r. set (m1 := <[a:=_]> _).
  assert (∀ x, ¬ in_blk (a, s) x → m1 !! x = m !! x) as Hm1.
  { intros x Hx. unfold m1. rewrite !lookup_insert_ne; naive_solver. }
  pose proof (λ x, list_ok_disjoint _ _ _ x Hok) as Hdis.
  destruct (link_ok m1 h pre (Some a) (Some r) Hokp) as (m' & h' & Hl & Hpre' & Hfr).
  { eapply seg_frame_bytes; [done| |exact Hpre]. intros x Hx. apply Hm1. naive_solver. }
  exists m', h'. split_and!; [done|done| | |].
  - apply seg_app. exists (Some r). split; [done|]. split; [done|]. exists nx. split.
    + rewrite Hfr by naive_solver. unfold m1. by rewrite lookup_insert_ne, lookup_insert_eq.
    + eapply seg_frame_bytes; [done| |exact Hs]. intros x Hx. rewrite Hfr.
      * apply Hm1. naive_solver.
      * eapply list_ok_app_disjoint; [exact Hok|]. apply bytes_cons. by right.
  - rewrite Hfr by naive_solver. unfold m1. by rewrite lookup_insert_eq.
  - intros x Hx1 Hx2. rewrite Hfr by done. by apply Hm1.
Qed.

(** The loop of [alloc_inner] finds what [fit] finds. *)
Lemma alloc_walk_ok n pre rest fuel m h curr :
  0 < n → (length rest ≤ fuel)%nat → list_ok (pre ++ rest) →
  seg m h pre curr → seg m curr rest None →
  match fit n rest with
  | None => alloc_walk fuel n (n + size_of_Block) m h (prev_of pre) curr = Ok None
  | Some (a, rest') => ∃ m' h',
      alloc_walk fuel n (n + size_of_Block) m h (prev_of pre) curr = Ok (Some (allocation a, m', h')) ∧
      seg m' h' (pre ++ rest') None ∧ (∃ nx, m' !! a = Some (mkBlock n nx)) ∧
      ∀ x, ¬ bytes (pre ++ rest) x → m' !! x = m !! x
  end.
Proof.
  intros Hn. revert pre fuel curr. induction rest as [|[a s] rest IH]; intros pre fuel curr Hf Hok Hpre Hs.
  { simpl in *. subst curr. by destruct fuel. }
  destruct Hs as (-> & nx & Ha & Hs). destruct fuel as [|fuel]; [simpl in Hf; lia|].
  cbn [alloc_walk fit]. rewrite (read_ok _ _ _ Ha). ok_simpl. cbn [size next].
  destruct (s =? n) eqn:Esn; zbool; [|destruct (n + size_of_Block <? s) eqn:Els; zbool].
  - subst s. destruct (unlink_ok m h pre a n nx rest) as (m' & h' & -> & ? & ? & Hfr); [done..|]. simpl.
    exists m', h'. split_and!; eauto. intros x Hx. apply Hfr. rewrite bytes_app in Hx. naive_solver.
  - destruct (split_link_ok n m h pre a s nx rest) as (m1 & m' & h' & -> & Hl & ? & ? & Hfr); [done..|].
    ok_simpl. rewrite Hl. simpl. exists m', h'. split_and!; eauto.
    intros x Hx. rewrite bytes_app, bytes_cons in Hx. apply Hfr; naive_solver.
  - specialize (IH (pre ++ [(a, s)]) fuel nx). rewrite prev_of_snoc, <-app_assoc in IH. simpl in IH.
    specialize (IH ltac:(simpl in Hf; lia) Hok ltac:(apply seg_app; naive_solver) Hs).
    destruct (fit n rest) as [[p r]|]; [|done]. simpl.
    destruct IH as (m' & h' & IH). rewrite <-app_assoc in IH. simpl in IH. by exists m', h'.
Qed.

(** * Merging *)

(** [l'] is [l] with some adjacent blocks merged. *)
Definition within (b c : block) : Prop := c.1 ≤ b.1 ∧ blk_end b ≤ blk_end c.
Definition coalesced (l l' : list block) : Prop :=
  list_ok l' ∧ (∀ x, bytes l' x ↔ bytes l x) ∧ ∀ b, b ∈ l → ∃ c, c ∈ l' ∧ within b c.

Definition merge (x y : block) : block := (x.1, x.2 + (y.2 + size_of_Block)).

Lemma merge_list_ok pre x y post :
  list_ok (pre ++ x :: y :: post) → blk_end x = y.1 →
  coalesced (pre ++ x :: y :: post) (pre ++ merge x y :: post).
Proof.
  destruct x as [a s], y as [c t]. intros Hok Hend. simpl in Hend.
  assert (blk_end (merge (a, s) (c, t)) = blk_end (c, t)) as Hm.
  { unfold merge, blk_end, size_of_Block in *. simpl in *. lia. }
  apply list_ok_app in Hok as (Hpre & Hrest & Hall). rewrite !list_ok_cons in Hrest.
  destruct Hrest as (Hx & Hbx & Hy & Hby & Hpost). split_and!.
  - apply list_ok_app. split; [done|]. rewrite list_ok_cons. split_and!.
    + unfold blk_ok in *. rewrite Hm. unfold merge, size_of_Block. simpl in *. split_and!; try lia; [naive_solver|].
      apply Z.divide_add_r; [naive_solver|]. apply Z.divide_add_r; [naive_solver|by exists 1].
    + unfold before in *. by rewrite Hm.
    + done.
    + eapply Forall_impl; [exact Hall|]. simpl. intros b. rewrite !Forall_cons. naive_solver.
  - intros z. rewrite !bytes_app, !bytes_cons. unfold in_blk. rewrite Hm, Hend. simpl.
    unfold blk_ok, blk_end, size_of_Block in *. simpl in *.
    assert (a ≤ z < c + 16 + t ↔ a ≤ z < c ∨ c ≤ z < c + 16 + t) as -> by lia. tauto.
  - intros b. rewrite elem_of_app, !elem_of_cons. intros Hb.
    destruct (decide (b ∈ pre ++ post)) as [Hin|Hin].
    { exists b. rewrite elem_of_app, elem_of_cons. rewrite elem_of_app in Hin. unfold within. naive_solver lia. }
    exists (merge (a, s) (c, t)). rewrite elem_of_app, elem_of_cons. split; [auto|].
    unfold within. rewrite Hm. rewrite elem_of_app in Hin.
    unfold blk_ok, before, blk_end, size_of_Block in *. simpl in *.
    destruct Hb as [?|[->|[->|?]]]; simpl; naive_solver lia.
Qed.

Lemma try_merge_ok m h pre x y post :
  list_ok (pre ++ x :: y :: post) → seg m h (pre ++ x :: y :: post) None →
  ∃ merged m', try_merge m x.1 y.1 = Ok (merged, m') ∧
    (∀ z, ¬ in_blk x z → m' !! z = m !! z) ∧
    if merged : bool
    then seg m' h (pre ++ merge x y :: post) None ∧
         coalesced (pre ++ x :: y :: post) (pre ++ merge x y :: post)
    else m' = m.
Proof.
  intros Hok Hs. destruct x as [a s], y as [c t].
  destruct (seg_middle _ _ _ _ _ _ _ Hs) as (nx & Ha & Hs').
  destruct Hs' as (-> & nc & Hc & Hpost).
  pose proof (proj1 (list_ok_app _ _) Hok) as (_ & Hrest & _). rewrite !list_ok_cons in Hrest.
  destruct Hrest as (Hx & Hbx & Hy & Hby & _). apply Forall_cons in Hbx as [Hxy Hbx].
  pose proof Hx as Hx'. pose proof Hy as Hy'.
  unfold before, blk_ok, blk_end, size_of_Block, PHYS_OFFSET in Hx', Hy', Hxy. simpl in Hx', Hy', Hxy.
  unfold try_merge. simpl fst. rewrite (proj2 (Z.ltb_lt a c)), debug_assert_true by lia. ok_simpl.
  destruct (negb _); [by exists false, m|].
  rewrite (read_ok _ _ _ Ha). ok_simpl. cbn [size next]. rewrite (offset_addr_ok a s Hx). ok_simpl.
  destruct (blk_end (a, s) =? c) eqn:E; zbool; [|by exists false, m].
  rewrite (read_ok _ _ _ Hc). ok_simpl. cbn [size next]. unfold add_u64.
  unfold blk_end, size_of_Block in E. simpl in E.
  rewrite (checked_ok 64 (t + _)) by (unfold size_of_Block; lia). ok_simpl.
  rewrite (checked_ok 64 (s + _)) by (unfold size_of_Block; lia). ok_simpl.
  rewrite (set_size_ok _ _ _ _ _ Ha). ok_simpl.
  erewrite set_next_ok by (by rewrite lookup_insert_eq). ok_simpl. rewrite insert_insert_eq.
  eexists true, _. split; [done|]. split; [|split].
  - intros z Hz. apply lookup_insert_ne. intros <-. by apply Hz, (blk_ok_header (a, s)).
  - eapply seg_update; [exact Hok|exact Hs| |done].
    destruct (list_ok_headers _ _ _ Hok) as [_ Hne]. by apply Forall_cons in Hne as [_ Hne].
  - by apply merge_list_ok.
Qed.

Lemma coalesced_refl l : list_ok l → coalesced l l.
Proof. intros Hl. split_and!; [done|done|]. intros b Hb. exists b. unfold within. split; [done|lia]. Qed.

Lemma coalesced_trans l1 l2 l3 : coalesced l1 l2 → coalesced l2 l3 → coalesced l1 l3.
Proof.
  intros (_ & H12 & W12) (? & H23 & W23). split_and!; [done| |].
  - intros x. by rewrite H23.
  - intros b (c & Hc & Hbc)%W12. apply W23 in Hc as (d & Hd & Hcd). exists d.
    split; [done|]. unfold within in *. lia.
Qed.

(** * Inserting a block *)

(** The block and its predecessor are linked: [b] stands between [pre] and [rest]. *)
Lemma insert_seg m h pre b nx rest curr :
  list_ok (pre ++ b :: rest) → seg m h pre curr → seg m curr rest None →
  m !! b.1 = Some (mkBlock b.2 nx) → 
  seg (<[b.1 := mkBlock b.2 curr]> m) h pre curr ∧ seg (<[b.1 := mkBlock b.2 curr]> m) (Some b.1) (b :: rest) None.
Proof.
  intros Hok Hpre Hrest Hb. destruct (list_ok_headers _ _ _ Hok) as [H1 H2]. destruct b as [a s]. simpl in *.
  split; [by apply seg_insert|]. split; [done|]. exists curr. rewrite lookup_insert_eq.
  split; [done|]. by apply seg_insert.
Qed.

Lemma last_merge_ok m h pre x y post :
  list_ok (pre ++ x :: y :: post) → seg m h (pre ++ x :: y :: post) None →
  ∃ merged m' l', try_merge m x.1 y.1 = Ok (merged, m') ∧ seg m' h l' None ∧
    coalesced (pre ++ x :: y :: post) l' ∧ ∀ z, ¬ in_blk x z → m' !! z = m !! z.
Proof.
  intros Hok Hs. destruct (try_merge_ok m h pre x y post Hok Hs) as ([] & m' & Hm & Hfr & Hres).
  - destruct Hres. eauto 10.
  - subst m'. eexists false, m, _. split_and!; [done..| |done]. by apply coalesced_refl.
Qed.

(** Linking [b] between [pre ++ [p]] and [rest], and the merge with [p]. *)
Lemma link_merge_ok m h pre p b rest k :
  list_ok (pre ++ p :: b :: rest) → seg m h (pre ++ [p]) k → seg m (Some b.1) (b :: rest) None →
  ∃ m1 merged m', set_next m p.1 (Some b.1) = Ok m1 ∧ try_merge m1 p.1 b.1 = Ok (merged, m') ∧
    (∀ z, ¬ in_blk p z → m' !! z = m !! z) ∧
    if merged : bool
    then seg m' h (pre ++ merge p b :: rest) None ∧
         coalesced (pre ++ p :: b :: rest) (pre ++ merge p b :: rest)
    else seg m' h (pre ++ p :: b :: rest) None.
Proof.
  intros Hok Hp Hb. destruct p as [a s]. destruct (seg_middle _ _ _ _ _ _ _ Hp) as (nx & Ha & _).
  apply seg_app in Hp as (k' & Hpre & -> & _).
  eexists. simpl fst. rewrite (set_next_ok _ _ _ _ _ Ha).
  destruct (list_ok_headers _ _ _ Hok) as [Hne1 Hne2]. simpl in Hne1, Hne2.
  pose proof (proj1 (list_ok_app _ _) Hok) as (_ & (Hx & _)%list_ok_cons & _).
  assert (seg (<[a:=mkBlock s (Some b.1)]> m) h (pre ++ (a, s) :: b :: rest) None) as Hs.
  { apply seg_app. exists (Some a). split; [by apply seg_insert|]. split; [done|].
    exists (Some b.1). rewrite lookup_insert_eq. split; [done|]. by apply seg_insert. }
  destruct (try_merge_ok _ h pre (a, s) b rest Hok Hs) as (merged & m' & Hm & Hfr & Hres).
  exists merged, m'. split_and!; [done|done| |].
  - intros z Hz. rewrite Hfr by done. apply lookup_insert_ne. intros <-. by apply Hz, (blk_ok_header (a, s)).
  - destruct merged; [done|]. by subst m'.
Qed.

(** Outside the blocks of a list and [b], merging [b] into it changes nothing. *)
Lemma merge_outside pre p b rest x :
  coalesced (pre ++ p :: b :: rest) (pre ++ merge p b :: rest) →
  ¬ bytes (pre ++ p :: rest) x → ¬ in_blk b x → ¬ in_blk (merge p b) x ∧ ¬ in_blk p x.
Proof.
  intros (_ & Hby & _). specialize (Hby x). rewrite !bytes_app, !bytes_cons in *. tauto.
Qed.

(** What [dealloc_inner] leaves: a list of the old bytes and those of [b]. *)
Definition inserted (m : memory) (l : list block) (b : block) (m' : memory) (h' : option Z) : Prop :=
  ∃ l', seg m' h' l' None ∧ list_ok l' ∧ (∀ x, bytes l' x ↔ bytes l x ∨ in_blk b x) ∧
    (∃ c, c ∈ l' ∧ within b c) ∧
    ∀ x, ¬ bytes l x → ¬ in_blk b x → m' !! x = m !! x.

(** Insertion behind the last block. *)
Lemma insert_end_ok m h pre b nx fuel :
  list_ok (pre ++ [b]) → seg m h pre None → m !! b.1 = Some (mkBlock b.2 nx) →
  (pre = [] → nx = None) →
  ∃ m' h', dealloc_walk fuel b.1 m h (prev_of pre) None = Ok (m', h') ∧ inserted m pre b m' h'.
Proof.
  intros Hok Hpre Hb Hnil. destruct pre as [|p pre _] using rev_ind.
  - exists m, (Some b.1). split; [by destruct fuel|]. rewrite (Hnil eq_refl) in Hb.
    exists [b]. destruct b as [a s]. split; [split; [done|by exists None]|]. split_and!; [done| | |done].
    + intros x. rewrite bytes_cons, !bytes_nil. tauto.
    + exists (a, s). unfold within. split; [left|lia].
  - destruct (insert_seg m h (pre ++ [p]) b nx [] None) as [Hs1 Hs2]; [done..|].
    rewrite <-app_assoc in Hok. simpl in Hok.
    destruct (link_merge_ok _ h pre p b [] None Hok Hs1 Hs2) as (m1 & merged & m' & Hset & Hm & Hfr & Hres).
    rewrite prev_of_snoc. exists m', h. split.
    + assert (p.1 ≠ b.1) as Hne.
      { destruct (list_ok_headers _ _ _ Hok) as [_ Hne]. apply Forall_cons in Hne as [Hne _]. done. }
      unfold set_next, read in Hset. rewrite lookup_insert_ne in Hset by done.
      destruct (m !! p.1) as [[ps pn]|] eqn:Ep; simplify_eq/=.
      destruct fuel; cbn [dealloc_walk]; rewrite (set_next_ok _ _ _ _ _ Ep); ok_simpl;
        erewrite set_next_ok by (by rewrite lookup_insert_ne);
        ok_simpl; rewrite insert_insert_ne, Hm by done; done.
    + assert (∀ x, ¬ bytes (pre ++ [p]) x → ¬ in_blk b x → m' !! x = m !! x) as Hfr'.
      { intros x Hx Hxb. rewrite bytes_app, bytes_cons in Hx. rewrite Hfr by naive_solver.
        apply lookup_insert_ne. intros <-. apply Hxb, blk_ok_header.
        apply list_ok_app in Hok as (_ & (_ & _ & (? & _)%list_ok_cons)%list_ok_cons & _). done. }
      destruct merged.
      * destruct Hres as (Hs & Hl & Hbytes & Hw). eexists. split_and!; [exact Hs|done| | |done].
        -- intros x. rewrite Hbytes, !bytes_app, !bytes_cons, bytes_nil. tauto.
        -- apply Hw. rewrite elem_of_app, !elem_of_cons. auto.
      * eexists. split_and!; [exact Hres|done| | |done].
        -- intros x. rewrite !bytes_app, !bytes_cons, bytes_nil. tauto.
        -- exists b. rewrite elem_of_app, !elem_of_cons. unfold within. split; [auto|lia].
Qed.

(** Insertion before a block [c]. *)
Lemma insert_before_ok m h pre b nx c rest fuel :
  list_ok (pre ++ b :: c :: rest) → seg m h pre (Some c.1) → seg m (Some c.1) (c :: rest) None →
  m !! b.1 = Some (mkBlock b.2 nx) →
  ∃ m' h', dealloc_walk (S fuel) b.1 m h (prev_of pre) (Some c.1) = Ok (m', h') ∧
    inserted m (pre ++ c :: rest) b m' h'.
Proof.
  intros Hok Hpre Hrest Hb. cbn [dealloc_walk].
  pose proof (proj1 (list_ok_app _ _) Hok) as (_ & (Hokb & Hbc & _)%list_ok_cons & _).
  apply Forall_cons in Hbc as [Hbc _]. pose proof (blk_ok_header _ Hokb) as Hhb.
  assert (b.1 < c.1) by (unfold before, in_blk in *; lia).
  rewrite (proj2 (Z.eqb_neq c.1 b.1)) by lia. simpl negb. cbn [assert_]. ok_simpl.
  rewrite (proj2 (Z.ltb_lt b.1 c.1)) by done. rewrite (set_next_ok _ _ _ _ _ Hb). ok_simpl.
  destruct (insert_seg m h pre b nx (c :: rest) (Some c.1)) as [Hs1 Hs2]; [done..|].
  set (m1 := <[b.1:=_]> m) in *.
  assert (∀ x, ¬ in_blk b x → m1 !! x = m !! x) as Hm1.
  { intros x Hx. apply lookup_insert_ne. congruence. }
  assert (∀ l' m' h', seg m' h' l' None → coalesced (pre ++ b :: c :: rest) l' →
    (∀ x, ¬ bytes (pre ++ c :: rest) x → ¬ in_blk b x → m' !! x = m1 !! x) →
    inserted m (pre ++ c :: rest) b m' h') as Hfin.
  { intros l' m' h' Hs (Hl & Hby & Hw) Hfr. exists l'. split_and!; [done|done| | |].
    - intros x. rewrite Hby, !bytes_app, !bytes_cons. tauto.
    - apply Hw. rewrite elem_of_app, elem_of_cons. auto.
    - intros x Hx Hxb. rewrite Hfr by done. auto. }
  destruct pre as [|p pre _] using rev_ind.
  - simpl. destruct (last_merge_ok m1 (Some b.1) [] b c rest) as (mg & m' & l' & -> & ? & ? & Hfr); [done..|].
    simpl. exists m', (Some b.1). split; [done|]. eapply Hfin; naive_solver.
  - rewrite prev_of_snoc. rewrite <-app_assoc in Hok, Hfin. simpl in Hok, Hfin.
    destruct (link_merge_ok m1 h pre p b (c :: rest) _ Hok Hs1 Hs2)
      as (m2 & merged & m3 & -> & Hm & Hfr & Hres). ok_simpl. rewrite Hm. ok_simpl.
    destruct merged.
    + destruct Hres as [Hs Hco].
      destruct (last_merge_ok m3 h pre (merge p b) c rest (proj1 Hco) Hs) as (mg & m' & l' & Hm' & ? & ? & Hfr').
      change p.1 with (merge p b).1. rewrite Hm'. simpl. exists m', h. split; [done|].
      eapply Hfin; [done|by eapply coalesced_trans|]. intros x Hx Hxb. rewrite <-app_assoc in Hx. destruct (merge_outside _ _ _ _ x Hco Hx Hxb) as [Hn1 Hn2].
      rewrite Hfr' by done. by apply Hfr.
    + destruct (last_merge_ok m3 h (pre ++ [p]) b c rest) as (mg & m' & l' & -> & ? & ? & Hfr');
        [by rewrite <-app_assoc..|].
      simpl. exists m', h. split; [done|]. eapply Hfin; [done|by rewrite <-app_assoc in *|].
      intros x Hx Hxb. rewrite Hfr' by done. apply Hfr. intros Hxp. apply Hx. rewrite !bytes_app, bytes_cons. auto.
Qed.

(** Blocks that share no byte are ordered by their addresses. *)
Lemma disjoint_before x y :
  blk_ok x → blk_ok y → (∀ z, in_blk x z → ¬ in_blk y z) → x.1 < y.1 → before x y.
Proof.
  intros Hx Hy Hd Hlt. specialize (Hd y.1). pose proof (blk_ok_header y Hy).
  unfold before, in_blk in *. destruct (decide (blk_end x ≤ y.1)); [done|]. exfalso. apply Hd; lia.
Qed.

(** The loop of [dealloc_inner] inserts the block at its place. *)
Lemma dealloc_walk_ok b nx pre rest fuel m h curr :
  (length rest ≤ fuel)%nat → list_ok (pre ++ rest) → blk_ok b → Forall (λ c, before c b) pre →
  (∀ x, in_blk b x → ¬ bytes rest x) →
  seg m h pre curr → seg m curr rest None → m !! b.1 = Some (mkBlock b.2 nx) →
  (pre ++ rest = [] → nx = None) →
  ∃ m' h', dealloc_walk fuel b.1 m h (prev_of pre) curr = Ok (m', h') ∧
    inserted m (pre ++ rest) b m' h'.
Proof.
  intros Hf Hok Hb Hpre Hdis Hsp Hsr Hm Hnil.
  revert pre fuel curr Hf Hok Hpre Hsp Hsr Hnil.
  induction rest as [|c rest IH]; intros pre fuel curr Hf Hok Hpre Hsp Hsr Hnil.
  - simpl in Hsr. subst curr. rewrite app_nil_r in *. apply (insert_end_ok m h pre b nx); try done.
    apply list_ok_app. split_and!; [done|by apply list_ok_cons; split_and!; [|constructor|split; constructor]|].
    eapply Forall_impl; [exact Hpre|]. intros x Hx. by repeat constructor.
  - destruct c as [a s]. destruct fuel as [|fuel]; [simpl in Hf; lia|].
    pose proof (proj1 (list_ok_app _ _) Hok) as (Hokp & Hokr & Hall).
    pose proof (proj1 (list_ok_cons _ _) Hokr) as (Hc & Hbef & Hokr').
    destruct Hsr as (-> & nc & Ha & Hsr).
    assert (∀ z, in_blk b z → ¬ in_blk (a, s) z) as Hd1.
    { intros z Hz Hz'. apply (Hdis z Hz), bytes_cons. by left. }
    destruct (decide (b.1 < a)) as [Hlt|Hge].
    + apply (insert_before_ok m h pre b nx (a, s) rest fuel); try done; [|by split; eauto].
      pose proof (disjoint_before b (a, s) Hb Hc Hd1 Hlt) as Hbc.
      apply list_ok_app. split_and!; [done| |].
      * apply list_ok_cons. split_and!; [done| |done]. constructor; [done|].
        eapply Forall_impl; [exact Hbef|]. unfold before in *. intros y Hy.
        unfold blk_ok, blk_end, size_of_Block in *. simpl in *. lia.
      * apply Forall_forall. intros y Hy. constructor.
        -- by apply (proj1 (Forall_forall _ _) Hpre).
        -- by apply (proj1 (Forall_forall _ _) Hall).
    + assert (a ≠ b.1) as Hne.
      { intros ->. apply (Hd1 b.1); [by apply blk_ok_header|by apply (blk_ok_header (b.1, s))]. }
      cbn [dealloc_walk]. rewrite (proj2 (Z.eqb_neq a b.1)) by done. cbn [negb assert_]. ok_simpl.
      rewrite (proj2 (Z.ltb_ge b.1 a)) by lia. rewrite (read_ok _ _ _ Ha). ok_simpl. cbn [next].
      specialize (IH ltac:(intros x Hx Hr; apply (Hdis x Hx), bytes_cons; by right) (pre ++ [(a, s)]) fuel nc).
      rewrite prev_of_snoc, <-app_assoc in IH. apply IH; try done.
      * simpl in Hf. lia.
      * apply Forall_app. split; [done|]. constructor; [|constructor].
        apply disjoint_before; try done; [|simpl; lia]. intros z Hz Hz'. by apply (Hd1 z).
      * apply seg_app. exists (Some a). split; [done|]. split; [done|]. by exists nc.
Qed.

(** The free list already holds the block: the double-free assertion fires. *)
Lemma dealloc_walk_double_free b pre rest fuel m h prev curr :
  (length rest ≤ fuel)%nat → list_ok (pre ++ rest) → b ∈ rest →
  seg m curr rest None → dealloc_walk fuel b.1 m h prev curr = Panic PanicAssert.
Proof.
  intros Hf Hok Hb Hs. revert pre fuel prev curr Hf Hok Hs.
  induction rest as [|[a s] rest IH]; intros pre fuel prev curr Hf Hok Hs; [by apply not_elem_of_nil in Hb|].
  destruct fuel as [|fuel]; [simpl in Hf; lia|]. destruct Hs as (-> & nc & Ha & Hs). cbn [dealloc_walk].
  apply elem_of_cons in Hb as [->|Hb]; [by rewrite Z.eqb_refl|].
  assert (a < b.1) as Hlt.
  { apply list_ok_app in Hok as (_ & (Hc & Hbef & _)%list_ok_cons & _).
    rewrite Forall_forall in Hbef. specialize (Hbef b Hb).
    unfold before, blk_ok, blk_end, size_of_Block in *. simpl in *. lia. }
  rewrite (proj2 (Z.eqb_neq a b.1)) by lia. cbn [negb assert_]. ok_simpl.
  rewrite (proj2 (Z.ltb_ge b.1 a)) by lia. rewrite (read_ok _ _ _ Ha). ok_simpl. cbn [next].
  apply (IH Hb (pre ++ [(a, s)])); [simpl in Hf; lia|by rewrite <-app_assoc|done].
Qed.
End proofs.
