(* ===== verification/SlobHeap.v ===== *)
(** The heap invariant of [Slob] and what [morecore], [alloc] and [dealloc] do
    to it, against the promises of the page source. *)
From stdpp Require Import sorting.
From S2P Require Import Prelude X86 Layout Mm Slob SlobProofs.

(** The bytes of the live allocations, headers included: [live] maps the address
    of each allocated header to its payload size. *)
Definition live_bytes (live : gmap Z Z) (x : Z) : Prop :=
  ∃ a s, live !! a = Some s ∧ in_blk (a, s) x.

Section heap.
Context `{Build, HX : X86_64, !X86_64_Laws} {P : Type} `{HS : PageSource P, !PageSourceLaws P}.

Record heap_ok (h : Heap P) (fl : list block) (live : gmap Z Z) : Prop := {
  ho_seg : seg (mem h) (free_list h) fl None;
  ho_list : list_ok fl;
  ho_live a s : live !! a = Some s → blk_ok (a, s) ∧ ∃ nx, mem h !! a = Some (mkBlock s nx);
  ho_disjoint a s b t : live !! a = Some s → live !! b = Some t → a ≠ b →
    ∀ x, in_blk (a, s) x → ¬ in_blk (b, t) x;
  ho_free x : bytes fl x → ¬ live_bytes live x;
  ho_source : source_ok (phys h);
  ho_avail x : bytes fl x ∨ live_bytes live x → ¬ avail (phys h) (x - PHYS_OFFSET)
}.

Lemma heap_ok_fuel h fl live : heap_ok h fl live → (length fl ≤ walk_fuel (mem h))%nat.
Proof. intros []. by eapply seg_fuel. Qed.

(** The empty heap before the first allocation. *)
Lemma heap_ok_empty (p : P) : source_ok p → heap_ok (mkHeap ∅ None p) [] ∅.
Proof.
  intros Hp. split; simpl; try done.
  - split; constructor.
  - intros x (b & Hb & _). by apply not_elem_of_nil in Hb.
  - intros x [(b & Hb & _)|(a & s & Ha & _)]; [by apply not_elem_of_nil in Hb|].
    by apply lookup_empty_Some in Ha.
Qed.

(** * Sizes *)

Definition payload (layout : Layout) : Z := round_up (l_size layout) 16.

(** A request the allocator is made for: an alignment of at most 16. *)
Definition request_ok (layout : Layout) : Prop :=
  0 < l_size layout < 2 ^ 46 ∧ ∃ k, 0 ≤ k ≤ 4 ∧ l_align layout = 2 ^ k.

Lemma payload_bounds layout :
  request_ok layout → l_size layout ≤ payload layout < l_size layout + 16 ∧ (16 | payload layout).
Proof.
  intros [Hs _]. unfold payload. pose proof (round_up_bounds (l_size layout) 16 ltac:(done)).
  split; [lia|apply round_up_divide].
Qed.

Lemma block_layout_ok layout :
  request_ok layout → block_layout layout = Some (mkLayout (payload layout + size_of_Block) 16, size_of_Block).
Proof.
  intros Hreq. pose proof (payload_bounds _ Hreq) as [Hp _]. destruct Hreq as [Hs (k & Hk & Hal)].
  assert (round_up (size_of_Block + l_size layout) 16 = payload layout + size_of_Block) as Hr.
  { rewrite Z.add_comm, round_up_add; [|done|by exists 1].
    change size_of_Block with 16 at 1. unfold payload. reflexivity. }
  unfold block_layout. change (from_size_align size_of_Block align_of_Block) with (Some (mkLayout 16 16)).
  cbn [mbind option_bind]. change (pad_to_align (mkLayout 16 16)) with (mkLayout 16 16).
  unfold extend. cbn [l_size l_align].
  assert (round_up 16 (l_align layout) = size_of_Block ∧ 16 `max` l_align layout = 16) as [-> ->].
  { rewrite Hal. assert (k = 0 ∨ k = 1 ∨ k = 2 ∨ k = 3 ∨ k = 4) as [->|[->|[->|[->| ->]]]] by lia; done. }
  unfold from_size_align. rewrite Hr.
  rewrite (proj2 (Z.leb_le _ _)) by (unfold ISIZE_MAX, size_of_Block; lia). 
  change (power_of_two 16) with true. cbn [andb mbind option_bind].
  unfold pad_to_align. cbn [l_size l_align]. by rewrite Hr.
Qed.

(** The order [morecore] asks the page source for. *)
Definition core_order (num_pages : Z) : Z := Z.log2_up num_pages.

Lemma core_order_ok n :
  1 ≤ n < 2 ^ 40 →
  next_power_of_two n = Ok (2 ^ core_order n) ∧
  trailing_zeros 64 (2 ^ core_order n) mod 2 ^ 8 = core_order n ∧
  0 ≤ core_order n ∧ n ≤ 2 ^ core_order n.
Proof.
  intros Hn. unfold core_order. pose proof (Z.log2_up_nonneg n).
  assert (Z.log2_up n ≤ 40) as Hle.
  { change 40 with (Z.log2_up (2 ^ 40)). apply Z.log2_up_le_mono. lia. }
  assert (n ≤ 2 ^ Z.log2_up n) by (destruct (decide (n = 1)) as [->|]; [done|apply Z.log2_up_spec; lia]).
  assert (2 ^ Z.log2_up n ≤ 2 ^ 40) by (apply Z.pow_le_mono_r; lia).
  split_and!; [|rewrite trailing_zeros_pow2 by done; apply Z.mod_small; lia|done|done].
  unfold next_power_of_two. destruct (n <=? 1) eqn:E; zbool.
  - assert (n = 1) as -> by lia. done.
  - apply checked_ok. lia.
Qed.

(** * [dealloc_inner] and [morecore] *)

Lemma dealloc_inner_ok m hd fl b nx :
  seg m hd fl None → list_ok fl → blk_ok b → (∀ x, in_blk b x → ¬ bytes fl x) →
  m !! b.1 = Some (mkBlock b.2 nx) → (fl = [] → nx = None) →
  ∃ m' hd', dealloc_inner m hd (allocation b.1) = Ok (m', hd') ∧ inserted m fl b m' hd'.
Proof.
  intros Hs Hok Hb Hd Hm Hnil. unfold dealloc_inner, from_allocation, allocation.
  rewrite Z.add_simpl_r. rewrite non_null_ok by (unfold blk_ok, PHYS_OFFSET in Hb; lia). ok_simpl.
  apply (dealloc_walk_ok b nx [] fl); try done; by eapply seg_fuel.
Qed.

(** The chunk [morecore] adds. *)
Definition chunk (r : PhysFrameRange) (num_pages : Z) : block :=
  (start_address (range_start r) + PHYS_OFFSET, num_pages * PAGE_SIZE - size_of_Block).

Lemma chunk_ok p r p' num_pages :
  source_ok p → 1 ≤ num_pages < 2 ^ 35 → page_alloc (core_order num_pages) p = Ok (r, p') →
  source_ok p' ∧ direct_mapped (start_address (range_start r)) ∧ blk_ok (chunk r num_pages) ∧
  (∀ x, in_blk (chunk r num_pages) x → avail p (x - PHYS_OFFSET) ∧ ¬ avail p' (x - PHYS_OFFSET)) ∧
  (∀ x, avail p' x → avail p x).
Proof.
  intros Hp Hn Ha. destruct (core_order_ok num_pages) as (_ & _ & Ho & Hpow); [lia|].
  destruct (page_alloc_law _ _ _ _ Hp Ho Ha) as (Hp' & [q Hq] & ? & ? & Hav & Hmono).
  split_and!; [done|unfold direct_mapped; lia| | |done].
  - unfold blk_ok, chunk, blk_end, size_of_Block, PAGE_SIZE, PHYS_OFFSET. simpl. split_and!; try lia.
    + rewrite Hq. exists (q * 256 + 0xFFFF80000000000). lia.
    + exists (num_pages * 256 - 1). lia.
  - intros x Hx. apply Hav. unfold in_blk, chunk, blk_end, size_of_Block, PAGE_SIZE in Hx. simpl in Hx. lia.
Qed.

Lemma morecore_ok h fl live num_pages r p' :
  heap_ok h fl live → 1 ≤ num_pages < 2 ^ 35 →
  page_alloc (core_order num_pages) (phys h) = Ok (r, p') →
  ∃ m' hd' fl', morecore (mem h) (free_list h) (phys h) num_pages = Ok (m', hd', p') ∧
    heap_ok (mkHeap m' hd' p') fl' live ∧ ∃ c, c ∈ fl' ∧ num_pages * PAGE_SIZE - size_of_Block ≤ c.2.
Proof.
  intros [Hseg Hlist Hlive Hdisj Hfree Hsrc Hav] Hn Ha.
  destruct (chunk_ok _ _ _ _ Hsrc Hn Ha) as (Hsrc' & Hdm & Hblk & Hfresh & Hmono).
  destruct (core_order_ok num_pages) as (Hnp & Htz & Ho & _); [lia|].
  unfold morecore. rewrite Hnp. ok_simpl. rewrite Htz, Ha. ok_simpl.
  rewrite phys_to_kernel_virt_ok by done. ok_simpl. unfold mul_u64, sub_u64.
  rewrite (checked_ok 64 (_ * _)) by (unfold PAGE_SIZE; lia). ok_simpl.
  rewrite (checked_ok 64 (_ - _)) by (unfold PAGE_SIZE, size_of_Block; lia). ok_simpl.
  rewrite non_null_ok by (unfold direct_mapped, PHYS_OFFSET in *; lia). ok_simpl.
  assert (from_size_align (num_pages * PAGE_SIZE - size_of_Block) 1 =
    Some (mkLayout (num_pages * PAGE_SIZE - size_of_Block) 1)) as ->.
  { unfold from_size_align. rewrite round_up_id by (done || apply Z.divide_1_l).
    rewrite (proj2 (Z.leb_le _ _)) by (unfold ISIZE_MAX, PAGE_SIZE, size_of_Block; lia). done. }
  cbn [unwrap]. ok_simpl. set (m1 := <[_:=_]> (mem h)). set (b := chunk r num_pages) in *.
  assert (∀ x, ¬ in_blk b x → m1 !! x = mem h !! x) as Hm1.
  { intros x Hx. apply lookup_insert_ne. intros <-. by apply Hx, (blk_ok_header b). }
  assert (∀ x, bytes fl x ∨ live_bytes live x → ¬ in_blk b x) as Hnew.
  { intros x Hx Hb. apply (Hav x Hx), (Hfresh x Hb). }
  destruct (dealloc_inner_ok m1 (free_list h) fl b None) as (m' & hd' & Hd & fl' & Hs & Hl & Hby & (c & Hc & Hw) & Hfr).
  { eapply seg_frame_bytes; [done| |done]. intros x Hx. apply Hm1. auto. }
  1-2: done. { intros x Hx Hf. by apply (Hnew x); [left|]. } { apply lookup_insert_eq. } { done. }
  change (start_address (range_start r) + PHYS_OFFSET) with b.1. rewrite Hd. ok_simpl.
  exists m', hd', fl'. split; [done|]. split.
  - split; simpl; try done.
    + intros a s Has. destruct (Hlive a s Has) as [Hab (nx & Hm)]. split; [done|]. exists nx.
      assert (live_bytes live a) as Hla by (exists a, s; split; [done|by apply (blk_ok_header (a, s))]).
      rewrite Hfr, Hm1; [done|by apply Hnew; right|intros Hf; by apply (Hfree a)|by apply Hnew; right].
    + intros x [Hx|Hx]%Hby; [auto|]. intros Hlb. by apply (Hnew x); [right|].
    + intros x Hx Hax. assert (bytes fl x ∨ live_bytes live x ∨ in_blk b x) as [Hx'|[Hx'|Hx']].
      { rewrite Hby in Hx. tauto. }
      * by apply (Hav x); [left|apply Hmono].
      * by apply (Hav x); [right|apply Hmono].
      * by apply (Hfresh x Hx').
  - exists c. split; [done|]. unfold within, b, chunk, blk_end in Hw. simpl in Hw. lia.
Qed.

(** * [alloc] and [dealloc] *)

Lemma live_bytes_insert live a n x :
  live !! a = None → live_bytes (<[a := n]> live) x ↔ in_blk (a, n) x ∨ live_bytes live x.
Proof.
  intros Ha. unfold live_bytes. split.
  - intros (b & t & [[-> ->]|[? ?]]%lookup_insert_Some & Hx); eauto.
  - intros [Hx|(b & t & Hb & Hx)]; [exists a, n; by rewrite lookup_insert_eq|].
    exists b, t. rewrite lookup_insert_ne; [done|congruence].
Qed.

(** Handing out the block that [fit] picks. *)
Lemma take_ok h fl live n a fl' :
  heap_ok h fl live → 0 < n → (16 | n) → fit n fl = Some (a, fl') →
  ∃ m' hd', alloc_walk (walk_fuel (mem h)) n (n + size_of_Block) (mem h) (free_list h) None (free_list h) =
      Ok (Some (allocation a, m', hd')) ∧ blk_ok (a, n) ∧ live !! a = None ∧
    heap_ok (mkHeap m' hd' (phys h)) fl' (<[a := n]> live).
Proof.
  intros Hh Hn Hdiv Hfit. pose proof (heap_ok_fuel _ _ _ Hh) as Hfuel.
  destruct Hh as [Hseg Hlist Hlive Hdisj Hfree Hsrc Hav].
  destruct (fit_spec _ _ _ _ Hlist Hn Hdiv Hfit) as (Hl' & Hblk & _ & Hby & Hdis).
  pose proof (alloc_walk_ok n [] fl _ _ _ _ Hn Hfuel Hlist eq_refl Hseg) as Hw.
  rewrite Hfit in Hw. destruct Hw as (m' & hd' & Hw & Hs' & (nx & Ha) & Hfr). simpl in Hs', Hfr.
  assert (live !! a = None) as Hna.
  { destruct (live !! a) as [s|] eqn:E; [|done]. exfalso. apply (Hfree a).
    - apply Hby. right. by apply (blk_ok_header (a, n)).
    - exists a, s. split; [done|]. by apply (blk_ok_header (a, s)), Hlive. }
  assert (∀ x, in_blk (a, n) x → ¬ live_bytes live x) as Hnl.
  { intros x Hx. apply Hfree, Hby. by right. }
  exists m', hd'. split_and!; [done|done|done|]. split; simpl; try done.
  - intros b t [[<- <-]|[Hne Hb]]%lookup_insert_Some; [by eauto|].
    destruct (Hlive b t Hb) as [Hbt (nb & Hmb)]. split; [done|]. exists nb. rewrite Hfr; [done|].
    intros Hf. apply (Hfree b Hf). exists b, t. split; [done|by apply (blk_ok_header (b, t))].
  - intros b t c u [[<- <-]|[Hne Hb]]%lookup_insert_Some [[<- <-]|[Hne' Hc]]%lookup_insert_Some Hbc x Hx Hx'.
    + done.
    + apply (Hnl x Hx). by exists c, u.
    + apply (Hnl x Hx'). by exists b, t.
    + by eapply (Hdisj b t c u).
  - intros x Hx. rewrite live_bytes_insert by done. intros [Hxa|Hxl]; [by eapply Hdis|].
    apply (Hfree x); [|done]. apply Hby. by left.
  - intros x. rewrite live_bytes_insert by done. intros Hx. apply Hav. rewrite Hby. tauto.
Qed.

(** The pages [alloc_inner] asks for when the list has no fit. *)
Definition core_pages (n : Z) : Z := (n + size_of_Block + PAGE_SIZE) / PAGE_SIZE.

Lemma core_pages_bounds n :
  0 < n < 2 ^ 46 + 16 → (16 | n) →
  1 ≤ core_pages n < 2 ^ 35 ∧ n + size_of_Block ≤ core_pages n * PAGE_SIZE - size_of_Block ∧
  (n + size_of_Block = core_pages n * PAGE_SIZE - size_of_Block → n mod 4096 = 4064).
Proof.
  intros Hn [q Hq]. unfold core_pages, PAGE_SIZE, size_of_Block.
  pose proof (Z.div_mod (n + 16 + 4096) 4096 ltac:(lia)).
  pose proof (Z.mod_pos_bound (n + 16 + 4096) 4096 ltac:(lia)).
  set (k := (n + 16 + 4096) / 4096) in *. split_and!; [lia..|].
  intros Hk. symmetry. apply (Z.mod_unique_pos n 4096 (k - 1)); lia.
Qed.

(** One round of [alloc_inner]'s loop that finds no block. *)
Lemma alloc_loop_miss h fl live n k r p' :
  heap_ok h fl live → 0 < n < 2 ^ 46 + 16 → (16 | n) → fit n fl = None →
  page_alloc (core_order (core_pages n)) (phys h) = Ok (r, p') →
  ∃ h' fl', heap_ok h' fl' live ∧ phys h' = p' ∧
    alloc_loop (S k) n (n + size_of_Block) (mem h) (free_list h) (phys h) =
    alloc_loop k n (n + size_of_Block) (mem h') (free_list h') (phys h') ∧
    ∃ c, c ∈ fl' ∧ core_pages n * PAGE_SIZE - size_of_Block ≤ c.2.
Proof.
  intros Hh Hn Hdiv Hfit Ha. pose proof (heap_ok_fuel _ _ _ Hh) as Hfuel.
  destruct (core_pages_bounds n Hn Hdiv) as (Hcp & _).
  destruct (morecore_ok _ _ _ (core_pages n) r p' Hh Hcp Ha) as (m' & hd' & fl' & Hm & Hh' & Hc).
  exists (mkHeap m' hd' p'), fl'. split_and!; [done|done| |done].
  destruct Hh as [Hseg Hlist _ _ _ _ _].
  pose proof (alloc_walk_ok n [] fl _ _ _ _ (proj1 Hn) Hfuel Hlist eq_refl Hseg) as Hw.
  rewrite Hfit in Hw. cbn [alloc_loop]. change (prev_of []) with (@None Z) in Hw. rewrite Hw. ok_simpl.
  unfold add_u64. rewrite (checked_ok 64 (_ + PAGE_SIZE)) by (unfold size_of_Block, PAGE_SIZE; lia).
  ok_simpl. rewrite div_u64_ok by done. ok_simpl. fold (core_pages n). by rewrite Hm.
Qed.

Lemma alloc_loop_hit h fl live n k a fl' :
  heap_ok h fl live → 0 < n → (16 | n) → fit n fl = Some (a, fl') →
  ∃ m' hd', alloc_loop (S k) n (n + size_of_Block) (mem h) (free_list h) (phys h) =
      Ok (allocation a, m', hd', phys h) ∧ blk_ok (a, n) ∧ live !! a = None ∧
    heap_ok (mkHeap m' hd' (phys h)) fl' (<[a := n]> live).
Proof.
  intros Hh Hn Hdiv Hfit. destruct (take_ok _ _ _ _ _ _ Hh Hn Hdiv Hfit) as (m' & hd' & Hw & ?).
  exists m', hd'. split; [|done]. cbn [alloc_loop]. by rewrite Hw.
Qed.

(** A chunk that is large enough for a split makes [fit] succeed. *)
Lemma fit_large n l c :
  c ∈ l → n + size_of_Block < c.2 → is_Some (fit n l).
Proof.
  intros Hc Hlt. destruct (fit n l) eqn:E; [by eexists|]. apply fit_none in E.
  rewrite Forall_forall in E. specialize (E c Hc). lia.
Qed.

Lemma alloc_inner_loop m hd (p : P) layout :
  request_ok layout →
  alloc_inner m hd p layout = alloc_loop 2 (payload layout) (payload layout + size_of_Block) m hd p.
Proof.
  intros Hreq. destruct (payload_bounds _ Hreq) as [Hp _]. destruct Hreq as [Hs ?].
  unfold alloc_inner. rewrite block_layout_ok by done. cbn [unwrap]. ok_simpl. cbn [l_size].
  unfold sub_u64. rewrite Z.add_simpl_r, checked_ok by lia. ok_simpl.
  by rewrite Z.eqb_refl, debug_assert_true.
Qed.
End heap.
