(* ===== verification/SlobProperties.v ===== *)
(** Properties of the kernel heap, [src/mm/slob.rs]. *)
From stdpp Require Import sorting.
From S2P Require Import Prelude X86 Layout Mm Slob SlobProofs SlobHeap.

(** The ascending page source keeps the promises of the interface. *)
#[global] Instance bump_pages_laws : @PageSourceLaws Z bump_pages.
Proof.
  refine {| source_ok p := 0 ≤ p ∧ aligned p FRAME_SIZE; avail p x := p ≤ x |}.
  unfold page_alloc, bump_pages. intros o p r p' [Hp Hal] Ho.
  destruct (_ <? _) eqn:E; [|done]. zbool. intros [= <- <-]. simpl.
  pose proof (Z.pow_pos_nonneg 2 o). split_and!; [lia| |done|done|lia|lia|lia].
  apply Z.divide_add_r; [done|apply Z.divide_factor_l].
Defined.

Definition empty_heap : Heap Z := mkHeap ∅ None 0x100000.

Section properties.
Context `{Build, HX : X86_64, !X86_64_Laws} {P : Type} `{HS : PageSource P, !PageSourceLaws P}.

(** C3 (safety): on a well-formed heap, [alloc] of a layout aligned to at most 16
    bytes returns, when the free list has a fit or the physical allocator
    serves the request for more pages (sizes that leave exactly one header's
    room in the last page apart), a 16-byte aligned pointer to a payload that
    shares no byte with any live allocation, and leaves a well-formed heap in
    which the new block is live. *)
Theorem slob_alloc_safe (h : Heap P) (fl : list block) (live : gmap Z Z) (layout : Layout) :
  heap_ok h fl live → request_ok layout →
  (fit (payload layout) fl = None → payload layout mod 4096 ≠ 4064 ∧
     returns (page_alloc (core_order (core_pages (payload layout))) (phys h))) →
  ∃ ptr h' fl', alloc h layout = Ok (ptr, h') ∧ (16 | ptr) ∧
    live !! (ptr - size_of_Block) = None ∧
    heap_ok h' fl' (<[ptr - size_of_Block := payload layout]> live) ∧
    ∀ a s x, live !! a = Some s → ptr ≤ x < ptr + l_size layout → ¬ in_blk (a, s) x.
Proof.
  intros Hh Hreq Hcore. destruct (payload_bounds _ Hreq) as [Hp Hdiv]. pose proof (proj1 Hreq) as Hsz.
  set (n := payload layout) in *.
  assert (∃ h1 fl1 k, heap_ok h1 fl1 live ∧ is_Some (fit n fl1) ∧
    alloc_inner (mem h) (free_list h) (phys h) layout =
    alloc_loop (S k) n (n + size_of_Block) (mem h1) (free_list h1) (phys h1)) as (h1 & fl1 & k & Hh1 & [[a fl'] Hfit] & Heq).
  { rewrite alloc_inner_loop by done. destruct (fit n fl) as [x|] eqn:Ef.
    - exists h, fl, 1%nat. split_and!; [done|by rewrite Ef|done].
    - destruct (Hcore eq_refl) as [Hmod [[r p'] Hpa]].
      destruct (alloc_loop_miss h fl live n 1 r p') as (h1 & fl1 & Hh1 & _ & Heq & c & Hc & Hle); [done|lia|done..|].
      destruct (core_pages_bounds n) as (_ & ? & ?); [lia|done|].
      exists h1, fl1, 0%nat. split_and!; [done| |done]. eapply fit_large; [exact Hc|].
      destruct (decide (n + size_of_Block = core_pages n * PAGE_SIZE - size_of_Block)); [exfalso; auto|lia]. }
  destruct (alloc_loop_hit h1 fl1 live n k a fl') as (m' & hd' & Hl & Hblk & Hna & Hh'); [done|lia|done..|].
  exists (allocation a), (mkHeap m' hd' (phys h1)), fl'. unfold alloc. rewrite Heq, Hl.
  unfold allocation. rewrite Z.add_simpl_r. split_and!; [done| |done|done|].
  - apply Z.divide_add_r; [apply Hblk|by exists 1].
  - intros b s x Hb Hx Hin. destruct (decide (a = b)) as [->|Hne]; [congruence|].
    eapply (ho_disjoint _ _ _ Hh' a n b s); [by rewrite lookup_insert_eq|by rewrite lookup_insert_ne|done| |exact Hin].
    unfold in_blk, blk_end. simpl. unfold size_of_Block in *. lia.
Qed.

(** C5 (functional): on a well-formed heap whose free list is not empty, [dealloc]
    of a live allocation returns (its loop ends, no assertion fails), makes
    exactly the bytes of that block free again and keeps the heap well-formed;
    on an empty free list it does so if the block's header has no [next]. *)
Theorem slob_dealloc_ok (h : Heap P) (fl : list block) (live : gmap Z Z) (a s : Z) (layout : Layout) :
  heap_ok h fl live → live !! a = Some s →
  (fl = [] → mem h !! a = Some (mkBlock s None)) →
  ∃ h' fl', dealloc h (allocation a) layout = Ok h' ∧ heap_ok h' fl' (delete a live) ∧
    ∀ x, bytes fl' x ↔ bytes fl x ∨ in_blk (a, s) x.
Proof.
  intros [Hseg Hlist Hlive Hdisj Hfree Hsrc Hav] Ha Hnil.
  destruct (Hlive a s Ha) as [Hblk (nx & Hm)].
  assert (∀ x, in_blk (a, s) x → ¬ bytes fl x) as Hnf.
  { intros x Hx Hb. apply (Hfree x Hb). by exists a, s. }
  destruct (dealloc_inner_ok (mem h) (free_list h) fl (a, s) nx) as
    (m' & hd' & Hd & fl' & Hs & Hl & Hby & _ & Hfr); [done..|naive_solver|].
  exists (mkHeap m' hd' (phys h)), fl'. unfold dealloc. simpl in Hd. rewrite Hd. split; [done|].
  split; [|done].
  assert (∀ b t, delete a live !! b = Some t → live !! b = Some t ∧ ∀ x, in_blk (b, t) x → ¬ in_blk (a, s) x) as Hdel.
  { intros b t [Hne Hb]%lookup_delete_Some. split; [done|]. by apply (Hdisj b t a s). }
  assert (∀ x, live_bytes (delete a live) x → live_bytes live x) as Hsub.
  { intros x (b & t & [Hb _]%Hdel & Hx). by exists b, t. }
  split; simpl; try done.
  - intros b t [Hb Hn]%Hdel. destruct (Hlive b t Hb) as [Hbt (nb & Hmb)]. split; [done|]. exists nb.
    pose proof (blk_ok_header (b, t) Hbt) as Hhd. rewrite Hfr; [done| |by apply Hn].
    intros Hf. apply (Hfree b Hf). by exists b, t.
  - intros b t c u [Hb _]%Hdel [Hc _]%Hdel. by apply Hdisj.
  - intros x [Hx|Hx]%Hby Hlb; [by apply (Hfree x Hx), Hsub|].
    destruct Hlb as (b & t & [_ Hn]%Hdel & Hx'). by apply (Hn x).
  - intros x Hx. apply Hav. rewrite Hby in Hx. destruct Hx as [[?|?]|?]; [by left| |right; by apply Hsub].
    right. by exists a, s.
Qed.

(** Freeing a block that is on the free list fires the double-free
    assertion, in every build. *)
Theorem slob_double_free (h : Heap P) (fl : list block) (live : gmap Z Z) (b : block) (layout : Layout) :
  heap_ok h fl live → b ∈ fl → dealloc h (allocation b.1) layout = Panic PanicAssert.
Proof.
  intros Hh Hb. pose proof (heap_ok_fuel _ _ _ Hh). destruct Hh as [Hseg Hlist _ _ _ _ _].
  unfold dealloc, dealloc_inner, from_allocation, allocation. rewrite Z.add_simpl_r.
  assert (blk_ok b) as Hok by (destruct Hlist as [Hf _]; rewrite Forall_forall in Hf; auto).
  rewrite non_null_ok by (unfold blk_ok, PHYS_OFFSET in Hok; lia). ok_simpl.
  by rewrite (dealloc_walk_double_free b [] fl).
Qed.

End properties.

(** [dealloc] on an empty free list keeps the [next] pointer the block
    had when it was allocated, so a live block re-enters the free list: after
    [a = alloc(64)], [b = alloc(4000)], [dealloc(a)], the next [alloc(4000)]
    returns the live block [b] again. *)
Theorem slob_dealloc_stale_next :
  ∃ a b h, ('(a, h) ← @alloc debug_build x86_64_ref Z bump_pages empty_heap (mkLayout 64 8);
            '(b, h) ← @alloc debug_build x86_64_ref Z bump_pages h (mkLayout 4000 8);
            h ← @dealloc debug_build Z h a (mkLayout 64 8);
            '(c, h) ← @alloc debug_build x86_64_ref Z bump_pages h (mkLayout 4000 8);
            Ok (a, b, c, h)) = Ok (a, b, b, h).
Proof. do 3 eexists. vm_compute. reflexivity. Qed.

(** A request that leaves exactly one header's room in the last page
    (4064 bytes, say) gets two chunks of pages, fits neither of them, and ends
    in [unreachable!()], in debug and in release builds. *)
Theorem slob_alloc_unreachable :
  @alloc debug_build x86_64_ref Z bump_pages empty_heap (mkLayout 4064 8) = Panic PanicUnreachable ∧
  @alloc release_build x86_64_ref Z bump_pages empty_heap (mkLayout 4064 8) = Panic PanicUnreachable.
Proof. split; vm_compute; reflexivity. Qed.

(** The allocator does not serve alignments above 16: every such
    request fails a debug assertion, and a release build returns a pointer that
    is not aligned as asked. *)
Theorem slob_alloc_overaligned {P : Type} `{HX : X86_64, HS : PageSource P} (h : Heap P) (size k : Z) :
  0 < size < 2 ^ 40 → 5 ≤ k ≤ 40 →
  @alloc debug_build HX P HS h (mkLayout size (2 ^ k)) = Panic PanicAssert ∧
  ∃ ptr h', @alloc release_build x86_64_ref Z bump_pages empty_heap (mkLayout 64 64) = Ok (ptr, h') ∧
    ¬ (64 | ptr).
Proof.
  intros Hs Hk. split.
  - assert (2 ^ 5 ≤ 2 ^ k ≤ 2 ^ 40) as Hb by (split; apply Z.pow_le_mono_r; lia).
    unfold alloc, alloc_inner, block_layout.
    change (from_size_align size_of_Block align_of_Block) with (Some (mkLayout 16 16)).
    cbn [mbind option_bind]. change (pad_to_align (mkLayout 16 16)) with (mkLayout 16 16).
    unfold extend. cbn [l_size l_align]. rewrite (Z.max_r 16) by lia.
    rewrite (round_up_unique 16 (2 ^ k) (2 ^ k)) by (lia || apply Z.divide_refl).
    assert (round_up (2 ^ k + size) (2 ^ k) = round_up size (2 ^ k) + 2 ^ k) as Hr.
    { rewrite Z.add_comm. apply round_up_add; [lia|apply Z.divide_refl]. }
    pose proof (round_up_bounds size (2 ^ k) ltac:(lia)).
    unfold from_size_align. rewrite power_of_two_pow2, Hr by lia.
    rewrite (proj2 (Z.leb_le _ _)) by (unfold ISIZE_MAX; lia). cbn [andb mbind option_bind unwrap].
    unfold pad_to_align. cbn [l_size l_align]. rewrite Hr. ok_simpl. cbn [l_size].
    unfold sub_u64. rewrite Z.add_simpl_r, checked_ok by lia. ok_simpl.
    by rewrite (proj2 (Z.eqb_neq (2 ^ k) size_of_Block)) by (unfold size_of_Block; lia).
  - do 2 eexists. split; [vm_compute; reflexivity|]. intros [q Hq]. lia.
Qed.

(** * Witnesses *)

Lemma empty_heap_ok : @heap_ok Z bump_pages bump_pages_laws empty_heap [] ∅.
Proof. apply heap_ok_empty. split; [done|by exists 0x100]. Qed.

(** One page at 1 MiB: a live block of 64 bytes, the rest of the page free. *)
Definition demo_page : Z := PHYS_OFFSET + 0x100000.
Definition demo_heap : Heap Z :=
  mkHeap {[demo_page := mkBlock 64 (Some (demo_page + 80)); demo_page + 80 := mkBlock 4000 None]}
    (Some (demo_page + 80)) 0x101000.

Lemma demo_heap_ok : @heap_ok Z bump_pages bump_pages_laws demo_heap [(demo_page + 80, 4000)] {[demo_page := 64]}.
Proof.
  assert (∀ x, live_bytes {[demo_page := 64]} x → demo_page ≤ x < demo_page + 80) as Hl.
  { intros x (a & s & [<- <-]%lookup_singleton_Some & Hx). unfold in_blk, blk_end, size_of_Block in Hx.
    simpl in Hx. lia. }
  assert (∀ x, bytes [(demo_page + 80, 4000)] x → demo_page + 80 ≤ x < demo_page + 4096) as Hf.
  { intros x [Hx|Hx%bytes_nil]%bytes_cons; [|done]. unfold in_blk, blk_end, size_of_Block in Hx. simpl in Hx. lia. }
  split.
  - split; [done|]. exists None. done.
  - split; [|repeat constructor]. repeat constructor; vm_compute; try done.
    + exists 1152912708513890309. reflexivity.
    + exists 250. reflexivity.
  - intros a s [<- <-]%lookup_singleton_Some. split; [|by exists (Some (demo_page + 80))].
    split_and!; try (vm_compute; done); [exists 1152912708513890304|exists 4]; reflexivity.
  - intros a s b t [<- <-]%lookup_singleton_Some [<- <-]%lookup_singleton_Some. done.
  - intros x Hx%Hf Hx'%Hl. lia.
  - split; [done|by exists 0x101].
  - intros x Hx. assert (x < demo_page + 4096) as Hlt by (destruct Hx as [Hx%Hf|Hx%Hl]; lia).
    unfold demo_page in Hlt. simpl. lia.
Qed.

Lemma slob_alloc_safe_witness :
  ∃ h', @alloc debug_build x86_64_ref Z bump_pages empty_heap (mkLayout 64 8) = Ok (demo_page + 16, h') ∧
    (16 | demo_page + 16).
Proof.
  destruct (@slob_alloc_safe debug_build x86_64_ref _ Z bump_pages _ empty_heap [] ∅ (mkLayout 64 8)) as
    (ptr & h' & fl' & Ha & Hd & _).
  - apply empty_heap_ok.
  - split; [simpl; lia|]. by exists 3.
  - intros _. split; [done|by eexists].
  - exists h'. assert (ptr = demo_page + 16) as <-; [|done]. vm_compute in Ha. by injection Ha.
Defined.

Lemma slob_dealloc_ok_witness :
  ∃ h' fl', @dealloc debug_build Z demo_heap (allocation demo_page) (mkLayout 64 8) = Ok h' ∧
    @heap_ok Z bump_pages _ h' fl' (delete demo_page {[demo_page := 64]}) ∧ bytes fl' demo_page.
Proof.
  destruct (@slob_dealloc_ok debug_build Z bump_pages _ demo_heap [(demo_page + 80, 4000)]
      {[demo_page := 64]} demo_page 64 (mkLayout 64 8)) as (h' & fl' & Hd & Hh & Hb).
  - apply demo_heap_ok.
  - apply lookup_singleton_eq.
  - done.
  - exists h', fl'. split_and!; [done|done|]. apply Hb. right. by vm_compute.
Defined.

Lemma slob_double_free_witness :
  @dealloc debug_build Z demo_heap (allocation (demo_page + 80)) (mkLayout 4000 8) = Panic PanicAssert.
Proof.
  apply (@slob_double_free debug_build Z bump_pages _ demo_heap [(demo_page + 80, 4000)]
      {[demo_page := 64]} (demo_page + 80, 4000)); [apply demo_heap_ok|left].
Defined.

Lemma slob_alloc_overaligned_witness :
  @alloc debug_build x86_64_ref Z bump_pages empty_heap (mkLayout 64 64) = Panic PanicAssert.
Proof. apply (@slob_alloc_overaligned Z x86_64_ref bump_pages empty_heap 64 6); lia. Defined.
