(* ===== verification/SlobPmm.v ===== *)
(** The buddy allocator of [src/mm/pmm.rs] keeps the promises the heap of
    [src/mm/slob.rs] relies on. *)
From S2P Require Import Slob.
From S2P Require Import Prelude X86 Layout Mm Region Buddy Pmm PmmRefinement PmmNew PmmInit PmmTheorems.

#[global] Instance pmm_pages `{Build, X86_64} : PageSource (option (list Zone)) := λ o p,
  '(range, _, p) ← PhysAllocator_alloc p o;
  Ok (range, p).

(** * The free pages of a zone are determined by its arrays *)

Lemma largest_none_free h t p : largest h t = None → free_page h t p = false.
Proof.
  revert h p. induction t as [| |l IHl r IHr]; intros h p; simpl; try done.
  destruct (largest (pred h) l) eqn:El, (largest (pred h) r) eqn:Er; simpl; try done.
  intros _. rewrite IHl, IHr by done. by destruct (_ <? _).
Qed.

Lemma enc_inj m1 m2 : enc m1 = enc m2 → m1 = m2.
Proof. destruct m1, m2; simpl; intros; simplify_eq; [f_equal; lia|done]. Qed.

Lemma rep_free_det ol h i t1 t2 p :
  canon h t1 → canon h t2 → rep ol h i t1 → rep ol h i t2 → free_page h t1 p = free_page h t2 p.
Proof.
  intros Hc1 Hc2 Hr1. revert t2 p Hc1 Hc2.
  induction Hr1 as [h i Hn|i Hn|h i Hn _ _ _ _|h i l r Hn _ IHl _ IHr]; intros t2 p Hc1 Hc2 Hr2;
    pose proof (rep_node _ _ _ _ Hr2) as Hn2; rewrite Hn in Hn2; injection Hn2 as Hn2.
  - symmetry. apply largest_none_free. by apply (enc_inj _ None).
  - apply (enc_inj (Some 0%nat)) in Hn2. by rewrite (largest_full _ _ Hc2 (eq_sym Hn2)).
  - apply (enc_inj (Some (S h))) in Hn2. by rewrite (largest_full _ _ Hc2 (eq_sym Hn2)).
  - apply (enc_inj (largest (S h) (Split l r))) in Hn2. inversion Hr2 as [| | |? ? l' r' ? Hl' Hr']; subst.
    + apply largest_none_free. done.
    + apply largest_full in Hn2; [done|done].
    + destruct Hc1 as (_ & ? & ? & _), Hc2 as (_ & ? & ? & _). cbn [free_page pred].
      destruct (_ <? _); [by apply IHl|by apply IHr].
Qed.

Lemma zone_free_det z ts1 ts2 p :
  zone_rep z ts1 → zone_rep z ts2 → zone_free ts1 p = zone_free ts2 p.
Proof.
  intros ((Hlen1 & Hr1) & Hok1 & _) ((Hlen2 & Hr2) & Hok2 & _). unfold zone_free.
  assert (length ts1 = length ts2) as Hlen by congruence. clear Hlen1 Hlen2.
  assert (∀ i t1 t2 q, ts1 !! i = Some t1 → ts2 !! i = Some t2 → free_page 11 t1 q = free_page 11 t2 q) as Hdet.
  { intros i t1 t2 q H1 H2. eapply rep_free_det; [..|by eapply Hr1|by eapply Hr2].
    - by apply (proj1 (Forall_lookup _ _) Hok1 i).
    - by apply (proj1 (Forall_lookup _ _) Hok2 i). }
  clear -Hlen Hdet. revert ts2 p Hlen Hdet. induction ts1 as [|t1 ts1 IH]; intros [|t2 ts2] p Hlen Hdet; try done.
  cbn [forest_free]. destruct (_ <? _); [by apply (Hdet 0%nat)|]. apply IH; [by injection Hlen|].
  intros i. apply (Hdet (S i)).
Qed.

(** * What the allocator may still hand out *)

(** The address [x] lies in a free page of zone [z]. *)
Definition zone_avail (z : Zone) (x : Z) : Prop :=
  zone_start z ≤ x ∧ ∃ ts, zone_rep z ts ∧ zone_free ts ((x - zone_start z) / FRAME_SIZE) = true.

(** All zones are well formed and share no free page. *)
Definition zones_ok (zs : list Zone) : Prop :=
  (∀ i z, zs !! i = Some z → ∃ ts, zone_rep z ts) ∧
  ∀ i j zi zj x, zs !! i = Some zi → zs !! j = Some zj → zone_avail zi x → zone_avail zj x → i = j.

Definition range_bytes (s : Z) (k : nat) (i x : Z) : Prop :=
  s + FRAME_SIZE * (pages k * i) ≤ x < s + FRAME_SIZE * (pages k * (i + 1)).

Lemma range_bytes_block s k i x :
  range_bytes s k i x ↔ in_block k i ((x - s) / FRAME_SIZE).
Proof.
  unfold range_bytes, in_block. pose proof (Z.div_mod (x - s) 4096 ltac:(lia)).
  pose proof (Z.mod_pos_bound (x - s) 4096 ltac:(lia)). set (q := (x - s) / 4096) in *.
  rewrite (Z.mul_comm i), (Z.mul_comm (i + 1)). set (a := pages k * i) in *. set (b := pages k * (i + 1)) in *. lia.
Qed.

Section pmm.
Context `{Build, HX : X86_64, !X86_64_Laws}.

(** One zone serves a request. *)
Lemma Zone_alloc_avail z k :
  (∃ ts, zone_rep z ts) → (k ≤ 11)%nat →
  Zone_alloc z (Z.of_nat k) = Ok (None, z) ∨
  ∃ i ms z', Zone_alloc z (Z.of_nat k) = Ok (Some (block_range (zone_start z) k i, ms), z') ∧
    (∃ ts, zone_rep z' ts) ∧ 0 ≤ i ∧ frame_ok (range_start (zpages z)) ∧
    zone_start z + FRAME_SIZE * (pages k * (i + 1)) < 2 ^ 47 ∧
    (∀ x, zone_avail z' x ↔ zone_avail z x ∧ ¬ range_bytes (zone_start z) k i x) ∧
    (∀ x, range_bytes (zone_start z) k i x → zone_avail z x).
Proof.
  intros [ts Hz] Hk. destruct (Zone_alloc_effect z ts k Hz Hk)
    as [[? _]|(ts' & i & ms & z' & Ha & Hz' & Hst & Hlen & Hi & Hend & Hfree & Hin)]; [by left|right].
  pose proof (pages_pos k). pose proof Hz as (_ & _ & Hf & Hb). change (pages 11) with 2048 in Hb.
  exists i, ms, z'. split_and!; [done|by exists ts'|done|done|nia| |].
  - intros x. rewrite range_bytes_block. unfold zone_avail. rewrite Hst.
    assert (zone_start z ≤ x → 0 ≤ (x - zone_start z) / 4096) as Hq by (intros; apply Z.div_pos; lia).
    split.
    + intros (Hx & t & Ht & Hfr). rewrite (zone_free_det z' t ts'), Hfree in Hfr by auto.
      apply andb_true_iff in Hfr as [? Hnb%bool_decide_eq_true]. eauto 10.
    + intros [(Hx & t & Ht & Hfr) Hnb]. split; [done|]. exists ts'. split; [done|].
      rewrite Hfree, <-(zone_free_det z t ts), Hfr, bool_decide_true by auto. done.
  - intros x Hx. split.
    + unfold range_bytes in Hx. assert (0 ≤ pages k * i) by nia. lia.
    + exists ts. split; [done|]. apply Hin. by apply range_bytes_block.
Qed.

Lemma alloc_zones_avail zs k range ms zs' :
  (∀ i z, zs !! i = Some z → ∃ ts, zone_rep z ts) → (k ≤ 11)%nat →
  alloc_zones (Z.of_nat k) zs = Ok (Some (range, ms), zs') →
  ∃ j z z' i, zs !! j = Some z ∧ zs' = <[j := z']> zs ∧ range = block_range (zone_start z) k i ∧
    (∃ ts, zone_rep z' ts) ∧ 0 ≤ i ∧ frame_ok (range_start (zpages z)) ∧
    zone_start z + FRAME_SIZE * (pages k * (i + 1)) < 2 ^ 47 ∧
    (∀ x, zone_avail z' x ↔ zone_avail z x ∧ ¬ range_bytes (zone_start z) k i x) ∧
    (∀ x, range_bytes (zone_start z) k i x → zone_avail z x).
Proof.
  revert zs'. induction zs as [|z zs IH]; intros zs' Hzs Hk Ha; [done|]. cbn [alloc_zones] in Ha.
  destruct (Zone_alloc_avail z k (Hzs 0%nat z eq_refl) Hk) as [Hn|(i & ms' & z' & Hz & Hrest)].
  - rewrite Hn in Ha. cbn [mbind outcome_bind] in Ha. bind_inv Ha. destruct a as [[range'|] zs1]; [|done].
    injection Ha as -> <-. destruct (IH zs1) as (j & z1 & z2 & i & Hj & -> & Hr); [|done..|].
    { intros i z1 Hi. by apply (Hzs (S i)). }
    exists (S j), z1, z2, i. exact (conj Hj (conj eq_refl Hr)).
  - rewrite Hz in Ha. cbn [mbind outcome_bind] in Ha. injection Ha as <- <- <-.
    exists 0%nat, z, z', i. exact (conj eq_refl (conj eq_refl (conj eq_refl Hrest))).
Qed.

(** Which addresses the allocator may still hand out. *)
Definition pmm_avail (p : option (list Zone)) (x : Z) : Prop :=
  ∃ zs i z, p = Some zs ∧ zs !! i = Some z ∧ zone_avail z x.
Definition pmm_ok (p : option (list Zone)) : Prop := ∃ zs, p = Some zs ∧ zones_ok zs.

Lemma page_alloc_inv o zs r p' :
  zones_ok zs → 0 ≤ o → page_alloc o (Some zs) = Ok (r, p') →
  ∃ ms zs' k, p' = Some zs' ∧ o = Z.of_nat k ∧ (k ≤ 11)%nat ∧ alloc_zones o zs = Ok (Some (r, ms), zs').
Proof.
  intros [Hzs _] Ho Ha. unfold page_alloc, pmm_pages, PhysAllocator_alloc in Ha.
  destruct (debug_assert _) as [[]|] eqn:Ed; [|done]. cbn [mbind outcome_bind unwrap] in Ha.
  destruct (decide (o ≤ 11)).
  - bind_inv Ha. destruct a as [[range ms] p1]. injection Ha as <- <-. bind_inv E.
    destruct a as [[[r' ms']|] zs']; [|done]. injection E as -> -> <-.
    exists ms, zs', (Z.to_nat o). split_and!; [done|lia|lia|done].
  - exfalso. assert (alloc_zones o zs = Ok (None, zs)) as Hn.
    { clear Ha. induction zs as [|z zs IH]; [done|]. cbn [alloc_zones].
      destruct (Hzs 0%nat z eq_refl) as [ts Hz]. rewrite (Zone_alloc_large z ts) by (done || lia).
      cbn [mbind outcome_bind]. rewrite IH; [done|]. intros i z1 Hi. by apply (Hzs (S i)). }
    rewrite Hn in Ha. done.
Qed.

Lemma pmm_page_alloc_law o p r p' :
  pmm_ok p → 0 ≤ o → page_alloc o p = Ok (r, p') →
  let start := start_address (range_start r) in
  pmm_ok p' ∧ aligned start FRAME_SIZE ∧ 0 ≤ start ∧ start + FRAME_SIZE * 2 ^ o < 2 ^ 47 ∧
  (∀ x, start ≤ x < start + FRAME_SIZE * 2 ^ o → pmm_avail p x ∧ ¬ pmm_avail p' x) ∧
  (∀ x, pmm_avail p' x → pmm_avail p x).
Proof.
  intros (zs & -> & Hok) Ho Ha. destruct (page_alloc_inv _ _ _ _ Hok Ho Ha) as (ms & zs' & k & -> & -> & Hk & Haz).
  destruct Hok as [Hzs Hex].
  destruct (alloc_zones_avail zs k r ms zs' Hzs Hk Haz)
    as (j & z & z' & i & Hj & -> & -> & Hz' & Hi & [Hf Hfa] & Hend & Hav & Hin).
  fold (pages k). pose proof (pages_pos k). simpl.
  assert (∀ n y x, <[j := z']> zs !! n = Some y → zone_avail y x →
    ∃ y0, zs !! n = Some y0 ∧ zone_avail y0 x ∧ (n = j → ¬ range_bytes (zone_start z) k i x)) as Hback.
  { intros n y x [(<- & <- & _)|[Hne Hn]]%list_lookup_insert_Some Hx.
    - apply Hav in Hx as [? ?]. eauto.
    - exists y. split_and!; [done|done|congruence]. }
  split_and!.
  - exists (<[j := z']> zs). split; [done|]. split.
    + intros n y [(<- & <- & _)|[_ Hn]]%list_lookup_insert_Some; [done|by eapply Hzs].
    + intros n1 n2 y1 y2 x Hn1 Hn2 Hx1 Hx2.
      destruct (Hback n1 y1 x Hn1 Hx1) as (w1 & ? & ? & _), (Hback n2 y2 x Hn2 Hx2) as (w2 & ? & ? & _).
      by eapply (Hex n1 n2 w1 w2 x).
  - apply Z.divide_add_r; [exact Hfa|apply Z.divide_factor_l].
  - unfold phys_ok, zone_start in *. nia.
  - lia.
  - intros x Hx. assert (range_bytes (zone_start z) k i x) as Hr by (unfold range_bytes; lia). split.
    + exists zs, j, z. auto.
    + intros (zs1 & n & y & [= <-] & Hn & Hy). destruct (Hback n y x Hn Hy) as (w & Hw & Hwx & Hnr).
      apply Hnr; [|done]. by eapply (Hex n j w z x); [..|apply Hin].
  - intros x (zs1 & n & y & [= <-] & Hn & Hy). destruct (Hback n y x Hn Hy) as (w & Hw & Hwx & _).
    exists zs, n, w. auto.
Qed.

#[global] Instance pmm_pages_laws : PageSourceLaws (option (list Zone)) :=
  {| source_ok := pmm_ok; avail := pmm_avail; page_alloc_law := pmm_page_alloc_law |}.

End pmm.

(** C10 (refinement): the physical allocator keeps what the heap relies on.  On
    well-formed zones that share no free page, a range returned by
    [PhysAllocator::alloc] is page aligned and direct mapped, all its bytes were
    available and are not any more, nothing else becomes available, and the
    zones stay well formed: memory is never handed out twice. *)
Theorem phys_allocator_serves_heap `{Build, HX : X86_64, !X86_64_Laws}
    (zs : list Zone) (order : Z) (r : PhysFrameRange) (ms : MemSet) (p' : option (list Zone)) :
  zones_ok zs → 0 ≤ order → PhysAllocator_alloc (Some zs) order = Ok (r, ms, p') →
  let start := start_address (range_start r) in
  pmm_ok p' ∧ aligned start FRAME_SIZE ∧ 0 ≤ start ∧ start + FRAME_SIZE * 2 ^ order < 2 ^ 47 ∧
  (∀ x, start ≤ x < start + FRAME_SIZE * 2 ^ order → pmm_avail (Some zs) x ∧ ¬ pmm_avail p' x) ∧
  (∀ x, pmm_avail p' x → pmm_avail (Some zs) x).
Proof.
  intros Hz Ho Ha. apply (pmm_page_alloc_law order (Some zs) r p'); [by exists zs|done|].
  unfold page_alloc, pmm_pages. by rewrite Ha.
Qed.

Lemma phys_allocator_serves_heap_witness :
  ∃ r ms p', @PhysAllocator_alloc debug_build x86_64_ref (Some [demo_zone]) 1 = Ok (r, ms, p') ∧
    r = block_range 0x100000 1 0 ∧ pmm_ok p' ∧ ¬ pmm_avail p' 0x101000.
Proof.
  destruct (@PhysAllocator_alloc debug_build x86_64_ref (Some [demo_zone]) 1) as [[[r ms] p']|] eqn:E;
    [|by vm_compute in E].
  assert (r = block_range 0x100000 1 0) as Hr by (vm_compute in E; by injection E as <- _ _).
  destruct (@phys_allocator_serves_heap debug_build x86_64_ref _ [demo_zone] 1 r ms p') as (Hok & _ & _ & _ & Hav & _).
  - split.
    + intros [|i] z Hz; simplify_eq/=. exists [tower 9]. apply demo_zone_rep.
    + intros [|i] [|j] zi zj x; done.
  - done.
  - exact E.
  - exists r, ms, p'. split; [done|]. split; [done|]. split; [done|]. apply Hav. rewrite Hr. vm_compute. done.
Defined.
