(* ===== verification/Ransid.v ===== *)
(** [src/drivers/vga/ransid.rs]: the parser of ANSI escape sequences that colour
    the VGA text, a state machine over bytes. *)
From S2P Require Import Prelude.

Definition ESC : Z := 0x1B.

Inductive State := Esc | Bracket | Parse | BgColor | FgColor | Equals | EndVal.

Inductive Color :=
  | Black | Blue | Green | Cyan | Red | Magenta | Brown | LightGrey
  | DarkGrey | LightBlue | LightGreen | LightCyan | LightRed | LightMagenta | LightBrown | White.

(** The [repr(u8)] discriminants. *)
Definition Color_u8 (c : Color) : Z :=
  match c with
  | Black => 0x00 | Blue => 0x01 | Green => 0x02 | Cyan => 0x03
  | Red => 0x04 | Magenta => 0x05 | Brown => 0x06 | LightGrey => 0x07
  | DarkGrey => 0x08 | LightBlue => 0x09 | LightGreen => 0x0A | LightCyan => 0x0B
  | LightRed => 0x0C | LightMagenta => 0x0D | LightBrown => 0x0E | White => 0x0F
  end.

Record RansidState := mkRansid { state : State; style : Z; next_style : Z }.
Record ColorChar := mkChar { cc_style : Z; ascii : Z }.

#[global] Instance State_eq_dec : EqDecision State.
Proof. solve_decision. Defined.
#[global] Instance RansidState_eq_dec : EqDecision RansidState.
Proof. solve_decision. Defined.

(** [u8] shifts and complement. *)
Definition shl_u8 (a n : Z) : Z := Z.shiftl a n mod 2 ^ 8.

Definition create_style (bg fg : Color) : Z :=
  let background := shl_u8 (Color_u8 bg) 4 in
  let foreground := Color_u8 fg in
  Z.lor background foreground.

Definition lookup_table : list Z := [0; 4; 2; 6; 1; 5; 3; 7].
Definition convert_color (color : Z) : outcome Z := index lookup_table color.

(** [b'0' <= x <= b'7'] *)
Definition is_color_digit (x : Z) : bool := (48 <=? x) && (x <=? 55).

(** [RansidState::ransid_process]: the new state and the byte to draw, 0 for none. *)
Definition transition (s : RansidState) (x : Z) : outcome (RansidState * Z) :=
  match state s with
  | Esc =>
      if x =? ESC then Ok (mkRansid Bracket (style s) (next_style s), 0)
      else Ok (s, x)
  | Bracket =>
      if x =? 91 (* '[' *) then Ok (mkRansid Parse (style s) (next_style s), 0)
      else Ok (mkRansid Esc (style s) (next_style s), x)
  | Parse =>
      if x =? 51 (* '3' *) then Ok (mkRansid FgColor (style s) (next_style s), 0)
      else if x =? 52 (* '4' *) then Ok (mkRansid BgColor (style s) (next_style s), 0)
      else if x =? 48 (* '0' *) then Ok (mkRansid EndVal (style s) (Color_u8 White), 0)
      else if x =? 49 (* '1' *) then
        Ok (mkRansid EndVal (style s) (Z.lor (next_style s) (Z.shiftl 1 3)), 0)
      else if x =? 61 (* '=' *) then Ok (mkRansid Equals (style s) (next_style s), 0)
      else Ok (mkRansid Esc (style s) (style s), x)
  | BgColor =>
      if is_color_digit x then
        c ← convert_color (x - 48);
        Ok (mkRansid EndVal (style s) (Z.lor (Z.land (next_style s) 0x1F) (shl_u8 c 4)), 0)
      else Ok (mkRansid Esc (style s) (style s), x)
  | FgColor =>
      if is_color_digit x then
        c ← convert_color (x - 48);
        Ok (mkRansid EndVal (style s) (Z.lor (Z.land (next_style s) 0xF8) c), 0)
      else Ok (mkRansid Esc (style s) (style s), x)
  | Equals =>
      if x =? 49 (* '1' *) then
        Ok (mkRansid EndVal (style s) (Z.land (next_style s) (bitnot 8 (Z.shiftl 1 3))), 0)
      else Ok (mkRansid Esc (style s) (style s), x)
  | EndVal =>
      if x =? 59 (* ';' *) then Ok (mkRansid Parse (style s) (next_style s), 0)
      else if x =? 109 (* 'm' *) then Ok (mkRansid Esc (next_style s) (next_style s), 0)
      else Ok (mkRansid Esc (style s) (style s), 0)
  end.

Definition ransid_process (s : RansidState) (x : Z) : outcome (option ColorChar * RansidState) :=
  '(s', a) ← transition s x;
  Ok (if a =? 0 then None else Some (mkChar (style s) a), s').

(** A run over bytes, with the characters it emits. *)
Fixpoint ransid_run (s : RansidState) (bs : list Z) : outcome (list ColorChar * RansidState) :=
  match bs with
  | [] => Ok ([], s)
  | x :: bs' =>
      '(o, s) ← ransid_process s x;
      '(cs, s) ← ransid_run s bs';
      Ok (match o with Some c => c :: cs | None => cs end, s)
  end.

(** [RansidState::new] feeds ["\x1B[0m"] to the machine. *)
Definition RansidState_new : outcome RansidState :=
  snd <$> ransid_run (mkRansid Esc 0 0) [ESC; 91; 48; 109].

(** * Specification: the parameters of an SGR sequence *)

Inductive param :=
  | Reset            (* 0 *)
  | Bold             (* 1 *)
  | NoBold           (* =1 *)
  | Fg (c : Z)       (* 3c *)
  | Bg (c : Z).      (* 4c *)

Definition param_ok (p : param) : Prop :=
  match p with Fg c | Bg c => 0 ≤ c < 8 | _ => True end.

Definition print_param (p : param) : list Z :=
  match p with
  | Reset => [48]
  | Bold => [49]
  | NoBold => [61; 49]
  | Fg c => [51; 48 + c]
  | Bg c => [52; 48 + c]
  end.

Fixpoint print_params (p : param) (ps : list param) : list Z :=
  match ps with
  | [] => print_param p ++ [109]
  | q :: ps' => print_param p ++ 59 :: print_params q ps'
  end.

(** Escape, bracket, the parameters separated by semicolons, m. *)
Definition print_sgr (p : param) (ps : list param) : list Z := ESC :: 91 :: print_params p ps.

(** VGA colour of an ANSI colour, by name: in one the lowest bit is red, in the
    other blue. *)
Definition vga_color (c : Z) : Z :=
  match c with
  | 1 => 4 (* red *) | 2 => 2 (* green *) | 3 => 6 (* brown *) | 4 => 1 (* blue *)
  | 5 => 5 (* magenta *) | 6 => 3 (* cyan *) | 7 => 7 (* light grey *) | _ => 0 (* black *)
  end.

(** What the code does to the style. *)
Definition apply_param (st : Z) (p : param) : Z :=
  match p with
  | Reset => 0x0F
  | Bold => Z.lor st 8
  | NoBold => Z.land st 0xF7
  | Fg c => Z.lor (Z.land st 0xF8) (vga_color c)
  | Bg c => Z.lor (Z.land st 0x1F) (16 * vga_color c)
  end.

(** * Invariant *)

(** Both styles are bytes, and outside a sequence no style is pending. *)
Definition ransid_ok (s : RansidState) : Prop :=
  0 ≤ style s < 256 ∧ 0 ≤ next_style s < 256 ∧
  (state s = Esc ∨ state s = Bracket → next_style s = style s).

Lemma lor_u8 a b : 0 ≤ a < 256 → 0 ≤ b < 256 → 0 ≤ Z.lor a b < 256.
Proof.
  intros Ha Hb. split; [apply Z.lor_nonneg; lia|].
  destruct (decide (Z.lor a b = 0)); [lia|]. change 256 with (2 ^ 8).
  apply Z.log2_lt_pow2; [pose proof (proj2 (Z.lor_nonneg a b)); lia|].
  rewrite Z.log2_lor by lia. apply Z.max_lub_lt.
  - destruct (decide (a = 0)) as [->|]; [done|]. apply Z.log2_lt_pow2; lia.
  - destruct (decide (b = 0)) as [->|]; [done|]. apply Z.log2_lt_pow2; lia.
Qed.

Lemma land_u8 a b : 0 ≤ a < 256 → 0 ≤ b → 0 ≤ Z.land a b < 256.
Proof.
  intros Ha Hb. split; [apply Z.land_nonneg; lia|].
  destruct (decide (Z.land a b = 0)); [lia|]. change 256 with (2 ^ 8).
  apply Z.log2_lt_pow2; [pose proof (proj2 (Z.land_nonneg a b)); lia|].
  eapply Z.le_lt_trans; [apply Z.log2_land; lia|]. apply Z.min_lt_iff. left.
  destruct (decide (a = 0)) as [->|]; [done|]. apply Z.log2_lt_pow2; lia.
Qed.

(** The eight colour digits. *)
Lemma convert_color_digit c : 0 ≤ c < 8 →
  convert_color c = Ok (vga_color c) ∧ 0 ≤ vga_color c < 8 ∧ shl_u8 (vga_color c) 4 = 16 * vga_color c.
Proof.
  intros Hc. assert (c = 0 ∨ c = 1 ∨ c = 2 ∨ c = 3 ∨ c = 4 ∨ c = 5 ∨ c = 6 ∨ c = 7) as Hcs by lia.
  destruct Hcs as [->|[->|[->|[->|[->|[->|[->| ->]]]]]]]; by vm_compute.
Qed.

Lemma transition_ok s x :
  ransid_ok s → 0 ≤ x < 256 →
  ∃ s' a, transition s x = Ok (s', a) ∧ ransid_ok s' ∧ (a = 0 ∨ a = x) ∧ (a ≠ 0 → state s' = Esc).
Proof.
  intros (Hs & Hn & Heq) Hx. destruct s as [st sty nx]. simpl in *.
  assert (0 ≤ Z.lor nx 8 < 256 ∧ 0 ≤ Z.land nx 247 < 256) as [? ?].
  { split; [apply lor_u8|apply land_u8]; lia. }
  destruct st; unfold transition; cbn [state style next_style];
    repeat (case_match; zbool); unfold is_color_digit in *; zbool;
    try match goal with |- context [convert_color ?c] =>
      let Hsh := fresh "Hsh" in
      destruct (convert_color_digit c) as (-> & ? & Hsh); [lia|]; cbn [mbind outcome_bind]; rewrite ?Hsh end;
    eexists _, _; (split; [done|]); unfold ransid_ok; cbn [state style next_style];
    (split; [|split; [tauto|done]]);
    (split_and!; try lia; try (intros [|]; done); try tauto; try naive_solver);
    try (apply lor_u8; [apply land_u8|]; lia).
Qed.

(** * Runs *)

Lemma ransid_run_param p sty nx bs :
  param_ok p →
  ransid_run (mkRansid Parse sty nx) (print_param p ++ bs) =
  ransid_run (mkRansid EndVal sty (apply_param nx p)) bs.
Proof.
  intros Hp. destruct p as [| | |c|c]; simpl in Hp; cbn -[Z.add];
    try (by destruct (ransid_run _ bs) as [[]|]).
  all: destruct (convert_color_digit c Hp) as (Hc & _ & Hsh).
  all: unfold transition; cbn [state style next_style]; unfold is_color_digit;
    rewrite (proj2 (Z.leb_le 48 _)), (proj2 (Z.leb_le _ 55)) by lia; cbn [andb];
    replace (48 + c - 48) with c by lia; rewrite Hc; cbn [mbind outcome_bind]; rewrite ?Hsh; cbn;
    by destruct (ransid_run _ bs) as [[]|].
Qed.

Lemma ransid_run_params p ps sty nx bs :
  param_ok p → Forall param_ok ps →
  ransid_run (mkRansid Parse sty nx) (print_params p ps ++ bs) =
  let st := foldl apply_param nx (p :: ps) in ransid_run (mkRansid Esc st st) bs.
Proof.
  intros Hp Hps. revert p nx Hp. induction Hps as [|q ps Hq Hps IH]; intros p nx Hp;
    cbn [print_params]; rewrite <-app_assoc, ransid_run_param by done; cbn -[print_params].
  - by destruct (ransid_run _ bs) as [[]|].
  - rewrite IH by done. cbn. by destruct (ransid_run _ bs) as [[]|].
Qed.

(** A complete sequence emits nothing and applies its parameters in order. *)
Lemma ransid_run_sgr p ps sty bs :
  param_ok p → Forall param_ok ps →
  ransid_run (mkRansid Esc sty sty) (print_sgr p ps ++ bs) =
  let st := foldl apply_param sty (p :: ps) in ransid_run (mkRansid Esc st st) bs.
Proof.
  intros Hp Hps. unfold print_sgr. cbn -[print_params foldl].
  rewrite ransid_run_params by done. cbn -[foldl]. by destruct (ransid_run _ bs) as [[]|].
Qed.

(** Text outside sequences is emitted as it is. *)
Lemma ransid_run_plain sty bs :
  Forall (λ x, x ≠ ESC ∧ x ≠ 0) bs →
  ransid_run (mkRansid Esc sty sty) bs = Ok (mkChar sty <$> bs, mkRansid Esc sty sty).
Proof.
  induction 1 as [|x bs [Hx H0] _ IH]; [done|]. cbn [ransid_run]. unfold ransid_process, transition.
  cbn [state style]. rewrite (proj2 (Z.eqb_neq x ESC)) by done. cbn [mbind outcome_bind].
  rewrite (proj2 (Z.eqb_neq x 0)), IH by done. done.
Qed.

Lemma ransid_process_ok s x :
  ransid_ok s → 0 ≤ x < 256 →
  ∃ o s', ransid_process s x = Ok (o, s') ∧ ransid_ok s' ∧
    ∀ c, o = Some c → c = mkChar (style s) x ∧ x ≠ 0 ∧ state s' = Esc.
Proof.
  intros Hs Hx. destruct (transition_ok s x Hs Hx) as (s' & a & Ht & Hs' & Ha & Hst).
  unfold ransid_process. rewrite Ht. cbn [mbind outcome_bind].
  eexists _, s'. split; [done|]. split; [done|].
  intros c. destruct (a =? 0) eqn:E; zbool; [done|]. intros [= <-].
  destruct Ha as [?| ->]; [done|]. auto.
Qed.

(** * Properties *)

(** C26 (invariant): the parser accepts every byte stream: started as
    [RansidState::new] does, it never panics, its styles stay bytes, outside a
    sequence no style is pending, and each byte yields at most one character,
    the byte itself. *)
Theorem ransid_total (bs : list Z) :
  Forall (λ x, 0 ≤ x < 256) bs →
  ∃ s0 cs s, RansidState_new = Ok s0 ∧ ransid_run s0 bs = Ok (cs, s) ∧ ransid_ok s ∧
    ascii <$> cs `sublist_of` bs ∧ style s0 = create_style Black White.
Proof.
  intros Hbs. exists (mkRansid Esc 15 15).
  assert (∀ s, ransid_ok s → ∃ cs s', ransid_run s bs = Ok (cs, s') ∧ ransid_ok s' ∧
    (ascii <$> cs) `sublist_of` bs) as Hrun.
  { induction Hbs as [|x bs Hx _ IH]; intros s Hs; [by exists [], s|]. cbn [ransid_run].
    destruct (ransid_process_ok s x Hs Hx) as (o & s1 & -> & Hs1 & Ho). cbn [mbind outcome_bind].
    destruct (IH s1 Hs1) as (cs & s' & -> & Hs' & Hsub). cbn [mbind outcome_bind].
    eexists _, s'. split; [done|]. split; [done|]. destruct o as [c|]; [|by apply sublist_cons].
    destruct (Ho c eq_refl) as (-> & _). by apply sublist_skip. }
  destruct (Hrun (mkRansid Esc 15 15)) as (cs & s & -> & Hs & Hsub); [split_and!; simpl; lia|].
  exists cs, s. done.
Qed.

(** C27 (refinement): a complete colour sequence (escape, bracket, parameters, m) followed by
    text prints nothing for the sequence and every byte of the text in the
    style obtained by applying the parameters, in order, to the old style. *)
Theorem ransid_sgr_then_text (st : Z) (p : param) (ps : list param) (text : list Z) :
  param_ok p → Forall param_ok ps → Forall (λ x, x ≠ ESC ∧ x ≠ 0) text →
  let st' := foldl apply_param st (p :: ps) in
  ransid_run (mkRansid Esc st st) (print_sgr p ps ++ text) =
    Ok (mkChar st' <$> text, mkRansid Esc st' st').
Proof. intros Hp Hps Ht. rewrite ransid_run_sgr by done. by apply ransid_run_plain. Qed.

(** A background parameter does not replace the background: its lowest
    bit is kept from the old style (the mask is 0x1F where 0x0F is meant), so
    for instance white text on black after white on light grey comes out on
    blue. *)
Theorem ransid_background_sticks (st c : Z) :
  0 ≤ st → 0 ≤ c < 8 →
  ransid_run (mkRansid Esc st st) (print_sgr (Bg c) []) =
    Ok ([], mkRansid Esc (apply_param st (Bg c)) (apply_param st (Bg c))) ∧
  Z.shiftr (apply_param st (Bg c)) 4 = Z.lor (vga_color c) (Z.shiftr st 4 mod 2) ∧
  Z.shiftr (foldl apply_param 0x0F [Bg 7; Bg 0]) 4 = Color_u8 Blue.
Proof.
  intros Hst Hc. destruct (convert_color_digit c Hc) as (_ & Hv & _). split_and!.
  - rewrite <-(app_nil_r (print_sgr _ _)), ransid_run_sgr; [done|done|constructor].
  - unfold apply_param. rewrite Z.shiftr_lor, Z.shiftr_land, Z.lor_comm.
    change (Z.shiftr 31 4) with (Z.ones 1). rewrite Z.land_ones by lia. f_equal.
    rewrite Z.shiftr_div_pow2 by lia. change (2 ^ 4) with 16. rewrite Z.mul_comm. by apply Z.div_mul.
  - by vm_compute.
Qed.

Lemma ransid_total_witness :
  ∃ s0 cs s, RansidState_new = Ok s0 ∧ ransid_run s0 [104; 27; 91; 57; 105] = Ok (cs, s) ∧
    cs = [mkChar 15 104; mkChar 15 57; mkChar 15 105] ∧ ransid_ok s.
Proof.
  destruct (ransid_total [104; 27; 91; 57; 105]) as (s0 & cs & s & Hnew & Hrun & Hok & _).
  - repeat constructor; lia.
  - exists s0, cs, s. split_and!; try done; try apply Hok.
    vm_compute in Hnew. injection Hnew as <-. vm_compute in Hrun. by injection Hrun as <- _.
Defined.

Lemma ransid_sgr_then_text_witness :
  ransid_run (mkRansid Esc 15 15) (print_sgr (Fg 1) [Bold; Bg 2] ++ [104; 105]) =
    Ok ([mkChar 0x2C 104; mkChar 0x2C 105], mkRansid Esc 0x2C 0x2C).
Proof.
  apply (ransid_sgr_then_text 15 (Fg 1) [Bold; Bg 2] [104; 105]);
    repeat constructor; unfold ESC; simpl; lia.
Defined.

Lemma ransid_background_sticks_witness :
  Z.shiftr (apply_param 0x7F (Bg 0)) 4 = 1.
Proof. apply (ransid_background_sticks 0x7F 0); lia. Defined.
