(* ===== verification/TextMode.v ===== *)
(** [src/drivers/vga/text_mode.rs]: the VGA text console. *)
From S2P Require Import Prelude Ransid.

Definition TERMINAL_BUFFER : Z := 0xB8000.
Definition WIDTH : Z := 80.
Definition HEIGHT : Z := 25.
Definition ASCII_MAX : Z := 126.
Definition ASCII_MIN : Z := 32.

(** A write of an 8- or 16-bit value to an I/O port. *)
Record PortWrite := mkPort { port : Z; width : Z; value : Z }.

(** [buf] is the character memory; the port writes of the cursor are logged in
    [ports], oldest first. *)
Record Writer := mkWriter {
  wstate : RansidState; buf : list Z; x : Z; y : Z; ports : list PortWrite }.

Section code.
Context `{Build}.

Definition set_buf (b : list Z) (w : Writer) : Writer := mkWriter (wstate w) b (x w) (y w) (ports w).
Definition set_pos (x y : Z) (w : Writer) : Writer := mkWriter (wstate w) (buf w) x y (ports w).
Definition set_state (s : RansidState) (w : Writer) : Writer := mkWriter s (buf w) (x w) (y w) (ports w).
Definition out (p : PortWrite) (w : Writer) : Writer :=
  mkWriter (wstate w) (buf w) (x w) (y w) (ports w ++ [p]).

(** [Writer::newline]: [volatile_copy_memory] moves rows 1 to 24 up by one; the
    last row is then cleared. *)
Definition newline (self : Writer) : outcome Writer :=
  self ← (if y self =? HEIGHT - 1 then
            let last := WIDTH * (HEIGHT - 1) in
            '(_, src) ← split_at_slice (buf self) WIDTH;
            let b := take (Z.to_nat last) src ++ drop (Z.to_nat last) (buf self) in
            '(rows, bottom) ← split_at_slice b last;
            Ok (set_buf (rows ++ ((λ _, 0xf00) <$> bottom)) self)
          else
            y' ← add_u64 (y self) 1;
            Ok (set_pos (x self) y' self));
  Ok (set_pos 0 (y self) self).

(** [Writer::draw_char] *)
Definition draw_char (self : Writer) (style ch : Z) : outcome Writer :=
  let formatted := Z.lor (Z.shiftl style 8) ch in
  row ← mul_u64 (y self) WIDTH;
  i ← add_u64 row (x self);
  b ← index_set (buf self) i formatted;
  let self := set_buf b self in
  if x self =? WIDTH - 1 then newline self
  else
    x' ← add_u64 (x self) 1;
    Ok (set_pos x' (y self) self).

(** [Writer::update_cursor] *)
Definition update_cursor (self : Writer) : outcome Writer :=
  row ← mul_u64 (y self) WIDTH;
  pos ← add_u64 row (x self);
  let self := out (mkPort 0x3D4 8 0x0F) self in
  let self := out (mkPort 0x3D5 16 (Z.land pos 0xFF mod 2 ^ 16)) self in
  let self := out (mkPort 0x3D4 8 0x0E) self in
  Ok (out (mkPort 0x3D5 16 (Z.land (Z.shiftr pos 8) 0xFF mod 2 ^ 16)) self).

(** [for byte in s.bytes() { f(byte) }] *)
Fixpoint for_bytes (f : Writer → Z → outcome Writer) (self : Writer) (s : list Z) : outcome Writer :=
  match s with
  | [] => Ok self
  | b :: s' => self ← f self b; for_bytes f self s'
  end.

(** [Writer::write_byte] and [Writer::write_str] call each other for a tab;
    [fuel] bounds the nesting. *)
Fixpoint write_byte (fuel : nat) (self : Writer) (ch : Z) : outcome Writer :=
  match fuel with
  | O => Panic Diverges
  | S fuel' =>
      '(o, st) ← ransid_process (wstate self) ch;
      let self := set_state st self in
      match o with
      | None => Ok self
      | Some ch =>
          if ascii ch =? 10 then newline self
          else if ascii ch =? 9 then
            self ← for_bytes (write_byte fuel') self [32; 32; 32; 32];
            update_cursor self
          else if ascii ch =? 13 then Ok (set_pos 0 (y self) self)
          else if (ASCII_MIN <=? ascii ch) && (ascii ch <=? ASCII_MAX)
          then draw_char self (cc_style ch) (ascii ch)
          else draw_char self (cc_style ch) 254
      end
  end.

(** The nesting is at most two: the spaces of a tab hold no tab. *)
Definition nesting : nat := 2.

Definition write_str (self : Writer) (s : list Z) : outcome Writer :=
  self ← for_bytes (write_byte nesting) self s;
  update_cursor self.

(** [Writer::default] over the memory at [TERMINAL_BUFFER]. *)
Definition Writer_default (vram : list Z) : outcome Writer :=
  s ← RansidState_new;
  Ok (mkWriter s vram 0 0 []).

End code.

(** * Invariant *)

(** The cursor is on the screen and the buffer is the screen. *)
Definition writer_ok (w : Writer) : Prop :=
  ransid_ok (wstate w) ∧ Z.of_nat (length (buf w)) = WIDTH * HEIGHT ∧
  0 ≤ x w < WIDTH ∧ 0 ≤ y w < HEIGHT.

(** The cell in column [c] of row [r]. *)
Definition cell (b : list Z) (r c : Z) : option Z := b !! Z.to_nat (r * WIDTH + c).

Section proofs.
Context `{Build}.

(** A new line: the cursor goes to the start of the next row; on the last row
    the screen moves up instead and its last row is blank. *)
Lemma newline_spec w :
  writer_ok w →
  ∃ w', newline w = Ok w' ∧ writer_ok w' ∧ wstate w' = wstate w ∧ ports w' = ports w ∧ x w' = 0 ∧
    y w' = Z.min (y w + 1) (HEIGHT - 1) ∧
    (y w < HEIGHT - 1 → buf w' = buf w) ∧
    (y w = HEIGHT - 1 → ∀ r c, 0 ≤ r < HEIGHT → 0 ≤ c < WIDTH →
       cell (buf w') r c = if r <? HEIGHT - 1 then cell (buf w) (r + 1) c else Some 0xf00).
Proof.
  intros (Hs & Hlen & Hx & Hy). unfold newline. destruct (y w =? HEIGHT - 1) eqn:E; zbool.
  - unfold WIDTH, HEIGHT in *. rewrite split_at_slice_ok by lia. ok_simpl.
    set (b := take _ _ ++ _).
    assert (length b = 2000)%nat as Hb.
    { unfold b. rewrite length_app, length_take, !length_drop. lia. }
    rewrite split_at_slice_ok by lia. ok_simpl. eexists. split; [done|].
    unfold writer_ok, set_pos, set_buf, WIDTH, HEIGHT. cbn [wstate buf x y ports].
    split_and!; try done; try lia; [rewrite length_app, length_fmap, <-length_app, take_drop; lia|].
    intros _ r c Hr Hc. unfold cell, WIDTH. destruct (r <? 25 - 1) eqn:Er; zbool.
    + rewrite lookup_app_l by (rewrite length_take; lia). rewrite lookup_take_lt by lia.
      unfold b. rewrite lookup_app_l by (rewrite length_take, length_drop; lia).
      rewrite lookup_take_lt, lookup_drop by lia. f_equal. lia.
    + rewrite lookup_app_r by (rewrite length_take; lia).
      rewrite list_lookup_fmap, lookup_drop, length_take.
      match goal with |- context [b !! ?k] => destruct (lookup_lt_is_Some_2 b k) as [v Hv]; [lia|] end.
      by rewrite Hv.
  - unfold add_u64, WIDTH, HEIGHT in *. rewrite checked_ok by lia. ok_simpl.
    eexists. split; [done|]. unfold writer_ok, set_pos, WIDTH, HEIGHT. cbn [wstate buf x y ports]. split_and!; try done; lia.
Qed.

Definition cursor_pos (w : Writer) : Z := y w * WIDTH + x w.
Definition vga_cell (style ch : Z) : Z := Z.lor (Z.shiftl style 8) ch.

Lemma cursor_pos_bounds w : writer_ok w → 0 ≤ cursor_pos w < WIDTH * HEIGHT.
Proof. intros (_ & _ & Hx & Hy). unfold cursor_pos, WIDTH, HEIGHT in *. lia. Qed.

(** The position computed by [draw_char] and [update_cursor]. *)
Lemma position_ok {A} w (f : Z → outcome A) :
  writer_ok w → (row ← mul_u64 (y w) WIDTH; i ← add_u64 row (x w); f i) = f (cursor_pos w).
Proof.
  intros Hw. pose proof (cursor_pos_bounds w Hw). destruct Hw as (_ & _ & Hx & Hy).
  unfold cursor_pos, mul_u64, add_u64, WIDTH, HEIGHT in *.
  rewrite (checked_ok 64 (y w * 80)) by lia. ok_simpl. by rewrite (checked_ok 64 (_ + x w)) by lia.
Qed.

Lemma draw_char_spec w st ch :
  writer_ok w →
  ∃ w', draw_char w st ch = Ok w' ∧ writer_ok w' ∧ wstate w' = wstate w ∧ ports w' = ports w ∧
    (x w < WIDTH - 1 → buf w' = <[Z.to_nat (cursor_pos w) := vga_cell st ch]> (buf w) ∧
       x w' = x w + 1 ∧ y w' = y w).
Proof.
  intros Hw. pose proof (cursor_pos_bounds w Hw) as Hpos. unfold draw_char.
  rewrite (position_ok w _ Hw). pose proof Hw as (Hs & Hlen & Hx & Hy).
  rewrite index_set_ok by lia. ok_simpl. fold (vga_cell st ch).
  set (w1 := set_buf _ w). assert (writer_ok w1) as Hw1.
  { unfold writer_ok, w1, set_buf. cbn. by rewrite length_insert. }
  change (x w1) with (x w). change (y w1) with (y w).
  destruct (x w =? WIDTH - 1) eqn:E; zbool.
  - destruct (newline_spec w1 Hw1) as (w' & Hn & Hw' & ? & ? & _).
    exists w'. split_and!; try done; try apply Hw'; lia.
  - unfold add_u64. rewrite checked_ok by (unfold WIDTH in *; lia). ok_simpl.
    eexists. split; [done|]. unfold writer_ok, set_pos, w1, set_buf. cbn [wstate buf x y ports].
    rewrite length_insert. unfold WIDTH in *. split_and!; try done; lia.
Qed.

(** The cursor registers get the two bytes of the position. *)
Definition cursor_writes (pos : Z) : list PortWrite :=
  [mkPort 0x3D4 8 0x0F; mkPort 0x3D5 16 (pos mod 256);
   mkPort 0x3D4 8 0x0E; mkPort 0x3D5 16 (pos / 256)].

Lemma update_cursor_spec w :
  writer_ok w →
  update_cursor w =
    Ok (mkWriter (wstate w) (buf w) (x w) (y w) (ports w ++ cursor_writes (cursor_pos w))).
Proof.
  intros Hw. pose proof (cursor_pos_bounds w Hw) as Hpos. unfold update_cursor.
  rewrite (position_ok w _ Hw). set (p := cursor_pos w) in *.
  assert (Z.land p 255 mod 2 ^ 16 = p mod 256) as ->.
  { change 255 with (Z.ones 8). rewrite Z.land_ones by lia. apply Z.mod_small.
    change (2 ^ 8) with 256. change (2 ^ 16) with 65536. pose proof (Z.mod_pos_bound p 256). lia. }
  assert (Z.land (Z.shiftr p 8) 255 mod 2 ^ 16 = p / 256) as ->.
  { change 255 with (Z.ones 8). rewrite Z.land_ones, Z.shiftr_div_pow2 by lia.
    unfold WIDTH, HEIGHT in *. change (2 ^ 8) with 256.
    assert (0 ≤ p / 256 < 256) by (split; [apply Z.div_pos; lia|apply Z.div_lt_upper_bound; lia]).
    change (2 ^ 16) with 65536. rewrite (Z.mod_small (p / 256) 256) by lia. apply Z.mod_small. lia. }
  unfold out, cursor_writes. cbn. by rewrite <-!app_assoc.
Qed.

(** Bytes the machine passes on as a character to draw. *)
Definition glyph (b : Z) : Z := if (ASCII_MIN <=? b) && (b <=? ASCII_MAX) then b else 254.

(** In the plain state, every byte but escape, NUL and the control characters is
    drawn. *)
Lemma write_byte_glyph fuel w st b :
  wstate w = mkRansid Esc st st → b ≠ ESC → b ≠ 0 → b ≠ 10 → b ≠ 9 → b ≠ 13 →
  write_byte (S fuel) w b = draw_char w st (glyph b).
Proof.
  intros Hst He H0 Hn Ht Hr. cbn [write_byte]. unfold ransid_process, transition. rewrite Hst.
  cbn [state style]. rewrite (proj2 (Z.eqb_neq b ESC)) by done. cbn [mbind outcome_bind].
  rewrite (proj2 (Z.eqb_neq b 0)) by done. cbn [ascii cc_style].
  rewrite (proj2 (Z.eqb_neq b 10)), (proj2 (Z.eqb_neq b 9)), (proj2 (Z.eqb_neq b 13)) by done.
  assert (set_state (mkRansid Esc st st) w = w) as -> by (destruct w; simpl in *; by subst).
  unfold glyph. by destruct (_ && _).
Qed.

Lemma for_bytes_spaces fuel n w st :
  wstate w = mkRansid Esc st st → writer_ok w →
  ∃ w', for_bytes (write_byte (S fuel)) w (replicate n 32) = Ok w' ∧ writer_ok w'.
Proof.
  revert w. induction n as [|n IH]; intros w Hst Hw; [by exists w|]. cbn [replicate for_bytes].
  rewrite (write_byte_glyph fuel w st) by done.
  destruct (draw_char_spec w st (glyph 32) Hw) as (w1 & -> & Hw1 & Hst1 & _). ok_simpl.
  apply IH; [congruence|done].
Qed.

Lemma write_byte_ok fuel w b :
  writer_ok w → 0 ≤ b < 256 → ∃ w', write_byte (S (S fuel)) w b = Ok w' ∧ writer_ok w'.
Proof.
  intros Hw Hb. pose proof Hw as (Hs & Hrest).
  remember (S fuel) as k eqn:Hk. cbn [write_byte]. subst k.
  destruct (ransid_process_ok (wstate w) b Hs Hb) as (o & s' & -> & Hs' & Ho). ok_simpl.
  assert (writer_ok (set_state s' w)) as Hw1 by done.
  destruct o as [c|]; [|eauto]. destruct (Ho c eq_refl) as (-> & _ & Hesc). cbn [ascii cc_style].
  destruct (b =? 10); [|destruct (b =? 9); [|destruct (b =? 13); [|destruct (_ && _)]]].
  - destruct (newline_spec _ Hw1) as (w' & ? & ? & _). eauto.
  - destruct s' as [st sty nx]. destruct Hs' as (? & ? & Heq).
    cbn [state style next_style] in *. subst st. rewrite Heq in * by auto. clear Heq.
    destruct (for_bytes_spaces fuel 4 (set_state (mkRansid Esc sty sty) w) sty) as (w' & Hf & Hw'); [done|done|].
    change (replicate 4 32) with [32; 32; 32; 32] in Hf. rewrite Hf. ok_simpl.
    rewrite update_cursor_spec by done. eauto.
  - eexists. split; [done|]. unfold writer_ok, WIDTH in *. simpl in *. naive_solver lia.
  - edestruct (draw_char_spec (set_state s' w)) as (w' & ? & ? & _); [done|]. eauto.
  - edestruct (draw_char_spec (set_state s' w)) as (w' & ? & ? & _); [done|]. eauto.
Qed.

Lemma for_bytes_ok fuel w s :
  writer_ok w → Forall (λ b, 0 ≤ b < 256) s →
  ∃ w', for_bytes (write_byte (S (S fuel))) w s = Ok w' ∧ writer_ok w'.
Proof.
  intros Hw Hs. revert w Hw. induction Hs as [|b s Hb _ IH]; intros w Hw; [by exists w|]. cbn [for_bytes].
  destruct (write_byte_ok fuel w b Hw Hb) as (w1 & -> & Hw1). ok_simpl. by apply IH.
Qed.

(** Printable text that fits on the row. *)
Lemma for_bytes_text fuel w st t :
  writer_ok w → wstate w = mkRansid Esc st st →
  Forall (λ b, ASCII_MIN ≤ b ≤ ASCII_MAX) t → x w + Z.of_nat (length t) < WIDTH →
  for_bytes (write_byte (S fuel)) w t =
    Ok (mkWriter (wstate w) (list_inserts (Z.to_nat (cursor_pos w)) (vga_cell st <$> t) (buf w))
          (x w + Z.of_nat (length t)) (y w) (ports w)).
Proof.
  intros Hw Hst Ht. revert w Hw Hst. induction Ht as [|b t Hb Ht IH]; intros w Hw Hst Hfit.
  { destruct w. cbn in *. by rewrite Z.add_0_r. }
  cbn [for_bytes length] in *. unfold ASCII_MIN, ASCII_MAX in *.
  rewrite (write_byte_glyph fuel w st) by (unfold ESC; lia || done).
  assert (glyph b = b) as ->.
  { unfold glyph, ASCII_MIN, ASCII_MAX.
    by rewrite (proj2 (Z.leb_le 32 b)), (proj2 (Z.leb_le b 126)) by lia. }
  destruct (draw_char_spec w st b Hw) as (w1 & -> & Hw1 & Hst1 & Hp1 & Hd).
  destruct Hd as (Hb1 & Hx1 & Hy1); [lia|]. ok_simpl.
  rewrite IH; [|done|congruence|lia]. rewrite Hst1, Hp1, Hb1, Hx1, Hy1.
  assert (cursor_pos w1 = cursor_pos w + 1) as ->.
  { unfold cursor_pos. rewrite Hx1, Hy1. lia. }
  pose proof (cursor_pos_bounds w Hw). f_equal. f_equal; [|lia].
  rewrite fmap_cons. cbn [list_inserts]. replace (Z.to_nat (cursor_pos w + 1)) with (S (Z.to_nat (cursor_pos w))) by lia.
  symmetry. apply list_insert_inserts_lt. lia.
Qed.
End proofs.

(** * Properties *)

Section properties.
Context `{Build}.

(** C25 (safety): [write_str] handles every byte string: it never indexes outside
    the screen and never panics, the cursor stays on the screen, and it ends by
    programming the cursor registers with the position (low byte, high byte). *)
Theorem write_str_total (w : Writer) (s : list Z) :
  writer_ok w → Forall (λ b, 0 ≤ b < 256) s →
  ∃ w' ps, write_str w s = Ok w' ∧ writer_ok w' ∧
    ports w' = ps ++ cursor_writes (cursor_pos w') ∧
    cursor_pos w' mod 256 + 256 * (cursor_pos w' / 256) = y w' * WIDTH + x w'.
Proof.
  intros Hw Hs. unfold write_str, nesting. destruct (for_bytes_ok 0 w s Hw Hs) as (w1 & -> & Hw1).
  ok_simpl. rewrite update_cursor_spec by done. eexists _, (ports w1). split; [done|].
  split; [done|]. split; [done|]. unfold cursor_pos. cbn [x y].
  pose proof (Z.div_mod (y w1 * WIDTH + x w1) 256). lia.
Qed.

(** Printable text that fits on the current row appears there in
    the current style, cell by cell from the cursor, the cursor moves behind
    it, and nothing else on the screen changes. *)
Theorem write_str_text (w : Writer) (st : Z) (t : list Z) :
  writer_ok w → wstate w = mkRansid Esc st st →
  Forall (λ b, ASCII_MIN ≤ b ≤ ASCII_MAX) t → x w + Z.of_nat (length t) < WIDTH →
  ∃ w', write_str w t = Ok w' ∧ x w' = x w + Z.of_nat (length t) ∧ y w' = y w ∧
    ∀ r c, 0 ≤ r < HEIGHT → 0 ≤ c < WIDTH →
      cell (buf w') r c =
        if (r =? y w) && (x w <=? c) && (c <? x w + Z.of_nat (length t))
        then vga_cell st <$> t !! Z.to_nat (c - x w) else cell (buf w) r c.
Proof.
  intros Hw Hst Ht Hfit. pose proof Hw as (Hs & Hlen & Hx & Hy). unfold write_str, nesting.
  rewrite (for_bytes_text 1 w st t) by done. ok_simpl.
  rewrite update_cursor_spec.
  2:{ unfold writer_ok. cbn [wstate buf x y]. rewrite length_inserts. unfold WIDTH in *. split_and!; try done; lia. }
  eexists. split; [done|]. cbn [x y buf]. split; [done|]. split; [done|]. intros r c Hr Hc.
  unfold cell, cursor_pos, WIDTH, HEIGHT in *.
  destruct ((r =? y w) && (x w <=? c) && (c <? x w + Z.of_nat (length t))) eqn:E; zbool.
  - subst r. rewrite list_lookup_inserts by (rewrite ?length_fmap; lia).
    rewrite list_lookup_fmap. do 2 f_equal. lia.
  - assert (Z.to_nat (r * 80 + c) < Z.to_nat (y w * 80 + x w) ∨
      Z.to_nat (y w * 80 + x w) + length t ≤ Z.to_nat (r * 80 + c))%nat as [Hlt|Hge].
    { destruct (decide (r = y w)) as [->|]; [|nia].
      rewrite Z.eqb_refl in E. cbn [andb] in E.
      destruct (decide (c < x w)); [left; lia|right].
      rewrite (proj2 (Z.leb_le _ _)) in E by lia. zbool. cbn [andb] in E. zbool. lia. }
    + apply list_lookup_inserts_lt. lia.
    + apply list_lookup_inserts_ge. rewrite length_fmap. lia.
Qed.

(** A line feed on the last row scrolls: every row takes the text
    of the row below it, the last row is blank, and the cursor is at its start. *)
Theorem write_str_scrolls (w : Writer) (st : Z) :
  writer_ok w → wstate w = mkRansid Esc st st → y w = HEIGHT - 1 →
  ∃ w', write_str w [10] = Ok w' ∧ x w' = 0 ∧ y w' = HEIGHT - 1 ∧
    ∀ r c, 0 ≤ r < HEIGHT → 0 ≤ c < WIDTH →
      cell (buf w') r c = if r <? HEIGHT - 1 then cell (buf w) (r + 1) c else Some (vga_cell 0x0F 0).
Proof.
  intros Hw Hst Hy. destruct (newline_spec w Hw) as (w1 & Hn & Hw1 & _ & _ & Hx1 & Hy1 & _ & Hcells).
  assert (write_str w [10] = (w1 ← newline w; update_cursor w1)) as ->.
  { unfold write_str, nesting. cbn [for_bytes write_byte]. unfold ransid_process, transition. rewrite Hst.
    cbn. assert (set_state (mkRansid Esc st st) w = w) as -> by (destruct w; simpl in *; by subst).
    by destruct (newline w). }
  rewrite Hn. ok_simpl. rewrite update_cursor_spec by done. eexists. split; [done|]. cbn [x y buf].
  split; [done|]. split; [unfold HEIGHT in *; lia|]. intros r c Hr Hc. by rewrite Hcells.
Qed.

End properties.

(** * Witnesses *)

Definition blank_screen : Writer :=
  mkWriter (mkRansid Esc 0x0F 0x0F) (replicate 2000 0xf20) 70 24 [].

Lemma blank_screen_ok : writer_ok blank_screen.
Proof. split_and!; simpl; unfold WIDTH, HEIGHT; try lia; done. Qed.

Lemma write_str_total_witness :
  ∃ w' ps, @write_str debug_build blank_screen [9; 27; 91; 51; 49; 109; 72; 105; 9; 9; 0; 255] = Ok w' ∧
    writer_ok w' ∧ ports w' = ps ++ cursor_writes (cursor_pos w').
Proof.
  destruct (@write_str_total debug_build blank_screen [9; 27; 91; 51; 49; 109; 72; 105; 9; 9; 0; 255])
    as (w' & ps & ? & ? & ? & _).
  - apply blank_screen_ok.
  - repeat constructor; lia.
  - exists w', ps. auto.
Defined.

Lemma write_str_text_witness :
  ∃ w', @write_str debug_build blank_screen [72; 105] = Ok w' ∧ x w' = 72 ∧
    cell (buf w') 24 71 = Some 0x0F69.
Proof.
  destruct (@write_str_text debug_build blank_screen 0x0F [72; 105]) as (w' & ? & ? & _ & Hc).
  - apply blank_screen_ok.
  - done.
  - repeat constructor; done.
  - by vm_compute.
  - exists w'. split_and!; [done|done|]. by rewrite Hc.
Defined.

Lemma write_str_scrolls_witness :
  ∃ w', @write_str debug_build blank_screen [10] = Ok w' ∧ cell (buf w') 24 3 = Some 0xf00.
Proof.
  destruct (@write_str_scrolls debug_build blank_screen 0x0F) as (w' & ? & _ & _ & Hc).
  - apply blank_screen_ok.
  - done.
  - done.
  - exists w'. split; [done|]. by rewrite Hc.
Defined.
