(* ===== verification/AddrSpace.v ===== *)
(** [src/mm/addr_space.rs] and [MemoryMap::new] of [src/mm/map.rs]: the kernel's
    page tables and the construction of the boot memory map.

    The page tables themselves ([OffsetPageTable], [Mapper], [Translate] of the
    [x86_64] crate) are a parameter [PT] with the operations the kernel calls. *)
From S2P Require Import Prelude X86 Layout Mm Region Pmm.

(** [MapToError] *)
Inductive MapToError := FrameAllocationFailed | ParentEntryHugePage | PageAlreadyMapped.

Class Paging (PT : Type) := {
  (** [Page::containing_address], as the start address of the page *)
  Page_containing : Z → Z;
  (** [PhysFrame::range_inclusive], as the frames it yields *)
  range_inclusive : PhysFrame → PhysFrame → list PhysFrame;
  (** [PageTableFlags::{PRESENT, WRITABLE, GLOBAL}] *)
  PRESENT : Z; WRITABLE : Z; GLOBAL : Z;
  (** [OffsetPageTable::new] over the table at a virtual address *)
  OffsetPageTable_new : Z → Z → PT;
  (** [Translate::translate_addr] *)
  translate : PT → Z → option Z;
  (** [Mapper::map_to] with a frame allocator in state [A] *)
  mapper_map_to {A} : (A → outcome (option PhysFrame * A)) → PT → Z → PhysFrame → Z → A →
    outcome (option MapToError * PT * A)
}.

(** [n] calls of a frame allocator that all return a frame. *)
Fixpoint alloc_n {A} (alloc : A → outcome (option PhysFrame * A)) (n : nat) (a : A) : outcome A :=
  match n with
  | O => Ok a
  | S n' => '(o, a) ← alloc a; _ ← unwrap o; alloc_n alloc n' a
  end.

Definition page_of (va : Z) : Z := va / FRAME_SIZE * FRAME_SIZE.

Class PagingLaws (PT : Type) `{Paging PT} : Prop := {
  Page_containing_law va : Page_containing va = page_of va;
  (** The frames from the first to the last. *)
  range_inclusive_law s e : frame_ok s → frame_ok e → start_address s ≤ start_address e →
    range_inclusive s e =
      frames_from (start_address s) (Z.to_nat ((start_address e - start_address s) / FRAME_SIZE) + 1);
  (** Translation works on whole pages. *)
  translate_page pt va va' : page_of va = page_of va' →
    is_Some (translate pt va) ↔ is_Some (translate pt va');
  (** Mapping a page that is not mapped takes a frame for each missing table (at
      most three levels below the root) and maps this page and no other. *)
  map_to_law pt va f flags : translate pt va = None →
    ∃ n, (n ≤ 3)%nat ∧ ∀ A (alloc : A → outcome (option PhysFrame * A)) a a',
      alloc_n alloc n a = Ok a' →
      ∃ pt', mapper_map_to alloc pt (page_of va) f flags a = Ok (None, pt', a') ∧
        ∀ va', is_Some (translate pt' va') ↔ page_of va' = page_of va ∨ is_Some (translate pt va')
}.

(** What [MemoryMap::new] does to memory: a frame is filled ([allocate_frame]),
    or a [PageInfo::default()] is written at an address. *)
Inductive MemEvent := Filled (m : MemSet) | PageInfoWritten (va : Z).

(** [bootloader::MemoryRegion]: whether its type is [Usable] or [Bootloader], and
    its address range. *)
Record MemoryRegion := mkMemoryRegion {
  is_usable : bool; is_bootloader : bool; start_addr : Z; end_addr : Z }.

Section code.
Context `{Build, X86_64, ArrayVec} {PT : Type} `{Paging PT}.

(** * [impl AddrSpace] *)

(** The [lazy_static] [KERNEL], for the table frame in [Cr3]. *)
Definition KERNEL (table_frame : PhysFrame) : outcome PT :=
  table_virt ← phys_to_kernel_virt (start_address table_frame);
  off ← VirtAddr_new PHYS_OFFSET;
  Ok (OffsetPageTable_new table_virt off).

Definition map_to_with_allocator {A} (alloc : A → outcome (option PhysFrame * A))
    (pt : PT) (virt phys flags : Z) (a : A) : outcome (option MapToError * PT * A) :=
  mapper_map_to alloc pt (Page_containing virt) (containing_address phys) flags a.

(** [PhysAllocatorProxy] *)
Definition proxy_allocate_frame (p : option (list Zone)) :
    outcome (option PhysFrame * option (list Zone)) :=
  '(range, _, p) ← PhysAllocator_alloc p 0;
  Ok (Some (range_start range), p).

Definition map_to (pt : PT) (virt phys flags : Z) (p : option (list Zone)) :
    outcome (option MapToError * PT * option (list Zone)) :=
  map_to_with_allocator proxy_allocate_frame pt virt phys flags p.

Definition translate_addr (pt : PT) (addr : Z) : option Z := translate pt addr.

(** * [MemoryMap::new] *)

(** [bump] and what it did to memory. *)
Abbreviation bump := (MemoryMap * list MemEvent)%type.

Definition bump_allocate_frame (b : bump) : outcome (option PhysFrame * bump) :=
  '(o, m) ← allocate_frame b.1;
  match o with
  | Some (f, cleared) => Ok (Some f, (m, b.2 ++ (Filled <$> option_list cleared)))
  | None => Ok (None, (m, b.2))
  end.

(** The first loop: usable and bootloader memory. *)
Fixpoint push_regions (memory_map : list MemoryRegion) (m : MemoryMap) : outcome MemoryMap :=
  match memory_map with
  | [] => Ok m
  | reg :: rest =>
      if is_usable reg || is_bootloader reg then
        a ← PhysAddr_new (start_addr reg);
        s ← sub_u64 (end_addr reg) (start_addr reg);
        m ← push m (mkRegion a s);
        push_regions rest m
      else push_regions rest m
  end.

(** The body of the inner loop over the pages of a region. *)
Definition map_page_info (page : PhysFrame) (pt : PT) (b : bump) : outcome (PT * bump) :=
  p ← phys_to_page_info page;
  va ← VirtAddr_new p;
  match translate_addr pt va with
  | Some _ => Ok (pt, (b.1, b.2 ++ [PageInfoWritten va]))
  | None =>
      '(o, b) ← bump_allocate_frame b;
      phys_page ← unwrap o;
      '(err, pt, b) ←
        map_to_with_allocator bump_allocate_frame pt va (start_address phys_page)
          (Z.lor (Z.lor PRESENT WRITABLE) GLOBAL) b;
      match err with
      | None => Ok (pt, b)
      | Some _ => Panic PanicUnwrap
      end
  end.

Fixpoint map_page_infos (pages : list PhysFrame) (pt : PT) (b : bump) : outcome (PT * bump) :=
  match pages with
  | [] => Ok (pt, b)
  | page :: pages' =>
      '(pt, b) ← map_page_info page pt b;
      map_page_infos pages' pt b
  end.

Fixpoint map_regions (rgs : list Region) (pt : PT) (b : bump) : outcome (PT * bump) :=
  match rgs with
  | [] => Ok (pt, b)
  | rg :: rgs' =>
      let start := containing_address (addr rg) in
      e ← PhysAddr_add (addr rg) (size rg);
      let end_ := containing_address e in
      '(pt, b) ← map_page_infos (range_inclusive start end_) pt b;
      map_regions rgs' pt b
  end.

Definition MemoryMap_new (memory_map : list MemoryRegion) (pt : PT) : outcome (PT * bump) :=
  m ← push_regions memory_map (mkMap [] 0);
  if (length (regions m) =? 0)%nat then Panic PanicExplicit
  else map_regions (regions m) pt (m, []).

End code.
