(* ===== verification/MemoryMapNew.v ===== *)
(** [MemoryMap::new] maps the [PageInfo] array and keeps the frames it used for
    that out of the map it returns. *)
From S2P Require Import Prelude X86 Layout Mm Region Pmm AddrSpace.

(** The address of a frame's [PageInfo]. *)
Definition slot (f : PhysFrame) : Z := PAGE_INFO_OFFSET + start_address f / PAGE_SIZE * 16.



Section paging.
Context {PT : Type} `{HP : Paging PT, !PagingLaws PT}.








Context `{Build, HX : X86_64, !X86_64_Laws, HA : ArrayVec, !ArrayVec_Laws}.






(** * The whole construction *)







End paging.

(** * A page table for concrete runs: the mapped pages and their frames; each
    new mapping takes one frame for a table *)

Definition paging_ref : Paging (gmap Z Z) := {|
  Page_containing := page_of;
  range_inclusive s e :=
    frames_from (start_address s) (Z.to_nat ((start_address e - start_address s) / FRAME_SIZE) + 1);
  PRESENT := 1; WRITABLE := 2; GLOBAL := 256;
  OffsetPageTable_new _ _ := ∅;
  translate pt va := (λ f, f + va mod FRAME_SIZE) <$> pt !! page_of va;
  mapper_map_to A alloc pt page f flags a :=
    match pt !! page with
    | Some _ => Ok (Some PageAlreadyMapped, pt, a)
    | None =>
        '(o, a) ← alloc a;
        match o with
        | None => Ok (Some FrameAllocationFailed, pt, a)
        | Some _ => Ok (None, <[page := start_address f]> pt, a)
        end
    end
|}.

#[global] Instance paging_ref_laws : @PagingLaws (gmap Z Z) paging_ref.
Proof.
  split; simpl; try done.
  - intros pt va va' ->. by rewrite !fmap_is_Some.
  - intros pt va f flags Hn. apply fmap_None in Hn. exists 1%nat. split; [lia|].
    intros A alloc a a' Ha. cbn in Ha. rewrite Hn.
    destruct (alloc a) as [[[g|] a1]|]; simplify_eq/=. eexists. split; [done|].
    intros va'. rewrite !fmap_is_Some, <-!elem_of_dom, dom_insert. set_solver.
Qed.

(** * Properties *)


(** The [PageInfo] of the frame whose slot causes a page of the array
    to be mapped is never initialised: only the slots found mapped already are
    written.  On seven pages of memory the array page is mapped for the first
    frame, filled with 0xB8, and all slots but the first are written. *)
Theorem memory_map_new_skips_first_slot :
  ∃ pt' m ev,
    @MemoryMap_new debug_build x86_64_ref arrayvec_ref _ paging_ref
      [mkMemoryRegion true false 0x1000 0x8000] ∅ = Ok (pt', (m, ev)) ∧
    is_Some (@translate _ paging_ref pt' (slot (mkFrame 0x1000))) ∧
    (PageInfoWritten (slot (mkFrame 0x1000)) ∉ ev) ∧
    (PageInfoWritten (slot (mkFrame 0x2000)) ∈ ev) ∧
    Filled (mkMemSet (0x1000 + PHYS_OFFSET) 0xB8 4096) ∈ ev.
Proof.
  do 3 eexists. split; [vm_compute; reflexivity|]. split; [by vm_compute; eexists|].
  rewrite !elem_of_cons, elem_of_nil. vm_compute. split_and!; [naive_solver congruence|auto 10..].
Qed.

