(* ===== verification/BootMemory.v ===== *)
(** The boot memory map and the physical memory manager together: what
    [MemoryMap::new] leaves is what [PhysAllocator::init] manages. *)
From S2P Require Import Prelude X86 Layout Mm Region Buddy Pmm PmmRefinement PmmNew PmmInit AddrSpace MemoryMapNew.







Section boot.
Context {PT : Type} `{HP : Paging PT, !PagingLaws PT}
  `{Build, HX : X86_64, !X86_64_Laws, HA : ArrayVec, !ArrayVec_Laws}.



End boot.

(** * Witness *)



