(* ===== verification/Descriptors.v ===== *)
(** The descriptor tables of [src/cpu/gdt.rs] and [src/cpu/idt.rs]: the task
    state segment, the GDT and the IDT the kernel builds.  The structures are
    types of the [x86_64] crate; what the kernel calls of them is the class
    [Structures], with the documented behaviour in [Structures_Laws]. *)
From S2P Require Import Prelude X86.

(** * Structures of the crate *)

Record TaskStateSegment := mkTss { interrupt_stack_table : list Z }.

(** [Descriptor::kernel_code_segment()], [Descriptor::tss_segment(&tss)] *)
Inductive Descriptor := KernelCodeSegment | TssSegment (tss : TaskStateSegment).

(** A GDT is an array of 8-byte slots; a system segment takes two of them. *)
Inductive Slot :=
  | NullSlot
  | UserSlot (d : Descriptor)
  | SystemLow (tss : TaskStateSegment)
  | SystemHigh (tss : TaskStateSegment).
Abbreviation GlobalDescriptorTable := (list Slot).

Definition slots (d : Descriptor) : list Slot :=
  match d with
  | KernelCodeSegment => [UserSlot d]
  | TssSegment tss => [SystemLow tss; SystemHigh tss]
  end.

(** The privilege level the kernel passes, [PrivilegeLevel::Ring0]. *)
Definition Ring0 : Z := 0.

Class Structures := {
  TaskStateSegment_new : TaskStateSegment;
  VirtAddr_from_ptr : Z → outcome Z;
  VirtAddr_add : Z → Z → outcome Z;
  GlobalDescriptorTable_new : GlobalDescriptorTable;
  (** the selector of the new segment and the table *)
  add_entry : GlobalDescriptorTable → Descriptor → outcome (Z * GlobalDescriptorTable);
  SegmentSelector_new : Z → Z → Z
}.

Class Structures_Laws `{Structures} : Prop := {
  (** Seven interrupt stacks. *)
  TaskStateSegment_new_law : length (interrupt_stack_table TaskStateSegment_new) = 7%nat;
  VirtAddr_from_ptr_law p : canonical p → VirtAddr_from_ptr p = Ok p;
  VirtAddr_add_law a n : canonical a → 0 ≤ n → canonical (a + n) → VirtAddr_add a n = Ok (a + n);
  (** "Creates an empty GDT": the null descriptor only. *)
  GlobalDescriptorTable_new_law : GlobalDescriptorTable_new = [NullSlot];
  (** "Adds the given segment descriptor to the GDT, returning the segment
      selector.  Panics if the GDT has no free entries left" (there are 8). *)
  add_entry_law t d : (length t + length (slots d) ≤ 8)%nat →
    add_entry t d = Ok (SegmentSelector_new (Z.of_nat (length t)) Ring0, t ++ slots d);
  (** "Creates a new SegmentSelector: index in GDT or LDT array (not the
      offset), the requested privilege level". *)
  SegmentSelector_new_law i rpl : 0 ≤ i < 2 ^ 13 → 0 ≤ rpl < 4 →
    SegmentSelector_new i rpl = Z.shiftl i 3 + rpl
}.

(** * [gdt.rs] *)

Section gdt.
Context `{Structures}.

Definition DOUBLE_FAULT_IST_INDEX : Z := 0.
Definition STACK_SIZE : Z := 4096.

(** The [lazy_static] [TSS]; [STACK] is the address of the static array. *)
Definition TSS (STACK : Z) : outcome TaskStateSegment :=
  let tss := TaskStateSegment_new in
  stack_start ← VirtAddr_from_ptr STACK;
  stack_end ← VirtAddr_add stack_start STACK_SIZE;
  ist ← index_set (interrupt_stack_table tss) DOUBLE_FAULT_IST_INDEX stack_end;
  Ok (mkTss ist).

(** The [lazy_static] [GDT] *)
Definition GDT (STACK : Z) : outcome GlobalDescriptorTable :=
  let gdt := GlobalDescriptorTable_new in
  '(_, gdt) ← add_entry gdt KernelCodeSegment;
  tss ← TSS STACK;
  '(_, gdt) ← add_entry gdt (TssSegment tss);
  Ok gdt.

End gdt.

(** * [idt.rs]: the handlers and the table *)

(** The exception handlers of the kernel. *)
Inductive handler :=
  | divide_error_handler | debug_handler | non_maskable_interrupt_handler
  | breakpoint_handler | overflow_handler | bound_range_exceeded_handler
  | invalid_opcode_handler | device_not_available_handler | double_fault_handler
  | invalid_tss_handler | segment_not_present_handler | stack_segment_fault_handler
  | general_protection_fault_handler | page_fault_handler | x87_floating_point_handler
  | alignment_check_handler | machine_check_handler | simd_floating_point_handler
  | virtualization_handler | security_exception_handler.

#[global] Instance handler_eq_dec : EqDecision handler.
Proof. solve_decision. Defined.

(** The fields of [InterruptDescriptorTable] the kernel sets. *)
Inductive exception :=
  | divide_error | debug | non_maskable_interrupt | breakpoint | overflow
  | bound_range_exceeded | invalid_opcode | device_not_available | double_fault
  | invalid_tss | segment_not_present | stack_segment_fault
  | general_protection_fault | page_fault | x87_floating_point | alignment_check
  | machine_check | simd_floating_point | virtualization | security_exception.

(** "The vector number of the ... exception is n" in the crate's documentation
    of the field. *)
Definition vector (e : exception) : Z :=
  match e with
  | divide_error => 0 | debug => 1 | non_maskable_interrupt => 2 | breakpoint => 3
  | overflow => 4 | bound_range_exceeded => 5 | invalid_opcode => 6
  | device_not_available => 7 | double_fault => 8 | invalid_tss => 10
  | segment_not_present => 11 | stack_segment_fault => 12
  | general_protection_fault => 13 | page_fault => 14 | x87_floating_point => 16
  | alignment_check => 17 | machine_check => 18 | simd_floating_point => 19
  | virtualization => 20 | security_exception => 30
  end.

(** A present gate: the handler and the index of its interrupt stack, if any. *)
Record Gate := mkGate { gate_handler : handler; gate_stack : option Z }.
Abbreviation InterruptDescriptorTable := (gmap Z Gate).

#[global] Instance Gate_eq_dec : EqDecision Gate.
Proof. solve_decision. Defined.

(** [Entry::set_handler_fn] makes the gate present, with no stack switch;
    [EntryOptions::set_stack_index] selects an interrupt stack. *)
Definition set_handler_fn (e : exception) (h : handler) (t : InterruptDescriptorTable) :
    InterruptDescriptorTable := <[vector e := mkGate h None]> t.
Definition set_stack_index (e : exception) (i : Z) (t : InterruptDescriptorTable) :
    InterruptDescriptorTable := alter (λ g, mkGate (gate_handler g) (Some i)) (vector e) t.

(** The [lazy_static] [IDT] *)
Definition IDT : InterruptDescriptorTable :=
  let idt := ∅ in
  let idt := set_handler_fn divide_error divide_error_handler idt in
  let idt := set_handler_fn debug debug_handler idt in
  let idt := set_handler_fn non_maskable_interrupt non_maskable_interrupt_handler idt in
  let idt := set_handler_fn breakpoint breakpoint_handler idt in
  let idt := set_handler_fn overflow overflow_handler idt in
  let idt := set_handler_fn bound_range_exceeded bound_range_exceeded_handler idt in
  let idt := set_handler_fn invalid_opcode invalid_opcode_handler idt in
  let idt := set_handler_fn device_not_available device_not_available_handler idt in
  let idt := set_stack_index double_fault DOUBLE_FAULT_IST_INDEX
               (set_handler_fn double_fault double_fault_handler idt) in
  let idt := set_handler_fn invalid_tss invalid_tss_handler idt in
  let idt := set_handler_fn segment_not_present segment_not_present_handler idt in
  let idt := set_handler_fn stack_segment_fault stack_segment_fault_handler idt in
  let idt := set_handler_fn general_protection_fault general_protection_fault_handler idt in
  let idt := set_handler_fn page_fault page_fault_handler idt in
  let idt := set_handler_fn x87_floating_point x87_floating_point_handler idt in
  let idt := set_handler_fn alignment_check alignment_check_handler idt in
  let idt := set_handler_fn machine_check machine_check_handler idt in
  let idt := set_handler_fn simd_floating_point simd_floating_point_handler idt in
  let idt := set_handler_fn virtualization virtualization_handler idt in
  set_handler_fn security_exception security_exception_handler idt.

(** * Reference implementation of the crate's structures *)

Definition ref_add_entry (t : GlobalDescriptorTable) (d : Descriptor) :
    outcome (Z * GlobalDescriptorTable) :=
  if (length t + length (slots d) <=? 8)%nat
  then Ok (Z.shiftl (Z.of_nat (length t)) 3 + 0, t ++ slots d) else Panic PanicCrate.

Definition canonicalb (a : Z) : bool :=
  ((0 <=? a) && (a <? 2 ^ 47)) || ((2 ^ 64 - 2 ^ 47 <=? a) && (a <? 2 ^ 64)).

Definition structures_ref : Structures := {|
  TaskStateSegment_new := mkTss (replicate 7 0);
  VirtAddr_from_ptr p := if canonicalb p then Ok p else Panic PanicCrate;
  VirtAddr_add a n := if canonicalb (a + n) then Ok (a + n) else Panic PanicCrate;
  GlobalDescriptorTable_new := [NullSlot];
  add_entry := ref_add_entry;
  SegmentSelector_new i rpl := Z.shiftl i 3 + rpl
|}.

Lemma canonicalb_true a : canonical a → canonicalb a = true.
Proof.
  unfold canonicalb. intros [[??]|[??]]; apply orb_true_iff; [left|right];
    (apply andb_true_iff; split; [by apply Z.leb_le|by apply Z.ltb_lt]).
Qed.

#[global] Instance structures_ref_laws : @Structures_Laws structures_ref.
Proof.
  split; simpl; try done.
  - intros p Hp. by rewrite canonicalb_true.
  - intros a n _ _ Ha. by rewrite canonicalb_true.
  - intros t d Hl. unfold ref_add_entry. by rewrite (proj2 (Nat.leb_le _ _)).
Qed.

(** * Lemmas *)

Section tables.
Context `{Structures, !Structures_Laws}.

(** The table stack of the double fault ends [STACK_SIZE] bytes behind [STACK]. *)
Lemma TSS_spec STACK :
  canonical STACK → canonical (STACK + STACK_SIZE) →
  ∃ tss, TSS STACK = Ok tss ∧
    interrupt_stack_table tss !! Z.to_nat DOUBLE_FAULT_IST_INDEX = Some (STACK + STACK_SIZE).
Proof.
  intros Hs He. unfold TSS. rewrite VirtAddr_from_ptr_law by done. ok_simpl.
  rewrite VirtAddr_add_law by (done || unfold STACK_SIZE; lia). ok_simpl.
  pose proof TaskStateSegment_new_law as Hlen.
  rewrite index_set_ok by (unfold DOUBLE_FAULT_IST_INDEX; lia). ok_simpl.
  eexists. split; [done|]. simpl. apply list_lookup_insert_eq. unfold DOUBLE_FAULT_IST_INDEX. lia.
Qed.

Lemma GDT_spec STACK tss :
  TSS STACK = Ok tss →
  GDT STACK = Ok [NullSlot; UserSlot KernelCodeSegment; SystemLow tss; SystemHigh tss].
Proof.
  intros Ht. unfold GDT. rewrite GlobalDescriptorTable_new_law.
  rewrite add_entry_law by (simpl; lia). ok_simpl. rewrite Ht. ok_simpl.
  by rewrite add_entry_law by (simpl; lia).
Qed.

End tables.
