(* ===== verification/Machine.v ===== *)
(** The machine the kernel runs on: programs with input and output as
    interaction trees, and their execution.

    Code that talks to devices, changes processor state or may run for ever is
    an [itree machE A]: a tree of events with results at its leaves.  The events
    are port accesses, processor instructions, accesses to the kernel's statics
    and panics.  [step] executes one event on a [machine] (statics, processor,
    devices); a panic transfers control to the [#[panic_handler]], a parameter
    here and given in [Kernel].  [steps] is the step relation with the trace of
    what the devices see, [returns_to] and [diverges] describe runs that end and
    runs that do not. *)
From S2P Require Import Prelude X86 Region Pmm PerCpu SpinLock Ransid TextMode Descriptors.
From ITree Require Import Core.ITreeDefinition.

(** * State *)

(** Levels and filters of the [log] crate. *)
Inductive Level := LError | LWarn | LInfo | LDebug | LTrace.
Inductive LevelFilter := Off | Error | Warn | Info | Debug | Trace.

(** [macros::ScreenLocker]: the console behind its spin lock, here the lock's
    flag. *)
Record ScreenLocker := mkScreen { screen_locked : bool; screen : Writer }.

(** The statics of the kernel.  [SCREEN] is [None] before its first use; [vram]
    is what the character memory holds before that.  [preempts] is the preemption
    counter of the CPU. *)
Record Globals := mkGlobals {
  SCREEN : option ScreenLocker;
  vram : list Z;
  preempts : Z;
  logger_set : bool;
  max_level : LevelFilter;
  SLP_TYPA : Z;
  PHYS : option (list Zone)
}.

(** The processor state the kernel changes. *)
Record Segments := mkSegments { cs : Z; ds : Z; es : Z; fs : Z; gs : Z; ss : Z }.
Inductive segment := DS | ES | FS | GS | SS | CS.

Record Cpu := mkCpu {
  IF : bool;
  gdtr : GlobalDescriptorTable;
  idtr : InterruptDescriptorTable;
  segs : Segments;
  tr : Z
}.

(** Devices answer port reads and take port writes of 8, 16 or 32 bits; memory
    that is mapped can be read. *)
Class Devices (D : Type) := {
  dev_in : Z → Z → D → Z * D;
  dev_out : Z → Z → Z → D → D;
  dev_mem16 : Z → D → option Z;
  dev_cpuid : Z → D → Z * Z * Z * Z
}.

Record machine (D : Type) := mkMachine { globals : Globals; cpu : Cpu; devices : D }.
Arguments mkMachine {D}.
Arguments globals {D}.
Arguments cpu {D}.
Arguments devices {D}.

(** * Events and programs *)

Variant machE : Type → Type :=
  | PortIn (w p : Z) : machE Z                     (* [PortRead::read_from_port] *)
  | PortOut (w p v : Z) : machE unit               (* [PortWrite::write_to_port] *)
  | ReadU16 (a : Z) : machE (option Z)             (* a read through a raw pointer *)
  | Cpuid (leaf : Z) : machE (Z * Z * Z * Z)       (* [__cpuid] *)
  | InterruptFlag : machE bool
  | Cli : machE unit
  | Sti : machE unit
  | Hlt : machE unit
  | Lgdt (t : GlobalDescriptorTable) : machE unit
  | Lidt (t : InterruptDescriptorTable) : machE unit
  | LoadSegment (s : segment) (sel : Z) : machE unit
  | Ltr (sel : Z) : machE unit
  | Access {A} (f : Globals → A * Globals) : machE A  (* the kernel's statics *)
  | Panicked (p : panic) : machE Empty_set.

Abbreviation M := (itree machE).

#[global] Instance M_ret : MRet M := λ A a, Ret a.
#[global] Instance M_bind : MBind M := λ A B k t, ITree.bind t k.

Definition trigger {A} (e : machE A) : M A := ITree.trigger e.

(** [panic!] and the panics of the other components. *)
Definition raise {A} (p : panic) : M A :=
  ITree.bind (trigger (Panicked p)) (λ v : Empty_set, match v with end).
Definition lift {A} (o : outcome A) : M A :=
  match o with Ok a => mret a | Panic p => raise p end.

(** [loop { body }], and a loop whose body says when to [break]. *)
Definition loop {A R} (body : M A) : M R :=
  ITree.iter (λ _ : unit, body ≫= λ _, Ret (inl tt)) tt.
Definition loop_until {R} (body : M (option R)) : M R :=
  ITree.iter (λ _ : unit, body ≫= λ o, Ret (match o with Some r => inr r | None => inl tt end)) tt.

Definition while_ {S} (cond : S → bool) (body : S → M S) (s : S) : M S :=
  ITree.iter (λ s, if cond s then body s ≫= λ s', Ret (inl s') else Ret (inr s)) s.

(** [loop { let v = read_from_port(p); if ok(v) { break; } }] *)
Definition poll {R} (w p : Z) (ok : Z → bool) (r : Z → R) : M R :=
  loop_until (trigger (PortIn w p) ≫= λ v, mret (if ok v then Some (r v) else None)).

(** [for x in l { body(x) }] *)
Fixpoint for_each {A} (l : list A) (body : A → M unit) : M unit :=
  match l with
  | [] => mret tt
  | a :: l' => body a ≫= λ _, for_each l' body
  end.

(** A sequence of port writes. *)
Definition outs (ws : list PortWrite) : M unit :=
  for_each ws (λ w, trigger (PortOut (width w) (port w) (value w))).

(** * Execution *)

(** What the devices see. *)
Inductive obs :=
  | In (w p v : Z)
  | Out (w p v : Z)
  | SetIF (b : bool)
  | Halt.

Definition load_segment (s : segment) (sel : Z) (r : Segments) : Segments :=
  match s with
  | CS => mkSegments sel (ds r) (es r) (fs r) (gs r) (ss r)
  | DS => mkSegments (cs r) sel (es r) (fs r) (gs r) (ss r)
  | ES => mkSegments (cs r) (ds r) sel (fs r) (gs r) (ss r)
  | FS => mkSegments (cs r) (ds r) (es r) sel (gs r) (ss r)
  | GS => mkSegments (cs r) (ds r) (es r) (fs r) sel (ss r)
  | SS => mkSegments (cs r) (ds r) (es r) (fs r) (gs r) sel
  end.

Definition set_IF (b : bool) (c : Cpu) : Cpu := mkCpu b (gdtr c) (idtr c) (segs c) (tr c).
Definition set_gdtr (t : GlobalDescriptorTable) (c : Cpu) : Cpu := mkCpu (IF c) t (idtr c) (segs c) (tr c).
Definition set_idtr (t : InterruptDescriptorTable) (c : Cpu) : Cpu := mkCpu (IF c) (gdtr c) t (segs c) (tr c).
Definition set_segs (s : Segments) (c : Cpu) : Cpu := mkCpu (IF c) (gdtr c) (idtr c) s (tr c).
Definition set_tr (sel : Z) (c : Cpu) : Cpu := mkCpu (IF c) (gdtr c) (idtr c) (segs c) sel.

Section execution.
Context {D : Type} `{Devices D}.

Definition set_cpu (f : Cpu → Cpu) (m : machine D) : machine D :=
  mkMachine (globals m) (f (cpu m)) (devices m).
Definition set_globals (g : Globals) (m : machine D) : machine D :=
  mkMachine g (cpu m) (devices m).
Definition set_devices (d : D) (m : machine D) : machine D :=
  mkMachine (globals m) (cpu m) d.

(** One event: a panic, or what is seen, the answer and the new machine. *)
Definition handle {A} (e : machE A) (m : machine D) : panic + list obs * A * machine D :=
  match e in machE X return panic + list obs * X * machine D with
  | PortIn w p => let '(v, d) := dev_in w p (devices m) in inr ([In w p v], v, set_devices d m)
  | PortOut w p v => inr ([Out w p v], tt, set_devices (dev_out w p v (devices m)) m)
  | ReadU16 a => inr ([], dev_mem16 a (devices m), m)
  | Cpuid leaf => inr ([], dev_cpuid leaf (devices m), m)
  | InterruptFlag => inr ([], IF (cpu m), m)
  | Cli => inr ([SetIF false], tt, set_cpu (set_IF false) m)
  | Sti => inr ([SetIF true], tt, set_cpu (set_IF true) m)
  | Hlt => inr ([Halt], tt, m)
  | Lgdt t => inr ([], tt, set_cpu (set_gdtr t) m)
  | Lidt t => inr ([], tt, set_cpu (set_idtr t) m)
  | LoadSegment s sel => inr ([], tt, set_cpu (λ c, set_segs (load_segment s sel (segs c)) c) m)
  | Ltr sel => inr ([], tt, set_cpu (set_tr sel) m)
  | Access f => let '(a, g) := f (globals m) in inr ([], a, set_globals g m)
  | Panicked p => inl p
  end.

(** One step of a tree that has not returned. *)
Definition next {A} (o : itree' machE A) (m : machine D) :
    option (list obs * (panic + itree' machE A) * machine D) :=
  match o with
  | RetF _ => None
  | TauF t => Some ([], inr (observe t), m)
  | VisF e k =>
      match handle e m with
      | inl p => Some ([], inl p, m)
      | inr (l, a, m') => Some (l, inr (observe (k a)), m')
      end
  end.

(** A program is running, or the panic handler is. *)
Inductive conf (A : Type) := Running (o : itree' machE A) | InPanic (o : itree' machE Empty_set).
Arguments Running {A}.
Arguments InPanic {A}.

(** The [#[panic_handler]], which never returns. *)
Context (panic_handler : panic → M Empty_set).

Definition step {A} (c : conf A) (m : machine D) : option (list obs * conf A * machine D) :=
  match c with
  | Running o =>
      '(l, r, m') ← next o m;
      Some (l, match r with inl p => InPanic (observe (panic_handler p)) | inr o' => Running o' end, m')
  | InPanic o =>
      '(l, r, m') ← next o m;
      Some (l, InPanic match r with inl p => observe (panic_handler p) | inr o' => o' end, m')
  end.

Inductive steps {A} : nat → conf A → machine D → list obs → conf A → machine D → Prop :=
  | steps_refl c m : steps 0 c m [] c m
  | steps_step n c m l1 c1 m1 l2 c2 m2 :
      step c m = Some (l1, c1, m1) → steps n c1 m1 l2 c2 m2 →
      steps (S n) c m (l1 ++ l2) c2 m2.

(** The same as a function, to run programs on concrete machines. *)
Fixpoint run {A} (n : nat) (c : conf A) (m : machine D) : list obs * conf A * machine D :=
  match n with
  | O => ([], c, m)
  | S n' =>
      match step c m with
      | None => ([], c, m)
      | Some (l1, c1, m1) => let '(l2, c2, m2) := run n' c1 m1 in (l1 ++ l2, c2, m2)
      end
  end.

Definition start {A} (t : M A) : conf A := Running (observe t).

(** [t] ends with [a]. *)
Definition returns_to {A} (t : M A) (m : machine D) (l : list obs) (a : A) (m' : machine D) : Prop :=
  ∃ n, steps n (start t) m l (Running (RetF a)) m'.

(** [t] reaches [p]'s panic handler. *)
Definition panics_to {A} (t : M A) (m : machine D) (l : list obs) (p : panic) (m' : machine D) : Prop :=
  ∃ n, steps n (start t) m l (InPanic (observe (panic_handler p))) m'.

(** [t] runs for ever and does not panic. *)
Definition diverges {A} (t : M A) (m : machine D) : Prop :=
  ∀ n, ∃ l o m', steps n (start t) m l (Running o) m'.

End execution.

Arguments Running {A}.
Arguments InPanic {A}.

(** * Reasoning about runs *)

Section lemmas.
Context {D : Type} `{Devices D} (panic_handler : panic → M Empty_set).

Abbreviation step := (step panic_handler).
Abbreviation steps := (steps panic_handler).
Abbreviation returns_to := (returns_to panic_handler).
Abbreviation panics_to := (panics_to panic_handler).
Abbreviation diverges := (diverges panic_handler).
Implicit Types (m : machine D) (l : list obs).

Lemma machine_run_steps {A} n (c : conf A) m l c' m' :
  run panic_handler n c m = (l, c', m') → ∃ k, steps k c m l c' m'.
Proof.
  revert c m l. induction n as [|n IH]; intros c m l; simpl.
  { intros [= <- <- <-]. exists 0%nat. constructor. }
  destruct (step c m) as [[[l1 c1] m1]|] eqn:Es; [|intros [= <- <- <-]; exists 0%nat; constructor].
  destruct (run panic_handler n c1 m1) as [[l2 c2] m2] eqn:Er. intros [= <- <- <-].
  destruct (IH _ _ _ Er) as [k Hk]. exists (S k). econstructor; [exact Es|exact Hk].
Qed.

Lemma steps_trans {A} n1 n2 (c1 c2 c3 : conf A) m1 m2 m3 l1 l2 :
  steps n1 c1 m1 l1 c2 m2 → steps n2 c2 m2 l2 c3 m3 → steps (n1 + n2) c1 m1 (l1 ++ l2) c3 m3.
Proof.
  induction 1 as [|n c m la ca ma lb cb mb Hs _ IH]; intros H2; [done|].
  rewrite <-app_assoc. simpl. econstructor; [done|]. by apply IH.
Qed.

(** Execution is deterministic. *)
Lemma steps_det {A} n (c c1 c2 : conf A) m m1 m2 l1 l2 :
  steps n c m l1 c1 m1 → steps n c m l2 c2 m2 → l1 = l2 ∧ c1 = c2 ∧ m1 = m2.
Proof.
  intros H1. revert l2 c2 m2. induction H1 as [|n c m la ca ma lb cb mb Hs _ IH]; intros l2 c2 m2 H2;
    inversion H2 as [|? ? ? ? ? ? ? ? ? Hst Hrest]; simplify_eq; [done|].
  by destruct (IH _ _ _ Hrest) as (-> & -> & ->).
Qed.

Lemma steps_prefix {A} n k (c c' : conf A) m m' l :
  steps (n + k) c m l c' m' → ∃ l1 c1 m1 l2, steps n c m l1 c1 m1 ∧ steps k c1 m1 l2 c' m' ∧ l = l1 ++ l2.
Proof.
  revert c m l. induction n as [|n IH]; intros c m l Hs.
  { exists [], c, m, l. split; [constructor|done]. }
  inversion Hs as [|? ? ? la ca ma lb ? ? Hst Hrest]; subst.
  destruct (IH _ _ _ Hrest) as (l1' & c1' & m1' & l2' & ? & ? & ->).
  exists (la ++ l1'), c1', m1', l2'. rewrite <-app_assoc. split; [by econstructor|done].
Qed.

(** The panic handler does not give control back. *)
Lemma steps_InPanic {A} n o (c : conf A) m m' l :
  steps n (InPanic o) m l c m' → ∃ o', c = InPanic o'.
Proof.
  remember (InPanic o) as c0 eqn:Hc. intros Hs. revert o Hc.
  induction Hs as [|n c1 m1 la ca ma lb cb mb Hs _ IH]; intros o ->; [by eexists|].
  simpl in Hs. destruct (next o m1) as [[[? [?|?]] ?]|]; simplify_eq/=; by eapply IH.
Qed.

(** ** Sequencing *)

Definition cbind {A B} (c : conf A) (k : A → M B) : conf B :=
  match c with
  | Running o => Running (observe (ITree.bind (go o) k))
  | InPanic o => InPanic o
  end.

Lemma step_cbind {A B} (c c' : conf A) (k : A → M B) m m' l :
  step c m = Some (l, c', m') → step (cbind c k) m = Some (l, cbind c' k, m').
Proof.
  destruct c as [[a|t|X e h]|o]; simpl; [done| | |].
  - by intros [= <- <- <-].
  - destruct (handle e m) as [p|[[lx x] mx]]; simpl; by intros [= <- <- <-].
  - destruct (next o m) as [[[? [?|?]] ?]|]; simpl; by intros [= <- <- <-].
Qed.

Lemma steps_cbind {A B} n (c c' : conf A) (k : A → M B) m m' l :
  steps n c m l c' m' → steps n (cbind c k) m l (cbind c' k) m'.
Proof. induction 1; econstructor; eauto using step_cbind. Qed.

Lemma returns_to_ret {A} (a : A) m : returns_to (mret a) m [] a m.
Proof. exists 0%nat. constructor. Qed.

Lemma returns_to_bind {A B} (t : M A) (k : A → M B) m m1 m2 l1 l2 a b :
  returns_to t m l1 a m1 → returns_to (k a) m1 l2 b m2 →
  returns_to (t ≫= k) m (l1 ++ l2) b m2.
Proof.
  intros [n1 H1] [n2 H2]. exists (n1 + n2)%nat.
  apply (steps_cbind _ _ _ k) in H1. by eapply steps_trans.
Qed.

(** Two sequences that differ only in how a [Ret] is written out. *)
Lemma returns_to_bind_nil {A B} (t : M A) (k : A → M B) m m1 m2 l a b :
  returns_to t m [] a m1 → returns_to (k a) m1 l b m2 → returns_to (t ≫= k) m l b m2.
Proof. intros H1 H2. by apply (returns_to_bind _ _ _ _ _ _ _ _ _ H1 H2). Qed.

Lemma returns_to_trigger {A} (e : machE A) m m' l a :
  handle e m = inr (l, a, m') → returns_to (trigger e) m l a m'.
Proof.
  intros He. exists 1%nat. rewrite <-(app_nil_r l). econstructor; [|constructor].
  simpl. by rewrite He.
Qed.

Lemma returns_to_lift {A} (o : outcome A) m a : o = Ok a → returns_to (lift o) m [] a m.
Proof. intros ->. apply returns_to_ret. Qed.

(** Runs of the rest of a sequence. *)
Lemma steps_bind {A B} (t : M A) (k : A → M B) m m1 m2 l1 l2 a n c :
  returns_to t m l1 a m1 → steps n (start (k a)) m1 l2 c m2 →
  ∃ n', (n ≤ n')%nat ∧ steps n' (start (t ≫= k)) m (l1 ++ l2) c m2.
Proof.
  intros [n1 H1] H2. exists (n1 + n)%nat. split; [lia|].
  apply (steps_cbind _ _ _ k) in H1. by eapply steps_trans.
Qed.

Lemma steps_bind_nil {A B} (t : M A) (k : A → M B) m m1 m2 l a n c :
  returns_to t m [] a m1 → steps n (start (k a)) m1 l c m2 →
  ∃ n', (n ≤ n')%nat ∧ steps n' (start (t ≫= k)) m l c m2.
Proof. intros H1 H2. by apply (steps_bind _ _ _ _ _ _ _ _ _ _ H1 H2). Qed.

Lemma steps_bind_l {A B} (t : M A) (k : A → M B) n m l o m' :
  steps n (start t) m l (Running o) m' → ∃ o', steps n (start (t ≫= k)) m l (Running o') m'.
Proof. intros Hs. apply (steps_cbind _ _ _ k) in Hs. by eexists. Qed.

(** [t] started in [m] shows [l] and goes on as [t'] in [m1]. *)
Definition leads_to {A} (t : M A) m l (t' : M A) m1 : Prop :=
  ∀ n l2 c m2, steps n (start t') m1 l2 c m2 →
    ∃ k, (n ≤ k)%nat ∧ steps k (start t) m (l ++ l2) c m2.

Lemma leads_to_refl {A} (t : M A) m : leads_to t m [] t m.
Proof. intros n l2 c m2 Hs. by exists n. Qed.

Lemma leads_to_bind {A B} (t : M A) (k : A → M B) m l1 a m1 l2 t' m2 :
  returns_to t m l1 a m1 → leads_to (k a) m1 l2 t' m2 → leads_to (t ≫= k) m (l1 ++ l2) t' m2.
Proof.
  intros Ht Hk n l3 c m3 Hs. destruct (Hk _ _ _ _ Hs) as (n1 & ? & Hs1).
  destruct (steps_bind _ _ _ _ _ _ _ _ _ _ Ht Hs1) as (n2 & ? & Hs2).
  exists n2. rewrite <-app_assoc. split; [lia|done].
Qed.

Lemma leads_to_returns {A} (t t' : M A) m l m1 l1 a m2 :
  leads_to t m l t' m1 → returns_to t' m1 l1 a m2 → returns_to t m (l ++ l1) a m2.
Proof. intros Ht [n Hr]. destruct (Ht _ _ _ _ Hr) as (k & _ & Hs). by exists k. Qed.

Lemma leads_to_panics {A} (t t' : M A) m l m1 l1 p m2 :
  leads_to t m l t' m1 → panics_to t' m1 l1 p m2 → panics_to t m (l ++ l1) p m2.
Proof. intros Ht [n Hr]. destruct (Ht _ _ _ _ Hr) as (k & _ & Hs). by exists k. Qed.

Lemma leads_to_step {A B} (t : M A) (k : A → M B) m l a m1 :
  returns_to t m l a m1 → leads_to (t ≫= k) m l (k a) m1.
Proof.
  intros Ht. rewrite <-(app_nil_r l). by eapply leads_to_bind, leads_to_refl.
Qed.

Lemma leads_to_trans {A} (t t1 t2 : M A) m l1 m1 l2 m2 :
  leads_to t m l1 t1 m1 → leads_to t1 m1 l2 t2 m2 → leads_to t m (l1 ++ l2) t2 m2.
Proof.
  intros H1 H2 n l c m3 Hs. destruct (H2 _ _ _ _ Hs) as (n1 & ? & Hs1).
  destruct (H1 _ _ _ _ Hs1) as (n2 & ? & Hs2). exists n2. rewrite <-app_assoc. split; [lia|done].
Qed.

(** A run of the handler as such is a run of it after a panic. *)
Definition in_panic {A} (c : conf Empty_set) : conf A :=
  match c with Running o | InPanic o => InPanic o end.

Lemma steps_in_panic {A} n c m l c' m' :
  steps n c m l c' m' → steps n (in_panic (A := A) c) m l (in_panic c') m'.
Proof.
  induction 1 as [|n c m l1 c1 m1 l2 c2 m2 Hs _ IH]; [constructor|]. econstructor; [|exact IH].
  destruct c as [o|o]; simpl in *; destruct (next o m) as [[[? [?|?]] ?]|]; by simplify_eq/=.
Qed.

Lemma panics_then {A} (t : M A) m l p m1 n l' c m' :
  panics_to t m l p m1 → steps n (start (panic_handler p)) m1 l' c m' →
  ∃ k, (n ≤ k)%nat ∧ steps k (start t) m (l ++ l') (in_panic c) m'.
Proof.
  intros [k1 Hs1] Hs2. exists (k1 + n)%nat. split; [lia|]. eapply steps_trans; [exact Hs1|].
  by apply (steps_in_panic (A := A)) in Hs2.
Qed.

(** Some prefix of the run shows [l] and leaves [m']. *)
Definition reaches {A} (t : M A) m l m' : Prop := ∃ n c, steps n (start t) m l c m'.

Lemma reaches_bind {A B} (t : M A) (k : A → M B) m m1 m2 l a :
  returns_to t m [] a m1 → reaches (k a) m1 l m2 → reaches (t ≫= k) m l m2.
Proof.
  intros H1 (n & c & H2). destruct (steps_bind_nil _ _ _ _ _ _ _ _ _ H1 H2) as (n' & _ & Hn). by exists n', c.
Qed.

Lemma reaches_bind_l {A B} (t : M A) (k : A → M B) m l a m' :
  returns_to t m l a m' → reaches (t ≫= k) m l m'.
Proof. intros [n Hn]. exists n. eexists. exact (steps_cbind _ _ _ k _ _ _ Hn). Qed.

Lemma panics_to_raise {A} p m : panics_to (raise p : M A) m [] p m.
Proof. exists 1%nat. change (@nil obs) with (@nil obs ++ []). econstructor; [done|constructor]. Qed.

Lemma panics_to_bind_l {A B} (t : M A) (k : A → M B) m m' l p :
  panics_to t m l p m' → panics_to (t ≫= k) m l p m'.
Proof. intros [n Hn]. exists n. apply (steps_cbind _ _ _ k) in Hn. done. Qed.

Lemma panics_to_bind {A B} (t : M A) (k : A → M B) m m1 m2 l1 l2 a p :
  returns_to t m l1 a m1 → panics_to (k a) m1 l2 p m2 → panics_to (t ≫= k) m (l1 ++ l2) p m2.
Proof.
  intros H1 [n2 H2]. destruct (steps_bind _ _ _ _ _ _ _ _ _ _ H1 H2) as (n & _ & Hn). by exists n.
Qed.

(** ** Loops *)

Lemma returns_to_iter_stop {I R} (body : I → M (I + R)) i m m' l r :
  returns_to (body i) m l (inr r) m' → returns_to (ITree.iter body i) m l r m'.
Proof.
  intros H1. rewrite <-(app_nil_r l).
  apply (returns_to_bind _ (λ lr, match lr with inl j => Tau (ITree.iter body j) | inr r => Ret r end)
    _ _ _ _ _ _ _ H1). apply returns_to_ret.
Qed.

Lemma steps_tau {A} n (t : M A) m l c m' :
  steps n (start t) m l c m' → steps (S n) (start (Tau t)) m l c m'.
Proof. intros Hs. change l with ([] ++ l). by econstructor. Qed.

Lemma returns_to_iter_again {I R} (body : I → M (I + R)) i j m m1 m2 l1 l2 r :
  returns_to (body i) m l1 (inl j) m1 → returns_to (ITree.iter body j) m1 l2 r m2 →
  returns_to (ITree.iter body i) m (l1 ++ l2) r m2.
Proof.
  intros H1 [n H2].
  apply (returns_to_bind _ (λ lr, match lr with inl j => Tau (ITree.iter body j) | inr r => Ret r end)
    _ _ _ _ _ _ _ H1). exists (S n). by apply steps_tau.
Qed.

Lemma returns_to_until_stop {R} (body : M (option R)) m m' l r :
  returns_to body m l (Some r) m' → returns_to (loop_until body) m l r m'.
Proof.
  intros Hb. apply returns_to_iter_stop. rewrite <-(app_nil_r l).
  eapply returns_to_bind; [done|]. apply returns_to_ret.
Qed.

Lemma returns_to_until_again {R} (body : M (option R)) m m1 m2 l1 l2 r :
  returns_to body m l1 None m1 → returns_to (loop_until body) m1 l2 r m2 →
  returns_to (loop_until body) m (l1 ++ l2) r m2.
Proof.
  intros Hb Hr. eapply returns_to_iter_again; [|done]. rewrite <-(app_nil_r l1).
  eapply returns_to_bind; [done|]. apply returns_to_ret.
Qed.

Lemma returns_to_while_stop {S} cond (body : S → M S) s m :
  cond s = false → returns_to (while_ cond body s) m [] s m.
Proof. intros Hc. apply returns_to_iter_stop. rewrite Hc. apply returns_to_ret. Qed.

Lemma returns_to_while_again {S} cond (body : S → M S) s s1 s2 m m1 m2 l1 l2 :
  cond s = true → returns_to (body s) m l1 s1 m1 → returns_to (while_ cond body s1) m1 l2 s2 m2 →
  returns_to (while_ cond body s) m (l1 ++ l2) s2 m2.
Proof.
  intros Hc Hb Hr. eapply returns_to_iter_again; [|done]. rewrite Hc, <-(app_nil_r l1).
  eapply returns_to_bind; [done|]. apply returns_to_ret.
Qed.

(** What the devices see of port writes, and what becomes of them. *)
Definition out_obs (w : PortWrite) : obs := Out (width w) (port w) (value w).
Definition dev_outs (ws : list PortWrite) (d : D) : D :=
  foldl (λ d w, dev_out (width w) (port w) (value w) d) d ws.

Lemma dev_outs_app ws1 ws2 d : dev_outs (ws1 ++ ws2) d = dev_outs ws2 (dev_outs ws1 d).
Proof. apply foldl_app. Qed.

Lemma returns_to_outs ws m :
  returns_to (outs ws) m (out_obs <$> ws) tt (set_devices (dev_outs ws (devices m)) m).
Proof.
  revert m. induction ws as [|w ws IH]; intros m; [destruct m; apply returns_to_ret|].
  apply (returns_to_bind (trigger _) _ m (set_devices (dev_out (width w) (port w) (value w) (devices m)) m)
    _ [out_obs w] _ tt); [by apply returns_to_trigger|].
  exact (IH (set_devices (dev_out (width w) (port w) (value w) (devices m)) m)).
Qed.

(** ** Polling a port *)

(** Reading port [p] until a value satisfies [ok] gives the values [vs]. *)
Inductive polls (w p : Z) (ok : Z → bool) : D → list Z → D → Prop :=
  | polls_now d v d' : dev_in w p d = (v, d') → ok v = true → polls w p ok d [v] d'
  | polls_later d v d' vs d'' :
      dev_in w p d = (v, d') → ok v = false → polls w p ok d' vs d'' → polls w p ok d (v :: vs) d''.

(** No read ever satisfies [ok]. *)
Definition never_ready (w p : Z) (ok : Z → bool) (d : D) : Prop :=
  ∀ n, ok (fst (dev_in w p (Nat.iter n (λ d, snd (dev_in w p d)) d))) = false.

Lemma polls_ext w p ok ok' d vs d' :
  (∀ v, ok v = ok' v) → polls w p ok d vs d' → polls w p ok' d vs d'.
Proof. intros Heq. induction 1; [eapply polls_now|eapply polls_later]; by rewrite <-?Heq. Qed.

Lemma never_ready_ext w p ok ok' d :
  (∀ v, ok v = ok' v) → never_ready w p ok d → never_ready w p ok' d.
Proof. intros Heq Hn n. rewrite <-Heq. apply Hn. Qed.

Lemma never_ready_next w p ok d : never_ready w p ok d → never_ready w p ok (snd (dev_in w p d)).
Proof. intros Hn n. specialize (Hn (S n)). by rewrite Nat.iter_succ_r in Hn. Qed.

Lemma returns_to_in {A} w p m v d (k : Z → M A) l a m' :
  dev_in w p (devices m) = (v, d) → returns_to (k v) (set_devices d m) l a m' →
  returns_to (trigger (PortIn w p) ≫= k) m (In w p v :: l) a m'.
Proof.
  intros Hd Hk. apply (returns_to_bind _ _ m (set_devices d m) _ [In w p v] _ v); [|done].
  apply returns_to_trigger. simpl. by rewrite Hd.
Qed.

Lemma returns_to_poll {R} w p ok (r : Z → R) vs d d' m :
  polls w p ok d vs d' → devices m = d →
  ∃ v, last vs = Some v ∧ ok v = true ∧
    returns_to (poll w p ok r) m (In w p <$> vs) (r v) (set_devices d' m).
Proof.
  intros Hp. revert m. induction Hp as [d v d' Hd Hv|d v d1 vs d' Hd Hv Hp IH]; intros m <-.
  - exists v. split_and!; [done..|]. apply returns_to_until_stop.
    eapply returns_to_in; [done|]. rewrite Hv. apply returns_to_ret.
  - destruct (IH (set_devices d1 m) eq_refl) as (v' & Hl & Hv' & Hr). exists v'. split_and!; [|done|].
    + by destruct vs.
    + apply (returns_to_until_again _ m (set_devices d1 m) _ [In w p v]); [|done].
      eapply returns_to_in; [done|]. rewrite Hv. apply returns_to_ret.
Qed.

(** ** Divergence *)

Lemma returns_not_diverges {A} (t : M A) m l a m' : returns_to t m l a m' → ¬ diverges t m.
Proof.
  intros [n Hn] Hd. destruct (Hd (S n)) as (l2 & o & m2 & H2).
  replace (S n) with (n + 1)%nat in H2 by lia.
  apply steps_prefix in H2 as (l1 & c1 & m1 & l3 & H1 & H3 & _).
  destruct (steps_det _ _ _ _ _ _ _ _ _ H1 Hn) as (_ & -> & _).
  inversion H3; simplify_eq.
Qed.

Lemma diverges_long {A} (t : M A) m :
  (∀ n, ∃ k l o m', (n ≤ k)%nat ∧ steps k (start t) m l (Running o) m') → diverges t m.
Proof.
  intros Hl n. destruct (Hl n) as (k & l & o & m' & Hk & Hs).
  replace k with (n + (k - n))%nat in Hs by lia.
  apply steps_prefix in Hs as (l1 & c1 & m1 & l2 & H1 & H2 & _).
  destruct c1 as [o1|o1]; [by eauto|]. apply steps_InPanic in H2 as [? ?]. done.
Qed.

Lemma leads_to_diverges {A} (t t' : M A) m l m1 : leads_to t m l t' m1 → diverges t' m1 → diverges t m.
Proof.
  intros Ht Hd. apply diverges_long. intros n. destruct (Hd n) as (l2 & o & m' & Hs).
  destruct (Ht _ _ _ _ Hs) as (k & ? & ?). eauto 6.
Qed.

Lemma diverges_bind_l {A B} (t : M A) (k : A → M B) m : diverges t m → diverges (t ≫= k) m.
Proof.
  intros Hd n. destruct (Hd n) as (l & o & m' & Hs). destruct (steps_bind_l t k _ _ _ _ _ Hs). eauto.
Qed.

Lemma diverges_bind {A B} (t : M A) (k : A → M B) m m1 l a :
  returns_to t m l a m1 → diverges (k a) m1 → diverges (t ≫= k) m.
Proof.
  intros H1 Hd. apply diverges_long. intros n. destruct (Hd n) as (l2 & o & m' & Hs).
  destruct (steps_bind _ _ _ _ _ _ _ _ _ _ H1 Hs) as (n' & Hn' & Hs'). eauto 6.
Qed.

(** A loop whose rounds keep an invariant and never ask to stop runs for ever;
    [trace] lists what the first [n] rounds show. *)
Lemma iter_rounds {I R} (body : I → M (I + R)) (Inv : I → machine D → list obs → Prop) :
  (∀ i m l, Inv i m l → ∃ l' j m', returns_to (body i) m l' (inl j) m' ∧ Inv j m' (l ++ l')) →
  ∀ n i m l, Inv i m l →
    ∃ k l' j m', (n ≤ k)%nat ∧ steps k (start (ITree.iter body i)) m l' (start (ITree.iter body j)) m' ∧
      Inv j m' (l ++ l').
Proof.
  intros Hround n. induction n as [|n IH]; intros i m l Hi.
  { exists 0%nat, [], i, m. rewrite app_nil_r. split; [lia|]. split; [constructor|done]. }
  destruct (Hround i m l Hi) as (l1 & j & m1 & [k1 H1] & Hj).
  destruct (IH j m1 _ Hj) as (k2 & l2 & j2 & m2 & Hk & H2 & Hj2).
  exists (k1 + S k2)%nat, (l1 ++ l2), j2, m2. split; [lia|]. rewrite app_assoc. split; [|done].
  eapply steps_trans; [|by apply steps_tau].
  by apply (steps_cbind _ _ _ (λ lr, match lr with inl j => Tau (ITree.iter body j) | inr r => Ret r end)) in H1.
Qed.

Lemma diverges_iter {I R} (body : I → M (I + R)) (Inv : I → machine D → Prop) i m :
  (∀ i m, Inv i m → ∃ l j m', returns_to (body i) m l (inl j) m' ∧ Inv j m') →
  Inv i m → diverges (ITree.iter body i) m.
Proof.
  intros Hround Hi. apply diverges_long. intros n.
  destruct (iter_rounds body (λ i m _, Inv i m)) with (n := n) (i := i) (m := m) (l := @nil obs)
    as (k & l' & j & m' & Hk & Hs & _); [naive_solver|done|].
  by exists k, l', (observe (ITree.iter body j)), m'.
Qed.

Lemma diverges_until {R} (body : M (option R)) (Inv : machine D → Prop) m :
  (∀ m, Inv m → ∃ l m', returns_to body m l None m' ∧ Inv m') → Inv m → diverges (loop_until body) m.
Proof.
  intros Hround Hm. apply (diverges_iter _ (λ _, Inv)); [|done].
  intros [] m1 H1. destruct (Hround m1 H1) as (l & m' & Hb & Hm'). exists (l ++ []), tt, m'. split; [|done].
  eapply returns_to_bind; [done|]. apply returns_to_ret.
Qed.

(** A [loop] after its first round. *)
Lemma steps_loop {A R} (body : M A) m m1 m2 l1 l2 a n c :
  returns_to body m l1 a m1 → steps n (start (loop (R := R) body)) m1 l2 c m2 →
  ∃ n', (n < n')%nat ∧ steps n' (start (loop (R := R) body)) m (l1 ++ l2) c m2.
Proof.
  intros Hb Hs. assert (returns_to (body ≫= λ _, Ret (inl tt : unit + R)) m l1 (inl tt) m1) as [k H1].
  { rewrite <-(app_nil_r l1). eapply returns_to_bind; [done|apply returns_to_ret]. }
  exists (k + S n)%nat. split; [lia|]. eapply steps_trans; [|by apply steps_tau].
  by apply (steps_cbind _ _ _ (λ lr, match lr with
    | inl j => Tau (ITree.iter (λ _ : unit, body ≫= λ _, Ret (inl tt)) j) | inr r => Ret r end)) in H1.
Qed.

Lemma reaches_loop {A R} (body : M A) m l m' :
  reaches body m l m' → reaches (loop (R := R) body) m l m'.
Proof.
  intros (n & c & Hs). exists n. eexists.
  apply (steps_cbind _ _ _ (λ _, Ret (inl tt : unit + R))) in Hs.
  by apply (steps_cbind _ _ _ (λ lr, match lr with
    | inl j => Tau (ITree.iter (λ _ : unit, body ≫= λ _, Ret (inl tt)) j) | inr r => Ret r end)) in Hs.
Qed.

(** Every round of a [loop] shows [tr] and keeps the invariant. *)
Lemma loop_rounds {A R} (body : M A) (Inv : machine D → Prop) tr n m :
  (∀ m, Inv m → ∃ a m', returns_to body m tr a m' ∧ Inv m') → Inv m →
  ∃ k m', (n ≤ k)%nat ∧ Inv m' ∧
    steps k (start (loop (R := R) body)) m (concat (replicate n tr)) (start (loop (R := R) body)) m'.
Proof.
  intros Hround. revert m. induction n as [|n IH]; intros m Hm.
  { exists 0%nat, m. split; [lia|]. split; [done|constructor]. }
  destruct (Hround m Hm) as (a & m1 & Hb & Hm1). destruct (IH m1 Hm1) as (k2 & m2 & Hk & Hm2 & H2).
  destruct (steps_loop _ _ _ _ _ _ _ _ _ Hb H2) as (k & Hk' & Hs). exists k, m2. split; [lia|done].
Qed.

Lemma diverges_loop {A R} (body : M A) (Inv : machine D → Prop) m :
  (∀ m, Inv m → ∃ l a m', returns_to body m l a m' ∧ Inv m') → Inv m → diverges (loop (R := R) body) m.
Proof.
  intros Hround Hm. apply (diverges_iter _ (λ _, Inv)); [|done].
  intros [] m1 H1. destruct (Hround m1 H1) as (l & a & m' & Hb & Hm'). exists (l ++ []), tt, m'. split; [|done].
  eapply returns_to_bind; [done|]. apply returns_to_ret.
Qed.

Lemma diverges_poll {R} w p ok (r : Z → R) m :
  never_ready w p ok (devices m) → diverges (poll w p ok r) m.
Proof.
  intros Hn. apply (diverges_until _ (λ m, never_ready w p ok (devices m))); [|done].
  clear. intros m Hn. destruct (dev_in w p (devices m)) as [v d] eqn:Hd.
  exists [In w p v], (set_devices d m). split.
  - eapply returns_to_in; [done|]. specialize (Hn 0%nat). simpl in Hn. rewrite Hd in Hn. simpl in Hn.
    rewrite Hn. apply returns_to_ret.
  - simpl. apply never_ready_next in Hn. by rewrite Hd in Hn.
Qed.

(** [v = read(p); while cond(v) { v = read(p); }] *)
Lemma returns_to_while_poll w p cond v0 vs d d' m :
  cond v0 = true → polls w p (λ v, negb (cond v)) d vs d' → devices m = d →
  ∃ v, returns_to (while_ cond (λ _, trigger (PortIn w p)) v0) m (In w p <$> vs) v (set_devices d' m).
Proof.
  intros H0 Hp. revert v0 H0 m.
  induction Hp as [d v d' Hd Hv|d v d1 vs d' Hd Hv Hp IH]; intros v0 H0 m <-;
    assert (∀ d'', dev_in w p (devices m) = (v, d'') →
      returns_to (trigger (PortIn w p)) m [In w p v] v (set_devices d'' m)) as Hin
      by (intros d'' Hd''; apply returns_to_trigger; simpl; by rewrite Hd'').
  - exists v. rewrite fmap_cons. change (In w p v :: (In w p <$> [])) with ([In w p v] ++ []).
    eapply returns_to_while_again; [done|by apply Hin|]. apply returns_to_while_stop. by apply negb_true_iff.
  - apply negb_false_iff in Hv. destruct (IH v Hv (set_devices d1 m) eq_refl) as (v' & Hr). exists v'.
    rewrite fmap_cons. change (In w p v :: (In w p <$> vs)) with ([In w p v] ++ (In w p <$> vs)).
    eapply returns_to_while_again; [done|by apply Hin|exact Hr].
Qed.

Lemma diverges_while_poll w p cond v0 m :
  cond v0 = true → never_ready w p (λ v, negb (cond v)) (devices m) →
  diverges (while_ cond (λ _, trigger (PortIn w p)) v0) m.
Proof.
  intros H0 Hn.
  apply (diverges_iter _ (λ v m, cond v = true ∧ never_ready w p (λ v, negb (cond v)) (devices m))); [|done].
  clear. intros v m [Hv Hn]. destruct (dev_in w p (devices m)) as [v' d] eqn:Hd.
  exists ([In w p v'] ++ []), v', (set_devices d m). rewrite Hv. split_and!.
  - eapply returns_to_bind; [|apply returns_to_ret]. apply returns_to_trigger. simpl. by rewrite Hd.
  - specialize (Hn 0%nat). simpl in Hn. rewrite Hd in Hn. by apply negb_false_iff in Hn.
  - simpl. apply never_ready_next in Hn. by rewrite Hd in Hn.
Qed.

End lemmas.

#[export] Hint Resolve returns_to_ret returns_to_lift : machine.
