(* ===== verification/Serial.v ===== *)
(** [src/drivers/serial.rs]: the serial port.  The UART behind the port is a
    16550; its registers are a specification here ([uart_write]), and a machine
    that has one satisfies [UartLaws].  The transmit FIFO is part of it: a byte written
    while it is full is lost. *)
From S2P Require Import Prelude X86 TextMode Machine.

Inductive Port := COM1 | COM2 | COM3 | COM4.

(** The [repr(u16)] discriminants. *)
Definition Port_u16 (p : Port) : Z :=
  match p with COM1 => 0x3F8 | COM2 => 0x2F8 | COM3 => 0x3E8 | COM4 => 0x2E8 end.

Definition PORT : Z := Port_u16 COM1.

(** [serial::init] *)
Definition init : M unit :=
  trigger (PortOut 8 (PORT + 1) 0x00) ;;
  trigger (PortOut 8 (PORT + 3) 0x80) ;;
  trigger (PortOut 8 (PORT + 0) 0x03) ;;
  trigger (PortOut 8 (PORT + 1) 0x00) ;;
  trigger (PortOut 8 (PORT + 3) 0x03) ;;
  trigger (PortOut 8 (PORT + 2) 0xC7) ;;
  trigger (PortOut 8 (PORT + 4) 0x0B).

(** [serial::write_byte], [serial::write_str] *)
Definition write_byte (ch : Z) : M unit := trigger (PortOut 8 PORT ch).
Definition write_str (s : list Z) : M unit := for_each s write_byte.

(** * The UART *)

(** The registers that can be written, the bytes waiting in the transmit FIFO and
    the bytes sent so far.  While bit 7 of the line control register is set, the
    first two registers are the divisor latch. *)
Record Uart := mkUart {
  dll : Z; dlm : Z; ier : Z; fcr : Z; lcr : Z; mcr : Z; fifo : list Z; sent : list Z }.

Definition dlab (u : Uart) : bool := Z.testbit (lcr u) 7.

(** Bit 0 of the FIFO control register turns the FIFOs on; without them there is
    one holding register. *)
Definition fifo_depth (u : Uart) : nat := if Z.testbit (fcr u) 0 then 16 else 1.

(** A write of the FIFO control register empties the transmit FIFO when it turns
    the FIFOs on or off, and on request (bit 2) while they are on. *)
Definition clears (v : Z) (u : Uart) : bool :=
  xorb (Z.testbit v 0) (Z.testbit (fcr u) 0) || (Z.testbit v 0 && Z.testbit v 2).

Definition uart_write (off v : Z) (u : Uart) : Uart :=
  let 'mkUart dl dm ie fc lc mc q out := u in
  match off with
  | 0 => if dlab u then mkUart v dm ie fc lc mc q out
         else if (length q <? fifo_depth u)%nat then mkUart dl dm ie fc lc mc (q ++ [v]) out else u
  | 1 => if dlab u then mkUart dl v ie fc lc mc q out else mkUart dl dm v fc lc mc q out
  | 2 => mkUart dl dm ie v lc mc (if clears v u then [] else q) out
  | 3 => mkUart dl dm ie fc v mc q out
  | 4 => mkUart dl dm ie fc lc v q out
  | _ => u
  end.

(** The transmitter takes the oldest bytes of the FIFO, at its own pace. *)
Definition drain (n : nat) (u : Uart) : Uart :=
  mkUart (dll u) (dlm u) (ier u) (fcr u) (lcr u) (mcr u) (drop n (fifo u)) (sent u ++ take n (fifo u)).

(** The devices contain a UART at [PORT] that sees the writes to its ports; before
    any write it may have sent some of the waiting bytes. *)
Class HasUart (D : Type) := uart : D → Uart.
Class UartLaws (D : Type) `{Devices D, HasUart D} : Prop := {
  uart_out off v d : 0 ≤ off < 8 →
    ∃ n, uart (dev_out 8 (PORT + off) v d) = uart_write off v (drain n (uart d));
  uart_other w p v d : ¬ (PORT ≤ p < PORT + 8) → ∃ n, uart (dev_out w p v d) = drain n (uart d)
}.

(** The bytes that went to the data port. *)
Definition serial_bytes (l : list obs) : list Z :=
  omap (λ o, match o with Out _ p v => if p =? PORT then Some v else None | _ => None end) l.

Lemma serial_bytes_app l1 l2 : serial_bytes (l1 ++ l2) = serial_bytes l1 ++ serial_bytes l2.
Proof. apply omap_app. Qed.

(** The writes of the two functions as lists. *)
Definition init_writes : list PortWrite :=
  [mkPort (PORT + 1) 8 0x00; mkPort (PORT + 3) 8 0x80; mkPort (PORT + 0) 8 0x03;
   mkPort (PORT + 1) 8 0x00; mkPort (PORT + 3) 8 0x03; mkPort (PORT + 2) 8 0xC7;
   mkPort (PORT + 4) 8 0x0B].
Definition str_writes (s : list Z) : list PortWrite := mkPort PORT 8 <$> s.

Lemma str_obs s : out_obs <$> str_writes s = Out 8 PORT <$> s.
Proof. unfold str_writes. by rewrite <-list_fmap_compose. Qed.

Section serial.
Context {D : Type} `{Devices D} (panic_handler : panic → M Empty_set).
Abbreviation returns_to := (returns_to panic_handler).
Implicit Types (m : machine D) (d : D).

Lemma serial_write_str_returns s m :
  returns_to (write_str s) m (out_obs <$> str_writes s) tt
    (set_devices (dev_outs (str_writes s) (devices m)) m).
Proof.
  assert (write_str s = outs (str_writes s)) as ->; [|apply returns_to_outs].
  unfold write_str, outs, str_writes. induction s as [|b s IH]; [done|]. simpl. by rewrite IH.
Qed.

Lemma serial_init_returns m :
  returns_to init m (out_obs <$> init_writes) tt
    (set_devices (dev_outs init_writes (devices m)) m).
Proof.
  unfold init, init_writes.
  repeat (refine (returns_to_bind panic_handler _ _ _ _ _ [_] _ _ _ _ _);
          [by apply returns_to_trigger|]).
  by apply returns_to_trigger.
Qed.

Lemma serial_bytes_str s : serial_bytes (out_obs <$> str_writes s) = s.
Proof.
  unfold serial_bytes, str_writes. induction s as [|b s IH]; [done|].
  rewrite !fmap_cons. cbn. by f_equal.
Qed.

Context `{!HasUart D, !UartLaws D}.

(** The UART as [init] leaves it. *)
Definition ready_uart (q out : list Z) : Uart := mkUart 3 0 0 0xC7 0x03 0x0B q out.

Lemma drain_line n u : sent (drain n u) ++ fifo (drain n u) = sent u ++ fifo u.
Proof. simpl. by rewrite <-app_assoc, take_drop. Qed.

Lemma drain_drain n k u : drain k (drain n u) = drain (n + k) u.
Proof. unfold drain. simpl. by rewrite drop_drop, <-app_assoc, take_take_drop. Qed.

(** Writes of the settings keep the bytes that wait. *)
Lemma uart_write_drain off v n u :
  off = 1 ∨ off = 3 ∨ off = 4 ∨ (off = 0 ∧ dlab u = true) →
  uart_write off v (drain n u) = drain n (uart_write off v u).
Proof.
  destruct u as [dl dm ie fc lc mc q out]. unfold dlab. cbn -[Z.testbit].
  intros [->|[->|[->|[-> Hd]]]]; unfold uart_write, drain, dlab; cbn -[Z.testbit]; rewrite ?Hd; try done.
  by destruct (Z.testbit lc 7).
Qed.

(** One such write on the machine. *)
Lemma uart_setting off v n d u :
  uart d = drain n u → off = 1 ∨ off = 3 ∨ off = 4 ∨ (off = 0 ∧ dlab u = true) →
  ∃ k, uart (dev_out 8 (PORT + off) v d) = drain k (uart_write off v u).
Proof.
  intros Hu Hoff. destruct (uart_out off v d) as (k & ->); [lia|].
  exists (n + k)%nat. by rewrite Hu, drain_drain, uart_write_drain.
Qed.

Lemma uart_outs_init d :
  dlab (uart d) = false →
  ∃ n, uart (dev_outs init_writes d) = ready_uart [] (sent (uart d) ++ take n (fifo (uart d))).
Proof.
  unfold dev_outs, init_writes. cbn [foldl width port value]. remember (uart d) as u eqn:Hu.
  destruct u as [dl dm ie fc lc mc q out]. unfold dlab. cbn [lcr]. intros Hd.
  assert (uart d = drain 0 (mkUart dl dm ie fc lc mc q out)) as H0 by (rewrite <-Hu; unfold drain; simpl; by rewrite app_nil_r).
  destruct (uart_setting 1 0x00 _ _ _ H0) as (n1 & H1); [lia|]. unfold uart_write, dlab in H1. cbn [lcr] in H1. rewrite Hd in H1.
  destruct (uart_setting 3 0x80 _ _ _ H1) as (n2 & H2); [lia|].
  destruct (uart_setting 0 0x03 _ _ _ H2) as (n3 & H3); [right; right; right; done|].
  destruct (uart_setting 1 0x00 _ _ _ H3) as (n4 & H4); [lia|].
  destruct (uart_setting 3 0x03 _ _ _ H4) as (n5 & H5); [lia|]. simpl in H5.
  match type of H5 with uart ?d5 = _ => destruct (uart_out 2 0xC7 d5) as (n6 & H6); [lia|] end.
  rewrite H5, drain_drain in H6. unfold uart_write, clears, drain in H6. simpl in H6. rewrite orb_true_r in H6.
  match type of H6 with uart ?d6 = _ => destruct (uart_out 4 0x0B d6) as (n7 & H7); [lia|] end.
  rewrite H6 in H7. unfold drain in H7. simpl in H7. rewrite drop_nil, take_nil, app_nil_r in H7. by eexists.
Qed.

(** What one byte does: it joins the line of bytes to be sent, unless 16 wait. *)
Lemma uart_out_byte b d q out :
  uart d = ready_uart q out →
  ∃ n q' out', uart (dev_out 8 PORT b d) = ready_uart q' out' ∧
    out' ++ q' = out ++ q ++ (if (length (drop n q) <? 16)%nat then [b] else []) ∧
    (length q' ≤ S (length q))%nat.
Proof.
  intros Hu. destruct (uart_out 0 b d) as (n & Hw); [lia|]. rewrite Z.add_0_r, Hu in Hw.
  cbn -[Nat.ltb length] in Hw. exists n. destruct (_ <? 16)%nat eqn:El; eexists _, _; (split; [exact Hw|]).
  - rewrite app_assoc, <-(app_assoc out). rewrite take_drop. split; [by rewrite <-app_assoc|].
    rewrite length_app, length_drop. simpl. lia.
  - rewrite <-app_assoc, take_drop, app_nil_r. split; [done|]. simpl. rewrite length_drop. lia.
Qed.

Lemma uart_outs_str s d q out :
  uart d = ready_uart q out →
  ∃ q' out' t, uart (dev_outs (str_writes s) d) = ready_uart q' out' ∧ out' ++ q' = (out ++ q) ++ t ∧
    t `sublist_of` s ∧ take (16 - length q) s `prefix_of` t.
Proof.
  revert d q out. induction s as [|b s IH]; intros d q out Hu; simpl.
  { exists q, out, []. rewrite app_nil_r, take_nil. done. }
  destruct (uart_out_byte b d q out Hu) as (n & q1 & out1 & Hu1 & Hline & Hlen).
  destruct (IH _ _ _ Hu1) as (q' & out' & t & Hu' & Hline' & Hsub & Hpre).
  eexists q', out', _. split; [exact Hu'|]. rewrite Hline', Hline, <-!app_assoc. split; [done|].
  destruct (_ <? 16)%nat eqn:El.
  - split; [by apply sublist_skip|]. destruct (16 - length q)%nat as [|k] eqn:Ek; simpl; [apply prefix_nil|].
    apply prefix_cons. etrans; [|exact Hpre].
    replace k with (k `min` (16 - length q1))%nat by lia. rewrite <-take_take. apply prefix_take.
  - apply Nat.ltb_ge in El. rewrite length_drop in El. split; [by apply sublist_cons|].
    replace (16 - length q)%nat with 0%nat by lia. apply prefix_nil.
Qed.

(** C24 (functional): started with the divisor latch closed, as after a reset,
    [serial::init] returns and leaves the UART at divisor 3 (38400 baud), eight data
    bits without parity, interrupts off, FIFOs on and empty, the latch closed.
    [serial::write_str] then writes its bytes to the data port in order, without
    waiting, and changes no setting.  What is sent or waits to be sent is what was
    sent before followed by some of the bytes in order: at least the first 16, so
    all of a string of up to 16 bytes; a byte that finds the FIFO full is lost. *)
Theorem serial_transmits (m : machine D) (s : list Z) :
  dlab (uart (devices m)) = false →
  ∃ m1 m2 n q out t, returns_to init m (out_obs <$> init_writes) tt m1 ∧
    (let before := sent (uart (devices m)) ++ take n (fifo (uart (devices m))) in
     uart (devices m1) = ready_uart [] before ∧
     returns_to (write_str s) m1 (Out 8 PORT <$> s) tt m2 ∧
     uart (devices m2) = ready_uart q out ∧ out ++ q = before ++ t ∧
     t `sublist_of` s ∧ take 16 s `prefix_of` t ∧ ((length s ≤ 16)%nat → t = s)) ∧
    globals m2 = globals m ∧ cpu m2 = cpu m.
Proof.
  intros Hd. destruct (uart_outs_init (devices m) Hd) as (n & Hu).
  set (m1 := set_devices (dev_outs init_writes (devices m)) m).
  destruct (uart_outs_str s (devices m1) _ _ Hu) as (q & out & t & Hu2 & Hline & Hsub & Hpre).
  rewrite app_nil_r in Hline.
  exists m1, (set_devices (dev_outs (str_writes s) (devices m1)) m1), n, q, out, t.
  split; [apply serial_init_returns|]. split; [|done]. split_and!; try done.
  - pose proof (serial_write_str_returns s m1) as Hw. by rewrite str_obs in Hw.
  - intros Hlen. rewrite take_ge in Hpre by done. apply sublist_length in Hsub as Hl1.
    destruct Hpre as (r & ->). rewrite length_app in Hl1. destruct r; [by rewrite app_nil_r|simpl in Hl1; lia].
Qed.

End serial.

(** * A machine with nothing but a UART, whose transmitter is slow *)

Definition uart_devices : Devices Uart := {|
  dev_in w p d := (0, d);
  dev_out w p v d := if (PORT <=? p) && (p <? PORT + 8) then uart_write (p - PORT) v d else d;
  dev_mem16 a d := None;
  dev_cpuid leaf d := (0, 0, 0, 0)
|}.

#[global] Instance uart_laws : @UartLaws Uart uart_devices id.
Proof.
  assert (∀ u, drain 0 u = u) as Hd by (intros []; unfold drain; simpl; by rewrite app_nil_r).
  split; cbn [dev_out uart_devices]; intros; exists 0%nat; rewrite Hd.
  - rewrite (proj2 (Z.leb_le _ _)), (proj2 (Z.ltb_lt _ _)) by lia. cbn [andb].
    by replace (PORT + off - PORT) with off by lia.
  - destruct (PORT <=? p) eqn:E1, (p <? PORT + 8) eqn:E2; zbool; try done. lia.
Qed.

Definition reset_cpu : Cpu := mkCpu false [] ∅ (mkSegments 0 0 0 0 0 0) 0.
Definition reset_globals : Globals := mkGlobals None (replicate 2000 0xf20) 0 false Off 0 None.
Definition uart_machine : machine Uart := mkMachine reset_globals reset_cpu (mkUart 1 0 15 0 0 0 [] []).

Lemma serial_transmits_witness :
  ∃ (m2 : machine Uart) q out, uart (HasUart := id) (devices m2) = ready_uart q out ∧ out ++ q = [72; 105].
Proof.
  destruct (@serial_transmits Uart uart_devices (λ _, loop (mret tt)) id uart_laws uart_machine [72; 105])
    as (m1 & m2 & n & q & out & t & _ & (_ & _ & Hu & Hline & _ & _ & Hall) & _).
  - reflexivity.
  - exists m2, q, out. split; [exact Hu|]. rewrite Hline, (Hall ltac:(simpl; lia)).
    by destruct n.
Defined.

(** On this machine a string longer than the FIFO loses its end. *)
Lemma serial_overrun (s : list Z) :
  fifo (dev_outs (H := uart_devices) (str_writes s) (ready_uart [] [])) = take 16 s.
Proof.
  assert (∀ q, (length q ≤ 16)%nat →
    dev_outs (H := uart_devices) (str_writes s) (ready_uart q []) = ready_uart (take 16 (q ++ s)) []) as Hs.
  { induction s as [|b s IH]; intros q Hq; [by rewrite app_nil_r, take_ge|].
    change (dev_outs (H := uart_devices) (str_writes s) (uart_write 0 b (ready_uart q [])) =
      ready_uart (take 16 (q ++ b :: s)) []).
    cbn -[Nat.ltb take]. destruct (_ <? 16)%nat eqn:El.
    - apply Nat.ltb_lt in El. rewrite IH by (rewrite length_app; simpl; lia). by rewrite <-app_assoc.
    - apply Nat.ltb_ge in El. assert (length q = 16%nat) as Hlen by lia.
      rewrite IH by done. by rewrite !take_app_le by lia. }
  by rewrite Hs by (simpl; lia).
Qed.
