(* ===== verification/Screen.v ===== *)
(** What is on the screen, whatever was written to the cursor registers on the
    way: an equivalence of consoles, the operations of [TextMode] as morphisms
    for it, and strings written in pieces. *)
From S2P Require Import Prelude Ransid TextMode.
From Stdlib Require Import Setoid Morphisms.

(** * Consoles that show the same *)

(** The parser's state, the characters and the cursor agree; the log of port
    writes need not. *)
#[global] Instance Writer_equiv : Equiv Writer := λ w1 w2,
  wstate w1 = wstate w2 ∧ buf w1 = buf w2 ∧ x w1 = x w2 ∧ y w1 = y w2.

#[global] Instance Writer_equivalence : Equivalence (≡@{Writer}).
Proof.
  split.
  - by intros [].
  - intros [] [] (? & ? & ? & ?). by split_and!.
  - intros w1 w2 w3 (? & ? & ? & ?) (? & ? & ? & ?). split_and!; by etrans.
Qed.

(** Both return, with equivalent results, or both panic in the same way. *)
#[global] Instance outcome_equiv {A} `{Equiv A} : Equiv (outcome A) := λ o1 o2,
  match o1, o2 with
  | Ok a, Ok b => a ≡ b
  | Panic p, Panic q => p = q
  | _, _ => False
  end.

#[global] Instance outcome_equivalence {A} `{Equiv A, !Equivalence (≡@{A})} :
  Equivalence (≡@{outcome A}).
Proof.
  split.
  - intros [a|p]; [by change (a ≡ a)|done].
  - intros [a|p] [b|q] Hab; try done. by change (b ≡ a).
  - intros [a|p] [b|q] [c|r] Hab Hbc; try done; [change (a ≡ c); by trans b|by etrans].
Qed.

#[global] Instance Ok_proper {A} `{Equiv A} : Proper ((≡) ==> (≡)) (@Ok A).
Proof. by intros ???. Qed.

#[global] Instance bind_proper {A B} `{Equiv A, Equiv B} :
  Proper (((≡@{A}) ==> (≡@{outcome B})) ==> (≡@{outcome A}) ==> (≡@{outcome B})) (mbind (M := outcome)).
Proof. intros f g Hfg [a|p] [b|q] Hab; try done. by apply Hfg. Qed.

(** Equivalent consoles differ in the log only. *)
Lemma Writer_equiv_ports w1 w2 :
  w1 ≡ w2 → ∃ s b cx cy p1 p2, w1 = mkWriter s b cx cy p1 ∧ w2 = mkWriter s b cx cy p2.
Proof. destruct w1, w2. intros (? & ? & ? & ?). simpl in *. subst. by eexists _, _, _, _, _, _. Qed.

Ltac same_screen H :=
  apply Writer_equiv_ports in H as (? & ? & ? & ? & ? & ? & -> & ->).

(** * The operations are morphisms *)

Section morphisms.
Context `{Build}.

#[global] Instance set_state_proper s : Proper ((≡) ==> (≡)) (set_state s).
Proof. intros w1 w2 Hw. by same_screen Hw. Qed.

#[global] Instance set_pos_proper cx cy : Proper ((≡) ==> (≡)) (set_pos cx cy).
Proof. intros w1 w2 Hw. by same_screen Hw. Qed.

#[global] Instance newline_proper : Proper ((≡) ==> (≡)) newline.
Proof.
  intros w1 w2 Hw. same_screen Hw. unfold newline. cbn [TextMode.y buf].
  case_match; [destruct (split_at_slice _ _) as [[??]|]; [|done]; cbn [mbind outcome_bind];
    by destruct (split_at_slice _ _) as [[??]|]|].
  unfold add_u64. by destruct (checked _ _).
Qed.

#[global] Instance draw_char_proper : Proper ((≡) ==> (=) ==> (=) ==> (≡)) draw_char.
Proof.
  intros w1 w2 Hw st ? <- ch ? <-. same_screen Hw. unfold draw_char. cbn [TextMode.y TextMode.x buf].
  destruct (mul_u64 _ _); [|done]. cbn [mbind outcome_bind].
  destruct (add_u64 _ _); [|done]. cbn [mbind outcome_bind].
  destruct (index_set _ _ _); [|done]. cbn -[newline]. case_match; [by apply newline_proper|].
  by destruct (add_u64 _ _).
Qed.

#[global] Instance update_cursor_proper : Proper ((≡) ==> (≡)) update_cursor.
Proof.
  intros w1 w2 Hw. same_screen Hw. unfold update_cursor. cbn [TextMode.y TextMode.x].
  destruct (mul_u64 _ _); [|done]. cbn [mbind outcome_bind]. by destruct (add_u64 _ _).
Qed.

Lemma for_bytes_morphism (f : Writer → Z → outcome Writer) :
  Proper ((≡) ==> (=) ==> (≡)) f → Proper ((≡) ==> (=) ==> (≡)) (for_bytes f).
Proof.
  intros Hf w1 w2 Hw s ? <-. revert w1 w2 Hw. induction s as [|b s IH]; intros w1 w2 Hw; [done|].
  cbn [for_bytes]. apply bind_proper; [intros v1 v2 Hv; by apply IH|by apply Hf].
Qed.

#[global] Instance write_byte_proper fuel : Proper ((≡) ==> (=) ==> (≡)) (write_byte fuel).
Proof.
  induction fuel as [|fuel IH]; intros w1 w2 Hw b ? <-; [done|]. cbn [write_byte].
  assert (wstate w1 = wstate w2) as <- by apply Hw.
  destruct (ransid_process (wstate w1) b) as [[o st]|]; [|done]. cbn [mbind outcome_bind].
  pose proof (set_state_proper st _ _ Hw) as Hs. destruct o as [c|]; [|done].
  destruct (ascii c =? 10); [by apply newline_proper|].
  destruct (ascii c =? 9).
  { apply bind_proper; [by intros ???; apply update_cursor_proper|].
    by apply for_bytes_morphism. }
  destruct (ascii c =? 13); [|case_match; by apply draw_char_proper].
  assert (y (set_state st w1) = y (set_state st w2)) as -> by apply Hs. by apply Ok_proper, set_pos_proper.
Qed.

#[global] Instance for_bytes_proper fuel : Proper ((≡) ==> (=) ==> (≡)) (for_bytes (write_byte fuel)).
Proof. apply for_bytes_morphism, _. Qed.

#[global] Instance write_str_proper : Proper ((≡) ==> (=) ==> (≡)) write_str.
Proof.
  intros w1 w2 Hw s ? <-. unfold write_str.
  apply bind_proper; [by intros ???; apply update_cursor_proper|]. by apply for_bytes_proper.
Qed.

(** * Strings in pieces *)

(** Programming the cursor registers changes nothing on the screen. *)
Lemma update_cursor_equiv w : writer_ok w → update_cursor w ≡ Ok w.
Proof. intros Hw. by rewrite update_cursor_spec. Qed.

Lemma for_bytes_app f w s1 s2 :
  for_bytes f w (s1 ++ s2) = (w1 ← for_bytes f w s1; for_bytes f w1 s2).
Proof.
  revert w. induction s1 as [|b s1 IH]; intros w; [done|]. cbn [app for_bytes].
  destruct (f w b) as [w1|]; [|done]. apply IH.
Qed.

Definition bytes_ok (s : list Z) : Prop := Forall (λ b, 0 ≤ b < 256) s.

(** [write_str] up to the cursor registers. *)
Lemma write_str_equiv w s :
  writer_ok w → bytes_ok s → write_str w s ≡ for_bytes (write_byte nesting) w s.
Proof.
  intros Hw Hs. unfold write_str, nesting. destruct (for_bytes_ok 0 w s Hw Hs) as (w1 & -> & Hw1).
  ok_simpl. by apply update_cursor_equiv.
Qed.

Fixpoint write_pieces (w : Writer) (ps : list (list Z)) : outcome Writer :=
  match ps with
  | [] => Ok w
  | s :: ps' => w ← write_str w s; write_pieces w ps'
  end.

Lemma write_pieces_for_bytes w ps :
  writer_ok w → Forall bytes_ok ps →
  ∃ w', write_pieces w ps = Ok w' ∧ writer_ok w' ∧
    Ok w' ≡ for_bytes (write_byte nesting) w (concat ps).
Proof.
  intros Hw Hps. revert w Hw. induction Hps as [|s ps Hs _ IH]; intros w Hw; [by exists w|].
  cbn [write_pieces concat]. destruct (for_bytes_ok 0 w s Hw Hs) as (w1 & Hf & Hw1).
  assert (write_str w s = update_cursor w1) as Hws by (unfold write_str, nesting; by rewrite Hf).
  rewrite Hws, update_cursor_spec by done. ok_simpl.
  set (w2 := mkWriter _ _ _ _ _). assert (w2 ≡ w1) as H21 by done.
  destruct (IH w2) as (w' & -> & Hw' & Heq); [done|]. exists w'. split; [done|]. split; [done|].
  rewrite Heq, for_bytes_app. unfold nesting. rewrite Hf. ok_simpl. by apply for_bytes_proper.
Qed.

(** * The ports of the console *)

(** The console only ever writes to the index and data ports of the VGA
    registers. *)
Definition vga_port (p : PortWrite) : Prop := port p = 0x3D4 ∨ port p = 0x3D5.

Lemma newline_ports w w' : newline w = Ok w' → ports w' = ports w.
Proof.
  unfold newline. case_match; intros E.
  - destruct (split_at_slice _ _) as [[??]|]; [|done]. cbn [mbind outcome_bind] in E.
    destruct (split_at_slice _ _) as [[??]|]; [|done]. by injection E as <-.
  - destruct (add_u64 _ _); [|done]. by injection E as <-.
Qed.

Lemma draw_char_ports w st ch w' : draw_char w st ch = Ok w' → ports w' = ports w.
Proof.
  unfold draw_char. intros E. do 3 bind_inv E. destruct (x w =? _); [by apply newline_ports in E|].
  bind_inv E. by injection E as <-.
Qed.

Lemma update_cursor_ports w w' :
  Forall vga_port (ports w) → update_cursor w = Ok w' → Forall vga_port (ports w').
Proof.
  unfold update_cursor. intros Hw E. do 2 bind_inv E. injection E as <-. simpl.
  repeat (apply Forall_app; split); try done; repeat constructor; unfold vga_port; simpl; lia.
Qed.

Lemma for_bytes_invariant (P : Writer → Prop) f w s w' :
  (∀ w b w', P w → f w b = Ok w' → P w') → P w → for_bytes f w s = Ok w' → P w'.
Proof.
  intros Hf. revert w. induction s as [|b s IH]; intros w Hw; [by intros [= <-]|]. cbn [for_bytes].
  destruct (f w b) as [w1|] eqn:E; [|done]. intros Hr. eapply IH; [|done]. by eapply Hf.
Qed.

Lemma write_byte_ports fuel w b w' :
  Forall vga_port (ports w) → write_byte fuel w b = Ok w' → Forall vga_port (ports w').
Proof.
  revert w b w'. induction fuel as [|fuel IH]; intros w b w' Hw; [done|]. cbn [write_byte].
  destruct (ransid_process (wstate w) b) as [[o st]|]; [|done]. cbn [mbind outcome_bind].
  destruct o as [c|]; [|by intros [= <-]].
  destruct (ascii c =? 10); [by intros ->%newline_ports|].
  destruct (ascii c =? 9).
  { destruct (for_bytes _ _ _) as [w1|] eqn:E; [|done]. ok_simpl. apply update_cursor_ports.
    by eapply (for_bytes_invariant (λ w, Forall vga_port (ports w))) in E. }
  destruct (ascii c =? 13); [by intros [= <-]|]. by case_match; intros ->%draw_char_ports.
Qed.

Lemma write_str_ports w s w' :
  Forall vga_port (ports w) → write_str w s = Ok w' → Forall vga_port (ports w').
Proof.
  unfold write_str. intros Hw. destruct (for_bytes _ _ _) as [w1|] eqn:E; [|done]. ok_simpl.
  apply update_cursor_ports. eapply (for_bytes_invariant (λ w, Forall vga_port (ports w))) in E; [done| |done].
  intros. by eapply write_byte_ports.
Qed.

(** C16 (equivalence): output written in pieces, as [write_fmt] does, is on the
    screen what the concatenation written at once is: the same characters,
    colours, parser state and cursor, wherever the pieces are cut, inside an
    escape sequence too. *)
Theorem write_pieces_concat (w : Writer) (ps : list (list Z)) :
  writer_ok w → Forall bytes_ok ps →
  ∃ w1 w2, write_pieces w ps = Ok w1 ∧ write_str w (concat ps) = Ok w2 ∧ w1 ≡ w2 ∧ writer_ok w1.
Proof.
  intros Hw Hps. destruct (write_pieces_for_bytes w ps Hw Hps) as (w1 & H1 & Hw1 & Heq).
  assert (bytes_ok (concat ps)) as Hc by (by apply Forall_concat).
  rewrite <-write_str_equiv in Heq by done.
  destruct (write_str w (concat ps)) as [w2|] eqn:E2; [|done]. by exists w1, w2.
Qed.

End morphisms.

Lemma write_pieces_concat_witness :
  ∃ w1 w2, @write_pieces debug_build blank_screen [[72; 27]; [91; 51]; [49; 109; 105]] = Ok w1 ∧
    @write_str debug_build blank_screen [72; 27; 91; 51; 49; 109; 105] = Ok w2 ∧ w1 ≡ w2 ∧
    cell (buf w1) 24 71 = Some 0x0C69.
Proof.
  destruct (@write_pieces_concat debug_build blank_screen [[72; 27]; [91; 51]; [49; 109; 105]])
    as (w1 & w2 & H1 & H2 & Heq & _).
  - apply blank_screen_ok.
  - repeat constructor; lia.
  - exists w1, w2. split; [exact H1|]. split; [exact H2|]. split; [exact Heq|].
    clear -H1. vm_compute in H1. injection H1 as <-. reflexivity.
Defined.
