(* ===== verification/Macros.v ===== *)
(** [src/macros.rs]: printing and logging.  [print!] formats into the console
    behind [SCREEN], whose spin lock is the one of [SpinLock], with interrupts
    off; debug and test builds copy the text to the serial port.  The logger prefixes a
    coloured level.

    [core::fmt::Arguments] is the list of its literal pieces and formatted
    arguments, and [write_fmt] writes them in order.  What the kernel uses of
    [x86_64::instructions::interrupts::without_interrupts] and of the [log] crate
    are the classes [Interrupts] and [LogCrate]. *)
From S2P Require Import Prelude X86 PerCpu SpinLock Ransid TextMode Screen Machine.
From S2P Require Serial.
From ITree Require Import Core.ITreeDefinition.

(** * Formatting *)

Definition bytes (s : string) : list Z := (λ a, Z.of_N (Ascii.N_of_ascii a)) <$> String.list_ascii_of_string s.

(** A literal piece, or an argument with the strings its formatting writes. *)
Inductive piece := Lit (s : list Z) | Arg (ss : list (list Z)).
Definition Arguments : Type := list piece.

Definition strs (args : Arguments) : list (list Z) :=
  args ≫= λ p, match p with Lit s => [s] | Arg ss => ss end.

(** [Arguments::as_str]: "the formatted string, if it has no arguments to be
    formatted". *)
Definition as_str (args : Arguments) : option (list Z) :=
  match args with [] => Some [] | [Lit s] => Some s | _ => None end.

(** [concat!($fmt, "\n")] *)
Fixpoint add_newline (args : Arguments) : Arguments :=
  match args with
  | [] => [Lit [10]]
  | [Lit s] => [Lit (s ++ [10])]
  | p :: args' => p :: add_newline args'
  end.

(** * Interfaces *)

Class Interrupts := { without_interrupts {A} : M A → M A }.

(** Changes of the interrupt flag only. *)
Definition only_flag (l : list obs) : Prop :=
  Forall (λ o, match o with SetIF _ => True | _ => False end) l.

(** "Run a closure with disabled interrupts": the flag is off while the closure
    runs and has its old value afterwards.  The second law is about closures that
    do not return. *)
Class InterruptsLaws `{Interrupts} (D : Type) `{Devices D} (ph : panic → M Empty_set) : Prop := {
  without_interrupts_law {A} (f : M A) (m m' : machine D) l a :
    returns_to ph f (set_cpu (set_IF false) m) l a m' → IF (cpu m') = false →
    ∃ l1 l2, returns_to ph (without_interrupts f) m (l1 ++ l ++ l2) a
               (set_cpu (set_IF (IF (cpu m))) m') ∧ only_flag l1 ∧ only_flag l2;
  without_interrupts_steps {A} (f : M A) (m m' : machine D) n l o :
    steps ph n (start f) (set_cpu (set_IF false) m) l (Running o) m' →
    ∃ k l1 o', (n ≤ k)%nat ∧ only_flag l1 ∧
      steps ph k (start (without_interrupts f)) m (l1 ++ l) (Running o') m'
}.

Class LogCrate := {
  (** [Display for Level] *)
  level_display : Level → list Z;
  (** [level <= filter] *)
  level_le : Level → LevelFilter → bool
}.

Definition level_rank (l : Level) : Z :=
  match l with LError => 1 | LWarn => 2 | LInfo => 3 | LDebug => 4 | LTrace => 5 end.
Definition filter_rank (f : LevelFilter) : Z :=
  match f with Off => 0 | Error => 1 | Warn => 2 | Info => 3 | Debug => 4 | Trace => 5 end.

Class LogCrate_Laws `{LogCrate} : Prop := {
  level_display_law l : level_display l =
    bytes match l with
          | LError => "ERROR" | LWarn => "WARN" | LInfo => "INFO" | LDebug => "DEBUG" | LTrace => "TRACE"
          end;
  (** Error is the most severe level, Trace the least. *)
  level_le_law l f : level_le l f = (level_rank l <=? filter_rank f)
}.

(** * The code *)

Definition with_screen (sl : ScreenLocker) (p : Z) (g : Globals) : Globals :=
  mkGlobals (Some sl) (vram g) p (logger_set g) (max_level g) (SLP_TYPA g) (PHYS g).

(** An access to the initialised [SCREEN] and the preemption counter. *)
Definition screen_access {A} (f : ScreenLocker → Z → A * ScreenLocker * Z) : M A :=
  r ← trigger (Access (λ g,
        match SCREEN g with
        | Some sl => let '(a, sl', p') := f sl (preempts g) in (Some a, with_screen sl' p' g)
        | None => (None, g)
        end));
  match r with Some a => mret a | None => raise BadPointer end.

Definition clear_ports (w : Writer) : Writer := mkWriter (wstate w) (buf w) (x w) (y w) [].

Section code.
Context `{Build, Interrupts, LogCrate}.

(** What [&*SCREEN] refers to: the first use builds it. *)
Definition console (g : Globals) : outcome ScreenLocker :=
  match SCREEN g with
  | Some sl => Ok sl
  | None => w ← Writer_default (vram g); Ok (mkScreen (locked (SpinLock_new (preempts g))) w)
  end.

Definition SCREEN_deref : M unit :=
  r ← trigger (Access (λ g,
        match console g with
        | Ok sl => (Ok tt, with_screen sl (preempts g) g)
        | Panic p => (Panic p, g)
        end));
  lift r.

(** One atomic access of the lock of [SCREEN] or its guard. *)
Definition lock_access (step : spin → spin * spin_pc) : M spin_pc :=
  screen_access (λ sl p,
    let '(s, pc) := step (mkSpin (screen_locked sl) p) in
    (pc, mkScreen (locked s) (screen sl), sp_cpu s)).

(** [SCREEN.0.lock()] and the drop of its guard: [SpinLock]'s steps up to the
    return. *)
Definition lock : M unit :=
  ITree.iter (λ pc, pc' ← lock_access (lock_step pc);
                    mret (if decide (pc' = Held) then inr tt else inl pc')) LockEnter.
Definition drop_guard : M unit :=
  ITree.iter (λ pc, pc' ← lock_access (drop_step pc);
                    mret (if decide (pc' = Dropped) then inr tt else inl pc')) Held.

(** [cfg(any(debug_assertions, test))] *)
Definition serial_copy : bool := debug_assertions || cfg_test.

(** [fmt::Write for ScreenWriter]; the port writes of the console are issued
    from its log. *)
Definition write_str (s : list Z) : M unit :=
  (if serial_copy then Serial.write_str s else mret tt) ;;
  r ← screen_access (λ sl p,
        match TextMode.write_str (clear_ports (screen sl)) s with
        | Ok w => (Ok (ports w), mkScreen (screen_locked sl) (clear_ports w), p)
        | Panic e => (Panic e, sl, p)
        end);
  ws ← lift r;
  outs ws.

(** [fmt::Write::write_fmt] *)
Definition write_fmt (args : Arguments) : M unit := for_each (strs args) write_str.

Definition _print (args : Arguments) : M unit :=
  without_interrupts (SCREEN_deref ;; lock ;; write_fmt args ;; drop_guard).

(** [print!], [println!] *)
Definition print (args : Arguments) : M unit := _print args.
Definition println (args : Arguments) : M unit := print (add_newline args).

(** [dbg!()] and [dbg!(val)]; [file], [line] and [expr] are what [file!()],
    [line!()] and [stringify!(val)] print, [show] the value's [{:#?}]. *)
Definition dbg_here (file line : list Z) : M unit :=
  println [Lit (bytes "[DEBUG "); Arg [file]; Lit (bytes ":"); Arg [line]; Lit (bytes "]")].
Definition dbg {T} (file line expr : list Z) (show : T → list (list Z)) (tmp : T) : M T :=
  println [Lit (bytes "[" ++ ESC :: bytes "[36mDEBUG" ++ ESC :: bytes "[0m "); Arg [file];
           Lit (bytes ":"); Arg [line]; Lit (bytes "] "); Arg [expr]; Lit (bytes " = "); Arg (show tmp)] ;;
  mret tmp.

(** [log::Record] *)
Record LogRecord := mkRecord { level : Level; record_args : Arguments }.

(** [Log::enabled] *)
Definition enabled (l : Level) (g : Globals) : bool := level_le l (max_level g).

Definition color (l : Level) : list Z :=
  match l with
  | LInfo => ESC :: bytes "[32m"
  | LError => ESC :: bytes "[31m"
  | LWarn => ESC :: bytes "[33m"
  | LDebug => ESC :: bytes "[36m"
  | LTrace => ESC :: bytes "[35m"
  end.

(** [Log::log], [Log::flush] *)
Definition log (record : LogRecord) : M unit :=
  is_enabled ← trigger (Access (λ g, (enabled (level record) g, g)));
  if is_enabled : bool then
    let color := color (level record) in
    let reset := ESC :: bytes "[0m" in
    let args := match as_str (record_args record) with
                | None => bytes "Cannot format log entry"
                | Some s => s
                end in
    println [Lit (bytes "["); Arg [color]; Arg [level_display (level record)]; Arg [reset];
             Lit (bytes "] "); Arg [args]]
  else mret tt.
Definition flush : M unit := mret tt.

(** The macros [error!], [warn!], [info!], [debug!] and [trace!] of the [log]
    crate: messages above the maximum level are discarded, and without a logger
    every message is. *)
Definition log_macro (l : Level) (args : Arguments) : M unit :=
  go ← trigger (Access (λ g, (level_le l (max_level g) && logger_set g, g)));
  if go : bool then log (mkRecord l args) else mret tt.

(** [test_case!] *)
Definition test_case (module_path test_name : list Z) (body : M unit) : M unit :=
  print [Arg [module_path]; Lit (bytes "::"); Arg [test_name]; Lit (bytes "... ")] ;;
  body ;;
  println [Lit (bytes "[ok]")].

(** [text_mode::init]: enable the cursor and install the logger.  [false] stands
    for the error of [set_logger] when a logger is already set. *)
Definition text_mode_init : M bool :=
  let BEGIN_SCANLINE := 0 in
  let END_SCANLINE := 15 in
  trigger (PortOut 8 0x3D4 0x0A) ;;
  old ← trigger (PortIn 16 0x3D5);
  trigger (PortOut 8 0x3D5 (Z.lor (Z.land old 0xC0) BEGIN_SCANLINE mod 2 ^ 8)) ;;
  trigger (PortOut 8 0x3D4 0x0B) ;;
  old ← trigger (PortIn 16 0x3D5);
  trigger (PortOut 8 0x3D5 (Z.lor (Z.land old 0xE0) END_SCANLINE mod 2 ^ 8)) ;;
  SCREEN_deref ;;
  trigger (Access (λ g,
    if logger_set g then (false, g)
    else (true, mkGlobals (SCREEN g) (vram g) (preempts g) true
                  (if debug_assertions then Trace else Info) (SLP_TYPA g) (PHYS g)))).

End code.
