(* ===== verification/MacrosProperties.v ===== *)
(** Theorems on [Macros]: what printing and logging do, and when they hang. *)
From S2P Require Import Prelude X86 PerCpu SpinLock Ransid TextMode Screen Machine Macros.
From S2P Require Serial.
From ITree Require Import Core.ITreeDefinition.

(** * Runs of the parts *)

Section parts.
Context `{Build} {D : Type} `{Devices D} (ph : panic → M Empty_set).
Abbreviation returns_to := (returns_to ph).
Implicit Types (m : machine D) (g : Globals) (sl : ScreenLocker).

(** The machine with another console and preemption counter. *)
Definition set_screen sl (p : Z) m : machine D := set_globals (with_screen sl p (globals m)) m.

Lemma screen_access_returns {A} (f : ScreenLocker → Z → A * ScreenLocker * Z) m sl a sl' p' :
  SCREEN (globals m) = Some sl → f sl (preempts (globals m)) = (a, sl', p') →
  returns_to (screen_access f) m [] a (set_screen sl' p' m).
Proof.
  intros Hs Hf. apply (returns_to_bind_nil ph _ _ m (set_screen sl' p' m) _ _ (Some a)).
  - apply returns_to_trigger. simpl. by rewrite Hs, Hf.
  - apply returns_to_ret.
Qed.

Lemma set_screen_twice sl p sl' p' m : set_screen sl p (set_screen sl' p' m) = set_screen sl p m.
Proof. done. Qed.

Lemma SCREEN_deref_returns m sl :
  console (globals m) = Ok sl →
  returns_to SCREEN_deref m [] tt (set_screen sl (preempts (globals m)) m).
Proof.
  intros Hs. eapply returns_to_bind_nil; [|apply (returns_to_lift ph (Ok tt)); done].
  apply returns_to_trigger. simpl. by rewrite Hs.
Qed.

(** One access of the lock by a guard or a call. *)
Lemma lock_access_returns step m sl s pc :
  SCREEN (globals m) = Some sl → step (mkSpin (screen_locked sl) (preempts (globals m))) = (s, pc) →
  returns_to (lock_access step) m [] pc (set_screen (mkScreen (locked s) (screen sl)) (sp_cpu s) m).
Proof. intros Hs Hst. apply (screen_access_returns _ m sl); [done|]. by rewrite Hst. Qed.

Ltac round step :=
  refine (returns_to_bind_nil ph _ _ _ _ _ _ _ _ (lock_access_returns step _ _ _ _ _ _) _);
  [done|reflexivity|apply returns_to_ret].

(** A free lock is taken in two steps. *)
Lemma lock_returns m sl :
  SCREEN (globals m) = Some sl → screen_locked sl = false →
  returns_to lock m [] tt
    (set_screen (mkScreen true (screen sl)) (fetch_add (preempts (globals m)) 1) m).
Proof.
  intros Hs Hl. destruct sl as [lk w]. simpl in Hl. subst lk.
  apply (returns_to_iter_again ph _ _ LockCas m
    (set_screen (mkScreen false w) (fetch_add (preempts (globals m)) 1) m) _ [] []).
  { round (lock_step LockEnter). }
  apply returns_to_iter_stop.
  rewrite <-(set_screen_twice _ _ (mkScreen false w) (fetch_add (preempts (globals m)) 1)).
  round (lock_step LockCas).
Qed.

(** The guard's drop frees the lock. *)
Lemma drop_guard_returns m sl :
  SCREEN (globals m) = Some sl →
  returns_to drop_guard m [] tt
    (set_screen (mkScreen false (screen sl)) (fetch_sub (preempts (globals m)) 1) m).
Proof.
  intros Hs. destruct sl as [lk w].
  apply (returns_to_iter_again ph _ _ DropStore m (set_screen (mkScreen lk w) (preempts (globals m)) m)
    _ [] []).
  { round (drop_step Held). }
  set (m1 := set_screen _ _ m).
  apply (returns_to_iter_again ph _ _ DropDec m1 (set_screen (mkScreen false w) (preempts (globals m1)) m1)
    _ [] []).
  { round (drop_step DropStore). }
  set (m2 := set_screen _ _ m1). apply returns_to_iter_stop.
  assert (set_screen (mkScreen false (screen (mkScreen lk w))) (fetch_sub (preempts (globals m)) 1) m =
    set_screen (mkScreen false w) (fetch_sub (preempts (globals m2)) 1) m2) as -> by done.
  round (drop_step DropDec).
Qed.

(** What one [write_str] of the locked console shows on the ports. *)
Definition str_obs (s : list Z) (w' : Writer) : list obs :=
  (if serial_copy then Out 8 Serial.PORT <$> s else []) ++ (out_obs <$> ports w').

Lemma write_str_returns m sl s w' :
  SCREEN (globals m) = Some sl → TextMode.write_str (clear_ports (screen sl)) s = Ok w' →
  ∃ m', returns_to (write_str s) m (str_obs s w') tt m' ∧
    globals m' = with_screen (mkScreen (screen_locked sl) (clear_ports w')) (preempts (globals m)) (globals m) ∧
    cpu m' = cpu m.
Proof.
  intros Hs Hw.
  set (m1 := if serial_copy then set_devices (dev_outs (Serial.str_writes s) (devices m)) m else m).
  assert (globals m1 = globals m) as Hg by (unfold m1; by destruct serial_copy).
  set (m2 := set_screen (mkScreen (screen_locked sl) (clear_ports w')) (preempts (globals m)) m1).
  exists (set_devices (dev_outs (ports w') (devices m2)) m2). split_and!.
  - apply (returns_to_bind ph _ _ m m1 _ _ _ tt).
    { unfold m1. destruct serial_copy; [|apply returns_to_ret].
      rewrite <-Serial.str_obs. apply Serial.serial_write_str_returns. }
    apply (returns_to_bind_nil ph _ _ m1 m2 _ _ (Ok (ports w'))).
    { unfold m2. rewrite <-Hg. rewrite <-Hg in Hs. apply (screen_access_returns _ m1 sl); [done|]. by rewrite Hw. }
    apply (returns_to_bind_nil ph _ _ m2 m2 _ _ (ports w')); [by apply returns_to_lift|].
    apply returns_to_outs.
  - unfold m2. cbn. by rewrite Hg.
  - unfold m2, m1. by destruct serial_copy.
Qed.

(** [write_fmt] on the locked console: the text on the screen, and on the serial
    port in debug and test builds. *)
Lemma serial_bytes_vga ws : Forall vga_port ws → Serial.serial_bytes (out_obs <$> ws) = [].
Proof.
  induction 1 as [|w ws Hw _ IH]; [done|]. rewrite fmap_cons. unfold Serial.serial_bytes in *. cbn.
  destruct Hw as [-> | ->]; exact IH.
Qed.

(** Printing touches only the interrupt flag, the serial port and the cursor. *)
Definition console_obs (o : obs) : Prop :=
  match o with
  | SetIF _ => True
  | Out _ p _ => p = Serial.PORT ∨ p = 0x3D4 ∨ p = 0x3D5
  | _ => False
  end.

Lemma console_obs_vga ws : Forall vga_port ws → Forall console_obs (out_obs <$> ws).
Proof. intros Hws. apply Forall_fmap. eapply Forall_impl; [exact Hws|]. intros w Hw. by right. Qed.

Lemma console_obs_flag l : only_flag l → Forall console_obs l.
Proof. intros Hl. eapply Forall_impl; [exact Hl|]. by intros []. Qed.

Definition copied (s : list Z) : list Z := if serial_copy then s else [].

Lemma str_obs_serial s w w' :
  TextMode.write_str (clear_ports w) s = Ok w' →
  Serial.serial_bytes (str_obs s w') = copied s ∧ Forall console_obs (str_obs s w').
Proof.
  intros Hw. assert (Forall vga_port (ports w')) as Hv by (eapply write_str_ports; [|done]; constructor).
  unfold str_obs, copied. rewrite Serial.serial_bytes_app, (serial_bytes_vga (ports w')) by done. split.
  - rewrite app_nil_r. destruct serial_copy; [|done].
    rewrite <-Serial.str_obs. apply Serial.serial_bytes_str.
  - apply Forall_app. split; [|by apply console_obs_vga]. destruct serial_copy; [|constructor].
    apply Forall_fmap, Forall_forall. intros b _. by left.
Qed.

Lemma for_each_write_str m sl ps :
  SCREEN (globals m) = Some sl → writer_ok (screen sl) → Forall bytes_ok ps →
  ∃ l m' w', returns_to (for_each ps write_str) m l tt m' ∧
    globals m' = with_screen (mkScreen (screen_locked sl) w') (preempts (globals m)) (globals m) ∧
    cpu m' = cpu m ∧ writer_ok w' ∧
    Ok w' ≡ for_bytes (write_byte nesting) (screen sl) (concat ps) ∧
    Serial.serial_bytes l = copied (concat ps) ∧ Forall console_obs l.
Proof.
  intros Hs Hw Hps. revert m sl Hs Hw. induction Hps as [|s ps Hb _ IH]; intros m sl Hs Hw.
  { exists [], m, (screen sl). split_and!; try done; [apply returns_to_ret| |apply Hw..|].
    - destruct sl, (globals m). simpl in *. by subst.
    - unfold copied. by destruct serial_copy. }
  assert (writer_ok (clear_ports (screen sl))) as Hc by done.
  destruct (for_bytes_ok 0 _ s Hc Hb) as (w1 & Hf & Hw1).
  assert (TextMode.write_str (clear_ports (screen sl)) s = update_cursor w1) as Ht
    by (unfold TextMode.write_str, nesting; by rewrite Hf).
  rewrite update_cursor_spec in Ht by done.
  destruct (write_str_returns m sl s _ Hs Ht) as (m1 & Hr1 & Hg1 & Hc1).
  edestruct (IH m1) as (l2 & m2 & w2 & Hr2 & Hg2 & Hc2 & Hw2 & Heq & Hser & Hob);
    [by rewrite Hg1|done|]. rewrite Hg1 in Hg2.
  eexists _, m2, w2. split; [by eapply returns_to_bind|]. split_and!; try done; try apply Hw2.
  - by rewrite Hc2, Hc1.
  - simpl in Heq. rewrite Heq. cbn [concat]. rewrite for_bytes_app. unfold nesting.
    trans (for_bytes (write_byte 2) w1 (concat ps)); [by refine (for_bytes_proper 2 _ _ _ _ _ eq_refl)|].
    assert (screen sl ≡ clear_ports (screen sl)) as Hsl by done.
    pose proof (for_bytes_proper 2 _ _ Hsl s s eq_refl) as Hp. rewrite Hf in Hp.
    destruct (for_bytes (write_byte 2) (screen sl) s) as [w3|]; [|done]. ok_simpl.
    symmetry. by refine (for_bytes_proper 2 _ _ _ _ _ eq_refl).
  - rewrite Serial.serial_bytes_app, (proj1 (str_obs_serial _ _ _ Ht)), Hser. unfold copied.
    by destruct serial_copy.
  - apply Forall_app. split; [|done]. by eapply str_obs_serial.
Qed.

End parts.

(** * Printing *)

Section printing.
Context `{Build, Interrupts} {D : Type} `{Devices D} (ph : panic → M Empty_set) `{!InterruptsLaws D ph}.
Abbreviation returns_to := (returns_to ph).
Implicit Types (m : machine D) (g : Globals).

(** The console is free and shows [w], the preemption counter is in range. *)
Definition console_free g (w : Writer) : Prop :=
  console g = Ok (mkScreen false w) ∧ writer_ok w ∧ 0 ≤ preempts g < 2 ^ 64 - 1.

(** [m'] is [m] with [s] printed: on the screen, and in [l] on the serial port
    in debug and test builds. *)
Definition printed (s : list Z) (w : Writer) m (l : list obs) m' : Prop :=
  ∃ w', globals m' = with_screen (mkScreen false w') (preempts (globals m)) (globals m) ∧
    cpu m' = cpu m ∧ writer_ok w' ∧ Ok w' ≡ TextMode.write_str w s ∧
    Serial.serial_bytes l = copied s ∧ Forall console_obs l.

Lemma only_flag_serial l : only_flag l → Serial.serial_bytes l = [].
Proof. induction 1 as [|[] l ? _ IH]; done. Qed.

Lemma print_returns m w args :
  console_free (globals m) w → Forall bytes_ok (strs args) →
  ∃ l m', returns_to (_print args) m l tt m' ∧ printed (concat (strs args)) w m l m'.
Proof.
  intros (Hs & Hw & Hp) Hargs. set (m0 := set_cpu (set_IF false) m).
  set (m1 := set_screen (mkScreen false w) (preempts (globals m)) m0).
  set (m2 := set_screen (mkScreen true w) (preempts (globals m) + 1) m1).
  destruct (for_each_write_str ph m2 (mkScreen true w) (strs args)) as
    (l & m3 & w3 & Hr & Hg & Hc & Hw3 & Heq & Hser & Hob); [done..|].
  set (m4 := set_screen (mkScreen false w3) (preempts (globals m)) m3).
  destruct (without_interrupts_law (SCREEN_deref ;; lock ;; write_fmt args ;; drop_guard) m m4 l tt)
    as (l1 & l2 & Hwi & Hl1 & Hl2).
  - apply (returns_to_bind_nil ph _ _ m0 m1 _ _ tt); [by apply (SCREEN_deref_returns ph m0)|].
    apply (returns_to_bind_nil ph _ _ m1 m2 _ _ tt).
    { pose proof (lock_returns ph m1 (mkScreen false w) eq_refl eq_refl) as Hl.
      simpl in Hl. by rewrite fetch_add_ok in Hl by lia. }
    rewrite <-(app_nil_r l). apply (returns_to_bind ph _ _ m2 m3 _ _ _ tt); [done|].
    pose proof (drop_guard_returns ph m3 (mkScreen true w3)) as Hd. rewrite Hg in Hd. simpl in Hd.
    rewrite fetch_sub_ok in Hd by lia. replace (preempts (globals m) + 1 - 1) with (preempts (globals m)) in Hd by lia.
    by apply Hd.
  - simpl. by rewrite Hc.
  - eexists _, _. split; [exact Hwi|]. exists w3. split_and!; try apply Hw3.
    + cbn. by rewrite Hg.
    + cbn. rewrite Hc. unfold m2, m1, m0. cbn. by destruct (cpu m).
    + rewrite Heq. symmetry. apply write_str_equiv; [done|]. by apply Forall_concat.
    + by rewrite !Serial.serial_bytes_app, (only_flag_serial l1), (only_flag_serial l2), app_nil_r.
    + rewrite !Forall_app. auto using console_obs_flag.
Qed.

(** C7 (functional): [print!] on a free console returns with the text of the
    format arguments on the screen (as one [write_str] of it would show it), on
    the serial port exactly in debug and test builds, with the lock free again, the
    preemption counter and the interrupt flag as before, no other static changed
    and no other device touched. *)
Theorem print_prints (m : machine D) (w : Writer) (args : Arguments) :
  console_free (globals m) w → Forall bytes_ok (strs args) →
  ∃ l m' w', returns_to (_print args) m l tt m' ∧
    globals m' = with_screen (mkScreen false w') (preempts (globals m)) (globals m) ∧
    cpu m' = cpu m ∧ Ok w' ≡ TextMode.write_str w (concat (strs args)) ∧
    Serial.serial_bytes l = (if debug_assertions || cfg_test then concat (strs args) else []) ∧
    Forall console_obs l.
Proof.
  intros Hc Ha. destruct (print_returns m w args Hc Ha) as (l & m' & Hr & w' & ? & ? & ? & ? & ? & ?).
  by exists l, m', w'.
Qed.

(** After printing, the console is free again. *)
Lemma printed_free s w m l m' :
  printed s w m l m' → console_free (globals m) w → ∃ w', console_free (globals m') w' ∧ Ok w' ≡ TextMode.write_str w s.
Proof. intros (w' & Hg & _ & Hw' & Heq & _) (_ & _ & Hp). exists w'. unfold console_free. by rewrite Hg. Qed.

(** * Printing while the console is locked *)

(** The lock is held: the call spins. *)
Lemma lock_spins pc m sl :
  SCREEN (globals m) = Some sl → screen_locked sl = true →
  pc = LockEnter ∨ pc = LockCas ∨ pc = LockSpin →
  ∃ p' pc', returns_to (lock_access (lock_step pc)) m [] pc' (set_screen sl p' m) ∧
    (pc' = LockCas ∨ pc' = LockSpin).
Proof.
  intros Hs Hl Hpc. destruct sl as [lk w]. simpl in Hl. subst lk.
  destruct Hpc as [->|[->| ->]];
    [exists (fetch_add (preempts (globals m)) 1), LockCas|exists (preempts (globals m)), LockSpin..];
    (split; [by apply (lock_access_returns ph (lock_step _) m _ (mkSpin true _) _ Hs)|auto]).
Qed.

(** Every run of a print on a locked console, however long, is still running and
    has only changed the interrupt flag. *)
Lemma print_locked_runs m sl args n :
  SCREEN (globals m) = Some sl → screen_locked sl = true →
  ∃ k l o m', (n ≤ k)%nat ∧ only_flag l ∧ steps ph k (start (_print args)) m l (Running o) m'.
Proof.
  intros Hs Hl. set (m0 := set_cpu (set_IF false) m).
  pose (Inv := λ pc m (l : list obs), l = [] ∧ SCREEN (globals m) = Some sl ∧
    (pc = LockEnter ∨ pc = LockCas ∨ pc = LockSpin)).
  assert (∀ n m, SCREEN (globals m) = Some sl →
    ∃ k o m', (n ≤ k)%nat ∧ steps ph k (start lock) m [] (Running o) m') as Hspin.
  { clear n m Hs m0. intros n m Hs.
    destruct (iter_rounds ph (λ pc, pc' ← lock_access (lock_step pc);
                mret (if decide (pc' = Held) then inr tt else inl pc')) Inv)
      with (n := n) (i := LockEnter) (m := m) (l := @nil obs)
      as (k & l' & j & m' & Hk & Hsteps & Hnil & _);
      [|by split_and!; auto|simpl in Hnil; subst l'; by eexists _, _, _].
    intros pc m1 l (-> & Hs1 & Hpc). destruct (lock_spins pc m1 sl Hs1 Hl Hpc) as (p' & pc' & Hr & Hpc').
    exists [], pc', (set_screen sl p' m1). split.
    - apply (returns_to_bind_nil ph _ _ _ _ _ _ _ _ Hr).
      destruct Hpc' as [->| ->]; apply returns_to_ret.
    - split_and!; [done|done|tauto]. }
  assert (returns_to SCREEN_deref m0 [] tt (set_screen sl (preempts (globals m)) m0)) as Hd.
  { apply (SCREEN_deref_returns ph m0). unfold console. simpl. by rewrite Hs. }
  destruct (Hspin n (set_screen sl (preempts (globals m)) m0) eq_refl) as (k & o & m' & Hk & Hst).
  destruct (steps_bind_l ph lock (λ _, write_fmt args ;; drop_guard) _ _ _ _ _ Hst) as [o1 Hst1].
  destruct (steps_bind_nil ph SCREEN_deref (λ _, (lock ;; write_fmt args ;; drop_guard) : M unit)
    _ _ _ _ _ _ _ Hd Hst1) as (n' & Hn' & Hall).
  edestruct (without_interrupts_steps (SCREEN_deref ;; lock ;; write_fmt args ;; drop_guard) m m')
    as (k' & l1 & o' & Hk' & Hf & Hw); [exact Hall|].
  exists k', (l1 ++ []), o', m'. split; [lia|]. split; [by rewrite app_nil_r|done].
Qed.

(** A print on a locked console never returns and never shows
    anything: the guard's owner is interrupted on the same CPU, so the call spins
    for ever.  This is what happens when printing is interrupted by an exception
    whose handler prints, or when formatting an argument prints or panics. *)
Theorem print_locked_hangs (m : machine D) (sl : ScreenLocker) (args : Arguments) :
  SCREEN (globals m) = Some sl → screen_locked sl = true →
  diverges ph (_print args) m ∧
  ∀ n l c m', steps ph n (start (_print args)) m l c m' → only_flag l.
Proof.
  intros Hs Hl. split.
  - apply diverges_long. intros n. destruct (print_locked_runs m sl args n Hs Hl) as (k & l & o & m' & ? & _ & ?).
    eauto 6.
  - intros n l c m' Hn. destruct (print_locked_runs m sl args n Hs Hl) as (k & l' & o & m1 & Hk & Hf & Hst).
    replace k with (n + (k - n))%nat in Hst by lia.
    apply steps_prefix in Hst as (la & ca & ma & lb & Ha & _ & ->).
    destruct (steps_det ph _ _ _ _ _ _ _ _ _ Hn Ha) as (-> & _). by apply Forall_app in Hf as [? _].
Qed.

End printing.

(** * Logging *)

Section screen_lines.
Context `{Build}.

(** Bytes the parser swallows change its state only. *)
Lemma for_bytes_silent fuel w bs s :
  ransid_run (wstate w) bs = Ok ([], s) → for_bytes (write_byte (S fuel)) w bs = Ok (set_state s w).
Proof.
  revert w. induction bs as [|b bs IH]; intros w; cbn [ransid_run for_bytes].
  { intros [= <-]. by destruct w. }
  cbn [write_byte]. destruct (ransid_process (wstate w) b) as [[o s1]|]; [|done]. cbn [mbind outcome_bind].
  destruct (ransid_run s1 bs) as [[cs s2]|] eqn:E; [|done]. cbn [mbind outcome_bind].
  destruct o as [c|]; intros [= -> ->]. by apply (IH (set_state s1 w)).
Qed.

Lemma for_bytes_sgr fuel w st p :
  wstate w = mkRansid Esc st st → param_ok p →
  for_bytes (write_byte (S fuel)) w (print_sgr p []) =
    Ok (set_state (mkRansid Esc (apply_param st p) (apply_param st p)) w).
Proof.
  intros Hs Hp. apply for_bytes_silent. rewrite Hs, <-(app_nil_r (print_sgr p [])).
  by rewrite ransid_run_sgr by (done || constructor).
Qed.

(** A line feed above the last row. *)
Lemma for_bytes_newline fuel w st :
  wstate w = mkRansid Esc st st → 0 ≤ y w < HEIGHT - 1 →
  for_bytes (write_byte (S fuel)) w [10] = Ok (set_pos 0 (y w + 1) w).
Proof.
  intros Hs Hy. cbn [for_bytes write_byte]. unfold ransid_process, transition. rewrite Hs. cbn.
  assert (set_state (mkRansid Esc st st) w = w) as -> by (destruct w; simpl in *; by subst).
  unfold newline. rewrite (proj2 (Z.eqb_neq _ _)) by lia.
  unfold add_u64. rewrite checked_ok by (unfold HEIGHT in *; lia). by destruct w.
Qed.

(** [w'] is [w] with [cells] drawn at the cursor, now in style [st]. *)
Record drawn (w : Writer) (cells : list Z) (st : Z) (w' : Writer) : Prop := {
  drawn_ok : writer_ok w';
  drawn_state : wstate w' = mkRansid Esc st st;
  drawn_buf : buf w' = list_inserts (Z.to_nat (cursor_pos w)) cells (buf w);
  drawn_x : x w' = x w + Z.of_nat (length cells);
  drawn_y : y w' = y w
}.

Lemma drawn_nil w st : writer_ok w → wstate w = mkRansid Esc st st → drawn w [] st w.
Proof. intros Hw Hs. split; try done. simpl. lia. Qed.

Lemma drawn_text fuel w cells st w' t :
  writer_ok w → drawn w cells st w' → Forall (λ b, ASCII_MIN ≤ b ≤ ASCII_MAX) t →
  x w + Z.of_nat (length cells + length t) < WIDTH →
  ∃ w'', for_bytes (write_byte (S fuel)) w' t = Ok w'' ∧ drawn w (cells ++ (vga_cell st <$> t)) st w''.
Proof.
  intros Hw [Hok Hst Hbuf Hx Hy] Ht Hfit. pose proof (cursor_pos_bounds w Hw) as Hpos.
  pose proof Hok as (Hr & Hlen & Hx' & Hy').
  rewrite (for_bytes_text fuel w' st t) by (done || lia). eexists. split; [done|].
  split; cbn [wstate buf x y]; [|done| |rewrite length_app, length_fmap; lia|done].
  - unfold writer_ok. cbn [wstate buf x y]. rewrite length_inserts. split_and!; done || lia.
  - rewrite list_inserts_app_l, Hbuf. f_equal. unfold cursor_pos in *. rewrite Hx, Hy. lia.
Qed.

Lemma drawn_sgr fuel w cells st w' p :
  drawn w cells st w' → param_ok p → 0 ≤ apply_param st p < 256 →
  ∃ w'', for_bytes (write_byte (S fuel)) w' (print_sgr p []) = Ok w'' ∧ drawn w cells (apply_param st p) w''.
Proof.
  intros [Hok Hst Hbuf Hx Hy] Hp Hb. rewrite (for_bytes_sgr fuel w' st p Hst Hp). eexists. split; [done|].
  split; [|done..]. destruct Hok as (_ & Hok). split; [|done]. split_and!; simpl; done || lia.
Qed.

(** A line of three runs of text in three styles, as the logger prints it. *)
Lemma colored_line fuel w st p q t1 t2 t3 :
  let st1 := apply_param st p in let st2 := apply_param st1 q in
  writer_ok w → wstate w = mkRansid Esc st st → param_ok p → param_ok q →
  0 ≤ st1 < 256 → 0 ≤ st2 < 256 →
  Forall (λ b, ASCII_MIN ≤ b ≤ ASCII_MAX) t1 → Forall (λ b, ASCII_MIN ≤ b ≤ ASCII_MAX) t2 →
  Forall (λ b, ASCII_MIN ≤ b ≤ ASCII_MAX) t3 →
  x w + Z.of_nat (length t1 + length t2 + length t3) < WIDTH → y w < HEIGHT - 1 →
  ∃ w', for_bytes (write_byte (S fuel)) w
          (t1 ++ print_sgr p [] ++ t2 ++ print_sgr q [] ++ t3 ++ [10]) = Ok (set_pos 0 (y w + 1) w') ∧
    drawn w ((vga_cell st <$> t1) ++ (vga_cell st1 <$> t2) ++ (vga_cell st2 <$> t3)) st2 w'.
Proof.
  intros st1 st2 Hw Hs Hp Hq H1 H2 Ht1 Ht2 Ht3 Hfit Hy. rewrite !for_bytes_app.
  destruct (drawn_text fuel w [] st w t1) as (w1 & -> & Hd1); [done|by apply drawn_nil|done|simpl; lia|].
  ok_simpl. rewrite for_bytes_app.
  destruct (drawn_sgr fuel w _ st w1 p Hd1) as (w2 & -> & Hd2); [done..|]. ok_simpl. rewrite for_bytes_app.
  destruct (drawn_text fuel w _ _ w2 t2 Hw Hd2) as (w3 & -> & Hd3); [done|rewrite app_nil_l, length_fmap; lia|].
  ok_simpl. rewrite for_bytes_app.
  destruct (drawn_sgr fuel w _ _ w3 q Hd3) as (w4 & -> & Hd4); [done..|]. ok_simpl. rewrite for_bytes_app.
  destruct (drawn_text fuel w _ _ w4 t3 Hw Hd4) as (w5 & -> & Hd5); [done| |].
  { rewrite app_nil_l, length_app, !length_fmap. lia. }
  ok_simpl. pose proof (drawn_y _ _ _ _ Hd5) as Hy5. destruct (proj2 (proj2 (proj2 Hw))) as [? _].
  rewrite (for_bytes_newline fuel w5 _ (drawn_state _ _ _ _ Hd5)) by lia.
  exists w5. rewrite Hy5. split; [done|]. by rewrite app_nil_l, <-app_assoc in Hd5.
Qed.

End screen_lines.

Section logging.
Context `{Build, Interrupts, LogCrate, !LogCrate_Laws} {D : Type} `{Devices D}
  (ph : panic → M Empty_set) `{!InterruptsLaws D ph}.
Abbreviation returns_to := (returns_to ph).
Implicit Types (m : machine D) (g : Globals).

(** The text of a record as the logger sees it. *)
Definition log_text (args : Arguments) : list Z :=
  match as_str args with None => bytes "Cannot format log entry" | Some s => s end.

(** The colour of a level: ANSI code and VGA style on black. *)
Definition ansi (l : Level) : Z :=
  match l with LInfo => 2 | LError => 1 | LWarn => 3 | LDebug => 6 | LTrace => 5 end.
Definition level_color (l : Level) : Color :=
  match l with
  | LInfo => LightGreen | LError => LightRed | LWarn => LightBrown | LDebug => LightCyan | LTrace => LightMagenta
  end.

Definition printable (t : list Z) : Prop := Forall (λ b, ASCII_MIN ≤ b ≤ ASCII_MAX) t.

Lemma printable_bytes t : printable t → bytes_ok t.
Proof. intros Ht. eapply Forall_impl; [exact Ht|]. unfold ASCII_MIN, ASCII_MAX. simpl. lia. Qed.

Lemma level_display_printable l :
  printable (level_display l) ∧ (length (level_display l) ≤ 5)%nat.
Proof. rewrite level_display_law. destruct l; (split; [repeat constructor; done|cbn; lia]). Qed.

(** The bytes the logger prints for a record. *)
Definition log_line (l : Level) (t : list Z) : list Z :=
  bytes "[" ++ color l ++ level_display l ++ (ESC :: bytes "[0m") ++ (bytes "] " ++ t) ++ [10].

Lemma color_sgr l : color l = print_sgr (Fg (ansi l)) [].
Proof. by destruct l. Qed.

Lemma level_style l : apply_param 0x0F (Fg (ansi l)) = create_style Black (level_color l).
Proof. by destruct l. Qed.

(** The cells of a log line. *)
Definition log_cells (l : Level) (t : list Z) : list Z :=
  (vga_cell 0x0F <$> bytes "[") ++ (vga_cell (create_style Black (level_color l)) <$> level_display l) ++
  (vga_cell 0x0F <$> bytes "] " ++ t).

Lemma log_line_bytes l t : printable t → bytes_ok (log_line l t).
Proof.
  intros Ht%printable_bytes. destruct (level_display_printable l) as [Hl%printable_bytes _].
  unfold log_line. repeat (apply Forall_app; split); try done; try (repeat constructor; unfold ESC; simpl; lia).
  destruct l; repeat constructor; unfold ESC; simpl; lia.
Qed.

(** What [log_macro] does: nothing, or it prints the line. *)
Lemma log_macro_returns m w l args :
  console_free (globals m) w → logger_set (globals m) = true → bytes_ok (log_text args) →
  level_rank l ≤ filter_rank (max_level (globals m)) →
  ∃ ob m', returns_to (log_macro l args) m ob tt m' ∧ printed (log_line l (log_text args)) w m ob m'.
Proof.
  intros Hc Hlog Ht Hlv.
  assert (level_le l (max_level (globals m)) = true) as Hle.
  { rewrite level_le_law. by apply Z.leb_le. }
  set (pieces := add_newline [Lit (bytes "["); Arg [color l]; Arg [level_display l];
    Arg [ESC :: bytes "[0m"]; Lit (bytes "] "); Arg [log_text args]]).
  assert (concat (strs pieces) = log_line l (log_text args)) as Hconcat.
  { unfold log_line. cbn. by rewrite <-?app_assoc. }
  destruct (print_returns ph m w pieces Hc) as (ob & m' & Hr & Hpr).
  { destruct (level_display_printable l) as [Hl%printable_bytes _].
    repeat constructor; try done; try (unfold ESC; simpl; lia).
    destruct l; repeat constructor; unfold ESC; simpl; lia. }
  exists ob, m'. rewrite Hconcat in Hpr. split; [|done].
  assert (∀ A (f : Globals → A), returns_to (trigger (Access (λ g, (f g, g)))) m [] (f (globals m)) m) as Hacc.
  { intros A f. apply returns_to_trigger. simpl. by destruct m. }
  unfold log_macro. eapply returns_to_bind_nil; [apply Hacc|]. rewrite Hle, Hlog. simpl.
  unfold log. eapply returns_to_bind_nil; [apply Hacc|]. unfold enabled. simpl. by rewrite Hle.
Qed.

(** C21 (functional): on a free console with the logger installed, the parser in its
    white-on-black rest state, the cursor not on the last row and a printable text
    that fits the row, a log macro whose level passes the maximum prints one line: an
    opening bracket, the level in its colour, a closing bracket and the text,
    in white on black, from the cursor's column; the cursor goes to the start of
    the next row, every other cell stays, and the lock, the counter and the flag
    are as before.  A level that does not pass prints nothing. *)
Theorem log_line_shown (m : machine D) (w : Writer) (l : Level) (args : Arguments) :
  console_free (globals m) w → logger_set (globals m) = true → printable (log_text args) →
  wstate w = mkRansid Esc 0x0F 0x0F → y w < HEIGHT - 1 →
  x w + Z.of_nat (8 + length (log_text args)) < WIDTH →
  if level_rank l <=? filter_rank (max_level (globals m)) then
    ∃ ob m' w', returns_to (log_macro l args) m ob tt m' ∧ cpu m' = cpu m ∧
      globals m' = with_screen (mkScreen false w') (preempts (globals m)) (globals m) ∧
      buf w' = list_inserts (Z.to_nat (cursor_pos w)) (log_cells l (log_text args)) (buf w) ∧
      x w' = 0 ∧ y w' = y w + 1 ∧ wstate w' = wstate w
  else returns_to (log_macro l args) m [] tt m.
Proof.
  intros Hc Hlog Ht Hst Hy Hfit. destruct (level_rank l <=? _) eqn:E.
  - zbool. destruct (log_macro_returns m w l args Hc Hlog (printable_bytes _ Ht) E)
      as (ob & m' & Hr & w' & Hg & Hcpu & Hw' & Heq & _).
    exists ob, m', w'. split_and!; [done|done|done|..].
    all: destruct Hc as (_ & Hw & _); rewrite write_str_equiv in Heq by (done || by apply log_line_bytes).
    all: destruct (level_display_printable l) as [Hl Hlen].
    all: destruct (colored_line 1 w 0x0F (Fg (ansi l)) Reset (bytes "[") (level_display l)
      (bytes "] " ++ log_text args)) as (w2 & Hf & Hd); try done; try (by destruct l);
      [by repeat constructor|by repeat constructor|rewrite length_app; cbn; lia|].
    all: unfold log_line in Heq; rewrite color_sgr in Heq;
      change (ESC :: bytes "[0m") with (print_sgr Reset []) in Heq; unfold nesting in Heq; rewrite Hf in Heq;
      destruct Heq as (Hs' & Hb' & Hx' & Hy').
    + rewrite Hb'. cbn [buf set_pos]. rewrite (drawn_buf _ _ _ _ Hd). unfold log_cells. by rewrite level_style.
    + by rewrite Hx'.
    + by rewrite Hy'.
    + rewrite Hs', Hst. cbn [wstate set_pos]. by rewrite (drawn_state _ _ _ _ Hd).
  - apply (returns_to_bind_nil ph _ _ m m _ _ false).
    + apply returns_to_trigger. simpl. rewrite level_le_law, E. by destruct m.
    + apply returns_to_ret.
Qed.

(** ** Logging as a step of other code *)

(** Printing works: the console is free and the logger installed. *)
Definition console_ready g : Prop := logger_set g = true ∧ ∃ w, console_free g w.

(** Nothing but the console changed. *)
Definition same_statics g g' : Prop :=
  g' = mkGlobals (SCREEN g') (vram g) (preempts g) (logger_set g) (max_level g) (SLP_TYPA g) (PHYS g).

Definition prints {A} (t : M A) (a : A) m : Prop :=
  ∃ l m', returns_to t m l a m' ∧ Forall console_obs l ∧ console_ready (globals m') ∧
    same_statics (globals m) (globals m') ∧ cpu m' = cpu m.

Lemma same_statics_refl g : same_statics g g.
Proof. by destruct g. Qed.

Lemma same_statics_trans g1 g2 g3 : same_statics g1 g2 → same_statics g2 g3 → same_statics g1 g3.
Proof. unfold same_statics. intros H12 H23. rewrite H12 in H23. exact H23. Qed.

Lemma printed_ready s w m l m' :
  printed s w m l m' → console_free (globals m) w → logger_set (globals m) = true →
  Forall console_obs l ∧ console_ready (globals m') ∧ same_statics (globals m) (globals m') ∧ cpu m' = cpu m.
Proof.
  intros Hp Hc Hlog. destruct (printed_free _ _ _ _ _ Hp Hc) as (w' & Hc' & _).
  destruct Hp as (? & Hg & Hcpu & _ & _ & _ & Hob). split; [done|]. split; [split; [by rewrite Hg|by exists w']|]. split; [|done].
  by rewrite Hg.
Qed.

Lemma print_any m args :
  console_ready (globals m) → Forall bytes_ok (strs args) → prints (_print args) tt m.
Proof.
  intros (Hlog & w & Hc) Ha. destruct (print_returns ph m w args Hc Ha) as (l & m' & Hr & Hp).
  exists l, m'. split; [done|]. by eapply printed_ready.
Qed.

Lemma log_any m l args :
  console_ready (globals m) → bytes_ok (log_text args) → prints (log_macro l args) tt m.
Proof.
  intros (Hlog & w & Hc) Ht. destruct (decide (level_rank l ≤ filter_rank (max_level (globals m)))) as [Hle|Hgt].
  - destruct (log_macro_returns m w l args Hc Hlog Ht Hle) as (ob & m' & Hr & Hp).
    exists ob, m'. split; [done|]. by eapply printed_ready.
  - exists [], m. split; [|split; [constructor|split; [split; [done|by exists w]|split; [apply same_statics_refl|done]]]].
    apply (returns_to_bind_nil ph _ _ m m _ _ false); [|apply (returns_to_ret ph tt)].
    apply returns_to_trigger. simpl. rewrite level_le_law, (proj2 (Z.leb_gt _ _)) by lia.
    by destruct m.
Qed.

Lemma prints_ret {A} (a : A) m : console_ready (globals m) → prints (mret a) a m.
Proof. intros Hc. exists [], m. split_and!; [apply returns_to_ret|constructor|done..|apply same_statics_refl|done]. Qed.

Lemma prints_lift {A} (o : outcome A) a m : console_ready (globals m) → o = Ok a → prints (lift o) a m.
Proof. intros Hc ->. by apply prints_ret. Qed.

(** Only the console changed since [m0], and printing still works. *)
Definition after m0 m : Prop :=
  console_ready (globals m) ∧ same_statics (globals m0) (globals m) ∧ cpu m = cpu m0.

Lemma after_refl m : console_ready (globals m) → after m m.
Proof. intros Hc. split; [done|]. split; [apply same_statics_refl|done]. Qed.

(** Code that only prints can be followed by more code. *)
Lemma after_bind {A B} (t : M A) (k : A → M B) a b m0 m (P : machine D → Prop) :
  after m0 m → prints t a m →
  (∀ m', after m0 m' → ∃ l m'', returns_to (k a) m' l b m'' ∧ P m'') →
  ∃ l m'', returns_to (t ≫= k) m l b m'' ∧ P m''.
Proof.
  intros (_ & Hs0 & Hcpu0) (l1 & m1 & Hr & _ & Hc & Hs & Hcpu) Hk.
  destruct (Hk m1) as (l2 & m2 & Hr2 & HP).
  { split; [done|]. split; [by eapply same_statics_trans|congruence]. }
  exists (l1 ++ l2), m2. split; [by eapply returns_to_bind|done].
Qed.

Lemma prints_bind {A B} (t : M A) (k : A → M B) a b m :
  prints t a m → (∀ m', console_ready (globals m') → prints (k a) b m') → prints (t ≫= k) b m.
Proof.
  intros (l1 & m1 & Hr & Hob & Hc & Hs & Hcpu) Hk.
  destruct (Hk m1 Hc) as (l2 & m2 & Hr2 & Hob2 & Hc2 & Hs2 & Hcpu2). exists (l1 ++ l2), m2.
  split; [by eapply returns_to_bind|]. split; [by apply Forall_app|]. split; [done|]. split; [by eapply same_statics_trans|congruence].
Qed.

(** The text of a record with no literal form is fixed. *)
Lemma log_text_bytes args : (∀ s, as_str args = Some s → bytes_ok s) → bytes_ok (log_text args).
Proof.
  intros Hs. unfold log_text. destruct (as_str args) as [s|]; [by apply Hs|].
  repeat constructor; simpl; lia.
Qed.

End logging.

(** * Reference implementations of the interfaces *)

Definition interrupts_ref : Interrupts := {|
  without_interrupts A f :=
    saved ← trigger InterruptFlag;
    (if saved : bool then trigger Cli else mret tt) ;;
    r ← f;
    (if saved : bool then trigger Sti else mret tt) ;;
    mret r
|}.

Definition log_ref : LogCrate := {|
  level_display l :=
    bytes match l with
          | LError => "ERROR" | LWarn => "WARN" | LInfo => "INFO" | LDebug => "DEBUG" | LTrace => "TRACE"
          end;
  level_le l f := level_rank l <=? filter_rank f
|}.

#[global] Instance log_ref_laws : @LogCrate_Laws log_ref.
Proof. by split. Qed.

Section interrupts.
Context {D : Type} `{Devices D} (ph : panic → M Empty_set).
Implicit Types m : machine D.

Lemma set_IF_id m : set_cpu (set_IF (IF (cpu m))) m = m.
Proof. by destruct m as [? [] ?]. Qed.

(** The entry of a section without interrupts. *)
Lemma ref_enter m :
  ∃ l, only_flag l ∧
    returns_to ph (if IF (cpu m) then trigger Cli else mret tt) m l tt (set_cpu (set_IF false) m).
Proof.
  destruct (IF (cpu m)) eqn:E.
  - exists [SetIF false]. split; [by repeat constructor|]. by apply returns_to_trigger.
  - exists []. split; [constructor|]. rewrite <-E, set_IF_id. apply returns_to_ret.
Qed.

Lemma ref_flag {A} m (k : bool → M A) l a m' :
  returns_to ph (k (IF (cpu m))) m l a m' → returns_to ph (b ← trigger InterruptFlag; k b) m l a m'.
Proof. intros Hk. eapply returns_to_bind_nil; [by apply returns_to_trigger|done]. Qed.

#[global] Instance interrupts_ref_laws : @InterruptsLaws interrupts_ref D _ ph.
Proof.
  split.
  - intros A f m m' l a Hf Hif. destruct (ref_enter m) as (l1 & Hl1 & Hen). exists l1.
    assert (∃ l2, only_flag l2 ∧ returns_to ph ((if IF (cpu m) then trigger Sti else mret tt) ;; mret a) m' l2 a
      (set_cpu (set_IF (IF (cpu m))) m')) as (l2 & Hl2 & Hex).
    { destruct (IF (cpu m)).
      - exists ([SetIF true] ++ []). split; [by repeat constructor|].
        eapply returns_to_bind; [by apply returns_to_trigger|apply returns_to_ret].
      - exists []. split; [constructor|]. rewrite <-Hif, set_IF_id.
        eapply returns_to_bind_nil; apply returns_to_ret. }
    exists l2. split; [|done]. apply ref_flag. eapply returns_to_bind; [exact Hen|].
    by eapply returns_to_bind.
  - intros A f m m' n l o Hf. destruct (ref_enter m) as (l1 & Hl1 & [n1 Hen]).
    apply (steps_cbind ph _ _ _ (λ r, (if IF (cpu m) then trigger Sti else mret tt) ;; mret r)) in Hf.
    apply (steps_cbind ph _ _ _ (λ _, r ← f; (if IF (cpu m) then trigger Sti else mret tt) ;; mret r)) in Hen.
    exists (S (n1 + n)), l1. eexists. split; [lia|]. split; [done|].
    change (l1 ++ l) with ([] ++ (l1 ++ l)). eapply steps_step; [reflexivity|].
    eapply steps_trans; [exact Hen|exact Hf].
Qed.

End interrupts.

(** * Witnesses *)

(** A machine with a console that is free, or held. *)
Definition console_machine (lk : bool) (w : Writer) : machine Serial.Uart :=
  mkMachine (mkGlobals (Some (mkScreen lk w)) [] 3 true Info 0 None)
    (mkCpu true [] ∅ (mkSegments 0 0 0 0 0 0) 0) (Serial.ready_uart [] []).

Definition halted : panic → M Empty_set := λ _, loop (trigger Hlt).

Definition empty_screen : Writer := mkWriter (mkRansid Esc 0x0F 0x0F) (replicate 2000 0xf20) 0 5 [].

Lemma empty_screen_ok : writer_ok empty_screen.
Proof. split_and!; simpl; unfold WIDTH, HEIGHT; try lia; done. Qed.

Lemma console_machine_free w :
  writer_ok w → console_free (globals (console_machine false w)) w.
Proof. intros Hw. split_and!; try done; try apply Hw; simpl; lia. Qed.

Lemma print_prints_witness :
  ∃ l m', returns_to (H := Serial.uart_devices) halted (@_print debug_build interrupts_ref
      [Lit (bytes "pages: "); Arg [bytes "512"]]) (console_machine false empty_screen) l tt m' ∧
    Serial.serial_bytes l = bytes "pages: 512" ∧ preempts (globals m') = 3.
Proof.
  destruct (@print_prints debug_build interrupts_ref _ Serial.uart_devices halted (interrupts_ref_laws halted)
    (console_machine false empty_screen) empty_screen [Lit (bytes "pages: "); Arg [bytes "512"]])
    as (l & m' & w' & Hr & Hg & _ & _ & Hs & _).
  - apply console_machine_free, empty_screen_ok.
  - repeat constructor; simpl; lia.
  - exists l, m'. rewrite Hg. split; [exact Hr|]. split; [exact Hs|reflexivity].
Defined.

Lemma print_locked_hangs_witness :
  diverges (H := Serial.uart_devices) halted (@_print release_build interrupts_ref [Lit (bytes "x")])
    (console_machine true empty_screen).
Proof.
  apply (@print_locked_hangs release_build interrupts_ref _ Serial.uart_devices halted
    (interrupts_ref_laws halted) _ (mkScreen true empty_screen)); reflexivity.
Defined.

Lemma log_line_shown_witness :
  ∃ ob m' w', returns_to (H := Serial.uart_devices) halted
      (@log_macro release_build interrupts_ref log_ref LWarn [Lit (bytes "low memory")])
      (console_machine false empty_screen) ob tt m' ∧
    buf w' = list_inserts 400 (@log_cells log_ref LWarn (bytes "low memory")) (replicate 2000 0xf20) ∧ y w' = 6.
Proof.
  pose proof (@log_line_shown release_build interrupts_ref log_ref _ _ Serial.uart_devices halted
    (interrupts_ref_laws halted) (console_machine false empty_screen) empty_screen LWarn
    [Lit (bytes "low memory")]) as Hl.
  destruct Hl as (ob & m' & w' & Hr & _ & _ & Hb & _ & Hy & _).
  - apply console_machine_free, empty_screen_ok.
  - reflexivity.
  - repeat constructor; unfold ASCII_MIN, ASCII_MAX; simpl; lia.
  - reflexivity.
  - reflexivity.
  - reflexivity.
  - exists ob, m', w'. split; [exact Hr|]. split; [exact Hb|exact Hy].
Defined.
