(* ===== verification/Acpi.v ===== *)
(** [src/drivers/acpi.rs]: finding the ACPI tables, and switching ACPI mode and
    the machine's power through its ports.

    The [acpi] and [aml] crates are a parameter, the class [AcpiCrate]: the tables
    they find, the AML namespace they build, and the values in it. *)
From S2P Require Import Prelude X86 Mm Machine Macros.
From ITree Require Import Core.ITreeDefinition.

(** * Types of the crates *)

(** [acpi::AmlTable]: "physical address of the start of the AML stream", and its
    length. *)
Record AmlTable := mkAmlTable { table_address : Z; table_length : Z }.

(** [aml::AmlValue]: the constructors the kernel matches on or reads. *)
Inductive AmlValue :=
  | AmlName (v : AmlValue)
  | AmlPackage (vs : list AmlValue)
  | AmlInteger (n : Z)
  | AmlOther.

Record GenericAddress := mkAddress { address : Z }.

(** [acpi::fadt::Fadt]: [None] is an [Err]; the second control block is
    optional. *)
Record Fadt := mkFadt {
  pm1a_control_block : option GenericAddress;
  pm1b_control_block : option (option GenericAddress);
  smi_cmd_port : Z;
  acpi_enable : Z
}.

(** [acpi::InterruptModel] *)
Inductive InterruptModel := ModelUnknown | ModelApic | ModelOther.

(** [acpi::PhysicalMapping] *)
Record PhysicalMapping := mkMapping {
  physical_start : Z; virtual_start : Z; region_length : Z; mapped_length : Z }.

(** The crates.  Their functions get the [AcpiHandler] as an argument; the results
    of fallible functions are [None] for an [Err]. *)
Class AcpiCrate := {
  AcpiTables : Type;
  AmlContext : Type;
  Name : Type;
  Madt : Type;
  ProcessorInfo : Type;
  search_for_rsdp_bios : (Z → Z → outcome PhysicalMapping) → outcome (option AcpiTables);
  dsdt : AcpiTables → option AmlTable;
  ssdts : AcpiTables → list AmlTable;
  get_madt : AcpiTables → option (option Madt);
  get_fadt : AcpiTables → option (option Fadt);
  parse_interrupt_model : Madt → option (InterruptModel * option ProcessorInfo);
  AmlContext_new : AmlContext;
  (** the slice as its address and length *)
  context_parse_table : AmlContext → Z → Z → option AmlContext;
  AmlName_from_str : list Z → option Name;
  AmlName_root : Name;
  namespace_search : AmlContext → Name → Name → option Name;
  namespace_get : AmlContext → Name → option AmlValue;
  as_integer : AmlValue → option Z;
  (** [{}] of a [usize] *)
  show_usize : Z → list Z
}.

(** * The code *)

Section code.
Context `{Build, X86_64, Interrupts, LogCrate, AcpiCrate}.

(** [AcpiHandler for Acpi] *)
Definition map_physical_region (physical_address size : Z) : outcome PhysicalMapping :=
  pa ← PhysAddr_new physical_address;
  start_virt ← phys_to_kernel_virt pa;
  ptr ← unwrap (if start_virt =? 0 then None else Some start_virt);
  Ok (mkMapping physical_address ptr size size).
Definition unmap_physical_region (region : PhysicalMapping) : unit := tt.

Record AcpiObject := mkAcpiObject {
  tables : AcpiTables;
  fadt : Fadt;
  madt : Madt;
  interrupt_model : InterruptModel;
  processor_info : option ProcessorInfo
}.

Definition AcpiObject_new (acpi_tables : AcpiTables) : outcome AcpiObject :=
  madt ← unwrap (get_madt acpi_tables);
  madt ← unwrap madt;
  fadt ← unwrap (get_fadt acpi_tables);
  fadt ← unwrap fadt;
  madt_result ← unwrap (parse_interrupt_model madt);
  Ok (mkAcpiObject acpi_tables fadt madt madt_result.1 madt_result.2).

Definition parse_table (ctx : AmlContext) (table : AmlTable) : outcome (option AmlContext) :=
  virt ← VirtAddr_new (table_address table);
  Ok (context_parse_table ctx virt (table_length table)).

(** [for (i, ssdt) in our_acpi.ssdts.iter().enumerate()] *)
Fixpoint parse_ssdts (ctx : AmlContext) (i : Z) (tables : list AmlTable) : M AmlContext :=
  match tables with
  | [] => mret ctx
  | ssdt :: tables' =>
      r ← lift (parse_table ctx ssdt);
      ctx ← lift (unwrap r);
      log_macro LDebug [Lit (bytes "acpi: parsed ssdt "); Arg [show_usize i]] ;;
      parse_ssdts ctx (i + 1) tables'
  end.

(** The first [match] of [init]. *)
Definition parse_dsdt (ctx : AmlContext) (our_acpi : AcpiTables) : M AmlContext :=
  match dsdt our_acpi with
  | Some dsdt =>
      r ← lift (parse_table ctx dsdt);
      ctx ← lift (unwrap r);
      log_macro LDebug [Lit (bytes "acpi: parsed dsdt")] ;;
      mret ctx
  | None =>
      log_macro LWarn [Lit (bytes "acpi: DSDT not found!")] ;;
      mret ctx
  end.

(** [SLP_TYPA = n << 10]: the bits shifted out of the [u64] are lost. *)
Definition set_SLP_TYPA (n : Z) (g : Globals) : Globals :=
  mkGlobals (SCREEN g) (vram g) (preempts g) (logger_set g) (max_level g)
    (Z.shiftl n 10 mod 2 ^ 64) (PHYS g).

Definition init : M AcpiObject :=
  r ← lift (search_for_rsdp_bios map_physical_region);
  our_acpi ← lift (unwrap r);
  log_macro LDebug [Lit (bytes "acpi: found tables")] ;;
  let ctx := AmlContext_new in
  ctx ← parse_dsdt ctx our_acpi;
  ctx ← parse_ssdts ctx 0 (ssdts our_acpi);
  name ← lift (unwrap (AmlName_from_str (bytes "_S5_")));
  let root := AmlName_root in
  name ← lift (unwrap (namespace_search ctx name root));
  v ← lift (unwrap (namespace_get ctx name));
  match v with
  | AmlName p =>
      match p with
      | AmlPackage v =>
          log_macro LDebug [Lit (bytes "acpi: getting SLP_TYPA")] ;;
          e ← lift (index v 0);
          n ← lift (unwrap (as_integer e));
          trigger (Access (λ g, (tt, set_SLP_TYPA n g)))
      | _ => raise PanicUnreachable
      end
  | _ => raise PanicUnreachable
  end ;;
  lift (AcpiObject_new our_acpi).

(** [*(address as *const u16)]; an address that is not mapped faults. *)
Definition deref16 (a : Z) : M Z :=
  o ← trigger (ReadU16 a);
  match o with Some v => mret v | None => raise BadPointer end.

(** [readval & 1 == 0] *)
Definition sci_disabled (readval : Z) : bool := Z.land readval 1 =? 0.

(** [readval = read(port); while readval & 1 == 0 { readval = read(port); }] *)
Definition wait_enabled (port : Z) : M Z :=
  readval ← trigger (PortIn 16 port);
  while_ sci_disabled (λ _, trigger (PortIn 16 port)) readval.

Definition enable (acpi : AcpiObject) : M unit :=
  a ← lift (unwrap (pm1a_control_block (fadt acpi)));
  pm1a ← deref16 (address a);
  readval ← trigger (PortIn 16 pm1a);
  if sci_disabled readval then
    if negb (smi_cmd_port (fadt acpi) =? 0) && negb (acpi_enable (fadt acpi) =? 0) then
      trigger (PortOut 8 (smi_cmd_port (fadt acpi) mod 2 ^ 16) (acpi_enable (fadt acpi))) ;;
      wait_enabled pm1a ;;
      b ← lift (unwrap (pm1b_control_block (fadt acpi)));
      match b with
      | None => mret tt
      | Some pm1b_addr =>
          pm1b ← deref16 (address pm1b_addr);
          wait_enabled pm1b ;;
          mret tt
      end
    else log_macro LDebug [Lit (bytes "ACPI cannot be enabled")]
  else log_macro LWarn [Lit (bytes "ACPI already enabled")].

(** [(SLP_TYPA | (1 << 13)) as u16] *)
Definition sleep_command (g : Globals) : Z := Z.lor (SLP_TYPA g) (Z.shiftl 1 13) mod 2 ^ 16.

Definition shutdown_round (acpi : AcpiObject) (pm1a : Z) : M unit :=
  cmd ← trigger (Access (λ g, (sleep_command g, g)));
  trigger (PortOut 16 pm1a cmd) ;;
  b ← lift (unwrap (pm1b_control_block (fadt acpi)));
  match b with
  | None => mret tt
  | Some pm1b_addr =>
      pm1b ← deref16 (address pm1b_addr);
      cmd ← trigger (Access (λ g, (sleep_command g, g)));
      trigger (PortOut 16 pm1b cmd)
  end.

Definition shutdown (acpi : AcpiObject) : M unit :=
  a ← lift (unwrap (pm1a_control_block (fadt acpi)));
  pm1a ← deref16 (address a);
  loop (shutdown_round acpi pm1a).

(** [apic_supported]: bit 9 of EDX of leaf 1. *)
Definition apic_supported : M bool :=
  '(_, _, _, edx) ← trigger (Cpuid 0x1);
  mret (negb (Z.land edx (Z.shiftl 1 9) =? 0)).

End code.
