(* ===== verification/AcpiProperties.v ===== *)
(** Theorems on [Acpi]: the sleep type read at boot, the wait for ACPI mode, and
    the shutdown loop. *)
From S2P Require Import Prelude X86 Mm TextMode Screen Machine Macros MacrosProperties Acpi.
From S2P Require Serial.
From ITree Require Import Core.ITreeDefinition.

Section acpi.
Context `{Build, X86_64, Interrupts, LogCrate, !LogCrate_Laws, AcpiCrate}
  {D : Type} `{Devices D} (ph : panic → M Empty_set) `{!InterruptsLaws D ph}.
Abbreviation returns_to := (returns_to ph).
Abbreviation panics_to := (panics_to ph).
Abbreviation diverges := (diverges ph).
Abbreviation prints := (prints ph).
Abbreviation leads_to := (leads_to ph).
Implicit Types (m : machine D) (g : Globals) (acpi : AcpiObject).

(** * Initialisation *)

(** The AML context after the tables in order. *)
Fixpoint load_tables (ctx : AmlContext) (ts : list AmlTable) : outcome AmlContext :=
  match ts with
  | [] => Ok ctx
  | t :: ts' => r ← parse_table ctx t; ctx ← unwrap r; load_tables ctx ts'
  end.

Definition all_tables (t : AcpiTables) : list AmlTable := option_list (dsdt t) ++ ssdts t.

Lemma literal_bytes (s : list Z) : bytes_ok s → bytes_ok (log_text [Lit s]).
Proof. done. Qed.

Ltac literal := apply literal_bytes; repeat constructor; simpl; lia.

Lemma parse_ssdts_prints ctx i ts ctx' m :
  console_ready (globals m) → load_tables ctx ts = Ok ctx' → prints (parse_ssdts ctx i ts) ctx' m.
Proof.
  revert ctx i m. induction ts as [|t ts IH]; intros ctx i m Hc Hl; cbn [parse_ssdts load_tables] in *.
  { injection Hl as ->. by apply prints_ret. }
  bind_inv Hl. bind_inv Hl. eapply prints_bind; [by apply prints_lift|]. intros m1 Hc1.
  eapply prints_bind; [by apply prints_lift|]. intros m2 Hc2.
  eapply prints_bind; [apply (log_any ph _ _ _ Hc2); by apply log_text_bytes|]. intros m3 Hc3. by apply IH.
Qed.

Lemma parse_dsdt_prints t ctx m :
  console_ready (globals m) → load_tables AmlContext_new (all_tables t) = Ok ctx →
  ∃ ctx1, prints (parse_dsdt AmlContext_new t) ctx1 m ∧ load_tables ctx1 (ssdts t) = Ok ctx.
Proof.
  unfold all_tables, parse_dsdt. intros Hc Hload. destruct (dsdt t) as [ds|]; simpl in Hload.
  - bind_inv Hload. bind_inv Hload. exists a0. split; [|done].
    eapply prints_bind; [by apply prints_lift|]. intros ? ?.
    eapply prints_bind; [by apply prints_lift|]. intros ? Hcx.
    eapply prints_bind; [apply (log_any ph _ _ _ Hcx); literal|]. intros ? ?. by apply prints_ret.
  - exists AmlContext_new. split; [|done].
    eapply prints_bind; [apply (log_any ph _ _ _ Hc); literal|]. intros ? ?. by apply prints_ret.
Qed.

Lemma same_statics_SLP n g g' :
  same_statics g g' → same_statics (set_SLP_TYPA n g) (set_SLP_TYPA n g').
Proof. destruct g, g'. unfold same_statics. simpl. intros [=]. by subst. Qed.

(** The command [shutdown] will send. *)
Lemma sleep_command_value g n :
  SLP_TYPA g = Z.shiftl n 10 mod 2 ^ 64 → 0 ≤ n < 8 → sleep_command g = 1024 * n + 8192.
Proof.
  intros Hs Hn. unfold sleep_command. rewrite Hs.
  assert (n = 0 ∨ n = 1 ∨ n = 2 ∨ n = 3 ∨ n = 4 ∨ n = 5 ∨ n = 6 ∨ n = 7) as Hcases by lia.
  by destruct Hcases as [->|[->|[->|[->|[->|[->|[->| ->]]]]]]].
Qed.

(** The crates find tables that parse, the namespace has the package of the
    power-off state with sleep type [n], and [obj] is the object for the tables. *)
Definition acpi_found (n : Z) (obj : AcpiObject) : Prop :=
  ∃ t ctx s5 name e vs,
    search_for_rsdp_bios map_physical_region = Ok (Some t) ∧
    load_tables AmlContext_new (all_tables t) = Ok ctx ∧ AmlName_from_str (bytes "_S5_") = Some s5 ∧
    namespace_search ctx s5 AmlName_root = Some name ∧
    namespace_get ctx name = Some (AmlName (AmlPackage (e :: vs))) ∧ as_integer e = Some n ∧
    AcpiObject_new t = Ok obj.

Lemma acpi_init_returns m n obj :
  console_ready (globals m) → acpi_found n obj →
  ∃ l m', returns_to init m l obj m' ∧
    (same_statics (set_SLP_TYPA n (globals m)) (globals m') ∧ cpu m' = cpu m ∧ console_ready (globals m')).
Proof.
  intros Hc (t & ctx & s5 & name & e & vs & Hrsdp & Hload & Hs5 & Hname & Hget & Hint & Hobj).
  unfold init. pose proof (after_refl m Hc) as Hm.
  eapply (after_bind ph _ _ _ _ m m); [done|by apply prints_lift|]. intros m1 Ha1.
  eapply (after_bind ph _ _ _ _ m m1); [done|apply prints_lift; [apply Ha1|done]|]. intros m2 Ha2.
  eapply (after_bind ph _ _ _ _ m m2); [done|apply (log_any ph _ _ _ (proj1 Ha2)); literal|]. intros m3 Ha3. cbv beta iota zeta.
  destruct (parse_dsdt_prints t ctx m3 (proj1 Ha3) Hload) as (ctx1 & Hp1 & Hload1).
  eapply (after_bind ph _ _ _ _ m m3); [done|exact Hp1|]. intros m4 Ha4.
  eapply (after_bind ph _ _ _ _ m m4); [done|apply parse_ssdts_prints; [apply Ha4|exact Hload1]|]. intros m5 Ha5.
  eapply (after_bind ph _ _ _ _ m m5); [done|apply prints_lift; [apply Ha5|by rewrite Hs5]|]. intros m6 Ha6.
  eapply (after_bind ph _ _ _ _ m m6); [done|apply prints_lift; [apply Ha6|by rewrite Hname]|]. intros m7 Ha7.
  eapply (after_bind ph _ _ _ _ m m7); [done|apply prints_lift; [apply Ha7|by rewrite Hget]|]. intros m8 Ha8. cbv beta iota.
  destruct (log_any ph m8 LDebug [Lit (bytes "acpi: getting SLP_TYPA")] (proj1 Ha8)) as (l9 & m9 & Hr9 & _ & Hc9 & Hs9 & Hcpu9);
    [literal|]. destruct Ha8 as (_ & Hs8 & Hcpu8).
  set (m10 := set_globals (set_SLP_TYPA n (globals m9)) m9).
  assert (returns_to (e ← lift (index (e :: vs) 0); n ← lift (unwrap (as_integer e));
    trigger (Access (λ g, (tt, set_SLP_TYPA n g)))) m9 [] tt m10) as Hr10.
  { eapply returns_to_bind_nil; [by apply returns_to_lift|].
    eapply returns_to_bind_nil; [apply returns_to_lift; by rewrite Hint|]. by apply returns_to_trigger. }
  eexists _, m10. split; [eapply returns_to_bind; [eapply returns_to_bind; [exact Hr9|exact Hr10]|by apply returns_to_lift]|].
  assert (same_statics (globals m) (globals m9)) as Hs by (by eapply same_statics_trans).
  split; [by apply same_statics_SLP|]. split; [simpl; congruence|].
  destruct Hc9 as (Hlog & w & ?). split; [done|by exists w].
Qed.

(** When the tables parse and the namespace has the package of
    the power-off state, [acpi::init] returns the object for the tables and
    records the sleep type; a three-bit type then makes the shutdown command the
    type in bits 10 to 12 with the enable bit 13.  Every other static keeps its
    value. *)
Theorem acpi_init_sleep_type (m : machine D) (n : Z) (obj : AcpiObject) :
  console_ready (globals m) → acpi_found n obj →
  ∃ l m', returns_to init m l obj m' ∧ same_statics (set_SLP_TYPA n (globals m)) (globals m') ∧
    cpu m' = cpu m ∧ (0 ≤ n < 8 → sleep_command (globals m') = 1024 * n + 8192).
Proof.
  intros Hc Hf. destruct (acpi_init_returns m n obj Hc Hf) as (l & m' & Hr & Hs & Hcpu & _).
  exists l, m'. split_and!; [done|done|done|]. intros Hn. apply sleep_command_value; [by rewrite Hs|done].
Qed.

(** * Switching ACPI on *)

(** Bit 0 of the control register. *)
Definition sci_enabled (v : Z) : bool := Z.testbit v 0.

Lemma sci_enabled_bit v : sci_enabled v = negb (sci_disabled v).
Proof. unfold sci_disabled. change 1 with (2 ^ 0). by rewrite land_pow2_zero, negb_involutive. Qed.

Lemma wait_enabled_returns p vs d' m :
  polls 16 p sci_enabled (devices m) vs d' →
  ∃ v, returns_to (wait_enabled p) m (In 16 p <$> vs) v (set_devices d' m).
Proof.
  intros Hp%(polls_ext _ _ _ _ _ _ _ sci_enabled_bit).
  inversion Hp as [? v ? Hd Hv|? v d1 vs' ? Hd Hv Hp']; subst.
  - exists v. eapply returns_to_in; [done|]. apply returns_to_while_stop. by apply negb_true_iff in Hv.
  - apply negb_false_iff in Hv.
    destruct (returns_to_while_poll ph 16 p sci_disabled v vs' d1 d' (set_devices d1 m) Hv Hp' eq_refl) as (v' & Hr).
    exists v'. by eapply returns_to_in.
Qed.

Lemma wait_enabled_diverges p m :
  never_ready 16 p sci_enabled (devices m) → diverges (wait_enabled p) m.
Proof.
  intros Hn%(never_ready_ext _ _ _ _ _ sci_enabled_bit). destruct (dev_in 16 p (devices m)) as [v d] eqn:Hd.
  eapply diverges_bind; [by apply returns_to_trigger; simpl; rewrite Hd|].
  apply diverges_while_poll.
  - specialize (Hn 0%nat). simpl in Hn. rewrite Hd in Hn. by apply negb_false_iff in Hn.
  - simpl. apply never_ready_next in Hn. by rewrite Hd in Hn.
Qed.

Lemma deref16_returns a v m : dev_mem16 a (devices m) = Some v → returns_to (deref16 a) m [] v m.
Proof.
  intros Ha. eapply returns_to_bind_nil; [by apply returns_to_trigger|]. rewrite Ha. apply returns_to_ret.
Qed.

Lemma deref16_panics a m : dev_mem16 a (devices m) = None → panics_to (deref16 a) m [] BadPointer m.
Proof.
  intros Ha. change (@nil obs) with (@nil obs ++ []).
  eapply panics_to_bind; [by apply returns_to_trigger|]. rewrite Ha. apply panics_to_raise.
Qed.

(** The wait on the second control block, with which [enable] ends. *)
Definition wait_second acpi : M unit :=
  b ← lift (unwrap (pm1b_control_block (fadt acpi)));
  match b with
  | None => mret tt
  | Some pm1b_addr => pm1b ← deref16 (address pm1b_addr); wait_enabled pm1b ;; mret tt
  end.

(** [t] ends the way the second control block makes it end: by a panic when the
    tables have an invalid one, at once when there is none, by a fault when its
    address is not mapped, else when its port sets the enable bit. *)
Definition ends_with_second {A} acpi (t : M A) (a : A) (l : list obs) m m' : Prop :=
  match pm1b_control_block (fadt acpi) with
  | None => panics_to t m l PanicUnwrap m'
  | Some None => returns_to t m l a m'
  | Some (Some b) =>
      match dev_mem16 (address b) (devices m') with
      | None => panics_to t m l BadPointer m'
      | Some q =>
          (∀ ws d, polls 16 q sci_enabled (devices m') ws d →
             returns_to t m (l ++ (In 16 q <$> ws)) a (set_devices d m')) ∧
          (never_ready 16 q sci_enabled (devices m') → diverges t m)
      end
  end.

Lemma wait_second_ends acpi m : ends_with_second acpi (wait_second acpi) tt [] m m.
Proof.
  unfold ends_with_second, wait_second. destruct (pm1b_control_block (fadt acpi)) as [[b|]|].
  - assert (returns_to (lift (unwrap (Some (Some b)))) m [] (Some b) m) as R by (by apply returns_to_lift).
    destruct (dev_mem16 (address b) (devices m)) as [q|] eqn:Hq.
    + split.
      * intros ws d Hp. destruct (wait_enabled_returns q ws d m Hp) as (v & Hw).
        eapply returns_to_bind_nil; [exact R|]. eapply returns_to_bind_nil; [by apply deref16_returns|].
        rewrite app_nil_l, <-(app_nil_r (In 16 q <$> ws)). eapply returns_to_bind; [exact Hw|apply returns_to_ret].
      * intros Hn. eapply diverges_bind; [exact R|]. eapply diverges_bind; [by apply deref16_returns|].
        by apply diverges_bind_l, wait_enabled_diverges.
    + change (@nil obs) with (@nil obs ++ []). eapply panics_to_bind; [exact R|].
      by apply panics_to_bind_l, deref16_panics.
  - eapply returns_to_bind_nil; [by apply returns_to_lift|]. apply returns_to_ret.
  - apply panics_to_bind_l. apply panics_to_raise.
Qed.

Lemma leads_to_ends {A} acpi (t t' : M A) a l m m' :
  leads_to t m l t' m' → ends_with_second acpi t' a [] m' m' → ends_with_second acpi t a l m m'.
Proof.
  intros Hl. pose proof (λ l2 a m2, leads_to_returns ph t t' m l m' l2 a m2 Hl) as Hr.
  pose proof (λ l2 e m2, leads_to_panics ph t t' m l m' l2 e m2 Hl) as Hp.
  pose proof (leads_to_diverges ph t t' m l m' Hl) as Hd. unfold ends_with_second. destruct (pm1b_control_block (fadt acpi)) as [[b|]|].
  - destruct (dev_mem16 _ _) as [q|].
    + intros [He1 He2]. split; [|by eauto]. intros ws d Hw. by apply (Hr _ _ _ (He1 ws d Hw)).
    + intros He1. specialize (Hp _ _ _ He1). by rewrite app_nil_r in Hp.
  - intros He1. specialize (Hr _ _ _ He1). by rewrite app_nil_r in Hr.
  - intros He1. specialize (Hp _ _ _ He1). by rewrite app_nil_r in Hp.
Qed.

(** [enable] up to the first read of the control port. *)
Lemma enable_reads m acpi a p v d1 :
  pm1a_control_block (fadt acpi) = Some a → dev_mem16 (address a) (devices m) = Some p →
  dev_in 16 p (devices m) = (v, d1) →
  leads_to (enable acpi) m [In 16 p v]
    (if sci_disabled v then
       if negb (smi_cmd_port (fadt acpi) =? 0) && negb (acpi_enable (fadt acpi) =? 0) then
         trigger (PortOut 8 (smi_cmd_port (fadt acpi) mod 2 ^ 16) (acpi_enable (fadt acpi))) ;;
         wait_enabled p ;; wait_second acpi
       else log_macro LDebug [Lit (bytes "ACPI cannot be enabled")]
     else log_macro LWarn [Lit (bytes "ACPI already enabled")]) (set_devices d1 m).
Proof.
  intros Ha Hp Hd. change [In 16 p v] with ([] ++ [] ++ [In 16 p v]). unfold enable.
  eapply leads_to_bind; [apply returns_to_lift; by rewrite Ha|].
  eapply leads_to_bind; [by apply deref16_returns|].
  refine (leads_to_step ph (trigger (PortIn 16 p)) _ m [In 16 p v] v (set_devices d1 m) _).
  apply returns_to_trigger. simpl. by rewrite Hd.
Qed.

(** C19 (termination): with a free console and a control port that can be reached,
    [acpi::enable] reads the port once.  If ACPI is on already, or the tables have
    no SMI command port or no enable value, it returns after log output only.
    Otherwise it writes the enable value to the SMI command port once and reads the
    control port until its enable bit is set: a port that never sets the bit is
    read for ever, and once it is set the call ends as the second control block
    says: it returns at once without one; with one it reads that port until its bit
    is set, for ever if it never is, and it faults when the block's address is not
    mapped; an invalid block is a panic. *)
Theorem acpi_enable_waits (m : machine D) (acpi : AcpiObject) (a : GenericAddress) (p v : Z) (d1 : D) :
  console_ready (globals m) → pm1a_control_block (fadt acpi) = Some a →
  dev_mem16 (address a) (devices m) = Some p → dev_in 16 p (devices m) = (v, d1) →
  let smi := smi_cmd_port (fadt acpi) mod 2 ^ 16 in
  let d2 := dev_out 8 smi (acpi_enable (fadt acpi)) d1 in
  if sci_enabled v || (smi_cmd_port (fadt acpi) =? 0) || (acpi_enable (fadt acpi) =? 0) then
    ∃ l m', returns_to (enable acpi) m (In 16 p v :: l) tt m' ∧ Forall console_obs l ∧
      same_statics (globals m) (globals m') ∧ cpu m' = cpu m
  else
    (∀ vs d3, polls 16 p sci_enabled d2 vs d3 →
       ends_with_second acpi (enable acpi) tt
         (In 16 p v :: Out 8 smi (acpi_enable (fadt acpi)) :: (In 16 p <$> vs)) m (set_devices d3 m)) ∧
    (never_ready 16 p sci_enabled d2 → diverges (enable acpi) m).
Proof.
  intros Hc Ha Hp Hd smi d2. pose proof (enable_reads m acpi a p v d1 Ha Hp Hd) as Hl.
  set (m1 := set_devices d1 m) in *. rewrite sci_enabled_bit.
  assert (∀ lv args, bytes_ok (log_text args) → leads_to (enable acpi) m [In 16 p v] (log_macro lv args) m1 →
    ∃ l m', returns_to (enable acpi) m (In 16 p v :: l) tt m' ∧ Forall console_obs l ∧
      same_statics (globals m) (globals m') ∧ cpu m' = cpu m) as Hlog.
  { intros lv args Hb Hll. destruct (log_any ph m1 lv args Hc Hb) as (l & m' & Hr1 & ? & _ & ? & ?).
    exists l, m'. split; [exact (leads_to_returns ph _ _ _ [_] _ _ _ _ Hll Hr1)|done]. }
  destruct (sci_disabled v); cbn [negb orb] in *; [|eapply Hlog; [|exact Hl]; literal].
  destruct (smi_cmd_port (fadt acpi) =? 0); cbn [negb andb orb] in *; [eapply Hlog; [|exact Hl]; literal|].
  destruct (acpi_enable (fadt acpi) =? 0); cbn [negb] in *; [eapply Hlog; [|exact Hl]; literal|].
  assert (leads_to (enable acpi) m [In 16 p v; Out 8 smi (acpi_enable (fadt acpi))]
    (wait_enabled p ;; wait_second acpi) (set_devices d2 m1)) as Hw.
  { eapply (leads_to_trans ph _ _ _ _ [_]); [exact Hl|].
    refine (leads_to_step ph (trigger (PortOut 8 smi _)) _ _ [_] tt _ _). by apply returns_to_trigger. }
  split; [|by intros Hn; eapply leads_to_diverges; [exact Hw|]; apply diverges_bind_l, wait_enabled_diverges].
  intros vs d3 Hpolls. destruct (wait_enabled_returns p vs d3 (set_devices d2 m1) Hpolls) as (v' & Hr).
  eapply leads_to_ends; [|apply wait_second_ends].
  eapply (leads_to_trans ph _ _ _ _ [_; _]); [exact Hw|]. exact (leads_to_step ph _ _ _ _ _ _ Hr).
Qed.

(** * Shutting down *)

(** What one round of the loop writes. *)
Definition shutdown_obs (p : Z) (qs : list Z) (cmd : Z) : list obs :=
  Out 16 p cmd :: ((λ q, Out 16 q cmd) <$> qs).

(** The ports of the second control block: none, or the one its address holds,
    in memory that port writes do not change. *)
Definition second_ports (b : option GenericAddress) (qs : list Z) : Prop :=
  match b with
  | None => qs = []
  | Some b => ∃ q, qs = [q] ∧ ∀ d : D, dev_mem16 (address b) d = Some q
  end.

Lemma shutdown_round_returns acpi b p qs m :
  pm1b_control_block (fadt acpi) = Some b → second_ports b qs →
  ∃ m', returns_to (shutdown_round acpi p) m (shutdown_obs p qs (sleep_command (globals m))) tt m' ∧
    globals m' = globals m ∧ cpu m' = cpu m.
Proof.
  intros Hb Hq. set (cmd := sleep_command (globals m)).
  assert (∀ m, globals m = globals m → returns_to (trigger (Access (λ g, (sleep_command g, g)))) m []
    (sleep_command (globals m)) m) as Hacc.
  { intros m1 _. apply returns_to_trigger. simpl. by destruct m1. }
  set (m1 := set_devices (dev_out 16 p cmd (devices m)) m).
  assert (returns_to (trigger (PortOut 16 p cmd)) m [Out 16 p cmd] tt m1) as Ho by (by apply returns_to_trigger).
  destruct b as [b|]; [destruct Hq as (q & -> & Hmem)|simpl in Hq; subst qs].
  - exists (set_devices (dev_out 16 q cmd (devices m1)) m1). split_and!; [|done..].
    eapply returns_to_bind_nil; [by apply Hacc|]. eapply (returns_to_bind ph _ _ _ _ _ [_]); [exact Ho|].
    eapply returns_to_bind_nil; [apply returns_to_lift; by rewrite Hb|]. cbv beta iota.
    eapply returns_to_bind_nil; [by apply deref16_returns|].
    eapply returns_to_bind_nil; [by apply Hacc|]. by apply returns_to_trigger.
  - exists m1. split_and!; [|done..].
    eapply returns_to_bind_nil; [by apply Hacc|]. eapply (returns_to_bind ph _ _ _ _ _ [_]); [exact Ho|].
    eapply returns_to_bind_nil; [apply returns_to_lift; by rewrite Hb|]. apply returns_to_ret.
Qed.

(** [acpi::shutdown] keeps sending the power-off command for ever:
    every round writes it to the first control port and, if there is one, to the
    second, nothing else happens, and the call neither returns nor panics. *)
Theorem acpi_shutdown_for_ever (m : machine D) (acpi : AcpiObject) (a : GenericAddress)
    (b : option GenericAddress) (p : Z) (qs : list Z) :
  pm1a_control_block (fadt acpi) = Some a → dev_mem16 (address a) (devices m) = Some p →
  pm1b_control_block (fadt acpi) = Some b → second_ports b qs →
  diverges (shutdown acpi) m ∧
  ∀ n, ∃ k c m', steps ph k (start (shutdown acpi)) m
    (concat (replicate n (shutdown_obs p qs (sleep_command (globals m))))) c m' ∧ globals m' = globals m.
Proof.
  intros Ha Hp Hb Hq.
  assert (∀ m1, globals m1 = globals m → ∃ u m', returns_to (shutdown_round acpi p) m1
    (shutdown_obs p qs (sleep_command (globals m))) u m' ∧ globals m' = globals m) as Hround.
  { intros m1 Hg. destruct (shutdown_round_returns acpi b p qs m1 Hb Hq) as (m' & Hr & Hg' & _).
    rewrite Hg in Hr, Hg'. eauto. }
  split.
  - unfold shutdown. eapply diverges_bind; [apply returns_to_lift; by rewrite Ha|].
    eapply diverges_bind; [by apply deref16_returns|].
    apply (diverges_loop ph _ (λ m1, globals m1 = globals m)); [|done].
    intros m1 Hg. destruct (Hround m1 Hg) as (u & m' & ? & ?). eauto.
  - intros n. destruct (loop_rounds ph (R := unit) (shutdown_round acpi p) (λ m1, globals m1 = globals m)
      (shutdown_obs p qs (sleep_command (globals m))) n m Hround eq_refl) as (k & m' & _ & Hg & Hk).
    destruct (steps_bind_nil ph _ (λ pm1a, loop (shutdown_round acpi pm1a) : M unit) _ _ _ _ _ _ _
      (deref16_returns _ _ m Hp) Hk) as (k2 & _ & Hk2).
    assert (returns_to (lift (unwrap (pm1a_control_block (fadt acpi)))) m [] a m) as R1
      by (apply returns_to_lift; by rewrite Ha).
    destruct (steps_bind_nil ph _ (λ a, (pm1a ← deref16 (address a); loop (shutdown_round acpi pm1a)) : M unit)
      _ _ _ _ _ _ _ R1 Hk2) as (k1 & _ & Hk1).
    by eexists k1, _, m'.
Qed.

(** C38 (error): the control block's address is its I/O port number, but the code
    reads a 16-bit word of memory at that number and uses what it finds there as
    the port.  Where that memory is not mapped both operations fault before any
    port access; otherwise the first port access of [enable] is a read of the port
    with the number found, and the first one of [shutdown] a write of the power-off
    command to it. *)
Theorem acpi_port_dereferenced (m : machine D) (acpi : AcpiObject) (a : GenericAddress) :
  pm1a_control_block (fadt acpi) = Some a →
  match dev_mem16 (address a) (devices m) with
  | None => panics_to (enable acpi) m [] BadPointer m ∧ panics_to (shutdown acpi) m [] BadPointer m
  | Some p =>
      (let '(v, d) := dev_in 16 p (devices m) in
       reaches ph (enable acpi) m [In 16 p v] (set_devices d m)) ∧
      (let cmd := sleep_command (globals m) in
       reaches ph (shutdown acpi) m [Out 16 p cmd] (set_devices (dev_out 16 p cmd (devices m)) m))
  end.
Proof.
  intros Ha. assert (returns_to (lift (unwrap (pm1a_control_block (fadt acpi)))) m [] a m) as R1
    by (apply returns_to_lift; by rewrite Ha).
  destruct (dev_mem16 _ _) as [p|] eqn:Hp.
  - pose proof (deref16_returns _ _ m Hp) as R2. split.
    + destruct (dev_in 16 p (devices m)) as [v d] eqn:Hd.
      assert (returns_to (trigger (PortIn 16 p)) m [In 16 p v] v (set_devices d m)) as R3
        by (apply returns_to_trigger; simpl; by rewrite Hd).
      eapply reaches_bind; [exact R1|]. eapply reaches_bind; [exact R2|]. by eapply reaches_bind_l.
    + intros cmd. eapply reaches_bind; [exact R1|]. eapply reaches_bind; [exact R2|].
      apply reaches_loop. unfold shutdown_round.
      assert (returns_to (trigger (Access (λ g, (sleep_command g, g)))) m [] cmd m) as R3
        by (apply returns_to_trigger; simpl; by destruct m).
      eapply reaches_bind; [exact R3|]. eapply reaches_bind_l. by apply returns_to_trigger.
  - pose proof (deref16_panics _ m Hp) as Hf.
    split; change (@nil obs) with (@nil obs ++ []); (eapply panics_to_bind; [exact R1|]);
      by apply panics_to_bind_l.
Qed.

End acpi.

(** * A machine for concrete runs *)

(** Tables with a DSDT that declares the power-off state with sleep type 5; the
    context counts the tables parsed. *)
Definition acpi_ref : AcpiCrate := {|
  AcpiTables := unit; AmlContext := nat; Name := nat; Madt := unit; ProcessorInfo := unit;
  search_for_rsdp_bios handler := _ ← handler 0xE0000 0x20000; Ok (Some tt);
  dsdt _ := Some (mkAmlTable 0x7FE0000 512);
  ssdts _ := [];
  get_madt _ := Some (Some tt);
  get_fadt _ := Some (Some (mkFadt (Some (mkAddress 0x404)) (Some None) 0xB2 2));
  parse_interrupt_model _ := Some (ModelApic, None);
  AmlContext_new := 0%nat;
  context_parse_table c a l := Some (S c);
  AmlName_from_str s := Some 1%nat;
  AmlName_root := 0%nat;
  namespace_search c n r := if (c =? 0)%nat then None else Some n;
  namespace_get c n := Some (AmlName (AmlPackage [AmlInteger 5; AmlInteger 5]));
  as_integer v := match v with AmlInteger n => Some n | _ => None end;
  show_usize n := [48 + n mod 10]
|}.

(** A power-management device: after the enable command the enable bit shows at
    the third read.  The word at 0x404 holds the port number 0x604. *)
Definition pm_devices : Devices (option nat) := {|
  dev_in w p d := match d with None => (0, None) | Some O => (1, Some O) | Some (S n) => (0, Some n) end;
  dev_out w p v d := if p =? 0xB2 then Some 2%nat else d;
  dev_mem16 a d := if a =? 0x404 then Some 0x604 else None;
  dev_cpuid leaf d := (0, 0, 0, 0x200)
|}.

Definition pm_machine : machine (option nat) :=
  mkMachine (globals (console_machine false empty_screen)) (cpu (console_machine false empty_screen)) None.

Definition acpi_object : @AcpiObject acpi_ref :=
  @mkAcpiObject acpi_ref tt (mkFadt (Some (mkAddress 0x404)) (Some None) 0xB2 2) tt ModelApic None.

Lemma acpi_init_sleep_type_witness :
  ∃ l m', returns_to (H := pm_devices) halted
      (@init debug_build x86_64_ref interrupts_ref log_ref acpi_ref) pm_machine l acpi_object m' ∧
    sleep_command (globals m') = 0x3400.
Proof.
  destruct (@acpi_init_sleep_type debug_build x86_64_ref interrupts_ref log_ref _ acpi_ref _ pm_devices halted
    (interrupts_ref_laws halted) pm_machine 5 acpi_object) as (l & m' & Hr & _ & _ & Hcmd).
  - split; [reflexivity|]. exists empty_screen. apply console_machine_free, empty_screen_ok.
  - exists tt, 1%nat, 1%nat, 1%nat, (AmlInteger 5), [AmlInteger 5]. split_and!; reflexivity.
  - exists l, m'. split; [exact Hr|]. apply Hcmd. lia.
Defined.

Lemma acpi_enable_waits_witness :
  ∃ m', returns_to (H := pm_devices) halted
    (@enable debug_build interrupts_ref log_ref acpi_ref acpi_object) pm_machine
    [In 16 0x604 0; Out 8 0xB2 2; In 16 0x604 0; In 16 0x604 0; In 16 0x604 1] tt m'.
Proof.
  assert (console_ready (globals pm_machine)) as Hc.
  { split; [reflexivity|]. exists empty_screen. apply console_machine_free, empty_screen_ok. }
  destruct (@acpi_enable_waits debug_build interrupts_ref log_ref _ acpi_ref _ pm_devices halted
    (interrupts_ref_laws halted) pm_machine acpi_object (mkAddress 0x404) 0x604 0 None Hc
    eq_refl eq_refl eq_refl) as [Hr _].
  eexists. apply (Hr [0; 0; 1] (Some O)).
  eapply polls_later; [reflexivity..|]. eapply polls_later; [reflexivity..|]. by eapply polls_now.
Defined.

Lemma acpi_shutdown_for_ever_witness :
  diverges (H := pm_devices) halted (@shutdown acpi_ref acpi_object) pm_machine.
Proof.
  apply (@acpi_shutdown_for_ever acpi_ref _ pm_devices halted pm_machine acpi_object
    (mkAddress 0x404) None 0x604 []); reflexivity.
Defined.

Lemma acpi_port_dereferenced_witness :
  reaches (H := pm_devices) halted (@enable debug_build interrupts_ref log_ref acpi_ref acpi_object)
    pm_machine [In 16 0x604 0] pm_machine ∧
  reaches (H := pm_devices) halted (@shutdown acpi_ref acpi_object) pm_machine [Out 16 0x604 0x2000] pm_machine.
Proof.
  exact (@acpi_port_dereferenced debug_build interrupts_ref log_ref acpi_ref _ pm_devices halted
    pm_machine acpi_object (mkAddress 0x404) eq_refl).
Defined.
