(* ===== verification/Keyboard.v ===== *)
(** [src/drivers/keyboard.rs]: the keyboard controller.  (The file is not in the
    module tree of the crate.)  The controller is an i8042; what the driver relies
    on is the class [KbcLaws], over the controller's state as [Kbc].  Bytes already
    waiting, and scan codes arriving while the driver runs, are part of it. *)
From S2P Require Import Prelude X86 TextMode Screen Machine Macros MacrosProperties.
From S2P Require Serial.
From ITree Require Import Core.ITreeDefinition.

Inductive Ports := DATA | STATUS_COMMAND.
Definition Ports_u16 (p : Ports) : Z := match p with DATA => 0x60 | STATUS_COMMAND => 0x64 end.

Inductive StatusMasks :=
  | OUTBUF_STATUS | INBUF_STATUS | SYSFLAG | COMM_DATA | UNK1 | UNK2 | TIMEOUT_ERR | PARITY_ERR.
Definition StatusMasks_u8 (s : StatusMasks) : Z :=
  match s with
  | OUTBUF_STATUS => 0x01 | INBUF_STATUS => 0x02 | SYSFLAG => 0x04 | COMM_DATA => 0x08
  | UNK1 => 0x10 | UNK2 => 0x20 | TIMEOUT_ERR => 0x40 | PARITY_ERR => 0x80
  end.

(** The conditions that end the two waits. *)
Definition inbuf_clear (sbyte : Z) : bool := Z.land sbyte (StatusMasks_u8 INBUF_STATUS) =? 0.
Definition outbuf_full (sbyte : Z) : bool := negb (Z.land sbyte (StatusMasks_u8 OUTBUF_STATUS) =? 0).

Definition keyboard_output_withwait (p : Ports) (data : Z) : M unit :=
  poll 8 (Ports_u16 STATUS_COMMAND) inbuf_clear (λ _, tt) ;;
  trigger (PortOut 8 (Ports_u16 p) data).

Definition keyboard_input_withwait : M Z :=
  poll 8 (Ports_u16 STATUS_COMMAND) outbuf_full (λ _, tt) ;;
  trigger (PortIn 8 (Ports_u16 DATA)).

Definition init : M unit :=
  keyboard_output_withwait STATUS_COMMAND 0xAE ;;
  keyboard_output_withwait STATUS_COMMAND 0x20 ;;
  response_byte ← keyboard_input_withwait;
  let response_byte := Z.lor response_byte 1 in
  keyboard_output_withwait STATUS_COMMAND 0x60 ;;
  keyboard_output_withwait DATA response_byte.

Section code.
Context `{Build, Interrupts, LogCrate}.

(** [show] is [{}] of a byte. *)
Definition keyboard_interrupt_handler (show : Z → list Z) : M unit :=
  incoming_byte ← keyboard_input_withwait;
  log_macro LInfo [Lit (bytes "Key recieved: "); Arg [show incoming_byte]].

End code.

(** * The controller *)

(** The keyboard clock is enabled, the configuration byte, the bytes waiting to be
    read from the data port (oldest first), a command waiting for its data byte,
    and every scan code the keyboard has sent so far.  The controller holds an
    answer back until the bytes before it have been read. *)
Record Kbc := mkKbc {
  kbd_enabled : bool; config : Z; outq : list Z; pending : option Z; typed : list Z }.

Definition kbc_command (c : Z) (k : Kbc) : Kbc :=
  if c =? 0xAE then mkKbc true (config k) (outq k) None (typed k)
  else if c =? 0x20 then mkKbc (kbd_enabled k) (config k) (outq k ++ [config k]) None (typed k)
  else if c =? 0x60 then mkKbc (kbd_enabled k) (config k) (outq k) (Some 0x60) (typed k)
  else k.

Definition kbc_data (v : Z) (k : Kbc) : Kbc :=
  match pending k with
  | Some 0x60 => mkKbc (kbd_enabled k) v (outq k) None (typed k)
  | _ => k
  end.

(** Scan codes arrive from the keyboard. *)
Definition arrive (keys : list Z) (k : Kbc) : Kbc :=
  mkKbc (kbd_enabled k) (config k) (outq k ++ keys) (pending k) (typed k ++ keys).
Definition arrives (k k' : Kbc) : Prop := ∃ keys, k' = arrive keys k.

Lemma arrive_app keys1 keys2 k : arrive keys2 (arrive keys1 k) = arrive (keys1 ++ keys2) k.
Proof. unfold arrive. simpl. by rewrite <-!app_assoc. Qed.

(** The status register: bit 1 is set while the input buffer is full, bit 0 while
    a byte waits in the output buffer. *)
Definition can_write (status : Z) : bool := negb (Z.testbit status 1).
Definition has_byte (status : Z) : bool := Z.testbit status 0.

Lemma inbuf_clear_bit v : can_write v = inbuf_clear v.
Proof. symmetry. apply (land_pow2_zero v 1). lia. Qed.
Lemma outbuf_full_bit v : has_byte v = outbuf_full v.
Proof. unfold outbuf_full. change (StatusMasks_u8 OUTBUF_STATUS) with (2 ^ 0). by rewrite land_pow2_zero, negb_involutive. Qed.

Class HasKbc (D : Type) := kbc : D → Kbc.

(** Scan codes may arrive at every access. *)
Class KbcLaws (D : Type) `{Devices D, HasKbc D} : Prop := {
  (** The controller takes its input in finite time. *)
  kbc_accepts d : ∃ vs d', polls 8 0x64 can_write d vs d' ∧ arrives (kbc d) (kbc d');
  (** A waiting byte shows in the status in finite time. *)
  kbc_delivers d : outq (kbc d) ≠ [] →
    ∃ vs d', polls 8 0x64 has_byte d vs d' ∧ arrives (kbc d) (kbc d');
  (** Reading the data port takes the oldest waiting byte. *)
  kbc_read d b q : outq (kbc d) = b :: q → ∃ d', dev_in 8 0x60 d = (b, d') ∧
    arrives (mkKbc (kbd_enabled (kbc d)) (config (kbc d)) q (pending (kbc d)) (typed (kbc d))) (kbc d');
  kbc_write_command d c : arrives (kbc_command c (kbc d)) (kbc (dev_out 8 0x64 c d));
  kbc_write_data d v : arrives (kbc_data v (kbc d)) (kbc (dev_out 8 0x60 v d))
}.

Section keyboard.
Context {D : Type} `{Devices D} (ph : panic → M Empty_set).
Abbreviation returns_to := (returns_to ph).
Abbreviation diverges := (diverges ph).
Implicit Types (m : machine D) (d : D).

Lemma keyboard_output_returns p b m vs d' :
  polls 8 0x64 can_write (devices m) vs d' →
  returns_to (keyboard_output_withwait p b) m ((In 8 0x64 <$> vs) ++ [Out 8 (Ports_u16 p) b]) tt
    (set_devices (dev_out 8 (Ports_u16 p) b d') m).
Proof.
  intros Hp%(polls_ext _ _ _ _ _ _ _ inbuf_clear_bit).
  destruct (returns_to_poll ph 8 _ inbuf_clear (λ _, tt) _ _ _ m Hp eq_refl) as (v & _ & _ & Hr).
  eapply returns_to_bind; [exact Hr|]. by apply returns_to_trigger.
Qed.

(** C23 (termination): a command or data byte is written exactly when the input
    buffer is reported empty: after reads of the status port that end with the
    buffer bit clear, the byte goes out once and the call returns; while the bit
    never clears the call waits for ever, writing nothing. *)
Theorem keyboard_output_waits (m : machine D) (p : Ports) (b : Z) :
  (∀ vs d', polls 8 0x64 can_write (devices m) vs d' →
     returns_to (keyboard_output_withwait p b) m ((In 8 0x64 <$> vs) ++ [Out 8 (Ports_u16 p) b]) tt
       (set_devices (dev_out 8 (Ports_u16 p) b d') m)) ∧
  (never_ready 8 0x64 can_write (devices m) →
     diverges (keyboard_output_withwait p b) m).
Proof.
  split; [intros vs d'; apply keyboard_output_returns|].
  intros Hn%(never_ready_ext _ _ _ _ _ inbuf_clear_bit). by apply diverges_bind_l, diverges_poll.
Qed.

Context `{!HasKbc D, !KbcLaws D}.

(** One call of each kind on a working controller: scan codes may arrive before
    and after the access. *)
Lemma output_command c m :
  ∃ l m' before after, returns_to (keyboard_output_withwait STATUS_COMMAND c) m l tt m' ∧
    kbc (devices m') = arrive after (kbc_command c (arrive before (kbc (devices m)))) ∧
    globals m' = globals m ∧ cpu m' = cpu m.
Proof.
  destruct (kbc_accepts (devices m)) as (vs & d' & Hp & before & Hk).
  destruct (kbc_write_command d' c) as (after & Hw). rewrite Hk in Hw.
  eexists _, _, before, after. split; [by apply keyboard_output_returns|]. done.
Qed.

Lemma output_data v m :
  ∃ l m' before after, returns_to (keyboard_output_withwait DATA v) m l tt m' ∧
    kbc (devices m') = arrive after (kbc_data v (arrive before (kbc (devices m)))) ∧
    globals m' = globals m ∧ cpu m' = cpu m.
Proof.
  destruct (kbc_accepts (devices m)) as (vs & d' & Hp & before & Hk).
  destruct (kbc_write_data d' v) as (after & Hw). rewrite Hk in Hw.
  eexists _, _, before, after. split; [by apply keyboard_output_returns|]. done.
Qed.

Lemma input b q m :
  let k := kbc (devices m) in outq k = b :: q →
  ∃ l m' keys, returns_to keyboard_input_withwait m l b m' ∧
    kbc (devices m') = arrive keys (mkKbc (kbd_enabled k) (config k) q (pending k) (typed k)) ∧
    globals m' = globals m ∧ cpu m' = cpu m.
Proof.
  intros k Hb. destruct (kbc_delivers (devices m)) as (vs & d1 & Hp & keys1 & Hk); [unfold k in Hb; by rewrite Hb|].
  destruct (kbc_read d1 b (q ++ keys1)) as (d2 & Hd & keys2 & Hk2).
  { rewrite Hk. unfold arrive. simpl. fold k. by rewrite Hb. }
  apply (polls_ext _ _ _ _ _ _ _ outbuf_full_bit) in Hp.
  destruct (returns_to_poll ph 8 _ outbuf_full (λ _, tt) _ _ _ m Hp eq_refl) as (v & _ & _ & Hr).
  eexists _, (set_devices d2 m), (keys1 ++ keys2). split_and!; [| |done..].
  - eapply returns_to_bind; [exact Hr|]. apply returns_to_trigger. simpl. by rewrite Hd.
  - simpl. rewrite Hk2, Hk, <-arrive_app. done.
Qed.

(** C22 (functional): on a working controller [keyboard::init] terminates, the
    keyboard is then enabled, no command is left over and nothing but the device
    changed.  The byte it takes for the configuration is the oldest one waiting
    when it reads: the old configuration if nothing was waiting at entry and no
    scan code arrived before the request ([early]), else a stale byte or scan code.
    That byte with the keyboard-interrupt bit set becomes the configuration, and
    what else was waiting, an unread answer included, stays waiting. *)
Theorem keyboard_init_configures (m : machine D) :
  let k := kbc (devices m) in
  ∃ l m' early late, returns_to init m l tt m' ∧
    (let waiting := outq k ++ early ++ [config k] in
     kbc (devices m') = mkKbc true (Z.lor (hd 0 waiting) 1) (tl waiting ++ late) None
       (typed k ++ early ++ late)) ∧
    globals m' = globals m ∧ cpu m' = cpu m.
Proof.
  intros k. destruct (output_command 0xAE m) as (l1 & m1 & b1 & a1 & R1 & K1 & G1 & C1).
  destruct (output_command 0x20 m1) as (l2 & m2 & b2 & a2 & R2 & K2 & G2 & C2).
  fold k in K1. set (early := b1 ++ a1 ++ b2).
  assert (kbc (devices m2) = mkKbc true (config k) (outq k ++ early ++ [config k] ++ a2) None (typed k ++ early ++ a2)) as K2'.
  { rewrite K2, K1. unfold arrive, kbc_command, early. simpl. by rewrite <-!app_assoc. }
  destruct (outq k ++ early ++ [config k]) as [|b q] eqn:Hw.
  { apply (f_equal length) in Hw. rewrite !length_app in Hw. simpl in Hw. lia. }
  assert (outq k ++ early ++ [config k] ++ a2 = b :: q ++ a2) as Hw2.
  { rewrite app_comm_cons, <-Hw. by rewrite <-!app_assoc. }
  rewrite Hw2 in K2'.
  destruct (input b (q ++ a2) m2) as (l3 & m3 & a3 & R3 & K3 & G3 & C3); [by rewrite K2'|].
  rewrite K2' in K3. cbn in K3.
  destruct (output_command 0x60 m3) as (l4 & m4 & b4 & a4 & R4 & K4 & G4 & C4). rewrite K3 in K4. cbn in K4.
  destruct (output_data (Z.lor b 1) m4) as (l5 & m5 & b5 & a5 & R5 & K5 & G5 & C5). rewrite K4 in K5. cbn in K5.
  exists (l1 ++ l2 ++ l3 ++ l4 ++ l5), m5, early, (a2 ++ a3 ++ b4 ++ a4 ++ b5 ++ a5).
  split; [|split; [|split; congruence]].
  - eapply returns_to_bind; [exact R1|]. eapply returns_to_bind; [exact R2|].
    eapply returns_to_bind; [exact R3|]. eapply returns_to_bind; [exact R4|exact R5].
  - cbv zeta. rewrite Hw, K5. unfold arrive. simpl. by rewrite <-!app_assoc.
Qed.

End keyboard.

(** * A controller for concrete runs *)

(** Busy for two reads of the status after every write; no key is pressed. *)
Record KbcDev := mkKbcDev { dev_kbc : Kbc; busy_reads : nat }.

Definition kbc_status (d : KbcDev) : Z :=
  Z.lor (if (busy_reads d =? 0)%nat then 0 else 2) (match outq (dev_kbc d) with [] => 0 | _ => 1 end).

Definition kbc_devices : Devices KbcDev := {|
  dev_in w p d :=
    if p =? 0x64 then (kbc_status d, mkKbcDev (dev_kbc d) (pred (busy_reads d)))
    else let k := dev_kbc d in
         match outq k with
         | b :: q => (b, mkKbcDev (mkKbc (kbd_enabled k) (config k) q (pending k) (typed k)) (busy_reads d))
         | [] => (0, d)
         end;
  dev_out w p v d :=
    if p =? 0x64 then mkKbcDev (kbc_command v (dev_kbc d)) 2
    else if p =? 0x60 then mkKbcDev (kbc_data v (dev_kbc d)) 2 else d;
  dev_mem16 a d := None;
  dev_cpuid leaf d := (0, 0, 0, 0)
|}.

Lemma arrives_refl k : arrives k k.
Proof. exists []. destruct k. unfold arrive. simpl. by rewrite !app_nil_r. Qed.

#[global] Instance kbc_ref_laws : @KbcLaws KbcDev kbc_devices dev_kbc.
Proof.
  split; try (intros; apply arrives_refl).
  - intros [k n]. revert k. induction n as [|n IH]; intros k.
    + eexists [_], _. split; [eapply polls_now; [reflexivity|]|apply arrives_refl].
      unfold kbc_status. simpl. by destruct (outq k).
    + destruct (IH k) as (vs & d' & Hp & Hk). eexists (_ :: vs), d'. split; [|done].
      eapply polls_later; [reflexivity| |exact Hp]. unfold kbc_status. simpl. by destruct (outq k).
  - intros [k n] Hb. eexists [_], _. split; [eapply polls_now; [reflexivity|]|apply arrives_refl].
    unfold kbc_status. unfold kbc in Hb. simpl in *. destruct (outq k); [done|]. by destruct (n =? 0)%nat.
  - intros [k n] b q Hb. unfold kbc in *. simpl in *. rewrite Hb. eexists. split; [reflexivity|]. apply arrives_refl.
Qed.

Definition kbc_machine (waiting : list Z) : machine KbcDev :=
  mkMachine (globals (console_machine false empty_screen)) (cpu (console_machine false empty_screen))
    (mkKbcDev (mkKbc false 0x64 waiting None []) 1).

(** A stale byte 0xFA is taken for the configuration 0x64, which stays unread. *)
Lemma keyboard_init_configures_witness :
  (∃ (m' : machine KbcDev) early late, dev_kbc (devices m') =
     mkKbc true (Z.lor (hd 0 (early ++ [0x64])) 1) (tl (early ++ [0x64]) ++ late) None (early ++ late)) ∧
  ∃ (m' : machine KbcDev) early late, dev_kbc (devices m') =
     mkKbc true 0xFB (early ++ [0x64] ++ late) None (early ++ late).
Proof.
  split.
  - destruct (@keyboard_init_configures KbcDev kbc_devices halted dev_kbc kbc_ref_laws (kbc_machine []))
      as (l & m' & early & late & _ & Hk & _). exists m', early, late. exact Hk.
  - destruct (@keyboard_init_configures KbcDev kbc_devices halted dev_kbc kbc_ref_laws (kbc_machine [0xFA]))
      as (l & m' & early & late & _ & Hk & _). exists m', early, late. cbn in Hk. rewrite <-app_assoc in Hk. exact Hk.
Defined.

Lemma keyboard_output_waits_witness :
  ∃ m', returns_to (H := kbc_devices) halted (keyboard_output_withwait STATUS_COMMAND 0xAE) (kbc_machine [])
    [In 8 0x64 2; In 8 0x64 0; Out 8 0x64 0xAE] tt m'.
Proof.
  eexists. apply (proj1 (@keyboard_output_waits KbcDev kbc_devices halted (kbc_machine []) STATUS_COMMAND 0xAE)
    [2; 0] (mkKbcDev (mkKbc false 0x64 [] None []) 0)).
  eapply polls_later; [reflexivity..|]. by eapply polls_now.
Defined.
