(* ===== verification/Kernel.v ===== *)
(** [src/kernel.rs], [src/main.rs] and the code of [src/cpu/gdt.rs] and
    [src/cpu/idt.rs]: the boot sequence, the exception handlers, the panic handler
    and the halt loop. *)
From S2P Require Import Prelude X86 Layout Mm Region Pmm AddrSpace Descriptors TextMode Machine Macros.
From S2P Require Serial Acpi.
From ITree Require Import Core.ITreeDefinition.

(** * Halting and panics ([main.rs]) *)

(** [halt_loop] *)
Definition halt_loop {R} : M R := loop (trigger Cli ;; trigger Hlt).

Section main.
Context `{Build, Interrupts, LogCrate}.

(** The [#[panic_handler]] of the kernel; [show] is [{}] of a [PanicInfo]. *)
Definition panic_handler (show : panic → list (list Z)) (info : panic) : M Empty_set :=
  log_macro LError [Arg (show info)] ;;
  halt_loop.

(** The [#[alloc_error_handler]] *)
Definition alloc_error_handler {R} (layout : Layout) : M R := raise PanicExplicit.

End main.

(** * Descriptor tables *)

Section tables.
Context `{Structures}.

(** [gdt::load] *)
Definition gdt_load (STACK : Z) : M unit :=
  gdt ← lift (GDT STACK);
  trigger (Lgdt gdt) ;;
  let null_segment := SegmentSelector_new 0 Ring0 in
  let code_segment := SegmentSelector_new 1 Ring0 in
  let tss_segment := SegmentSelector_new 2 Ring0 in
  trigger (LoadSegment DS null_segment) ;;
  trigger (LoadSegment ES (SegmentSelector_new 0 Ring0)) ;;
  trigger (LoadSegment FS (SegmentSelector_new 0 Ring0)) ;;
  trigger (LoadSegment GS (SegmentSelector_new 0 Ring0)) ;;
  trigger (LoadSegment SS (SegmentSelector_new 0 Ring0)) ;;
  trigger (LoadSegment CS code_segment) ;;
  trigger (Ltr tss_segment).

(** [idt::load] *)
Definition idt_load : M unit := trigger (Lidt IDT).

End tables.

(** * Exceptions *)

Section handlers.
Context `{Build, Interrupts, LogCrate}.

(** The bodies of the handlers; [frame] is [{:#?}] of the stack frame.  The
    messages of the panics are part of the [PanicInfo]. *)
Definition run_handler (h : handler) (frame : list (list Z)) : M unit :=
  match h with
  | breakpoint_handler => log_macro LTrace [Lit (bytes "EXCEPTION: Breakpoint" ++ [10]); Arg frame]
  | divide_error_handler => raise PanicExplicit
  | debug_handler => raise PanicExplicit
  | non_maskable_interrupt_handler => raise PanicExplicit
  | overflow_handler => raise PanicExplicit
  | bound_range_exceeded_handler => raise PanicExplicit
  | invalid_opcode_handler => raise PanicExplicit
  | device_not_available_handler => raise PanicExplicit
  | double_fault_handler => raise PanicExplicit
  | invalid_tss_handler => raise PanicExplicit
  | segment_not_present_handler => raise PanicExplicit
  | stack_segment_fault_handler => raise PanicExplicit
  | general_protection_fault_handler => raise PanicExplicit
  | page_fault_handler => raise PanicExplicit
  | x87_floating_point_handler => raise PanicExplicit
  | alignment_check_handler => raise PanicExplicit
  | machine_check_handler => raise PanicExplicit
  | simd_floating_point_handler => raise PanicExplicit
  | virtualization_handler => raise PanicExplicit
  | security_exception_handler => raise PanicExplicit
  end.

End handlers.

(** The processor's side of an exception: the handler its table names, and the
    stack it runs on (an interrupt stack of the current task state segment, or
    the interrupted one). *)
Definition current_tss (c : Cpu) : option TaskStateSegment :=
  match gdtr c !! Z.to_nat (Z.shiftr (tr c) 3) with
  | Some (SystemLow tss) => Some tss
  | _ => None
  end.

Definition exception_entry (c : Cpu) (v rsp : Z) : option (handler * Z) :=
  gate ← idtr c !! v;
  match gate_stack gate with
  | None => Some (gate_handler gate, rsp)
  | Some i =>
      tss ← current_tss c;
      stack ← interrupt_stack_table tss !! Z.to_nat i;
      Some (gate_handler gate, stack)
  end.

(** * The boot sequence ([kernel.rs]) *)

Section boot.
Context `{Build, X86_64, ArrayVec, Structures, Interrupts, LogCrate, Acpi.AcpiCrate} {PT : Type} `{Paging PT}.

(** The banner. *)
Definition banner : M unit :=
  println [Lit (bytes "  _____       _     _   _             Developed by:")] ;;
  println [Lit (bytes " / ____|     | |   | | (_)              - Vinc")] ;;
  println [Lit (bytes "| (___   ___ | |___| |_ _  ___ ___      - Crally")] ;;
  println [Lit (bytes " \___ \ / _ \| / __| __| |/ __/ _ \     - Mehodin")] ;;
  println [Lit (bytes " ____) | (_) | \__ \ |_| | (_|  __/     - Alex8675")] ;;
  println [Lit (bytes "|_____/ \___/|_|___/\__|_|\___\___|   - trash")] ;;
  println [].

Definition set_PHYS (p : option (list Zone)) (g : Globals) : Globals :=
  mkGlobals (SCREEN g) (vram g) (preempts g) (logger_set g) (max_level g) (SLP_TYPA g) p.

(** [PhysAllocator::init] with its effects: the zones become the allocator's and
    a message is logged. *)
Definition pmm_init (map : MemoryMap) : M unit :=
  zones ← lift (PhysAllocator_init map);
  trigger (Access (λ g, (tt, set_PHYS zones g))) ;;
  log_macro LDebug [Lit (bytes "pmm: initialised")].

(** The [match] on the interrupt model. *)
Definition check_interrupt_model (acpi : Acpi.AcpiObject) : M unit :=
  match Acpi.interrupt_model acpi with
  | Acpi.ModelUnknown => raise PanicExplicit
  | Acpi.ModelApic =>
      supported ← Acpi.apic_supported;
      if negb supported then log_macro LError [Lit (bytes "apic: xapic is not supported")]
      else log_macro LInfo [Lit (bytes "apic: detected xapic support")]
  | Acpi.ModelOther => raise PanicExplicit
  end.

(** [kernel_main] for the memory map of the boot information; [pt] are the
    kernel's page tables, which it extends and returns, [STACK] is the address of
    the double-fault stack. *)
Definition kernel_main (STACK : Z) (memory_map : list MemoryRegion) (pt : PT) : M PT :=
  Serial.init ;;
  ok ← text_mode_init;
  lift (unwrap (if ok : bool then Some tt else None)) ;;
  banner ;;
  gdt_load STACK ;;
  idt_load ;;
  '(pt, (map, _)) ← lift (MemoryMap_new memory_map pt);
  pmm_init map ;;
  acpi ← Acpi.init;
  check_interrupt_model acpi ;;
  mret pt.

(** [_start] *)
Definition _start (STACK : Z) (memory_map : list MemoryRegion) (pt : PT) : M Empty_set :=
  kernel_main STACK memory_map pt ;;
  log_macro LInfo [Lit (bytes "nothing to do, halting...")] ;;
  halt_loop.

End boot.
