(* ===== verification/KernelProperties.v ===== *)
(** Theorems on [Kernel]: descriptor tables, panics and exceptions. *)
From S2P Require Import Prelude X86 Layout Mm Region Buddy Pmm PmmNew PmmInit PmmProperties AddrSpace.
From S2P Require Import MemoryMapNew Descriptors Ransid TextMode Screen Machine Macros MacrosProperties.
From S2P Require Import Kernel.
From S2P Require Serial Acpi AcpiProperties.
From ITree Require Import Core.ITreeDefinition.

(** * Descriptor tables *)

(** Only the double fault has a stack of its own. *)
Lemma IDT_stacks :
  map_Forall (λ v g, gate_stack g = if v =? vector double_fault then Some DOUBLE_FAULT_IST_INDEX else None) IDT.
Proof. apply (bool_decide_unpack _). vm_compute. done. Qed.

Section tables.
Context `{Structures, !Structures_Laws} {D : Type} `{Devices D} (ph : panic → M Empty_set).
Abbreviation returns_to := (returns_to ph).
Implicit Types m : machine D.

(** The processor after [gdt::load] and [idt::load]. *)
Definition tables_cpu (tss : TaskStateSegment) (c : Cpu) : Cpu :=
  mkCpu (IF c) [NullSlot; UserSlot KernelCodeSegment; SystemLow tss; SystemHigh tss] IDT
    (mkSegments 8 0 0 0 0 0) 16.

Definition gdt_cpu (tss : TaskStateSegment) (c : Cpu) : Cpu :=
  set_idtr (idtr c) (tables_cpu tss c).

Lemma gdt_load_returns STACK tss m :
  TSS STACK = Ok tss → returns_to (gdt_load STACK) m [] tt (set_cpu (gdt_cpu tss) m).
Proof.
  intros Ht. assert (SegmentSelector_new 0 Ring0 = 0 ∧ SegmentSelector_new 1 Ring0 = 8 ∧
    SegmentSelector_new 2 Ring0 = 16) as (S0 & S1 & S2).
  { unfold Ring0. rewrite !SegmentSelector_new_law by lia. done. }
  unfold gdt_load. eapply returns_to_bind_nil; [apply returns_to_lift; by apply GDT_spec|].
  cbv zeta. rewrite S0, S1, S2.
  repeat (eapply returns_to_bind_nil; [by apply returns_to_trigger|]). by apply returns_to_trigger.
Qed.

Lemma idt_load_returns tss m :
  returns_to idt_load (set_cpu (gdt_cpu tss) m) [] tt (set_cpu (tables_cpu tss) m).
Proof. by apply returns_to_trigger. Qed.

(** C20 (functional): after [gdt::load] and [idt::load] the code segment register
    selects the kernel code segment and the task register the task state segment
    (the selectors the code writes down are those [add_entry] gave out), the data
    segments are null, the interrupt flag is unchanged, and the processor enters
    the double-fault handler on the top of the 4096 bytes at [STACK], whatever
    the stack pointer was, and every other handler on the interrupted stack. *)
Theorem double_fault_stack (m : machine D) (STACK : Z) :
  canonical STACK → canonical (STACK + STACK_SIZE) →
  ∃ m', returns_to (gdt_load STACK ;; idt_load) m [] tt m' ∧
    gdtr (cpu m') !! Z.to_nat (Z.shiftr (cs (segs (cpu m'))) 3) = Some (UserSlot KernelCodeSegment) ∧
    is_Some (current_tss (cpu m')) ∧ segs (cpu m') = mkSegments 8 0 0 0 0 0 ∧ IF (cpu m') = IF (cpu m) ∧
    (∀ rsp, exception_entry (cpu m') (vector double_fault) rsp = Some (double_fault_handler, STACK + STACK_SIZE)) ∧
    ∀ v g rsp, IDT !! v = Some g → v ≠ vector double_fault →
      exception_entry (cpu m') v rsp = Some (gate_handler g, rsp).
Proof.
  intros Hs He. destruct (TSS_spec STACK Hs He) as (tss & Ht & Hist).
  exists (set_cpu (tables_cpu tss) m). split_and!; try done.
  - eapply returns_to_bind_nil; [by apply gdt_load_returns|apply idt_load_returns].
  - intros rsp. unfold exception_entry. cbn [cpu set_cpu idtr tables_cpu].
    replace (IDT !! vector double_fault) with (Some (mkGate double_fault_handler (Some 0))) by (by vm_compute).
    cbn -[lookup Z.to_nat current_tss]. change (current_tss _) with (Some tss).
    cbn -[lookup Z.to_nat]. unfold DOUBLE_FAULT_IST_INDEX in Hist. by rewrite Hist.
  - intros v g rsp Hg Hv. unfold exception_entry. cbn [cpu set_cpu idtr tables_cpu]. rewrite Hg. cbn.
    rewrite (IDT_stacks v g Hg). by rewrite (proj2 (Z.eqb_neq _ _)).
Qed.

End tables.

(** * The halt loop *)

(** What [n] rounds of the halt loop show. *)
Definition halt_obs (n : nat) : list obs := concat (replicate n [SetIF false; Halt]).

(** The machine after [n] rounds. *)
Definition after_halts {D} (n : nat) (m : machine D) : machine D :=
  match n with O => m | S _ => set_cpu (set_IF false) m end.

Lemma halt_loop_rounds {D : Type} `{Devices D} (ph : panic → M Empty_set) {R} n (m : machine D) :
  ∃ k, (n ≤ k)%nat ∧
    steps ph k (start (halt_loop (R := R))) m (halt_obs n) (start (halt_loop (R := R))) (after_halts n m).
Proof.
  assert (∀ m, returns_to ph (trigger Cli ;; trigger Hlt) m [SetIF false; Halt] tt
    (set_cpu (set_IF false) m)) as Hround.
  { intros m1. eapply (returns_to_bind ph _ _ _ _ _ [_]); by apply returns_to_trigger. }
  destruct n as [|n]; [exists 0%nat; split; [lia|constructor]|].
  destruct (loop_rounds ph (R := R) (trigger Cli ;; trigger Hlt) (λ m1, m1 = set_cpu (set_IF false) m)
    [SetIF false; Halt] n (set_cpu (set_IF false) m)) as (k & m' & Hk & -> & Hst); [|done|].
  { intros m1 ->. eexists _, _. split; [apply Hround|done]. }
  destruct (steps_loop ph _ _ _ _ _ _ _ _ _ (Hround m) Hst) as (k' & Hk' & Hst').
  exists k'. split; [lia|exact Hst'].
Qed.

(** * Panics *)

Section panics.
Context `{Build, Interrupts, LogCrate, !LogCrate_Laws} {D : Type} `{Devices D}
  (show : panic → list (list Z)).
Abbreviation ph := (panic_handler show).
Context `{!InterruptsLaws D ph}.
Implicit Types (m : machine D) (g : Globals).

(** Errors are logged unless logging is off. *)
Lemma error_passes g : max_level g ≠ Off → level_rank LError ≤ filter_rank (max_level g).
Proof. destruct (max_level g); done. Qed.

(** C28 (error): any panic, in a kernel whose console is free, with the logger
    installed and logging not off, prints one line on the screen (and on the serial
    port where printing is copied there) and halts the machine: interrupts are
    disabled before every halt, for ever, and nothing else happens.  The line is
    the same for every panic: the message is a formatted argument, which the
    logger replaces by a fixed text, so the reason of a panic is never shown. *)
Theorem panic_reports_and_halts {A} (t : M A) (m m1 : machine D) (l : list obs) (p : panic) (w : Writer) :
  panics_to ph t m l p m1 → console_free (globals m1) w → logger_set (globals m1) = true →
  max_level (globals m1) ≠ Off →
  ∃ l0 m2, printed (log_line LError (bytes "Cannot format log entry")) w m1 l0 m2 ∧
    ∀ n, ∃ k o, (n ≤ k)%nat ∧
      steps ph k (start t) m (l ++ l0 ++ halt_obs n) (InPanic o) (after_halts n m2).
Proof.
  intros Hp Hc Hlog Hlv. destruct (log_macro_returns ph m1 w LError [Arg (show p)] Hc Hlog)
    as (l0 & m2 & Hr & Hpr); [by apply log_text_bytes|by apply error_passes|].
  exists l0, m2. split; [exact Hpr|]. intros n.
  destruct (halt_loop_rounds ph (R := Empty_set) n m2) as (k & Hk & Hst).
  destruct (steps_bind ph _ (λ _, halt_loop) _ _ _ _ _ _ _ _ Hr Hst) as (k1 & Hk1 & Hst1).
  destruct (panics_then ph t m l p m1 _ _ _ _ Hp Hst1) as (k2 & Hk2 & Hst2).
  eexists k2, _. split; [lia|exact Hst2].
Qed.

(** Logging on a locked console. *)
Lemma log_locked_runs m sl lv args n :
  SCREEN (globals m) = Some sl → screen_locked sl = true → logger_set (globals m) = true →
  level_rank lv ≤ filter_rank (max_level (globals m)) →
  ∃ k l o m', (n ≤ k)%nat ∧ only_flag l ∧ steps ph k (start (log_macro lv args)) m l (Running o) m'.
Proof.
  intros Hs Hl Hlog Hlv.
  assert (level_le lv (max_level (globals m)) = true) as Hle by (rewrite level_le_law; by apply Z.leb_le).
  set (pieces := add_newline [Lit (bytes "["); Arg [color lv]; Arg [level_display lv];
    Arg [ESC :: bytes "[0m"]; Lit (bytes "] "); Arg [log_text args]]).
  destruct (print_locked_runs ph m sl pieces n Hs Hl) as (k & l & o & m' & Hk & Hf & Hst).
  assert (returns_to ph (trigger (Access (λ g, (enabled lv g, g)))) m [] true m) as R2.
  { apply returns_to_trigger. unfold enabled. simpl. rewrite Hle. by destruct m. }
  assert (returns_to ph (trigger (Access (λ g, (level_le lv (max_level g) && logger_set g, g)))) m [] true m) as R1.
  { apply returns_to_trigger. simpl. rewrite Hle, Hlog. by destruct m. }
  destruct (steps_bind_nil ph _ (λ b : bool, if b then println [Lit (bytes "["); Arg [color lv];
    Arg [level_display lv]; Arg [ESC :: bytes "[0m"]; Lit (bytes "] "); Arg [log_text args]] else mret tt)
    _ _ _ _ _ _ _ R2 Hst) as (k2 & Hk2 & S2).
  destruct (steps_bind_nil ph _ (λ b : bool, if b then log (mkRecord lv args) else mret tt)
    _ _ _ _ _ _ _ R1 S2) as (k1 & Hk1 & S1).
  exists k1, l, o, m'. split; [lia|]. split; [done|exact S1].
Qed.

(** C30 (liveness): a panic while the console is locked (in a formatting function,
    or in an exception handler entered during a print) is lost: the handler spins
    on the lock for ever, shows nothing on any port and never halts. *)
Theorem panic_locked_hangs {A} (t : M A) (m m1 : machine D) (l : list obs) (p : panic) (sl : ScreenLocker) :
  panics_to ph t m l p m1 → SCREEN (globals m1) = Some sl → screen_locked sl = true →
  logger_set (globals m1) = true → max_level (globals m1) ≠ Off →
  ∀ n, ∃ k l' o m', (n ≤ k)%nat ∧ steps ph k (start t) m (l ++ l') (InPanic o) m' ∧ only_flag l'.
Proof.
  intros Hp Hs Hl Hlog Hlv n.
  destruct (log_locked_runs m1 sl LError [Arg (show p)] n Hs Hl Hlog (error_passes _ Hlv))
    as (k & l' & o & m' & Hk & Hf & Hst).
  destruct (steps_bind_l ph _ (λ _, halt_loop (R := Empty_set)) _ _ _ _ _ Hst) as [o1 Hst1].
  destruct (panics_then ph t m l p m1 _ _ _ _ Hp Hst1) as (k2 & Hk2 & Hst2).
  exists k2, l'. eexists _, m'. split; [lia|]. split; [exact Hst2|done].
Qed.

(** C29 (safety): of the exceptions only the breakpoint lets the kernel continue:
    its handler logs and returns with nothing but the console changed; every other
    handler panics at once. *)
Theorem exceptions_return_or_panic (m : machine D) (v : Z) (gate : Gate) (frame : list (list Z)) :
  console_ready (globals m) → IDT !! v = Some gate →
  if decide (v = vector breakpoint) then
    ∃ l m', returns_to ph (run_handler (gate_handler gate) frame) m l tt m' ∧
      same_statics (globals m) (globals m') ∧ cpu m' = cpu m
  else panics_to ph (run_handler (gate_handler gate) frame) m [] PanicExplicit m.
Proof.
  intros Hc Hg.
  assert (map_Forall (λ v gt, gate_handler gt = breakpoint_handler ↔ v = vector breakpoint) IDT) as Hbp.
  { apply (bool_decide_unpack _). vm_compute. done. }
  specialize (Hbp v gate Hg). clear Hg. simpl in Hbp. case_decide as Hv.
  - rewrite (proj2 Hbp Hv). cbn [run_handler].
    destruct (log_any ph m LTrace [Lit (bytes "EXCEPTION: Breakpoint" ++ [10]); Arg frame] Hc)
      as (l & m' & Hr & _ & _ & Hs & Hcpu); [by apply log_text_bytes|]. by exists l, m'.
  - destruct (gate_handler gate); try apply panics_to_raise. by destruct Hv; apply Hbp.
Qed.

End panics.

(** * Witnesses *)

(** [{}] of a [PanicInfo] on a machine that shows no detail. *)
Definition show_panic (p : panic) : list (list Z) := [bytes "panicked"].

Definition handler_ref : panic → M Empty_set := @panic_handler debug_build interrupts_ref log_ref show_panic.

Lemma double_fault_stack_witness :
  ∃ m', returns_to (H := Serial.uart_devices) halted
      (@gdt_load structures_ref 0x200000 ;; idt_load) (console_machine false empty_screen) [] tt m' ∧
    exception_entry (cpu m') 8 0x1234 = Some (double_fault_handler, 0x201000).
Proof.
  destruct (@double_fault_stack structures_ref _ _ Serial.uart_devices halted
    (console_machine false empty_screen) 0x200000) as (m' & Hr & _ & _ & _ & _ & Hdf & _).
  - left. lia.
  - left. unfold STACK_SIZE. lia.
  - exists m'. split; [exact Hr|]. apply Hdf.
Defined.

Lemma panic_reports_and_halts_witness :
  ∃ l0 m2, @printed debug_build Serial.Uart (@log_line log_ref LError (bytes "Cannot format log entry"))
      empty_screen (console_machine false empty_screen) l0 m2 ∧
    ∀ n, ∃ k o, (n ≤ k)%nat ∧
      steps (H := Serial.uart_devices) handler_ref k (start (raise (A := unit) PanicExplicit))
        (console_machine false empty_screen) ([] ++ l0 ++ halt_obs n) (InPanic o) (after_halts n m2).
Proof.
  exact (@panic_reports_and_halts debug_build interrupts_ref log_ref _ _ Serial.uart_devices show_panic
    (interrupts_ref_laws handler_ref) unit (raise PanicExplicit) (console_machine false empty_screen)
    (console_machine false empty_screen) [] PanicExplicit empty_screen
    (panics_to_raise handler_ref PanicExplicit (console_machine false empty_screen))
    (console_machine_free _ empty_screen_ok) eq_refl ltac:(discriminate)).
Defined.

Lemma panic_locked_hangs_witness :
  ∃ k l' o m', (100 ≤ k)%nat ∧
    steps (H := Serial.uart_devices) handler_ref k (start (raise (A := unit) PanicExplicit))
      (console_machine true empty_screen) ([] ++ l') (InPanic o) m' ∧ only_flag l'.
Proof.
  exact (@panic_locked_hangs debug_build interrupts_ref log_ref _ _ Serial.uart_devices show_panic
    (interrupts_ref_laws handler_ref) unit (raise PanicExplicit) (console_machine true empty_screen)
    (console_machine true empty_screen) [] PanicExplicit (mkScreen true empty_screen)
    (panics_to_raise handler_ref PanicExplicit (console_machine true empty_screen))
    eq_refl eq_refl eq_refl ltac:(discriminate) 100%nat).
Defined.

Lemma exceptions_return_or_panic_witness :
  panics_to (H := Serial.uart_devices) handler_ref
    (@run_handler debug_build interrupts_ref log_ref page_fault_handler []) (console_machine false empty_screen)
    [] PanicExplicit (console_machine false empty_screen).
Proof.
  pose proof (@exceptions_return_or_panic debug_build interrupts_ref log_ref _ _ Serial.uart_devices show_panic
    (interrupts_ref_laws handler_ref) (console_machine false empty_screen) 14
    (mkGate page_fault_handler None) []) as He.
  apply He.
  - split; [reflexivity|]. exists empty_screen. apply console_machine_free, empty_screen_ok.
  - vm_compute. reflexivity.
Defined.
