(* ===== verification/BootProperties.v ===== *)
(** The boot sequence as a whole: [kernel_main] and [_start] on a machine whose
    memory, tables and console are in order. *)
From S2P Require Import Prelude X86 Layout Mm Region Buddy Pmm PmmNew PmmInit AddrSpace MemoryMapNew.
From S2P Require Import BootMemory Descriptors Ransid TextMode Screen Machine Macros MacrosProperties.
From S2P Require Import Kernel KernelProperties.
From S2P Require Serial Acpi AcpiProperties.
From ITree Require Import Core.ITreeDefinition.

Section boot.
Context `{Build, HX : X86_64, !X86_64_Laws, HA : ArrayVec, !ArrayVec_Laws, Structures, !Structures_Laws,
  Interrupts, LogCrate, !LogCrate_Laws, Acpi.AcpiCrate} {PT : Type} `{HP : Paging PT, !PagingLaws PT}
  {D : Type} `{Devices D} (ph : panic → M Empty_set) `{!InterruptsLaws D ph}.
Abbreviation returns_to := (returns_to ph).
Abbreviation leads_to := (leads_to ph).
Abbreviation prints := (prints ph).
Implicit Types (m : machine D) (g : Globals).

(** * The steps *)












(** * The sequence *)







End boot.

(** * Witnesses *)





