(* ===== verification/Testing.v ===== *)
(** [src/testing.rs]: the test harness.  A test is a program; one that fails
    panics, and the panic handler of test builds reports the failure to the
    emulator through its exit port. *)
From S2P Require Import Prelude X86 TextMode Screen Machine Macros MacrosProperties.
From S2P Require Serial.
From ITree Require Import Core.ITreeDefinition.

Inductive ExitCode := Success | Failure.

(** [exit_code as u32] *)
Definition exit_code (c : ExitCode) : Z := match c with Success => 0x10 | Failure => 0x11 end.

Definition exit_qemu (c : ExitCode) : M unit := trigger (PortOut 32 0xF4 (exit_code c)).

Section code.
Context `{Build, Interrupts, LogCrate}.

(** The [#[panic_handler]] of test builds; [show] is [{}] of a [PanicInfo]. *)
Definition test_panic (show : panic → list (list Z)) (info : panic) : M Empty_set :=
  println [Lit (bytes "[failed] "); Arg (show info)] ;;
  exit_qemu Failure ;;
  loop (mret tt).

(** [test_runner]; [show_usize] is [{}] of the number of tests. *)
Definition test_runner (show_usize : Z → list Z) (tests : list (M unit)) : M unit :=
  log_macro LInfo [Lit (bytes "Running "); Arg [show_usize (Z.of_nat (length tests))]; Lit (bytes " tests")] ;;
  println [Lit (bytes "-----------------------")] ;;
  for_each tests (λ test, test) ;;
  exit_qemu Success.

(** The example test. *)
Definition basic_test : M unit :=
  test_case (bytes "solstice::testing") (bytes "basic_test") (lift (assert_ (1 =? 1))).

End code.

(** * What the emulator sees *)

(** The codes written to the exit port. *)
Definition exit_codes (l : list obs) : list Z :=
  omap (λ o, match o with Out _ p v => if p =? 0xF4 then Some v else None | _ => None end) l.

Lemma exit_codes_app l1 l2 : exit_codes (l1 ++ l2) = exit_codes l1 ++ exit_codes l2.
Proof. apply omap_app. Qed.

Lemma exit_codes_console l : Forall console_obs l → exit_codes l = [].
Proof.
  induction 1 as [|o l Ho _ IH]; [done|]. unfold exit_codes in *. cbn.
  destruct o as [|w p v| |]; try done. destruct Ho as [->|[->| ->]]; exact IH.
Qed.

Section runner.
Context `{Build, Interrupts, LogCrate, !LogCrate_Laws} {D : Type} `{Devices D}
  (show : panic → list (list Z)) (show_ok : ∀ p, Forall bytes_ok (show p)) (show_usize : Z → list Z).
Abbreviation ph := (test_panic show).
Context `{!InterruptsLaws D ph}.
Implicit Types (m : machine D) (t : M unit).

(** A test that returns having printed at most, or panics with [p]. *)
Definition verdict t (o : option panic) : Prop :=
  ∀ m, console_ready (globals m) →
    match o with
    | None => prints ph t tt m
    | Some p => ∃ l m', panics_to ph t m l p m' ∧ exit_codes l = [] ∧ console_ready (globals m')
    end.

(** The loop over the tests. *)
Lemma for_each_passes ts m :
  Forall (λ t, verdict t None) ts → console_ready (globals m) → prints ph (for_each ts (λ t, t)) tt m.
Proof.
  intros Hts. revert m. induction Hts as [|t ts Ht _ IH]; intros m Hc; [by apply prints_ret|].
  eapply prints_bind; [by apply Ht|]. exact IH.
Qed.

Lemma for_each_fails ts1 t p ts2 m :
  Forall (λ t, verdict t None) ts1 → verdict t (Some p) → console_ready (globals m) →
  ∃ l m', panics_to ph (for_each (ts1 ++ t :: ts2) (λ t, t)) m l p m' ∧ exit_codes l = [] ∧
    console_ready (globals m').
Proof.
  intros Hts Ht. revert m. induction Hts as [|t1 ts1 Ht1 _ IH]; intros m Hc.
  - destruct (Ht m Hc) as (l & m' & Hp & Hl & Hc'). exists l, m'. split; [by apply panics_to_bind_l|done].
  - destruct (Ht1 m Hc) as (l1 & m1 & Hr & Hob & Hc1 & _). destruct (IH m1 Hc1) as (l2 & m2 & Hp & Hl & Hc2).
    exists (l1 ++ l2), m2. split; [by eapply panics_to_bind|]. split; [|done].
    by rewrite exit_codes_app, (exit_codes_console l1), Hl.
Qed.

(** The header the runner prints. *)
Lemma runner_leads ts m :
  console_ready (globals m) →
  ∃ l m1, leads_to ph (test_runner show_usize ts) m l (for_each ts (λ t, t) ;; exit_qemu Success) m1 ∧
    exit_codes l = [] ∧ console_ready (globals m1).
Proof.
  intros Hc. destruct (log_any ph m LInfo [Lit (bytes "Running ");
    Arg [show_usize (Z.of_nat (length ts))]; Lit (bytes " tests")] Hc) as (l1 & m1 & Hr1 & Ho1 & Hc1 & _).
  { by apply log_text_bytes. }
  destruct (print_any ph m1 (add_newline [Lit (bytes "-----------------------")]) Hc1)
    as (l2 & m2 & Hr2 & Ho2 & Hc2 & _); [repeat constructor; simpl; lia|].
  exists (l1 ++ l2 ++ []), m2. split.
  - eapply leads_to_bind; [exact Hr1|]. eapply leads_to_bind; [exact Hr2|apply leads_to_refl].
  - split; [|done]. by rewrite !exit_codes_app, (exit_codes_console l1), (exit_codes_console l2).
Qed.

(** The panic handler reports and spins. *)
Lemma test_panic_spins p m :
  console_ready (globals m) →
  ∃ l, exit_codes l = [exit_code Failure] ∧
    ∀ n, ∃ k c m', (n ≤ k)%nat ∧ steps ph k (start (ph p)) m l c m'.
Proof.
  intros Hc. destruct (print_any ph m (add_newline [Lit (bytes "[failed] "); Arg (show p)]) Hc)
    as (l & m1 & Hr & Ho & Hc1 & _).
  { assert (strs (add_newline [Lit (bytes "[failed] "); Arg (show p)]) = [bytes "[failed] "] ++ (show p ++ [[10]])) as ->.
    { unfold strs. cbn. by rewrite ?app_nil_r. }
    apply Forall_app. split; [repeat constructor; simpl; lia|]. apply Forall_app. split; [done|].
    repeat constructor; simpl; lia. }
  exists (l ++ [Out 32 0xF4 0x11] ++ []). split; [by rewrite exit_codes_app, (exit_codes_console l)|].
  intros n. destruct (loop_rounds ph (R := Empty_set) (mret tt) (λ _, True) [] n
    (set_devices (dev_out 32 0xF4 0x11 (devices m1)) m1)) as (k & m2 & Hk & _ & Hst); [|done|].
  { intros m3 _. exists tt, m3. split; [apply returns_to_ret|done]. }
  replace (concat (replicate n [])) with (@nil obs) in Hst by (clear; by induction n).
  assert (leads_to ph (ph p) m (l ++ [Out 32 0xF4 0x11] ++ []) (loop (mret tt))
    (set_devices (dev_out 32 0xF4 0x11 (devices m1)) m1)) as Hl.
  { eapply leads_to_bind; [exact Hr|]. eapply leads_to_bind; [by apply returns_to_trigger|apply leads_to_refl]. }
  destruct (Hl _ _ _ _ Hst) as (k' & Hk' & Hst'). rewrite app_nil_r in Hst'.
  eexists k', _, m2. split; [lia|exact Hst'].
Qed.

(** What the runner reports: success (for which the emulator exits with status
    2 * 0x10 + 1 = 33, the [test-success-exit-code] of Cargo.toml), or failure for
    ever. *)
Definition reports_success (ts : list (M unit)) m : Prop :=
  ∃ l m', returns_to ph (test_runner show_usize ts) m l tt m' ∧ exit_codes l = [0x10].
Definition reports_failure (ts : list (M unit)) m : Prop :=
  ∃ l, exit_codes l = [0x11] ∧
    ∀ n, ∃ k o m', (n ≤ k)%nat ∧ steps ph k (start (test_runner show_usize ts)) m l (InPanic o) m'.

Lemma runner_success ts m :
  Forall (λ t, verdict t None) ts → console_ready (globals m) → reports_success ts m.
Proof.
  intros Hts Hc. destruct (runner_leads ts m Hc) as (l & m1 & Hl & He & Hc1).
  destruct (for_each_passes ts m1 Hts Hc1) as (l2 & m2 & Hr & Ho & _).
  eexists (l ++ l2 ++ [_]), _. split.
  - eapply leads_to_returns; [exact Hl|]. eapply returns_to_bind; [exact Hr|]. by apply returns_to_trigger.
  - by rewrite !exit_codes_app, He, (exit_codes_console l2).
Qed.

Lemma runner_failure ts1 t p ts2 m :
  Forall (λ t, verdict t None) ts1 → verdict t (Some p) → console_ready (globals m) →
  reports_failure (ts1 ++ t :: ts2) m.
Proof.
  intros Hts Ht Hc. destruct (runner_leads (ts1 ++ t :: ts2) m Hc) as (l & m1 & Hl & He & Hc1).
  destruct (for_each_fails ts1 t p ts2 m1 Hts Ht Hc1) as (l2 & m2 & Hp & He2 & Hc2).
  destruct (test_panic_spins p m2 Hc2) as (l3 & He3 & Hspin).
  exists ((l ++ l2) ++ l3). split; [by rewrite !exit_codes_app, He, He2, He3|]. intros n.
  destruct (Hspin n) as (k & c & m' & Hk & Hst).
  assert (panics_to ph (test_runner show_usize (ts1 ++ t :: ts2)) m (l ++ l2) p m2) as Hpan.
  { eapply leads_to_panics; [exact Hl|]. by apply panics_to_bind_l. }
  destruct (panics_then ph _ _ _ _ _ _ _ _ _ Hpan Hst) as (k' & Hk' & Hst').
  destruct c as [o|o]; exists k', o, m'; (split; [lia|exact Hst']).
Qed.

Lemma runner_reports (tests : list (M unit * option panic)) m :
  Forall (λ tv, verdict tv.1 tv.2) tests → console_ready (globals m) →
  if decide (Forall (λ tv, tv.2 = None) tests) then reports_success (tests.*1) m
  else reports_failure (tests.*1) m.
Proof.
  intros Hts Hc. case_decide as Hall.
  - apply runner_success; [|done]. apply Forall_fmap, Forall_forall. intros tv Htv.
    rewrite Forall_forall in Hts, Hall. pose proof (Hts tv Htv) as Hv. by rewrite (Hall tv Htv) in Hv.
  - assert (∃ pre t p post, tests = pre ++ (t, Some p) :: post ∧ Forall (λ tv, tv.2 = None) pre)
      as (pre & t & p & post & -> & Hpre).
    { clear Hts. induction tests as [|[t [p|]] tests IH]; [by destruct Hall|by exists [], t, p, tests|].
      destruct IH as (pre & t' & p & post & -> & Hpre); [intros Hn; apply Hall; by constructor|].
      exists ((t, None) :: pre), t', p, post. split; [done|by constructor]. }
    apply Forall_app in Hts as [Hv1 Hv2]. apply Forall_cons in Hv2 as [Ht _].
    rewrite fmap_app, fmap_cons. eapply runner_failure; [|exact Ht|done].
    apply Forall_fmap, Forall_forall. intros tv Htv. rewrite Forall_forall in Hv1, Hpre.
    pose proof (Hv1 tv Htv) as Hv. by rewrite (Hpre tv Htv) in Hv.
Qed.

(** C36 (functional): the harness reports what happened: when every test returns,
    the runner returns and the one code written to the exit port is Success (0x10); when
    some test panics, the code is Failure (0x11), written once, and the machine then spins
    for ever, so that Success is never reported. *)
Theorem test_runner_reports (tests : list (M unit * option panic)) (m : machine D) :
  Forall (λ tv, verdict tv.1 tv.2) tests → console_ready (globals m) →
  if decide (Forall (λ tv, tv.2 = None) tests) then reports_success (tests.*1) m
  else reports_failure (tests.*1) m.
Proof. apply runner_reports. Qed.

(** ** Tests whose body only computes *)

Definition outcome_panic {A} (o : outcome A) : option panic :=
  match o with Ok _ => None | Panic p => Some p end.

(** A test whose body prints at most. *)
Lemma test_case_passes path name body :
  bytes_ok path → bytes_ok name → verdict body None → verdict (test_case path name body) None.
Proof.
  intros Hp Hn Hb m Hc. eapply prints_bind; [apply (print_any ph m _ Hc); repeat constructor; try done; simpl; lia|].
  intros m1 Hc1. eapply prints_bind; [by apply Hb|].
  intros m2 Hc2. apply (print_any ph m2 _ Hc2). repeat constructor; simpl; lia.
Qed.

Lemma test_case_verdict path name (body : outcome unit) :
  bytes_ok path → bytes_ok name → verdict (test_case path name (lift body)) (outcome_panic body).
Proof.
  intros Hp Hn. destruct body as [[]|p]; cbn [outcome_panic].
  { apply test_case_passes; [done..|]. intros m Hc. by apply (prints_ret ph tt). }
  intros m Hc. destruct (print_any ph m [Arg [path]; Lit (bytes "::"); Arg [name]; Lit (bytes "... ")] Hc)
    as (l & m1 & Hr & Ho & Hc1 & _); [repeat constructor; try done; simpl; lia|].
  exists (l ++ []), m1. split.
  - eapply panics_to_bind; [exact Hr|]. apply panics_to_bind_l, panics_to_raise.
  - split; [|done]. by rewrite app_nil_r, exit_codes_console.
Qed.

End runner.

(** * Witness *)

Definition show_ref (p : panic) : list (list Z) := [bytes "panicked"].
Lemma show_ref_ok p : Forall bytes_ok (show_ref p).
Proof. repeat constructor; simpl; lia. Qed.
Definition test_panic_ref : panic → M Empty_set := @test_panic test_build interrupts_ref show_ref.

Lemma console_machine_ready : console_ready (globals (console_machine false empty_screen)).
Proof. split; [done|]. exists empty_screen. apply console_machine_free, empty_screen_ok. Qed.

Lemma test_runner_reports_witness :
  @reports_failure test_build interrupts_ref log_ref _ Serial.uart_devices show_ref (λ _, bytes "2")
    [@basic_test test_build interrupts_ref; raise PanicExplicit] (console_machine false empty_screen).
Proof.
  apply (@test_runner_reports test_build interrupts_ref log_ref _ _ Serial.uart_devices show_ref show_ref_ok
    (λ _, bytes "2") (interrupts_ref_laws test_panic_ref)
    [(@basic_test test_build interrupts_ref, None); (raise PanicExplicit, Some PanicExplicit)]).
  - constructor; [|constructor; [|constructor]]; simpl.
    + refine (@test_case_verdict test_build interrupts_ref _ Serial.uart_devices show_ref
        (interrupts_ref_laws test_panic_ref) _ _ (Ok tt) _ _); repeat constructor; simpl; lia.
    + intros m Hc. exists [], m. split; [apply panics_to_raise|done].
  - apply console_machine_ready.
Defined.
