(* ===== verification/UnitTests.v ===== *)
(** Tests of the repository ([test_case!] in [spinlock.rs], [rwspinlock.rs], the
    region test of [map.rs], the breakpoint test of [idt.rs]) run on the models, each
    from the state the test builds for itself, on an idle CPU.  A test is one caller:
    its calls run to their end one after the other, and a weak compare-exchange that
    can succeed does. *)
From S2P Require Import Prelude X86 Layout Mm Region PerCpu Conc Descriptors.
From S2P Require Import TextMode Screen Machine Macros MacrosProperties Testing Kernel.
From S2P Require SpinLock RwSpinLock Serial.
From ITree Require Import Core.ITreeDefinition.

(** A call run to its end. *)
Fixpoint finish {S PC} (next : PC → S → list (S * PC)) (stop : PC → bool) (fuel : nat) (pc : PC) (s : S) :
    outcome (S * PC) :=
  if stop pc then Ok (s, pc)
  else match fuel with
       | O => Panic Diverges
       | Datatypes.S fuel' =>
           match next pc s with
           | (s', pc') :: _ => finish next stop fuel' pc' s'
           | [] => Panic Diverges
           end
       end.

(** * [spinlock.rs] *)

Module SpinTests.
Import SpinLock.

Definition ended (pc : spin_pc) : bool := bool_decide (pc ∈ [Held; TryNone; Dropped]).
Definition call (pc : spin_pc) (s : spin) : outcome (spin * spin_pc) := finish spin_next ended 8 pc s.
Definition lock (s : spin) := call LockEnter s.
Definition try_lock (s : spin) := call TryEnter s.
Definition is_some (l : spin_pc) : bool := bool_decide (l = Held).
Definition drop (l : spin_pc) (s : spin) : outcome spin :=
  if is_some l then '(s, _) ← call DropStore s; Ok s else Ok s.
(** [PerCpu::current().preempt_count(..)] *)
Definition pc (s : spin) : Z := sp_cpu s.

Definition lock_test : outcome unit :=
  let m := SpinLock_new 0 in
  '(m, l) ← try_lock m;
  _ ← assert_ (is_some l);
  '(m, l2) ← try_lock m;
  _ ← assert_ (negb (is_some l2));
  m ← drop l2 m;
  m ← drop l m;
  '(m, _l) ← lock m;
  '(m, l2) ← try_lock m;
  _ ← assert_ (negb (is_some l2));
  m ← drop l2 m;
  m ← drop _l m;
  Ok tt.

Definition spin_preempt_count : outcome unit :=
  let m := SpinLock_new 0 in
  _ ← assert_ (pc m =? 0);
  '(m, _l) ← lock m;
  _ ← assert_ (pc m =? 1);
  '(m, _l2) ← try_lock m;
  _ ← assert_ (pc m =? 1);
  m ← drop _l2 m;
  m ← drop _l m;
  _ ← assert_ (pc m =? 0);
  '(m, _l) ← try_lock m;
  _ ← assert_ (pc m =? 1);
  m ← drop _l m;
  assert_ (pc m =? 0).

End SpinTests.

(** * [rwspinlock.rs] *)

Module RwTests.
Import RwSpinLock.

Section tests.
Context `{Build}.

Definition ended (pc : rw_pc) : bool :=
  bool_decide (pc ∈ [NoGuard; ReadGuard; UpgrGuard; WriteGuard; Dropped; AssertFailed]).
Definition call (pc : rw_pc) (s : rw) : outcome (rw * rw_pc) :=
  '(s, g) ← finish rw_next ended 8 pc s;
  if bool_decide (g = AssertFailed) then Panic PanicAssert else Ok (s, g).
Definition read (s : rw) := call ReadEnter s.
Definition try_read (s : rw) := call TryReadEnter s.
Definition write (s : rw) := call WriteEnter s.
Definition try_write (s : rw) := call TryWriteEnter s.
Definition upgradeable_read (s : rw) := call UpgrEnter s.
Definition try_upgradeable_read (s : rw) := call TryUpgrEnter s.
(** [try_upgrade]: [Ok] of a write guard, or [Err] of the guard itself. *)
Definition try_upgrade (g : rw_pc) (s : rw) := call TryUpgradeCas s.
Definition downgrade (g : rw_pc) (s : rw) := call WriteDownAdd s.
Definition is_some (g : rw_pc) : bool := negb (bool_decide (g = NoGuard)).
Definition is_ok (g : rw_pc) : bool := bool_decide (g = WriteGuard).
Definition drop (g : rw_pc) (s : rw) : outcome rw :=
  match g with
  | ReadGuard => '(s, _) ← call ReadDropAssert s; Ok s
  | UpgrGuard => '(s, _) ← call (UpgrDropAssert false) s; Ok s
  | WriteGuard => '(s, _) ← call (WriteDropAssert false) s; Ok s
  | _ => Ok s
  end.
Definition pc (s : rw) : Z := rw_cpu s.

(** [RwSpinLock::into_inner]: a lock with its data. *)
Definition into_inner {T} (self : rw * T) : T := self.2.

Definition smoke : outcome unit :=
  let l := RwSpinLock_new 0 in
  '(l, g) ← read l; l ← drop g l;
  '(l, g) ← write l; l ← drop g l;
  '(l, g1) ← read l; '(l, g2) ← read l; l ← drop g1 l; l ← drop g2 l;
  '(l, g) ← write l; l ← drop g l;
  Ok tt.

Definition rwlock_unsized : outcome unit :=
  let '(rw, data) := (RwSpinLock_new 0, [1; 2; 3]) in
  '(rw, b) ← write rw;
  data ← index_set data 0 4;
  data ← index_set data 2 5;
  rw ← drop b rw;
  '(rw, r) ← read rw;
  _ ← assert_ (bool_decide (data = [4; 2; 5]));
  rw ← drop r rw;
  Ok tt.

Definition rwlock_try_write : outcome unit :=
  let lock := RwSpinLock_new 0 in
  '(lock, read_guard) ← read lock;
  '(lock, write_result) ← try_write lock;
  _ ← (if is_some write_result then Panic PanicExplicit else Ok tt);
  lock ← drop read_guard lock;
  Ok tt.

Definition rw_try_read : outcome unit :=
  let m := RwSpinLock_new 0 in
  '(m, _w) ← write m;
  '(m, r) ← try_read m;
  _ ← assert_ (negb (is_some r));
  m ← drop _w m;
  Ok tt.

Definition into_inner_test : outcome unit :=
  let m := (RwSpinLock_new 0, 10) in
  assert_ (into_inner m =? 10).

Definition upgrade_downgrade : outcome unit :=
  let m := RwSpinLock_new 0 in
  '(m, _r) ← read m;
  '(m, upg) ← try_upgradeable_read m;
  _ ← unwrap (if is_some upg then Some upg else None);
  '(m, r) ← try_read m;
  _ ← assert_ (negb (is_some r));
  '(m, w) ← try_write m;
  _ ← assert_ (negb (is_some w));
  '(m, upg) ← try_upgrade upg m;
  _ ← assert_ (negb (is_ok upg));
  m ← drop upg m;
  m ← drop _r m;
  '(m, w) ← write m;
  '(m, u) ← try_upgradeable_read m;
  _ ← assert_ (negb (is_some u));
  '(m, _r) ← downgrade w m;
  '(m, u) ← try_upgradeable_read m;
  _ ← assert_ (is_some u);
  m ← drop u m;
  '(m, r) ← try_read m;
  _ ← assert_ (is_some r);
  m ← drop r m;
  '(m, w) ← try_write m;
  _ ← assert_ (negb (is_some w));
  m ← drop _r m;
  '(m, _u) ← upgradeable_read m;
  '(m, u) ← try_upgradeable_read m;
  _ ← assert_ (negb (is_some u));
  m ← drop _u m;
  '(m, u) ← try_upgradeable_read m;
  u ← unwrap (if is_some u then Some u else None);
  '(m, u) ← try_upgrade u m;
  _ ← assert_ (is_ok u);
  m ← drop u m;
  Ok tt.

Definition rw_preempt_count : outcome unit :=
  let m := RwSpinLock_new 0 in
  _ ← assert_ (pc m =? 0);
  '(m, _r) ← read m;
  _ ← assert_ (pc m =? 1);
  m ← drop _r m;
  _ ← assert_ (pc m =? 0);
  '(m, _w) ← write m;
  _ ← assert_ (pc m =? 1);
  m ← drop _w m;
  _ ← assert_ (pc m =? 0);
  '(m, _u) ← upgradeable_read m;
  _ ← assert_ (pc m =? 1);
  m ← drop _u m;
  assert_ (pc m =? 0).

End tests.
End RwTests.

(** * [map.rs] *)

Module MapTests.
Section tests.
Context `{Build, X86_64}.

(** [assert_eq!(rg_bump.alloc(..), expected)] *)
Definition assert_alloc (b : RegionBumpAllocator) (size align : Z) (expected : option Z) :
    outcome RegionBumpAllocator :=
  l ← unwrap (from_size_align size align);
  '(p, b) ← bump_alloc b l;
  _ ← assert_ (bool_decide (p = expected));
  Ok b.

Definition region : outcome unit :=
  a ← PhysAddr_new 0x1000;
  let rg_bump := from_region (mkRegion a 4096) in
  rg_bump ← assert_alloc rg_bump 4 4 (Some (PHYS_OFFSET + 0x1000));
  rg_bump ← assert_alloc rg_bump 1 1 (Some (PHYS_OFFSET + 0x1004));
  rg_bump ← assert_alloc rg_bump 4 4 (Some (PHYS_OFFSET + 0x1008));
  rg_bump ← assert_alloc rg_bump 4096 4 None;
  a ← PhysAddr_new 0x1000;
  parts ← split_at (mkRegion a 4096) 100;
  b ← PhysAddr_new (0x1000 + 100);
  assert_ (bool_decide (parts = (mkRegion a 100, mkRegion b (4096 - 100)))).

End tests.
End MapTests.

(** * [idt.rs] *)

(** [int3()] enters the handler of the breakpoint gate. *)
Definition int3_handler `{Build, Interrupts, LogCrate} (frame : list (list Z)) : M unit :=
  match IDT !! vector breakpoint with
  | Some gate => run_handler (gate_handler gate) frame
  | None => raise BadPointer
  end.

(** * Verdicts *)

#[local] Existing Instance test_build.

(** The two tests of the spin lock fail, both on an assertion about [try_lock]. *)
Lemma spin_tests_fail :
  SpinTests.lock_test = Panic PanicAssert ∧ SpinTests.spin_preempt_count = Panic PanicAssert.
Proof. split; by vm_compute. Qed.

(** Those of the reader-writer lock pass, with the debug assertions of the drops. *)
Lemma rw_tests_pass :
  Forall (λ t, t = Ok tt)
    [RwTests.smoke; RwTests.rwlock_unsized; RwTests.rwlock_try_write; RwTests.rw_try_read;
     RwTests.into_inner_test; RwTests.upgrade_downgrade; RwTests.rw_preempt_count].
Proof. repeat constructor; by vm_compute. Qed.

Lemma region_test_passes : @MapTests.region _ x86_64_ref = Ok tt.
Proof. by vm_compute. Qed.

Section int3.
Context `{Interrupts, LogCrate, !LogCrate_Laws} {D : Type} `{Devices D}
  (show : panic → list (list Z)) `{!InterruptsLaws D (test_panic show)}.

Lemma bytes_bytes s : bytes_ok (bytes s).
Proof.
  unfold bytes. apply Forall_fmap, Forall_forall. intros a _. simpl.
  pose proof (Ascii.N_ascii_bounded a). lia.
Qed.

(** The breakpoint test passes on every machine with a free console. *)
Lemma int3_test_passes (frame : list (list Z)) :
  verdict (D := D) show
    (test_case (bytes "solstice::cpu::idt") (bytes "int3_handler") (int3_handler frame)) None.
Proof.
  apply (test_case_passes show); [apply bytes_bytes..|]. intros m Hc.
  change (int3_handler frame) with
    (log_macro LTrace [Lit (bytes "EXCEPTION: Breakpoint" ++ [10]); Arg frame]).
  apply (log_any _ m _ _ Hc). by apply log_text_bytes.
Qed.

End int3.
